(* ===== verification/_CoqProject ===== *)
-Q . S2P
Prelude.v
GoRuntime.v
GoReflect.v
GoReflectSpec.v
Frame.v
Buffer.v
Window.v
ChanList.v
MuxState.v
Channel.v
ChannelSpec.v
Session.v
SessionSpec.v
System.v
SystemInv.v
SystemSafe.v
Protocol.v
Refine.v
Link.v
SessionLoop.v
Handshake.v
MuxHazards.v
RespondMux.v
RespondMuxSpec.v
FrameCodec.v
ChannelView.v
ChannelStream.v
Rpc.v
Fn.v
FnSpec.v
RpcSpec.v
RpcProgram.v
ChannelRpc.v
ChannelCall.v
ChannelWait.v
ChannelPair.v
CallsInFlight.v
CallsInvariant.v
CallsSteps.v
CallsTogether.v
RpcCancel.v
FnProperties.v
Interop.v
InteropSpec.v
InteropProperties.v
Tool.v
Listeners.v
ListenersSpec.v
Quic.v
WebRTC.v
Exp.v
ExpSpec.v
PtrCallers.v
ExpProperties.v
Proxy.v
GoFlag.v
Cli.v
CliHelp.v
CliSpec.v
CliProperties.v
CliFramework.v
CliFrameworkSpec.v
CborMux.v
CborSpec.v
CborProperties.v
