(* ===== verification/Prelude.v ===== *)
(** * qtalk-go: a verification development

    qtalk-go is a stack for remote procedure calls over any byte stream: a
    multiplexer that runs many flow-controlled channels over one connection
    (mux), calls with pluggable codecs over one channel each (rpc), handlers made
    of Go functions by reflection (fn), function pointers sent inside values
    (exp), a second multiplexer over cbor frames (x/cbor/mux) and a command line
    framework (cmd/qtalk/cli). A session (mux/session.go) owns the connection;
    its loop decodes frames (mux/frame) and gives them to the channels of its
    table; users open, accept, read and write channels from other goroutines. An
    RPC client opens a channel per call and writes a header and the arguments;
    the server's multiplexer (rpc/handler.go) finds the handler by selector,
    which answers with a header and values on the same channel. Sessions come
    from listeners and dialers (mux/listen_*.go, mux/dial_*.go, talk) or wrap the
    streams of QUIC and WebRTC (x/quic, x/webrtc); the tool (cmd/qtalk) checks
    other implementations against an echo service (interop).

    ** The files

    Groundwork.
    - Prelude.v: 32-bit integers, bytes, lists, the tactics and hints shared.
    - GoRuntime.v: outcomes of Go code (a result, waiting, a panic, out of fuel),
      the state monad over them, errors, channels, readers and writers,
      encoding/binary.
    - GoReflect.v, GoReflectSpec.v: types, values and operations of package
      reflect, with their typing. GoFlag.v: package flag.

    The multiplexer (mux).
    - Frame.v: mux/frame; the seven messages, encoder and decoder.
    - Buffer.v, Window.v, ChanList.v: util_buffer.go (a linked list with its
      heap), util_window.go, util_chanlist.go.
    - MuxState.v: the structs [channel] and [session] and the access to channels
      through pointers. Channel.v, Session.v: the methods of channel.go and
      session.go, one definition per method; [session_loop] is the loop run on
      its own. ChannelSpec.v, SessionSpec.v: every method as an equation.
    - System.v: a session under all interleavings. [exec] runs one goroutine up
      to its next lock or channel operation, and [Open] also stops in [newChannel],
      between [chans.add] and the assignment of [localId]; [reach] is what such steps
      lead to, for a peer that closes no channel in that gap ([early]; one that does
      makes the session panic, MuxHazards.v). The loop cannot be overtaken in its own
      [newChannel]: only it handles packets. SystemInv.v, SystemSafe.v: its invariant
      and that nothing panics.
    - Protocol.v: what two sessions promise each other, abstractly: channels with
      windows, and messages in flight ([pstep], [nstep]). Refine.v: a session's
      steps are steps of it. Link.v: two sessions over one transport.
    - SessionLoop.v: the loop of a session that only accepts ends on every input, and
      what any loop leaves.
      Handshake.v: opening a channel, end to end. MuxHazards.v: where channel.go
      and session.go do not do what they say. Proxy.v: mux/proxy.go and
      rpc/proxy.go.

    Calls (rpc, codec).
    - RespondMux.v, RespondMuxSpec.v: handler.go; muxes in a heap, registered in
      each other, and the routing rule [Match] implements.
    - FrameCodec.v: rpc/frame.go over an abstract codec. Rpc.v: rpc.go, server.go,
      client.go over channel ends, a reader and a writer each; a read beyond what has
      arrived waits until the stream has ended ([io_Pending]). RpcSpec.v: a call
      end to end. RpcCancel.v: a call and its context.
    - The same over the channels of sessions. ChannelView.v: what a channel looks
      like to its user and its peer. ChannelStream.v: frames through [Write], the
      peer's loop and [Read]. RpcProgram.v: the RPC layer as programs over the
      interface [mux.Channel], equal to Rpc.v on channel ends; ChannelRpc.v: their
      runs on a session's channel. ChannelCall.v: a call over two sessions, and
      rpctest's pair. ChannelWait.v: a program on a channel that has received only
      the beginning of what it reads; it answers, or waits.
    - Many calls at once over one pair of sessions. CallsInFlight.v: the goroutines
      of [Client.Call] and [Server.respond] and the two loops, a step at a time
      ([exec_event], [crowd_step]). ChannelPair.v: the two channels of a call and
      what is on the way between them. CallsInvariant.v: the phases of a call, and
      that a call is not touched by the steps of the others. CallsSteps.v: the
      steps, one lemma per kind. CallsTogether.v: the measure and the theorems.
    - Listeners.v, ListenersSpec.v: the listeners and dialers of mux, and talk.
    - Quic.v, WebRTC.v: x/quic and x/webrtc over the operations of their
      libraries.

    Functions and pointers (fn, exp).
    - Fn.v, FnSpec.v, FnProperties.v: fn/call.go and fn/handler.go.
    - Exp.v, ExpSpec.v, ExpProperties.v: exp/ptr.go. PtrCallers.v: how setting callers
      changes the values being walked.

    Services and tool (interop, cmd/qtalk).
    - Interop.v, InteropSpec.v, InteropProperties.v: interop/service.go and
      callbacks.go as handlers that make calls of their own, and what check.go
      prints. The stream of a call ends for its reader only when the other side has
      closed it for writing or for good. [EchoCaller] is the promise of a service to
      its callers; the service's handlers keep it if the caller's own handlers do, and
      a server over the wire keeps it if its handlers do.
    - Cli.v, CliHelp.v, CliSpec.v, CliProperties.v: commands, lookup, help,
      [Execute]. CliFramework.v, CliFrameworkSpec.v: [Framework], [Export], the
      streams in a context, and the tool's command tree. Tool.v: what the
      commands check, bench, interop and call run, what they connect to or start,
      and what they clean up.

    The cbor multiplexer (x/cbor/mux): CborMux.v, CborSpec.v,
    CborProperties.v.

    State is explicit: a method is a function from the state it can reach to an
    outcome and the state left. A Go pointer is an address of a heap in that
    state wherever two parts of the program share what it points to (channels,
    buffer elements, muxes, commands, [Ptr]s). A mutex is the atomicity of the
    block it guards; a condition variable or a channel operation that cannot go
    on is the outcome [Block], and the goroutine tries again. Definitions keep
    the names of the source: [channel_Write] is [channel.Write] of channel.go.

    ** What the theorems show

    - Safety of one session: no interleaving of loop, users and timers panics,
      tables and heap agree, receive windows and buffers add up (all this for a peer
      without early closes), and the loop of a session that opens no channel returns
      on every input, with every channel closed.
    - Safety of two sessions: over any interleaving in which nobody closes and no
      offer times out, no frame is refused, both loops go on for ever, and the
      credit of every channel is conserved end to end; the pair refines the
      abstract protocol; what a channel's reader got, with what is buffered and
      in flight, is what the peer wrote, in order.
    - Functional behaviour: [Write] and [Read] against the window and a byte
      queue, frames and streams of frames round trip, truncated frames and what
      the decoder accepts, opening, remote calls, streamed answers, proxies;
      encoded values cross two sessions' channels whatever the packet size.
    - The layers together: a session's channel refines the channel ends the RPC
      layer is modelled over, and a remote call over two sessions, from [Open] to
      the close messages of both sides, returns the function's results and leaves
      every other channel as it was.
    - Calls in flight together: under any order of the steps of the callers, the
      server's goroutines and the loops, every call that returns has its own
      result, no loop fails and no channel of anybody else changes; every
      execution ends, and it ends with all calls returned, nothing on the way and
      both tables as they were.
    - Routing: [Match] refines the longest-prefix rule and ends without cycles.
    - Reflection: what is passed to a function has its parameter types before
      reflect checks them; results, errors and panics are told apart; a remote call of
      a Go function returns its results; walking a value finds exactly its pointers,
      and setting callers reaches all of them, also those encoded as maps.
    - Calls that are cancelled: when they return and when they wait for a silent
      server, the error, and when the channel stays open.
    - Whole programs: [qtalk check] against the interop service over two hops of
      calls; a stream over WebRTC; the opening of a QUIC stream.
    - The command line: lookup by the longest path, execution, help, exported
      functions.
    - The defects the models exposed, each on the definitions of the code.

    ** Bounds and fuel

    A loop or recursion that is not structural takes fuel and answers [NoFuel]
    when it runs out; theorems give an amount that is enough (the length of the
    data for [channel_Write_loop] and [buffer_Read_loop], the input for
    [session_loop], the rank of an acyclic heap of muxes for [Match], the height
    of a finite value for [walk], of the command tree for the command line) or
    show that no amount is (cyclic values, a write of 4 GiB). The step count [n]
    of [reach] and [link_reach] stays below 2^32 - 1: each step adds at most one
    channel, so ids do not wrap.

    ** Not modelled

    Third-party code is a parameter with its documented behaviour as hypotheses:
    the codecs ([Codec], [Cbor]), mapstructure, xid, quic-go ([QuicConn]), pion
    ([DataChannel], [PeerConnection]); what dialing, listening and starting a
    process answer is an argument. TLS keys, timing and logging are left out. In
    CallsInFlight.v a goroutine of a call goes on when all it is going to read has
    arrived (up to the answer, or to the end of it) and then runs to its next such
    point, and the loops take one packet at a time; requests and responses fit the
    windows, nobody cancels. The interleavings of single operations are System.v's
    and Link.v's, and there the RPC layer is any user of the channels. Data races
    are left out. Memory is unbounded. The theorems about arbitrary users of two
    sessions (Link.v, Protocol.v) leave out closing, whose race with data in
    flight really ends a session (MuxHazards.v), and time-outs; those about calls
    include the closing of both sides. x/cbor only constructs the third-party
    codec.
*)
From Stdlib Require Export ZArith Lia.
From Stdlib Require Export Strings.Byte.
From stdpp Require Export prelude list gmap strings pretty.

#[global] Set Default Goal Selector "!".
Open Scope Z_scope.

(** ** Machine integers and bytes *)

(** [uint32] values are integers in [[0, 2^32)]; [u32] is Go's conversion
    [uint32(x)], which keeps the low 32 bits. *)
Definition u32 (z : Z) : Z := z mod 2 ^ 32.

Definition is_u32 (z : Z) : Prop := 0 ≤ z < 2 ^ 32.

Definition byte_of_Z (z : Z) : byte :=
  default x00 (Byte.of_N (Z.to_N (z mod 256))).

Definition byte_to_Z (b : byte) : Z := Z.of_N (Byte.to_N b).

#[global] Instance byte_eq_dec : EqDecision byte := Byte.byte_eq_dec.

(** Go's [len] as an integer. *)
Definition len {A} (l : list A) : Z := Z.of_nat (length l).

(** ** Hint database and tactics *)

Create HintDb qtalk.
Create Rewrite HintDb qtalk.

(** Case on the first boolean integer comparison of the goal, keeping both
    the computed branch and the arithmetic fact. *)
Ltac case_cmp :=
  match goal with
  | |- context [Z.ltb ?a ?b] => destruct (Z.ltb_spec a b)
  | |- context [Z.leb ?a ?b] => destruct (Z.leb_spec a b)
  | |- context [Z.eqb ?a ?b] => destruct (Z.eqb_spec a b)
  | |- context [Nat.ltb ?a ?b] => destruct (Nat.ltb_spec a b)
  | |- context [Nat.leb ?a ?b] => destruct (Nat.leb_spec a b)
  | |- context [Nat.eqb ?a ?b] => destruct (Nat.eqb_spec a b)
  end.

(** Decide a comparison whose outcome [lia] can see. *)
Ltac cmp_true :=
  match goal with
  | |- context [Z.ltb ?a ?b] => replace (Z.ltb a b) with true by lia
  | |- context [Z.leb ?a ?b] => replace (Z.leb a b) with true by lia
  | |- context [Z.eqb ?a ?b] => replace (Z.eqb a b) with true by lia
  end.
Ltac cmp_false :=
  match goal with
  | |- context [Z.ltb ?a ?b] => replace (Z.ltb a b) with false by lia
  | |- context [Z.leb ?a ?b] => replace (Z.leb a b) with false by lia
  | |- context [Z.eqb ?a ?b] => replace (Z.eqb a b) with false by lia
  end.

(** [Forall] over an explicit list, from hypotheses about its elements. *)
Ltac list_Forall :=
  repeat (apply Forall_cons_2; [assumption|]); apply Forall_nil_2.

(** ** Lemmas on integers *)

Lemma u32_range z : is_u32 (u32 z).
Proof. unfold is_u32, u32. apply Z.mod_pos_bound. lia. Qed.

Lemma u32_small z : is_u32 z → u32 z = z.
Proof. intros H. unfold u32. apply Z.mod_small, H. Qed.

Lemma byte_to_Z_range b : 0 ≤ byte_to_Z b < 256.
Proof. unfold byte_to_Z. pose proof (Byte.to_N_bounded b). lia. Qed.

Lemma byte_to_of_Z z : byte_to_Z (byte_of_Z z) = z mod 256.
Proof.
  unfold byte_to_Z, byte_of_Z.
  pose proof (Z.mod_pos_bound z 256 ltac:(lia)) as Hb.
  destruct (Byte.of_N (Z.to_N (z mod 256))) as [b|] eqn:E; simpl.
  - apply Byte.to_of_N in E. rewrite E. lia.
  - apply Byte.of_N_None_iff in E. lia.
Qed.

Lemma byte_of_to_Z b : byte_of_Z (byte_to_Z b) = b.
Proof.
  unfold byte_of_Z, byte_to_Z. pose proof (Byte.to_N_bounded b).
  rewrite Z.mod_small by lia. rewrite N2Z.id, Byte.of_to_N. done.
Qed.

(** A disjunction of two disjoint bit fields is their sum. *)
Lemma lor_shiftl_add a b n :
  0 ≤ n → 0 ≤ a < 2 ^ n → Z.lor (Z.shiftl b n) a = b * 2 ^ n + a.
Proof.
  intros Hn Ha. rewrite <- Z.add_nocarry_lor.
  - rewrite Z.shiftl_mul_pow2 by done. done.
  - apply Z.bits_inj_0. intros i. rewrite Z.land_spec.
    destruct (Z.ltb_spec i n).
    + rewrite Z.shiftl_spec_low; done.
    + destruct (Z.eq_dec a 0) as [->|]; [by rewrite Z.bits_0, andb_false_r|].
      rewrite (Z.bits_above_log2 a i), andb_false_r; [done|lia|].
      apply Z.log2_lt_pow2; [lia|]. pose proof (Z.pow_le_mono_r 2 n i). lia.
Qed.

(** ** Lemmas on lists *)

Lemma len_nonneg {A} (l : list A) : 0 ≤ len l.
Proof. unfold len. lia. Qed.

Lemma len_app {A} (l k : list A) : len (l ++ k) = len l + len k.
Proof. unfold len. rewrite length_app. lia. Qed.

Lemma len_cons {A} (x : A) l : len (x :: l) = 1 + len l.
Proof. unfold len. simpl length. lia. Qed.

Lemma len_nil {A} : len (@nil A) = 0.
Proof. done. Qed.

Lemma string_app_assoc (s t u : string) : (s +:+ t) +:+ u = s +:+ (t +:+ u).
Proof. induction s as [|c s IH]; [done|exact (f_equal (String c) IH)]. Qed.

Lemma string_app_nil_r (s : string) : s +:+ "" = s.
Proof. induction s as [|c s IH]; [done|exact (f_equal (String c) IH)]. Qed.

Lemma string_length_app (s t : string) :
  String.length (s +:+ t) = (String.length s + String.length t)%nat.
Proof. induction s as [|c s IH]; [done|exact (f_equal S IH)]. Qed.

Lemma len_zero_nil {A} (l : list A) : len l = 0 → l = [].
Proof. unfold len. destruct l; simpl; [done|lia]. Qed.

Lemma len_take {A} (l : list A) n : len (take n l) = Z.min (Z.of_nat n) (len l).
Proof. unfold len. rewrite length_take. lia. Qed.

Lemma len_drop {A} (l : list A) n : len (drop n l) = Z.max 0 (len l - Z.of_nat n).
Proof. unfold len. rewrite length_drop. lia. Qed.

#[export] Hint Resolve len_nonneg u32_range byte_to_Z_range : qtalk.
#[export] Hint Rewrite @len_app @len_cons @len_nil @len_take @len_drop : qtalk.

(** Rewrite lengths and close an arithmetic goal about them. *)
Ltac len_solve :=
  autorewrite with qtalk in *;
  repeat match goal with
         | |- context [len ?l] =>
             lazymatch goal with
             | _ : 0 ≤ len l |- _ => fail
             | _ => pose proof (len_nonneg l)
             end
         end; lia.
