(* ===== verification/GoRuntime.v ===== *)
(** * The parts of Go and of its standard library the program uses

    Errors and their text, the outcome of a statement that can block, panic or
    run for ever, a state monad over that outcome, buffered Go channels,
    [io.Reader]/[io.Writer] values and [io.ReadFull], and the big-endian
    [encoding/binary] helpers. *)
From S2P Require Import Prelude.

(** ** Errors *)

(** Go error values. Sentinels such as [io.EOF] are compared by identity, so
    each is a constructor; [errorString] is what [errors.New] and
    [fmt.Errorf] build; [OpError] is an error that wraps another one. *)
Inductive error :=
| io_EOF
| io_ErrUnexpectedEOF
| io_ErrClosedPipe
| net_ErrClosed
| ctx_Canceled
| ctx_DeadlineExceeded
| flag_ErrHelp
| os_SyscallError (call : string) (errno : Z)
| OpError (op : string) (inner : error)
| errorString (text : string).

#[global] Instance error_eq_dec : EqDecision error.
Proof. solve_decision. Defined.

(** [syscall.ECONNRESET] on Linux. *)
Definition ECONNRESET : Z := 104.

(** [errors.As(err, &syscallErr)]: the first [*os.SyscallError] of the chain. *)
Fixpoint errors_As_SyscallError (e : error) : option (string * Z) :=
  match e with
  | os_SyscallError call errno => Some (call, errno)
  | OpError _ inner => errors_As_SyscallError inner
  | _ => None
  end.

(** The text of an error: Go's [Error() string]. *)
Fixpoint Error_text (e : error) : string :=
  match e with
  | io_EOF => "EOF"
  | io_ErrUnexpectedEOF => "unexpected EOF"
  | io_ErrClosedPipe => "io: read/write on closed pipe"
  | net_ErrClosed => "use of closed network connection"
  | ctx_Canceled => "context canceled"
  | ctx_DeadlineExceeded => "context deadline exceeded"
  | flag_ErrHelp => "flag: help requested"
  | os_SyscallError call errno => call +:+ ": errno " +:+ pretty errno
  | OpError op inner => op +:+ ": " +:+ Error_text inner
  | errorString text => text
  end.

(** A pair [(A, error)] of which exactly one component is meaningful. *)
Inductive result (A : Type) :=
| Ok (a : A)
| Err (e : error).
Arguments Ok {_} _.
Arguments Err {_} _.

#[global] Instance result_eq_dec {A} `{EqDecision A} : EqDecision (result A).
Proof. solve_decision. Defined.

(** ** Outcomes and the state monad *)

(** What running a piece of Go code can lead to: it returns a value, it waits
    for another goroutine, it panics, or the steps the model was given do not
    suffice. *)
Inductive outcome (A : Type) :=
| Ret (a : A)
| Block
| Panic (msg : string)
| NoFuel.
Arguments Ret {_} _.
Arguments Block {_}.
Arguments Panic {_} _.
Arguments NoFuel {_}.

(** A computation on shared state [S]. The effects made before a computation
    blocks or panics are kept. *)
Definition M (S A : Type) : Type := S → outcome A * S.

#[global] Instance M_ret {S} : MRet (M S) := λ A a s, (Ret a, s).

#[global] Instance M_bind {S} : MBind (M S) := λ A B k m s,
  match m s with
  | (Ret a, s') => k a s'
  | (Block, s') => (Block, s')
  | (Panic msg, s') => (Panic msg, s')
  | (NoFuel, s') => (NoFuel, s')
  end.

Section monad.
Context {S : Type}.

Definition st {A} (f : S → outcome A * S) : M S A := f.
Definition get_st : M S S := λ s, (Ret s, s).
Definition put_st (s' : S) : M S unit := λ _, (Ret tt, s').
Definition modify_st (f : S → S) : M S unit := λ s, (Ret tt, f s).
Definition block_st {A} : M S A := λ s, (Block, s).
Definition panic_st {A} (msg : string) : M S A := λ s, (Panic msg, s).
Definition nofuel_st {A} : M S A := λ s, (NoFuel, s).
End monad.

Lemma bind_ret {S A B} (m : M S A) (k : A → M S B) s a s' :
  m s = (Ret a, s') → (m ≫= k) s = k a s'.
Proof. intros Hm. unfold mbind, M_bind. by rewrite Hm. Qed.

Lemma bind_block {S A B} (m : M S A) (k : A → M S B) s s' :
  m s = (Block, s') → (m ≫= k) s = (Block, s').
Proof. intros Hm. unfold mbind, M_bind. by rewrite Hm. Qed.

(** A computation on one component of a pair of states. *)
Definition on_fst {S S' A} (m : M S A) : M (S * S') A := λ s,
  let '(o, s1) := m s.1 in (o, (s1, s.2)).

Definition on_snd {S S' A} (m : M S' A) : M (S * S') A := λ s,
  let '(o, s2) := m s.2 in (o, (s.1, s2)).

Lemma on_fst_eq {S S' A} (m : M S A) s (c : S') a s' :
  m s = (Ret a, s') → on_fst m (s, c) = (Ret a, (s', c)).
Proof. intros Hm. unfold on_fst. cbn. by rewrite Hm. Qed.

Lemma on_snd_eq {S S' A} (m : M S' A) (s : S) c a c' :
  m c = (Ret a, c') → on_snd m (s, c) = (Ret a, (s, c')).
Proof. intros Hm. unfold on_snd. cbn. by rewrite Hm. Qed.

(** Run the monadic combinators of the goal. *)
Ltac mred :=
  unfold mbind, M_bind, mret, M_ret, st, get_st, put_st, modify_st, block_st,
    panic_st, nofuel_st; simpl.

(** ** Buffered channels *)

(** A Go [chan A] of capacity [ch_cap] at least one. *)
Record gochan (A : Type) := mkChan {
  ch_buf : list A;
  ch_cap : nat;
  ch_closed : bool;
}.
Arguments mkChan {_} _ _ _.
Arguments ch_buf {_} _.
Arguments ch_cap {_} _.
Arguments ch_closed {_} _.

Definition make_chan {A} (cap : nat) : gochan A := mkChan [] cap false.

(** [c <- v]: panics on a closed channel, waits on a full one. *)
Definition chan_send {A} (v : A) (c : gochan A) : outcome (gochan A) :=
  if ch_closed c then Panic "send on closed channel"
  else if (length (ch_buf c) <? ch_cap c)%nat
       then Ret (mkChan (ch_buf c ++ [v]) (ch_cap c) false)
       else Block.

(** [v, ok := <-c]: [None] is the zero value a closed channel gives. *)
Definition chan_recv {A} (c : gochan A) : outcome (option A * gochan A) :=
  match ch_buf c with
  | v :: rest => Ret (Some v, mkChan rest (ch_cap c) (ch_closed c))
  | [] => if ch_closed c then Ret (None, c) else Block
  end.

(** [close(c)]: panics when it is closed already. *)
Definition chan_close {A} (c : gochan A) : outcome (gochan A) :=
  if ch_closed c then Panic "close of closed channel"
  else Ret (mkChan (ch_buf c) (ch_cap c) true).

(** ** Readers and writers *)

(** A reader is the bytes it will deliver and the error it gives once they
    are consumed. *)
Record reader := mkReader {
  rd_data : list byte;
  rd_err : error;
}.

(** A writer records the byte strings of the calls that succeeded, in order;
    [w_script] is what the environment answers to the calls to come ([None]
    for success; a call past the end of the script succeeds). *)
Record writer := mkWriter {
  w_out : list (list byte);
  w_script : list (option error);
}.

Definition io_Write (p : list byte) (w : writer) : option error * writer :=
  match w_script w with
  | Some e :: rest => (Some e, mkWriter (w_out w) rest)
  | None :: rest => (None, mkWriter (w_out w ++ [p]) rest)
  | [] => (None, mkWriter (w_out w ++ [p]) [])
  end.

(** [io.ReadFull(r, buf)] with [len(buf) = n]: all [n] bytes, or the reader's
    error, [io.EOF] turning into [io.ErrUnexpectedEOF] when some byte had been
    read. *)
Definition io_ReadFull (n : Z) (r : reader) : result (list byte) * reader :=
  if n <=? len (rd_data r) then
    (Ok (take (Z.to_nat n) (rd_data r)),
     mkReader (drop (Z.to_nat n) (rd_data r)) (rd_err r))
  else
    let r' := mkReader [] (rd_err r) in
    match rd_data r, rd_err r with
    | _ :: _, io_EOF => (Err io_ErrUnexpectedEOF, r')
    | _, e => (Err e, r')
    end.

(** ** encoding/binary, big endian *)

(** [binary.BigEndian.PutUint32(b, v)]. *)
Definition PutUint32 (v : Z) : list byte :=
  [byte_of_Z (Z.shiftr v 24); byte_of_Z (Z.shiftr v 16);
   byte_of_Z (Z.shiftr v 8); byte_of_Z v].

(** [binary.BigEndian.Uint32(b)]; indexing past the end is out of range, and
    every caller passes four bytes. *)
Definition Uint32 (b : list byte) : Z :=
  match b with
  | b0 :: b1 :: b2 :: b3 :: _ =>
      Z.lor (Z.shiftl (byte_to_Z b0) 24)
        (Z.lor (Z.shiftl (byte_to_Z b1) 16)
           (Z.lor (Z.shiftl (byte_to_Z b2) 8) (byte_to_Z b3)))
  | _ => 0
  end.

(** [binary.Write(w, binary.BigEndian, s)] for a struct [s] of [uint32]
    fields: the fields in order. *)
Definition binary_Write (fields : list Z) : list byte :=
  mjoin (PutUint32 <$> fields).

(** [n] four-byte groups of a byte string, as [uint32] values. *)
Fixpoint Uint32s (n : nat) (b : list byte) : list Z :=
  match n with
  | O => []
  | S n => Uint32 b :: Uint32s n (drop 4 b)
  end.

(** [binary.Read(r, binary.BigEndian, &s)] for a struct of [n] [uint32]
    fields: one [io.ReadFull] of the struct's size. *)
Definition binary_Read (n : nat) (r : reader) : result (list Z) * reader :=
  match io_ReadFull (4 * Z.of_nat n) r with
  | (Ok b, r') => (Ok (Uint32s n b), r')
  | (Err e, r') => (Err e, r')
  end.

(** ** Facts *)

Lemma length_PutUint32 v : length (PutUint32 v) = 4%nat.
Proof. done. Qed.

(** The bit operations of [Uint32] as base-256 digits. *)
Lemma Uint32_digits b0 b1 b2 b3 rest :
  Uint32 (b0 :: b1 :: b2 :: b3 :: rest)
  = byte_to_Z b0 * 16777216 + byte_to_Z b1 * 65536 + byte_to_Z b2 * 256
    + byte_to_Z b3.
Proof.
  cbn [Uint32]. pose proof (byte_to_Z_range b0). pose proof (byte_to_Z_range b1).
  pose proof (byte_to_Z_range b2). pose proof (byte_to_Z_range b3).
  rewrite (lor_shiftl_add _ _ 8), (lor_shiftl_add _ _ 16), (lor_shiftl_add _ _ 24) by lia.
  lia.
Qed.

(** Four base-256 digits rebuild a 32-bit number. *)
Lemma Uint32_PutUint32 v rest : is_u32 v → Uint32 (PutUint32 v ++ rest) = v.
Proof.
  intros [Hl Hh]. unfold PutUint32. cbn [app]. rewrite Uint32_digits.
  rewrite !byte_to_of_Z, !Z.shiftr_div_pow2 by lia.
  change (2 ^ 24) with 16777216. change (2 ^ 16) with 65536. change (2 ^ 8) with 256.
  Z.div_mod_to_equations. lia.
Qed.

Lemma binary_Write_cons v fields :
  binary_Write (v :: fields) = PutUint32 v ++ binary_Write fields.
Proof. done. Qed.

Lemma Uint32s_binary_Write fields rest :
  Forall is_u32 fields →
  Uint32s (length fields) (binary_Write fields ++ rest) = fields.
Proof.
  induction 1 as [|v fields Hv Hall IH]; [done|].
  cbn [length Uint32s]. rewrite binary_Write_cons, <- app_assoc, Uint32_PutUint32 by done.
  f_equal. exact IH.
Qed.

Lemma length_binary_Write fields :
  length (binary_Write fields) = (4 * length fields)%nat.
Proof.
  induction fields as [|v fields IH]; [done|].
  rewrite binary_Write_cons, length_app, IH, length_PutUint32. cbn [length]. lia.
Qed.

Lemma io_ReadFull_app p rest e n :
  n = len p → io_ReadFull n (mkReader (p ++ rest) e) = (Ok p, mkReader rest e).
Proof.
  intros ->. unfold io_ReadFull. cbn [rd_data rd_err].
  pose proof (len_nonneg rest). rewrite len_app. cmp_true. unfold len.
  rewrite Nat2Z.id, take_app_length, drop_app_length. done.
Qed.

(** What [io.ReadFull] gives when the stream is too short. *)
Lemma io_ReadFull_short n r :
  len (rd_data r) < n →
  io_ReadFull n r =
    (Err (match rd_data r with
          | [] => rd_err r
          | _ => if decide (rd_err r = io_EOF) then io_ErrUnexpectedEOF
                 else rd_err r
          end), mkReader [] (rd_err r)).
Proof.
  intros H. unfold io_ReadFull. cmp_false.
  by destruct (rd_data r) as [|b bs], (rd_err r).
Qed.

(** Every successful read takes exactly the bytes asked for off the front. *)
Lemma io_ReadFull_ok n r b r' :
  io_ReadFull n r = (Ok b, r') →
  rd_data r = b ++ rd_data r' ∧ rd_err r' = rd_err r ∧ len b = Z.max 0 n.
Proof.
  unfold io_ReadFull. case_cmp.
  - intros [= <- <-]. cbn. rewrite take_drop. split_and!; [done..|len_solve].
  - destruct (rd_data r); [done|]. by destruct (rd_err r).
Qed.

Lemma io_ReadFull_err n r e r' :
  io_ReadFull n r = (Err e, r') →
  len (rd_data r) < n ∧ r' = mkReader [] (rd_err r).
Proof.
  unfold io_ReadFull. case_cmp; [done|].
  destruct (rd_data r); [|destruct (rd_err r)]; intros [= <- <-]; done.
Qed.

Lemma binary_Read_Write fields rest e n :
  Forall is_u32 fields → n = length fields →
  binary_Read n (mkReader (binary_Write fields ++ rest) e)
  = (Ok fields, mkReader rest e).
Proof.
  intros Hall ->. unfold binary_Read.
  rewrite io_ReadFull_app by (unfold len; rewrite length_binary_Write; lia).
  rewrite <- (app_nil_r (binary_Write fields)).
  by rewrite Uint32s_binary_Write.
Qed.
