(* ===== verification/GoReflect.v ===== *)
(** * What the program uses of Go's types, values and package reflect

    Types as [reflect.Type] sees them, values with their typing, and the
    operations of [reflect] that fn and exp are written with. Of the basic
    types the universe has [bool], [int], [int64], [uint8], [float64] and
    [string]; it leaves out channels, complex numbers and the conversion of a
    slice to an array pointer. Named types and their methods are declared by the
    program under [reflect], so they are the parameters [GoTypes]. *)
From Stdlib Require Import Floats.SpecFloat.
From Stdlib Require Import Ascii String.
From S2P Require Import Prelude GoRuntime.

Local Open Scope string_scope.
Local Open Scope Z_scope.

(** ** Types *)

Inductive basic := BBool | BInt | BInt64 | BUint8 | BFloat64 | BString.

#[global] Instance basic_eq_dec : EqDecision basic.
Proof. solve_decision. Defined.

(** A field of a struct is its name, its [json] tag and its type; a method of
    an interface is its name and its signature. *)
Inductive rtype :=
| TBasic (k : basic)
| TNamed (name : string)
| TSlice (elem : rtype)
| TArray (n : nat) (elem : rtype)
| TPtr (elem : rtype)
| TMap (key elem : rtype)
| TStruct (fields : list (string * string * rtype))
| TFunc (ins outs : list rtype) (variadic : bool)
| TInterface (methods : list (string * rtype)).

#[global] Instance rtype_eq_dec : EqDecision rtype.
Proof.
  refine (
    fix go t1 t2 := let _ : EqDecision _ := @go in
    match t1, t2 with
    | TBasic k1, TBasic k2 => cast_if (decide (k1 = k2))
    | TNamed n1, TNamed n2 => cast_if (decide (n1 = n2))
    | TSlice e1, TSlice e2 => cast_if (decide (e1 = e2))
    | TArray n1 e1, TArray n2 e2 => cast_if_and (decide (n1 = n2)) (decide (e1 = e2))
    | TPtr e1, TPtr e2 => cast_if (decide (e1 = e2))
    | TMap k1 e1, TMap k2 e2 => cast_if_and (decide (k1 = k2)) (decide (e1 = e2))
    | TStruct f1, TStruct f2 => cast_if (decide (f1 = f2))
    | TFunc i1 o1 v1, TFunc i2 o2 v2 =>
        cast_if_and3 (decide (i1 = i2)) (decide (o1 = o2)) (decide (v1 = v2))
    | TInterface m1, TInterface m2 => cast_if (decide (m1 = m2))
    | _, _ => right _
    end); abstract congruence.
Defined.

(** [reflect.Kind]. *)
Inductive kind :=
| KBool | KInt | KInt64 | KUint8 | KFloat64 | KString
| KSlice | KArray | KPtr | KMap | KStruct | KFunc | KInterface.

#[global] Instance kind_eq_dec : EqDecision kind.
Proof. solve_decision. Defined.

Definition kind_String (k : kind) : string :=
  match k with
  | KBool => "bool" | KInt => "int" | KInt64 => "int64" | KUint8 => "uint8"
  | KFloat64 => "float64" | KString => "string" | KSlice => "slice" | KArray => "array"
  | KPtr => "ptr" | KMap => "map" | KStruct => "struct" | KFunc => "func"
  | KInterface => "interface"
  end.

Definition TAny : rtype := TInterface [].
Definition TError : rtype := TNamed "error".
Definition TInt : rtype := TBasic BInt.
Definition TFloat64 : rtype := TBasic BFloat64.
Definition TString : rtype := TBasic BString.

(** ** Values *)

(** Pointers and maps are addresses; an interface holds a type that is not an
    interface and a value of it. Integers of every width are [VInt]. *)
Inductive value :=
| VBool (b : bool)
| VInt (z : Z)
| VFloat (f : spec_float)
| VString (s : string)
| VSlice (l : option (list value))
| VArray (l : list value)
| VStruct (fields : list value)
| VPtr (p : option nat)
| VMap (p : option nat)
| VFunc (f : option nat)
| VIface (x : option (rtype * value)).

(** An [any]: nil, or a dynamic type and a value. *)
Definition iface : Type := option (rtype * value).

(** A [reflect.Value]: the zero [Value], or a type and a value of it. *)
Definition Value : Type := option (rtype * value).

(** What the program declares: the types behind names, their zero values, the
    method set of a type that is not an interface, and the [Error] method. *)
Class GoTypes := {
  declared : string → rtype;
  declared_zero : string → value;
  method_set : rtype → list (string * rtype);
  as_error : rtype * value → error;
}.

(** What the processor gives for a conversion of a float that does not fit the
    integer type: the language leaves it open. *)
Class FloatConv := float_overflow : spec_float → Z.

(** ** Numbers *)

(** Two's complement on 64 bits. *)
Definition wrap64 (z : Z) : Z := (z + 2 ^ 63) mod 2 ^ 64 - 2 ^ 63.

Definition is_i64 (z : Z) : Prop := - 2 ^ 63 ≤ z < 2 ^ 63.

(** The integer part of a finite float. *)
Definition float_trunc (f : spec_float) : option Z :=
  match f with
  | S754_zero _ => Some 0
  | S754_finite s m e =>
      let z := if 0 <=? e then Z.pos m * 2 ^ e else Z.pos m / 2 ^ (- e) in
      Some (if s then - z else z)
  | _ => None
  end.

(** [int64(f)]. *)
Definition float_to_int64 `{FloatConv} (f : spec_float) : Z :=
  match float_trunc f with
  | Some z => if (- 2 ^ 63 <=? z) && (z <? 2 ^ 63) then z else wrap64 (float_overflow f)
  | None => wrap64 (float_overflow f)
  end.

(** [float64(z)], rounding to nearest even. *)
Definition int_to_float (z : Z) : spec_float := binary_normalize 53 1024 z 0 false.

(** [string(rune(z))]: UTF-8, and U+FFFD for what is not a code point. *)
Definition char_of_Z (z : Z) : Ascii.ascii := Ascii.ascii_of_N (Z.to_N z).

Definition string_of_Zs (l : list Z) : string := string_of_list_ascii (char_of_Z <$> l).

Definition rune_error : string := string_of_Zs [239; 191; 189].

Definition string_of_rune (z : Z) : string :=
  if (z <? 0) || (1114111 <? z) || ((55296 <=? z) && (z <=? 57343)) then rune_error
  else if z <? 128 then string_of_Zs [z]
  else if z <? 2048 then string_of_Zs [192 + z / 64; 128 + z mod 64]
  else if z <? 65536 then string_of_Zs [224 + z / 4096; 128 + z / 64 mod 64; 128 + z mod 64]
  else string_of_Zs [240 + z / 262144; 128 + z / 4096 mod 64; 128 + z / 64 mod 64;
                     128 + z mod 64].

(** The bytes of a string as [uint8] values, and back. *)
Definition string_bytes (s : string) : list value :=
  (λ c, VInt (Z.of_N (Ascii.N_of_ascii c))) <$> list_ascii_of_string s.

Definition value_byte (v : value) : Z := match v with VInt z => z | _ => 0 end.

Definition bytes_string (l : list value) : string := string_of_Zs (value_byte <$> l).

(** ** Package reflect *)

Section reflect.
Context `{GT : GoTypes}.

(** The named types the program itself mentions, with their zero values:
    [error], and those of packages rpc and exp. *)
Definition known (name : string) : option (rtype * value) :=
  if bool_decide (name = "error") then
    Some (TInterface [("Error", TFunc [] [TString] false)], VIface None)
  else if bool_decide (name = "rpc.HandlerFunc") then
    Some (TFunc [TNamed "rpc.Responder"; TPtr (TNamed "rpc.Call")] [] false, VFunc None)
  else if bool_decide (name = "rpc.Caller") then
    Some (TInterface [("Call", TFunc [TNamed "context.Context"; TString; TAny; TSlice TAny]
                                     [TPtr (TNamed "rpc.Response"); TError] true)], VIface None)
  else if bool_decide (name = "exp.Ptr") then
    Some (TStruct [("Ptr", "$fnptr", TString); ("Caller", "-", TNamed "rpc.Caller");
                   ("fn", "", TAny)],
          VStruct [VString ""; VIface None; VIface None])
  else None.

(** The underlying type. *)
Definition underlying (t : rtype) : rtype :=
  match t with
  | TNamed name => match known name with Some (t, _) => t | None => declared name end
  | _ => t
  end.

Definition Kind (t : rtype) : kind :=
  match underlying t with
  | TBasic BBool => KBool
  | TBasic BInt => KInt
  | TBasic BInt64 => KInt64
  | TBasic BUint8 => KUint8
  | TBasic BFloat64 => KFloat64
  | TBasic BString => KString
  | TSlice _ => KSlice
  | TArray _ _ => KArray
  | TPtr _ => KPtr
  | TMap _ _ => KMap
  | TStruct _ => KStruct
  | TFunc _ _ _ => KFunc
  | TInterface _ | TNamed _ => KInterface
  end.

(** [Type.Elem()]; only called on the kinds listed. *)
Definition Elem (t : rtype) : rtype :=
  match underlying t with
  | TSlice e | TArray _ e | TPtr e | TMap _ e => e
  | t => t
  end.

(** [Type.String()]. *)
Fixpoint type_String (t : rtype) : string :=
  let commas := λ l, String.concat ", " l in
  match t with
  | TBasic BBool => "bool"
  | TBasic BInt => "int"
  | TBasic BInt64 => "int64"
  | TBasic BUint8 => "uint8"
  | TBasic BFloat64 => "float64"
  | TBasic BString => "string"
  | TNamed name => name
  | TSlice e => "[]" +:+ type_String e
  | TArray n e => "[" +:+ pretty n +:+ "]" +:+ type_String e
  | TPtr e => "*" +:+ type_String e
  | TMap k e => "map[" +:+ type_String k +:+ "]" +:+ type_String e
  | TStruct fs =>
      "struct {" +:+ String.concat "; " (map (λ f, f.1.1 +:+ " " +:+ type_String f.2) fs) +:+ "}"
  | TFunc ins outs _ =>
      "func(" +:+ commas (map type_String ins) +:+ ") (" +:+ commas (map type_String outs) +:+ ")"
  | TInterface ms =>
      "interface {" +:+ String.concat "; " (map (λ m, m.1 +:+ type_String m.2) ms) +:+ "}"
  end.

Definition is_interface (t : rtype) : bool :=
  match Kind t with KInterface => true | _ => false end.

(** The methods a type has: those of the interface, or its method set. *)
Definition methods_of (t : rtype) : list (string * rtype) :=
  match underlying t with TInterface ms => ms | _ => method_set t end.

(** [V.Implements(T)]. *)
Definition Implements (V T : rtype) : bool :=
  is_interface T && forallb (λ m, bool_decide (m ∈ methods_of V)) (methods_of T).

(** A type with a name: declared or predeclared. *)
Definition hasName (t : rtype) : bool :=
  match t with TNamed _ | TBasic _ => true | _ => false end.

(** [V.AssignableTo(T)]. *)
Definition directlyAssignable (T V : rtype) : bool :=
  bool_decide (T = V)
  || (negb (hasName T && hasName V) && bool_decide (underlying T = underlying V)).

Definition AssignableTo (V T : rtype) : bool := directlyAssignable T V || Implements V T.

(** [reflect.ValueOf], [reflect.TypeOf]: an [any] and a [Value] that is not
    of interface type are the same thing. *)
Definition ValueOf (x : iface) : Value := x.

(** [v.Interface()]. *)
Definition Value_Interface (v : rtype * value) : iface :=
  match v with
  | (t, VIface x) => if is_interface t then x else Some v
  | _ => Some v
  end.

Definition nil_dereference : string :=
  "runtime error: invalid memory address or nil pointer dereference".

(** [v.Type()]. *)
Definition Value_Type (v : Value) : outcome rtype :=
  match v with
  | Some (t, _) => Ret t
  | None => Panic "reflect: call of reflect.Value.Type on zero Value"
  end.

(** A [*reflect.ValueError]. *)
Definition ValueError {A} (method : string) (v : Value) : outcome A :=
  Panic ("reflect: call of reflect.Value." +:+ method +:+ " on "
         +:+ match v with Some (t, _) => kind_String (Kind t) | None => "zero" end +:+ " Value").

(** *** Conversion *)

(** The range of an integer type. *)
Definition wrap_basic (k : basic) (z : Z) : Z :=
  match k with BUint8 => z mod 256 | _ => wrap64 z end.

(** The conversions between values of basic types. *)
Definition convert_basic `{FloatConv} (src dst : basic) (v : value) : option value :=
  match src, dst, v with
  | (BInt | BInt64 | BUint8), (BInt | BInt64 | BUint8), VInt z => Some (VInt (wrap_basic dst z))
  | (BInt | BInt64 | BUint8), BFloat64, VInt z => Some (VFloat (int_to_float z))
  | (BInt | BInt64 | BUint8), BString, VInt z => Some (VString (string_of_rune z))
  | BFloat64, (BInt | BInt64 | BUint8), VFloat f =>
      Some (VInt (wrap_basic dst (float_to_int64 f)))
  | _, _, _ => None
  end.

(** [v.Convert(t)], in the order of [convertOp]. *)
Definition Convert `{FloatConv} (v : Value) (t : rtype) : outcome Value :=
  match v with
  | None => Panic nil_dereference
  | Some (src, x) =>
      let cannot := Panic ("reflect.Value.Convert: value of type " +:+ type_String src
                           +:+ " cannot be converted to type " +:+ type_String t) in
      let direct :=
        if bool_decide (underlying t = underlying src) then Ret (Some (t, x))
        else match src, t with
             | TPtr a, TPtr b =>
                 if bool_decide (underlying a = underlying b) then Ret (Some (t, x)) else cannot
             | _, _ =>
                 if Implements src t then
                   Ret (Some (t, VIface (Value_Interface (src, x))))
                 else cannot
             end in
      match underlying src, underlying t, x with
      | TBasic a, TBasic b, x =>
          match convert_basic a b x with
          | Some y => Ret (Some (t, y))
          | None => direct
          end
      | TBasic BString, TSlice (TBasic BUint8), VString s =>
          Ret (Some (t, VSlice (Some (string_bytes s))))
      | TSlice (TBasic BUint8), TBasic BString, VSlice l =>
          Ret (Some (t, VString (bytes_string (default [] l))))
      | _, _, _ => direct
      end
  end.
End reflect.

(** *** Memory, zero values, slices *)

(** Maps live in the heap, and so do the variables pointers point to. *)
Inductive obj :=
| OVar (t : rtype) (v : value)
| OMap (entries : list (value * value)).

Abbreviation heap := (gmap nat obj).

(** The statements that can only panic, in sequence. *)
#[global] Instance outcome_ret : MRet outcome := λ A a, Ret a.
#[global] Instance outcome_bind : MBind outcome := λ A B k m,
  match m with
  | Ret a => k a
  | Block => Block
  | Panic msg => Panic msg
  | NoFuel => NoFuel
  end.

Section reflect2.
Context `{GT : GoTypes}.

(** [reflect.New(t).Elem()]. *)
Fixpoint zero (t : rtype) : value :=
  match t with
  | TBasic BBool => VBool false
  | TBasic (BInt | BInt64 | BUint8) => VInt 0
  | TBasic BFloat64 => VFloat (S754_zero false)
  | TBasic BString => VString ""
  | TNamed name => match known name with Some (_, v) => v | None => declared_zero name end
  | TSlice _ => VSlice None
  | TArray n e => VArray (replicate n (zero e))
  | TPtr _ => VPtr None
  | TMap _ _ => VMap None
  | TStruct fs => VStruct (map (λ f, zero f.2) fs)
  | TFunc _ _ _ => VFunc None
  | TInterface _ => VIface None
  end.

(** [v.Len()]. *)
Definition Value_Len (h : heap) (v : Value) : outcome nat :=
  match v with
  | Some (_, VSlice l) => Ret (length (default [] l))
  | Some (_, VArray l) => Ret (length l)
  | Some (_, VString s) => Ret (String.length s)
  | Some (_, VMap None) => Ret 0%nat
  | Some (_, VMap (Some a)) =>
      match h !! a with
      | Some (OMap es) => Ret (length es)
      | _ => Panic nil_dereference
      end
  | _ => ValueError "Len" v
  end.

(** [v.Index(i)]. *)
Definition Value_Index (v : Value) (i : nat) : outcome Value :=
  let at_ := λ (what : string) (t : rtype) (o : option value),
    match o with
    | Some x => Ret (Some (t, x))
    | None => Panic ("reflect: " +:+ what +:+ " index out of range")
    end in
  match v with
  | Some (t, VSlice l) => at_ "slice" (Elem t) (default [] l !! i)
  | Some (t, VArray l) => at_ "array" (Elem t) (l !! i)
  | Some (t, VString s) => at_ "string" (TBasic BUint8) (string_bytes s !! i)
  | _ => ValueError "Index" v
  end.

(** The value of [x] once assigned to a variable of type [t]; [context] is
    the panic of the operation that assigns. *)
Definition assignTo (context : string) (x : rtype * value) (t : rtype) : outcome value :=
  if directlyAssignable t x.1 then Ret x.2
  else if Implements x.1 t then Ret (VIface (Value_Interface x))
  else Panic context.

Definition not_assignable (src dst : rtype) : string :=
  "value of type " +:+ type_String src +:+ " is not assignable to type " +:+ type_String dst.

(** [v.Index(i).Set(x)] for a slice or an array [v]. *)
Definition Value_SetIndex (v : Value) (i : nat) (x : Value) : outcome Value :=
  e ← Value_Index v i;
  match v, e, x with
  | Some (t, c), Some (et, _), Some x =>
      y ← assignTo ("reflect.Set: " +:+ not_assignable x.1 et) x et;
      match c with
      | VSlice (Some l) => Ret (Some (t, VSlice (Some (<[i := y]> l))))
      | VArray l => Ret (Some (t, VArray (<[i := y]> l)))
      | _ => ValueError "Set" (Some (et, c))
      end
  | _, _, _ => ValueError "Set" None
  end.

(** [reflect.Append(v, x)] for a slice [v]. *)
Definition Append (v : Value) (x : Value) : outcome Value :=
  match v, x with
  | Some (t, VSlice l), Some x =>
      y ← assignTo ("reflect.Set: " +:+ not_assignable x.1 (Elem t)) x (Elem t);
      Ret (Some (t, VSlice (Some (default [] l ++ [y])%list)))
  | _, _ => ValueError "Append" v
  end.

(** [v.IsNil()]. *)
Definition IsNil (v : Value) : outcome bool :=
  match v with
  | Some (_, VPtr p) | Some (_, VMap p) | Some (_, VFunc p) => Ret (bool_decide (p = None))
  | Some (_, VSlice l) => Ret (match l with None => true | _ => false end)
  | Some (_, VIface x) => Ret (match x with None => true | _ => false end)
  | _ => ValueError "IsNil" v
  end.
End reflect2.

(** *** Calling a function *)

(** What the functions of the program do, given their parameters. *)
Class FuncBodies (S : Type) := func_body : nat → list value → M S (list value).

Definition lift {S A} (o : outcome A) : M S A := λ s, (o, s).

Section call.
Context `{GT : GoTypes} {S : Type} `{FB : FuncBodies S}.

(** [Type.NumIn()] and [Type.In(i)], for a function type. *)
Definition In_types (t : rtype) : outcome (list rtype) :=
  match underlying t with
  | TFunc ins _ _ => Ret ins
  | _ => Panic ("reflect: NumIn of non-func type " +:+ type_String t)
  end.

(** The parameters of a call, each assigned to its type. *)
Fixpoint call_params (ins : list rtype) (args : list Value) : outcome (list value) :=
  match ins, args with
  | t :: ins, Some x :: args =>
      y ← assignTo ("reflect: Call using " +:+ type_String x.1 +:+ " as type " +:+ type_String t) x t;
      ys ← call_params ins args;
      Ret (y :: ys)
  | _, _ => Ret []
  end.

(** The variadic tail, each element assigned to the element type. *)
Fixpoint variadic_params (elem : rtype) (args : list Value) : outcome (list value) :=
  match args with
  | Some x :: args =>
      y ← assignTo ("reflect: cannot use " +:+ type_String x.1 +:+ " as type "
                    +:+ type_String elem +:+ " in Call") x elem;
      ys ← variadic_params elem args;
      Ret (y :: ys)
  | _ => Ret []
  end.

(** The checks of [v.Call(args)] and the parameters it passes. *)
Definition prepare_call (ins : list rtype) (variadic : bool) (args : list Value)
    : outcome (list value) :=
  let n := if variadic then (length ins - 1)%nat else length ins in
  if (length args <? n)%nat then Panic "reflect: Call with too few input arguments"
  else if negb variadic && (n <? length args)%nat then
    Panic "reflect: Call with too many input arguments"
  else if existsb (λ a, match a with None => true | Some _ => false end) args then
    Panic "reflect: Call using zero Value argument"
  else
    ys ← call_params (take n ins) (take n args);
    if variadic then
      match last ins with
      | Some t => zs ← variadic_params (Elem t) (drop n args); Ret (ys ++ [VSlice (Some zs)])%list
      | None => Panic nil_dereference
      end
    else Ret ys.

(** [v.Call(args)]. *)
Definition Value_Call (v : Value) (args : list Value) : M S (list Value) :=
  match v with
  | Some (t, VFunc f) =>
      match underlying t, f with
      | TFunc ins outs variadic, Some f =>
          ps ← lift (prepare_call ins variadic args);
          rs ← func_body f ps;
          mret (zip_with (λ t r, Some (t, r)) outs rs)
      | _, _ => panic_st "reflect.Value.Call: call of nil function"
      end
  | _ => lift (ValueError "Call" v)
  end.
End call.

(** ** Typing *)

Section typing.
Context `{GT : GoTypes}.

(** The values a variable of a type can hold. What is behind a pointer, a map
    or a function is typed where it is stored. *)
Inductive has_type : rtype → value → Prop :=
| ty_bool b : has_type (TBasic BBool) (VBool b)
| ty_int z : is_i64 z → has_type (TBasic BInt) (VInt z)
| ty_int64 z : is_i64 z → has_type (TBasic BInt64) (VInt z)
| ty_uint8 z : 0 ≤ z < 256 → has_type (TBasic BUint8) (VInt z)
| ty_float64 f : has_type (TBasic BFloat64) (VFloat f)
| ty_string s : has_type (TBasic BString) (VString s)
| ty_named name v : has_type (underlying (TNamed name)) v → has_type (TNamed name) v
| ty_slice_nil e : has_type (TSlice e) (VSlice None)
| ty_slice e l : Forall (has_type e) l → has_type (TSlice e) (VSlice (Some l))
| ty_array n e l : length l = n → Forall (has_type e) l → has_type (TArray n e) (VArray l)
| ty_ptr e p : has_type (TPtr e) (VPtr p)
| ty_map k e p : has_type (TMap k e) (VMap p)
| ty_func ins outs b f : has_type (TFunc ins outs b) (VFunc f)
| ty_struct fs l : Forall2 (λ f v, has_type f.2 v) fs l → has_type (TStruct fs) (VStruct l)
| ty_iface_nil ms : has_type (TInterface ms) (VIface None)
| ty_iface ms t v :
    is_interface t = false → Forall (λ m, m ∈ method_set t) ms → has_type t v →
    has_type (TInterface ms) (VIface (Some (t, v))).

(** What the declarations of the program must be: a name stands for a type
    that is not a name, and its zero value is one of its values. *)
Class GoTypesLaws : Prop := {
  declared_unnamed : ∀ name n, declared name ≠ TNamed n;
  declared_zero_typed : ∀ name, has_type (declared name) (declared_zero name);
}.

(** A typed [reflect.Value]; an [any] that is nil or holds a typed value of
    a type that is not an interface. *)
Definition value_ok (v : rtype * value) : Prop := has_type v.1 v.2.

Definition iface_ok (x : iface) : Prop :=
  match x with
  | None => True
  | Some (t, v) => is_interface t = false ∧ has_type t v
  end.
End typing.
Arguments GoTypesLaws : clear implicits.
Arguments GoTypesLaws {_}.
