(* ===== verification/GoReflectSpec.v ===== *)
(** * Typing of what package reflect computes

    Conversions, assignments, indexing and zero values keep values typed. *)
From Stdlib Require Import Floats.SpecFloat Ascii String.
From S2P Require Import Prelude GoRuntime GoReflect.

Local Open Scope Z_scope.

(** Induction on a type whose structs carry the hypothesis for every field. *)
Lemma rtype_nested_ind (P : rtype → Prop) :
  (∀ k, P (TBasic k)) → (∀ n, P (TNamed n)) → (∀ e, P e → P (TSlice e)) →
  (∀ n e, P e → P (TArray n e)) → (∀ e, P (TPtr e)) → (∀ k e, P (TMap k e)) →
  (∀ fs, Forall (λ f, P f.2) fs → P (TStruct fs)) →
  (∀ ins outs b, P (TFunc ins outs b)) → (∀ ms, P (TInterface ms)) →
  ∀ t, P t.
Proof.
  intros Hb Hn Hs Ha Hp Hm Hst Hf Hi. fix go 1. intros [k|n|e|n e|e|k e|fs|ins outs b|ms];
    [apply Hb|apply Hn|apply Hs, go|apply Ha, go|apply Hp|apply Hm| |apply Hf|apply Hi].
  apply Hst. induction fs as [|[f t] fs IH]; constructor; [apply go|apply IH].
Qed.

(** ** Integers as floats

    [float64(z)] is exact up to 2^53, so the integer comes back. *)

Lemma digits2_pos_bounds p : 2 ^ (Z.pos (digits2_pos p) - 1) ≤ Z.pos p < 2 ^ Z.pos (digits2_pos p).
Proof.
  induction p as [p IH|p IH|]; cbn [digits2_pos]; [| |done];
  rewrite Pos2Z.inj_succ, Z.pow_succ_r by lia;
  (replace (Z.succ (Z.pos (digits2_pos p)) - 1) with (Z.succ (Z.pos (digits2_pos p) - 1)) by lia);
  rewrite Z.pow_succ_r by lia; lia.
Qed.

Lemma digits2_pos_shift p d : digits2_pos (Pos.iter xO p d) = (digits2_pos p + d)%positive.
Proof.
  revert p. induction d as [|d IH] using Pos.peano_ind; intros p; [cbn; lia|].
  rewrite Pos.iter_succ. cbn [digits2_pos]. rewrite IH. lia.
Qed.

Lemma iter_xO p d : Z.pos (Pos.iter xO p d) = Z.pos p * 2 ^ Z.pos d.
Proof.
  induction d as [|d IH] using Pos.peano_ind; [cbn; lia|].
  rewrite Pos.iter_succ. rewrite Pos2Z.inj_succ, Z.pow_succ_r by lia.
  rewrite (Pos2Z.inj_xO), IH. lia.
Qed.

Lemma shr_fexp_done m e : fexp 53 1024 (Z.pos (digits2_pos m) + e) = e →
  shr_fexp 53 1024 (Z.pos m) e loc_Exact = ({| shr_m := Z.pos m; shr_r := false; shr_s := false |}, e).
Proof. intros He. unfold shr_fexp. cbn [Zdigits2]. rewrite He, Z.sub_diag. done. Qed.
Lemma binary_round_small s p : Z.pos p < 2 ^ 53 →
  ∃ m e, binary_round 53 1024 s p 0 = S754_finite s m e ∧ e ≤ 0 ∧ Z.pos m = Z.pos p * 2 ^ (- e).
Proof.
  intros Hp. pose proof (digits2_pos_bounds p) as [Hlo _].
  assert (Z.pos (digits2_pos p) ≤ 53) as Hd.
  { destruct (Z.le_gt_cases (Z.pos (digits2_pos p)) 53); [done|].
    assert (2 ^ 53 ≤ 2 ^ (Z.pos (digits2_pos p) - 1)) by (apply Z.pow_le_mono_r; lia). lia. }
  unfold binary_round. rewrite Z.add_0_r.
  replace (fexp 53 1024 (Z.pos (digits2_pos p))) with (Z.pos (digits2_pos p) - 53)
    by (unfold fexp, emin; lia).
  assert (∃ m e, shl_align p 0 (Z.pos (digits2_pos p) - 53) = (m, e) ∧ e ≤ 0 ∧
     Z.pos m = Z.pos p * 2 ^ (- e) ∧ e = Z.pos (digits2_pos p) - 53 ∧
     Z.pos (digits2_pos m) + e = Z.pos (digits2_pos p)) as (m & e & -> & He & Hm & Hed & Hdm).
  { unfold shl_align. rewrite Z.sub_0_r. destruct (Z.pos (digits2_pos p) - 53) as [|d|d] eqn:Hz; [|lia|].
    - eexists _, _. split; [done|]. split_and!; try done; lia.
    - eexists _, _. split; [done|]. split_and!; try done; [apply iter_xO|]. rewrite digits2_pos_shift. lia. }
  assert (fexp 53 1024 (Z.pos (digits2_pos m) + e) = e) as Hf by (rewrite Hdm; unfold fexp, emin; lia).
  exists m, e. split; [|done]. unfold binary_round_aux. rewrite shr_fexp_done by done. cbn [shr_m loc_of_shr_record round_nearest_even].
  rewrite shr_fexp_done by done. cbn [shr_m]. replace (e <=? 1024 - 53) with true by lia. done.
Qed.

Lemma int_to_float_trunc z : Z.abs z ≤ 2 ^ 53 → float_trunc (int_to_float z) = Some z.
Proof.
  intros Hz. destruct (Z.eq_dec (Z.abs z) (2 ^ 53)) as [Heq|Hne].
  { assert (z = 2 ^ 53 ∨ z = - 2 ^ 53) as [-> | ->] by lia; by vm_compute. }
  unfold int_to_float, binary_normalize. destruct z as [|p|p]; [done|..];
  (destruct (binary_round_small false p) as (m & e & Hb & He & Hm); [lia|]);
  (destruct (binary_round_small true p) as (m' & e' & Hb' & He' & Hm'); [lia|]).
  - rewrite Hb. cbn [float_trunc]. case_cmp.
    + assert (e = 0) as -> by lia. rewrite Hm. f_equal. cbn. lia.
    + rewrite Hm, Z.div_mul by lia. done.
  - rewrite Hb'. cbn [float_trunc]. case_cmp.
    + assert (e' = 0) as -> by lia. rewrite Hm'. f_equal. cbn. lia.
    + rewrite Hm', Z.div_mul by lia. done.
Qed.

Lemma float_to_int64_int `{FloatConv} z :
  Z.abs z ≤ 2 ^ 53 → float_to_int64 (int_to_float z) = z.
Proof.
  intros Hz. unfold float_to_int64. rewrite int_to_float_trunc by done.
  assert (2 ^ 53 < 2 ^ 63) by done.
  replace (- 2 ^ 63 <=? z) with true by lia. by replace (z <? 2 ^ 63) with true by lia.
Qed.

Section typing.
Context `{GT : GoTypes} `{HL : !GoTypesLaws}.

(** ** Underlying types *)

Lemma known_unnamed name t v n : known name = Some (t, v) → t ≠ TNamed n.
Proof. unfold known. by repeat case_bool_decide; try (intros [= <- <-]). Qed.

Lemma underlying_unnamed t n : underlying t ≠ TNamed n.
Proof.
  destruct t; try done. cbn [underlying]. destruct (known name) as [[t v]|] eqn:Hk.
  - by eapply known_unnamed.
  - apply declared_unnamed.
Qed.

Lemma underlying_idem t : underlying (underlying t) = underlying t.
Proof.
  pose proof (underlying_unnamed t) as Hn. destruct (underlying t) as [|n| | | | | | |]; try done.
  by destruct (Hn n).
Qed.

Lemma has_type_underlying t v : has_type (underlying t) v ↔ has_type t v.
Proof.
  destruct t as [|n| | | | | | |]; try done. split; [by constructor|].
  inversion 1; done.
Qed.

Lemma has_type_same_underlying t u v :
  underlying t = underlying u → has_type t v → has_type u v.
Proof. intros Heq Hv. apply has_type_underlying. rewrite <- Heq. by apply has_type_underlying. Qed.

Lemma Kind_underlying t u : underlying t = underlying u → Kind t = Kind u.
Proof. intros Heq. unfold Kind. by rewrite Heq. Qed.

Lemma Kind_Interface t : Kind t = KInterface → ∃ ms, underlying t = TInterface ms.
Proof.
  pose proof (underlying_unnamed t) as Hn. unfold Kind.
  destruct (underlying t) as [[]|n| | | | | | |ms]; try done; [by destruct (Hn n)|by exists ms].
Qed.

Lemma is_interface_true t : is_interface t = true → ∃ ms, underlying t = TInterface ms.
Proof. unfold is_interface. intros H. apply Kind_Interface. by destruct (Kind t). Qed.

Lemma is_interface_iface t ms : underlying t = TInterface ms → is_interface t = true.
Proof. unfold is_interface, Kind. by intros ->. Qed.

(** ** Zero values *)

Lemma known_typed name t v : known name = Some (t, v) → has_type t v.
Proof.
  unfold known. repeat case_bool_decide; try done; intros [= <- <-]; repeat constructor.
Qed.

Lemma zero_typed t : has_type t (zero t).
Proof.
  induction t as [k|n|e IH|n e IH|e|k e|fs IH|ins outs b|ms] using rtype_nested_ind.
  - destruct k; constructor; cbv; try done; split; done.
  - constructor. cbn [underlying zero]. destruct (known n) as [[t v]|] eqn:Hk.
    + by eapply known_typed.
    + apply declared_zero_typed.
  - constructor.
  - cbn. constructor; [by rewrite length_replicate|by apply Forall_replicate].
  - constructor.
  - constructor.
  - cbn. constructor. induction IH as [|f fs Hf _ IH]; by constructor.
  - constructor.
  - constructor.
Qed.

(** ** Interfaces *)

Lemma Implements_elem V T m :
  Implements V T = true → m ∈ methods_of T → m ∈ methods_of V.
Proof.
  unfold Implements. intros [_ H]%andb_prop Hm. apply Is_true_true, forallb_True in H.
  rewrite Forall_forall in H. specialize (H m Hm). by apply bool_decide_unpack in H.
Qed.

Lemma Implements_interface V T :
  Implements V T = true → ∃ ms, underlying T = TInterface ms ∧ Forall (λ m, m ∈ methods_of V) ms.
Proof.
  intros H. pose proof H as [Hi _]%andb_prop. destruct (is_interface_true T Hi) as [ms Hms].
  exists ms. split; [done|]. apply Forall_forall. intros m Hm.
  eapply Implements_elem; [done|]. unfold methods_of. by rewrite Hms.
Qed.

Lemma methods_of_plain t : is_interface t = false → methods_of t = method_set t.
Proof.
  intros H. unfold methods_of. destruct (underlying t) eqn:Hu; try done.
  by rewrite (is_interface_iface _ _ Hu) in H.
Qed.

(** What [Interface()] gives of a typed value. *)
Lemma Value_Interface_ok x : value_ok x → iface_ok (Value_Interface x).
Proof.
  destruct x as [t v]. unfold value_ok. cbn [fst snd]. intros Hv. unfold Value_Interface.
  destruct (is_interface t) eqn:Hi.
  - destruct (is_interface_true t Hi) as [ms Hms].
    apply has_type_underlying in Hv. rewrite Hms in Hv. inversion Hv; subst; cbn; done.
  - destruct v; cbn; rewrite ?Hi; done.
Qed.

(** A typed value wrapped in an interface its type implements. *)
Lemma wrap_typed x t :
  value_ok x → Implements x.1 t = true → has_type t (VIface (Value_Interface x)).
Proof.
  intros Hx Himp. destruct (Implements_interface _ _ Himp) as (ms & Hu & Hms).
  apply has_type_underlying. rewrite Hu. pose proof (Value_Interface_ok x Hx) as Hok.
  destruct x as [s v]. cbn [fst snd] in *. unfold Value_Interface in *.
  destruct (is_interface s) eqn:Hi.
  - destruct (is_interface_true s Hi) as [ms' Hms'].
    unfold value_ok in Hx. cbn in Hx. apply has_type_underlying in Hx. rewrite Hms' in Hx.
    unfold methods_of in Hms. rewrite Hms' in Hms.
    inversion Hx as [| | | | | | | | | | | | | | |? ? ? Hi' Hall Hty]; subst; [constructor|].
    constructor; [done| |done].
    apply Forall_forall. intros m Hm. rewrite Forall_forall in Hms, Hall. by apply Hall, Hms.
  - rewrite (methods_of_plain _ Hi) in Hms.
    destruct v; rewrite ?Hi in *; constructor; try done; apply Hok.
Qed.

Lemma assignTo_typed context x t y :
  value_ok x → assignTo context x t = Ret y → has_type t y.
Proof.
  intros Hx. unfold assignTo. destruct (directlyAssignable t x.1) eqn:Hd.
  - intros [= <-]. unfold directlyAssignable in Hd. apply orb_true_iff in Hd as [Hd|Hd].
    + apply bool_decide_eq_true in Hd. by subst.
    + apply andb_prop in Hd as [_ Hd]. apply bool_decide_eq_true in Hd.
      by eapply has_type_same_underlying.
  - destruct (Implements x.1 t) eqn:Hi; [|done]. intros [= <-]. by apply wrap_typed.
Qed.

Lemma assignTo_same context t v : assignTo context (t, v) t = Ret v.
Proof.
  unfold assignTo, directlyAssignable. cbn [fst snd]. by rewrite bool_decide_true.
Qed.

(** ** Numbers *)

Lemma wrap64_range z : is_i64 (wrap64 z).
Proof.
  unfold is_i64, wrap64. pose proof (Z.mod_pos_bound (z + 2 ^ 63) (2 ^ 64) ltac:(lia)). lia.
Qed.

Lemma wrap64_small z : is_i64 z → wrap64 z = z.
Proof. unfold is_i64, wrap64. intros H. rewrite Z.mod_small; lia. Qed.

Lemma float_to_int64_range `{FloatConv} f : is_i64 (float_to_int64 f).
Proof.
  unfold float_to_int64. destruct (float_trunc f) as [z|]; [|apply wrap64_range].
  destruct (_ && _) eqn:Hb; [|apply wrap64_range]. unfold is_i64. lia.
Qed.

(** ** Conversions *)

Lemma wrap_basic_typed k z :
  match k with BInt | BInt64 | BUint8 => True | _ => False end →
  has_type (TBasic k) (VInt (wrap_basic k z)).
Proof.
  destruct k; try done; intros _; constructor; try apply wrap64_range.
  cbn. apply Z.mod_pos_bound. lia.
Qed.

Lemma convert_basic_typed `{FloatConv} src dst x y :
  convert_basic src dst x = Some y → has_type (TBasic dst) y.
Proof.
  destruct src, dst, x; try done; cbn [convert_basic]; intros [= <-];
    first [by apply (wrap_basic_typed BInt) | by apply (wrap_basic_typed BInt64)
          |by apply (wrap_basic_typed BUint8) | by constructor].
Qed.

Lemma string_bytes_typed s : Forall (has_type (TBasic BUint8)) (string_bytes s).
Proof.
  unfold string_bytes. apply Forall_fmap, Forall_forall. intros c _. cbn. constructor.
  pose proof (Ascii.N_ascii_bounded c). lia.
Qed.

Lemma Convert_typed `{FloatConv} src x t r :
  has_type src x → Convert (Some (src, x)) t = Ret r → ∃ y, r = Some (t, y) ∧ has_type t y.
Proof.
  intros Hx. unfold Convert.
  set (cannot := Panic _). set (direct := if bool_decide _ then _ else _).
  assert (Hdirect : direct = Ret r → ∃ y, r = Some (t, y) ∧ has_type t y).
  { unfold direct. case_bool_decide as Hu.
    { intros [= <-]. exists x. split; [done|]. by eapply has_type_same_underlying. }
    assert (Hcv : (if Implements src t then Ret (Some (t, VIface (Value_Interface (src, x))))
                   else cannot) = Ret r → ∃ y, r = Some (t, y) ∧ has_type t y).
    { destruct (Implements src t) eqn:Hi; [|done]. intros [= <-]. eexists. split; [done|].
      by apply (wrap_typed (src, x)). }
    destruct src, t; try exact Hcv. case_bool_decide; [|done].
    intros [= <-]. exists x. split; [done|]. inversion Hx. constructor. }
  pose proof (has_type_underlying t) as Ht.
  destruct (underlying src) as [a| |[c| | | | | | | |]| | | | | |] eqn:Hsrc;
    destruct (underlying t) as [b| |[d| | | | | | | |]| | | | | |] eqn:Hdst;
    try exact Hdirect; try (destruct a; exact Hdirect); try (destruct b; exact Hdirect);
    try (destruct c; exact Hdirect); try (destruct c, d; exact Hdirect).
  - destruct (convert_basic _ _ x) as [y|] eqn:Hc.
    + intros Hr. assert (Ret (Some (t, y)) = Ret r) as [= <-] by (by destruct a, b).
      exists y. split; [done|]. apply Ht. by eapply convert_basic_typed.
    + destruct a, b; exact Hdirect.
  - destruct a, d, x; try exact Hdirect. intros [= <-].
    eexists. split; [done|]. apply Ht. constructor. apply string_bytes_typed.
  - destruct b, c, x; try exact Hdirect. intros [= <-].
    eexists. split; [done|]. apply Ht. constructor.
Qed.

(** ** Elements *)

Lemma slice_inv t o :
  has_type t (VSlice o) →
  underlying t = TSlice (Elem t) ∧ Forall (has_type (Elem t)) (default [] o).
Proof.
  intros Ht. apply has_type_underlying in Ht. unfold Elem.
  pose proof (underlying_unnamed t) as Hn.
  destruct (underlying t) as [|n| | | | | | |]; inversion Ht; subst; [by destruct (Hn n)|..]; done.
Qed.

Lemma array_inv t l :
  has_type t (VArray l) →
  underlying t = TArray (length l) (Elem t) ∧ Forall (has_type (Elem t)) l.
Proof.
  intros Ht. apply has_type_underlying in Ht. unfold Elem.
  pose proof (underlying_unnamed t) as Hn.
  destruct (underlying t) as [|n| | | | | | |]; inversion Ht; subst; [by destruct (Hn n)|]; done.
Qed.

(** A value of kind slice is a slice. *)
Lemma slice_value t v : Kind t = KSlice → has_type t v → ∃ o, v = VSlice o.
Proof.
  unfold Kind. intros Hk Ht. apply has_type_underlying in Ht.
  destruct (underlying t) as [[]| | | | | | | |]; try done; inversion Ht; subst; eauto.
Qed.

Definition Value_ok (v : Value) : Prop :=
  match v with Some x => value_ok x | None => True end.

Lemma Value_Index_typed v i r :
  Value_ok v → Value_Index v i = Ret r → ∃ x, r = Some x ∧ value_ok x.
Proof.
  destruct v as [[t c]|]; [|done]. unfold Value_ok, value_ok. cbn [fst snd].
  intros Hv. unfold Value_Index. destruct c; try done.
  - destruct (string_bytes s !! i) as [x|] eqn:Hx; [|done]. intros [= <-].
    eexists. split; [done|]. eapply Forall_lookup_1 in Hx; [|apply string_bytes_typed]. done.
  - destruct (slice_inv _ _ Hv) as [_ Hl]. destruct (default [] l !! i) eqn:Hx; [|done].
    intros [= <-]. eexists. split; [done|]. by eapply Forall_lookup_1 in Hx.
  - destruct (array_inv _ _ Hv) as [_ Hl]. destruct (l !! i) eqn:Hx; [|done].
    intros [= <-]. eexists. split; [done|]. by eapply Forall_lookup_1 in Hx.
Qed.

(** Setting an element keeps the type. *)
Lemma Value_SetIndex_typed v t i x r :
  Value_ok v → Value_ok x → (∃ c, v = Some (t, c)) → Value_SetIndex v i x = Ret r →
  ∃ c, r = Some (t, c) ∧ has_type t c.
Proof.
  intros Hv Hx [c ->]. unfold Value_SetIndex, mbind, outcome_bind.
  destruct (Value_Index (Some (t, c)) i) as [e| | |] eqn:Hi; try done.
  destruct e as [[et e]|]; [|done]. destruct x as [x|]; [|done].
  destruct (assignTo _ x et) as [y| | |] eqn:Ha; try done.
  apply assignTo_typed in Ha; [|done]. unfold Value_ok, value_ok in Hv. cbn in Hv.
  destruct c as [| | | |[l|]|l| | | | |]; try done; intros [= <-]; eexists; (split; [done|]);
    apply has_type_underlying.
  - destruct (slice_inv _ _ Hv) as [-> Hl]. constructor. cbn in Hl, Hi.
    destruct (l !! i); [|done]. injection Hi as <- _. by apply Forall_insert.
  - destruct (array_inv _ _ Hv) as [-> Hl]. constructor; [by rewrite length_insert|]. cbn in Hi.
    destruct (l !! i); [|done]. injection Hi as <- _. by apply Forall_insert.
Qed.

Lemma Append_typed t l x r :
  has_type t (VSlice l) → Value_ok x → Append (Some (t, VSlice l)) x = Ret r →
  ∃ l', r = Some (t, VSlice l') ∧ has_type t (VSlice l').
Proof.
  intros Hv Hx. unfold Append, mbind, outcome_bind. destruct x as [x|]; [|done].
  destruct (assignTo _ x _) as [y| | |] eqn:Ha; try done.
  apply assignTo_typed in Ha; [|done]. intros [= <-]. eexists. split; [done|].
  destruct (slice_inv _ _ Hv) as [Hu Hl]. apply has_type_underlying. rewrite Hu. constructor.
  apply Forall_app. by repeat constructor.
Qed.
End typing.
