(* ===== verification/Frame.v ===== *)
(** * Package mux/frame: the qmux message frames

    The seven message types, their wire encoding ([Bytes]), the [Encoder] and
    the [Decoder], with the round trip in both directions and what the decoder
    reports on a stream cut short. *)
From S2P Require Import Prelude GoRuntime.

(** ** Message numbers *)

Definition msgChannelOpen : Z := 100.
Definition msgChannelOpenConfirm : Z := 101.
Definition msgChannelOpenFailure : Z := 102.
Definition msgChannelWindowAdjust : Z := 103.
Definition msgChannelData : Z := 104.
Definition msgChannelEOF : Z := 105.
Definition msgChannelClose : Z := 106.

(** ** The message types *)

(** Each struct's [String() string] and [Bytes() []byte]: the message number,
    then the struct big-endian; a data message appends its payload to the
    nine-byte header. *)
Definition OpenMessage_String (SenderID WindowSize MaxPacketSize : Z) : string :=
  "{OpenMessage SenderID:" +:+ pretty SenderID +:+ " WindowSize:" +:+ pretty WindowSize
  +:+ " MaxPacketSize:" +:+ pretty MaxPacketSize +:+ "}".

Definition OpenMessage_Bytes (SenderID WindowSize MaxPacketSize : Z) : list byte :=
  byte_of_Z msgChannelOpen :: binary_Write [SenderID; WindowSize; MaxPacketSize].

Definition OpenConfirmMessage_String (ChannelID SenderID WindowSize MaxPacketSize : Z)
    : string :=
  "{OpenConfirmMessage ChannelID:" +:+ pretty ChannelID +:+ " SenderID:"
  +:+ pretty SenderID +:+ " WindowSize:" +:+ pretty WindowSize +:+ " MaxPacketSize:"
  +:+ pretty MaxPacketSize +:+ "}".

Definition OpenConfirmMessage_Bytes (ChannelID SenderID WindowSize MaxPacketSize : Z)
    : list byte :=
  byte_of_Z msgChannelOpenConfirm
  :: binary_Write [ChannelID; SenderID; WindowSize; MaxPacketSize].

Definition OpenFailureMessage_String (ChannelID : Z) : string :=
  "{OpenFailureMessage ChannelID:" +:+ pretty ChannelID +:+ "}".

Definition OpenFailureMessage_Bytes (ChannelID : Z) : list byte :=
  byte_of_Z msgChannelOpenFailure :: binary_Write [ChannelID].

Definition WindowAdjustMessage_String (ChannelID AdditionalBytes : Z) : string :=
  "{WindowAdjustMessage ChannelID:" +:+ pretty ChannelID +:+ " AdditionalBytes:"
  +:+ pretty AdditionalBytes +:+ "}".

Definition WindowAdjustMessage_Bytes (ChannelID AdditionalBytes : Z) : list byte :=
  byte_of_Z msgChannelWindowAdjust :: binary_Write [ChannelID; AdditionalBytes].

Definition DataMessage_String (ChannelID Length : Z) : string :=
  "{DataMessage ChannelID:" +:+ pretty ChannelID +:+ " Length:" +:+ pretty Length
  +:+ " Data: ... }".

Definition DataMessage_Bytes (ChannelID Length : Z) (Data : list byte) : list byte :=
  (byte_of_Z msgChannelData :: PutUint32 ChannelID ++ PutUint32 Length) ++ Data.

Definition EOFMessage_String (ChannelID : Z) : string :=
  "{EOFMessage ChannelID:" +:+ pretty ChannelID +:+ "}".

Definition EOFMessage_Bytes (ChannelID : Z) : list byte :=
  byte_of_Z msgChannelEOF :: binary_Write [ChannelID].

Definition CloseMessage_String (ChannelID : Z) : string :=
  "{CloseMessage ChannelID:" +:+ pretty ChannelID +:+ "}".

Definition CloseMessage_Bytes (ChannelID : Z) : list byte :=
  byte_of_Z msgChannelClose :: binary_Write [ChannelID].

(** ** Messages *)

(** The [Message] interface: the Go structs that implement it, one constructor
    each; the fields in declaration order. *)
Inductive Message :=
| OpenMessage (SenderID WindowSize MaxPacketSize : Z)
| OpenConfirmMessage (ChannelID SenderID WindowSize MaxPacketSize : Z)
| OpenFailureMessage (ChannelID : Z)
| WindowAdjustMessage (ChannelID AdditionalBytes : Z)
| DataMessage (ChannelID Length : Z) (Data : list byte)
| EOFMessage (ChannelID : Z)
| CloseMessage (ChannelID : Z).

#[global] Instance Message_eq_dec : EqDecision Message.
Proof. solve_decision. Defined.

(** [Channel() (uint32, bool)]. *)
Definition Message_Channel (msg : Message) : Z * bool :=
  match msg with
  | OpenMessage _ _ _ => (0, false)
  | OpenConfirmMessage id _ _ _ => (id, true)
  | OpenFailureMessage id => (id, true)
  | WindowAdjustMessage id _ => (id, true)
  | DataMessage id _ _ => (id, true)
  | EOFMessage id => (id, true)
  | CloseMessage id => (id, true)
  end.

(** The method calls through the interface. *)
Definition Message_String (msg : Message) : string :=
  match msg with
  | OpenMessage s w m => OpenMessage_String s w m
  | OpenConfirmMessage c s w m => OpenConfirmMessage_String c s w m
  | OpenFailureMessage c => OpenFailureMessage_String c
  | WindowAdjustMessage c n => WindowAdjustMessage_String c n
  | DataMessage c l _ => DataMessage_String c l
  | EOFMessage c => EOFMessage_String c
  | CloseMessage c => CloseMessage_String c
  end.

Definition Message_Bytes (msg : Message) : list byte :=
  match msg with
  | OpenMessage s w m => OpenMessage_Bytes s w m
  | OpenConfirmMessage c s w m => OpenConfirmMessage_Bytes c s w m
  | OpenFailureMessage c => OpenFailureMessage_Bytes c
  | WindowAdjustMessage c n => WindowAdjustMessage_Bytes c n
  | DataMessage c l d => DataMessage_Bytes c l d
  | EOFMessage c => EOFMessage_Bytes c
  | CloseMessage c => CloseMessage_Bytes c
  end.

(** Compute the bytes of a message whose type is known. *)
Ltac message_bytes :=
  cbn [Message_Bytes]; unfold OpenMessage_Bytes, OpenConfirmMessage_Bytes,
    OpenFailureMessage_Bytes, WindowAdjustMessage_Bytes, DataMessage_Bytes,
    EOFMessage_Bytes, CloseMessage_Bytes.

(** ** Encoder and decoder *)

(** [Encoder.Encode]: one [Write] of the message's bytes ([Debug] is nil). *)
Definition Encoder_Encode (msg : Message) (w : writer) : option error * writer :=
  io_Write (Message_Bytes msg) w.

(** [messageFrom]: a zero message of the type the number names. *)
Definition messageFrom (num : Z) : result Message :=
  if num =? msgChannelOpen then Ok (OpenMessage 0 0 0)
  else if num =? msgChannelData then Ok (DataMessage 0 0 [])
  else if num =? msgChannelOpenConfirm then Ok (OpenConfirmMessage 0 0 0 0)
  else if num =? msgChannelOpenFailure then Ok (OpenFailureMessage 0)
  else if num =? msgChannelWindowAdjust then Ok (WindowAdjustMessage 0 0)
  else if num =? msgChannelEOF then Ok (EOFMessage 0)
  else if num =? msgChannelClose then Ok (CloseMessage 0)
  else Err (errorString ("qtalk: unexpected message type " +:+ pretty num)).

(** How many [uint32] fields [binary.Read] fills in a message it is given, and
    the message with these fields; a data message is not read that way. *)
Definition message_nfields (msg : Message) : nat :=
  match msg with
  | OpenMessage _ _ _ => 3
  | OpenConfirmMessage _ _ _ _ => 4
  | WindowAdjustMessage _ _ => 2
  | OpenFailureMessage _ | EOFMessage _ | CloseMessage _ => 1
  | DataMessage _ _ _ => 0
  end.

Definition message_fill (msg : Message) (fields : list Z) : Message :=
  match msg, fields with
  | OpenMessage _ _ _, [s; w; m] => OpenMessage s w m
  | OpenConfirmMessage _ _ _ _, [c; s; w; m] => OpenConfirmMessage c s w m
  | OpenFailureMessage _, [c] => OpenFailureMessage c
  | WindowAdjustMessage _ _, [c; n] => WindowAdjustMessage c n
  | EOFMessage _, [c] => EOFMessage c
  | CloseMessage _, [c] => CloseMessage c
  | _, _ => msg
  end.

(** [Decoder.Decode]. *)
Definition Decoder_Decode (r : reader) : result Message * reader :=
  match io_ReadFull 1 r with
  | (Err err, r1) =>
      match errors_As_SyscallError err with
      | Some (_, errno) => (Err (if errno =? ECONNRESET then io_EOF else err), r1)
      | None => (Err err, r1)
      end
  | (Ok msgNum, r1) =>
      let num := default 0 (byte_to_Z <$> head msgNum) in
      match messageFrom num with
      | Err err => (Err err, r1)
      | Ok msg =>
          if num =? msgChannelData then
            match binary_Read 2 r1 with
            | (Err err, r2) => (Err err, r2)
            | (Ok fields, r2) =>
                let id := nth 0 fields 0 in
                let length := nth 1 fields 0 in
                match io_ReadFull length r2 with
                | (Err err, r3) => (Err err, r3)
                | (Ok data, r3) => (Ok (DataMessage id length data), r3)
                end
            end
          else
            match binary_Read (message_nfields msg) r1 with
            | (Err err, r2) => (Err err, r2)
            | (Ok fields, r2) => (Ok (message_fill msg fields), r2)
            end
      end
  end.

(** Decode until the stream gives an error: the messages, and the error. *)
Fixpoint decode_stream (fuel : nat) (r : reader) : list Message * option error :=
  match fuel with
  | O => ([], None)
  | S fuel =>
      match Decoder_Decode r with
      | (Err e, _) => ([], Some e)
      | (Ok m, r') => let '(ms, e) := decode_stream fuel r' in (m :: ms, e)
      end
  end.

(** ** Well-formed messages *)

(** Every field is a [uint32], and a data message carries the length of its
    payload. *)
Definition message_wf (msg : Message) : Prop :=
  match msg with
  | OpenMessage s w m => is_u32 s ∧ is_u32 w ∧ is_u32 m
  | OpenConfirmMessage c s w m => is_u32 c ∧ is_u32 s ∧ is_u32 w ∧ is_u32 m
  | WindowAdjustMessage c n => is_u32 c ∧ is_u32 n
  | DataMessage c l d => is_u32 c ∧ is_u32 l ∧ l = len d
  | OpenFailureMessage c | EOFMessage c | CloseMessage c => is_u32 c
  end.

#[global] Instance message_wf_dec m : Decision (message_wf m).
Proof. destruct m; simpl; unfold is_u32; apply _. Defined.

(** ** Decoding what was encoded *)

Lemma Decode_control num msg fields rest e :
  0 ≤ num < 256 → num ≠ msgChannelData →
  messageFrom num = Ok msg → message_nfields msg = length fields →
  Forall is_u32 fields →
  Decoder_Decode (mkReader ((byte_of_Z num :: binary_Write fields) ++ rest) e)
  = (Ok (message_fill msg fields), mkReader rest e).
Proof.
  intros Hnum Hdata Hfrom Hlen Hall. unfold Decoder_Decode.
  change ((byte_of_Z num :: binary_Write fields) ++ rest)
    with ([byte_of_Z num] ++ (binary_Write fields ++ rest)).
  rewrite io_ReadFull_app by done. cbn [head fmap option_fmap option_map default id].
  rewrite byte_to_of_Z, Z.mod_small, Hfrom by done. cmp_false.
  rewrite binary_Read_Write by done. done.
Qed.

Lemma Decode_data c d rest e :
  is_u32 c → is_u32 (len d) →
  Decoder_Decode (mkReader (Message_Bytes (DataMessage c (len d) d) ++ rest) e)
  = (Ok (DataMessage c (len d) d), mkReader rest e).
Proof.
  intros Hc Hl. unfold Decoder_Decode. message_bytes.
  change (((byte_of_Z msgChannelData :: PutUint32 c ++ PutUint32 (len d)) ++ d) ++ rest)
    with ([byte_of_Z msgChannelData] ++ ((binary_Write [c; len d] ++ d) ++ rest)).
  rewrite io_ReadFull_app by done. cbn [head fmap option_fmap option_map default id].
  rewrite byte_to_of_Z. change (msgChannelData mod 256) with msgChannelData.
  change (messageFrom msgChannelData) with (Ok (DataMessage 0 0 [])).
  change (msgChannelData =? msgChannelData) with true. cbv iota.
  rewrite <- app_assoc, binary_Read_Write by (done || by list_Forall).
  cbn [nth]. rewrite io_ReadFull_app by done. done.
Qed.

(** The decoder reads back any well-formed message and leaves what follows. *)
Lemma Decode_Bytes m rest e :
  message_wf m →
  Decoder_Decode (mkReader (Message_Bytes m ++ rest) e) = (Ok m, mkReader rest e).
Proof.
  destruct m; cbn [message_wf]; intros Hwf; destruct_and?; subst;
    [..| by apply Decode_data | |].
  all: message_bytes; eapply eq_trans;
    [eapply Decode_control;
     [split; [by vm_compute|done]|done|reflexivity|reflexivity|by list_Forall]
    |reflexivity].
Qed.

(** ** The decoder accepts nothing else *)

Lemma Uint32_range b : is_u32 (Uint32 b).
Proof.
  unfold is_u32. destruct b as [|b0 [|b1 [|b2 [|b3 b]]]]; try (cbn; lia).
  pose proof (byte_to_Z_range b0). pose proof (byte_to_Z_range b1).
  pose proof (byte_to_Z_range b2). pose proof (byte_to_Z_range b3).
  rewrite Uint32_digits. lia.
Qed.

Lemma byte_of_Z_eq b z : byte_to_Z b = z mod 256 → byte_of_Z z = b.
Proof.
  intros H. rewrite <- (byte_of_to_Z b), H. unfold byte_of_Z.
  by rewrite Z.mod_mod by lia.
Qed.

(** The four bytes a number was read from are the bytes it is written as. *)
Lemma PutUint32_Uint32 b rest :
  length b = 4%nat → PutUint32 (Uint32 (b ++ rest)) = b.
Proof.
  intros Hb. destruct b as [|b0 [|b1 [|b2 [|b3 [|]]]]]; try done.
  cbn [app]. rewrite Uint32_digits. unfold PutUint32.
  pose proof (byte_to_Z_range b0). pose proof (byte_to_Z_range b1).
  pose proof (byte_to_Z_range b2). pose proof (byte_to_Z_range b3).
  rewrite !Z.shiftr_div_pow2 by lia.
  change (2 ^ 24) with 16777216. change (2 ^ 16) with 65536. change (2 ^ 8) with 256.
  repeat f_equal; apply byte_of_Z_eq; Z.div_mod_to_equations; lia.
Qed.

Lemma binary_Write_Uint32s n b :
  length b = (4 * n)%nat → binary_Write (Uint32s n b) = b.
Proof.
  revert b. induction n as [|n IH]; intros b Hb.
  - by apply nil_length_inv in Hb.
  - cbn [Uint32s]. rewrite binary_Write_cons, IH by (rewrite length_drop; lia).
    rewrite <- (take_drop 4 b) at 1 3.
    rewrite PutUint32_Uint32 by (rewrite length_take; lia). done.
Qed.

Lemma length_Uint32s n b : length (Uint32s n b) = n.
Proof. revert b. induction n; intros b; simpl; auto. Qed.

Lemma Uint32s_range n b : Forall is_u32 (Uint32s n b).
Proof. revert b. induction n; intros b; constructor; auto using Uint32_range. Qed.

Lemma binary_Read_ok n r fields r' :
  binary_Read n r = (Ok fields, r') →
  rd_data r = binary_Write fields ++ rd_data r' ∧ rd_err r' = rd_err r ∧
  length fields = n ∧ Forall is_u32 fields.
Proof.
  unfold binary_Read. destruct (io_ReadFull _ _) as [[b|] r1] eqn:E; [|done].
  intros [= <- <-]. apply io_ReadFull_ok in E as (Hd & He & Hl).
  unfold len in Hl. rewrite binary_Write_Uint32s by lia.
  auto using length_Uint32s, Uint32s_range.
Qed.

Lemma messageFrom_ok num msg :
  messageFrom num = Ok msg →
  (num, msg) ∈ [(msgChannelOpen, OpenMessage 0 0 0);
                (msgChannelData, DataMessage 0 0 []);
                (msgChannelOpenConfirm, OpenConfirmMessage 0 0 0 0);
                (msgChannelOpenFailure, OpenFailureMessage 0);
                (msgChannelWindowAdjust, WindowAdjustMessage 0 0);
                (msgChannelEOF, EOFMessage 0);
                (msgChannelClose, CloseMessage 0)].
Proof.
  unfold messageFrom. repeat (case_cmp; [intros [= <-]; subst; set_solver|]). done.
Qed.

(** The bytes of a message read with [binary.Read]. *)
Lemma Message_Bytes_fill num msg fields :
  messageFrom num = Ok msg → num ≠ msgChannelData →
  length fields = message_nfields msg → Forall is_u32 fields →
  Message_Bytes (message_fill msg fields) = byte_of_Z num :: binary_Write fields ∧
  message_wf (message_fill msg fields).
Proof.
  intros Hm Hd Hl Hall. apply messageFrom_ok in Hm.
  repeat (apply elem_of_cons in Hm as [[= -> ->]|Hm]); [..|by apply elem_of_nil in Hm].
  all: cbn [message_nfields] in Hl;
    repeat (destruct fields as [|? fields]; try discriminate Hl); try done.
  all: repeat (apply Forall_cons in Hall as [? Hall]); done.
Qed.

(** Whatever the decoder accepts is the encoding of the well-formed message it
    returns. *)
Lemma Decode_sound r m r' :
  Decoder_Decode r = (Ok m, r') →
  rd_data r = Message_Bytes m ++ rd_data r' ∧ rd_err r' = rd_err r ∧ message_wf m.
Proof.
  unfold Decoder_Decode. destruct (io_ReadFull 1 r) as [[bs|e] r1] eqn:E1;
    [|by destruct (errors_As_SyscallError e) as [[]|]].
  apply io_ReadFull_ok in E1 as (Hd1 & He1 & Hl1).
  destruct bs as [|b [|]]; try (unfold len in Hl1; simpl in Hl1; lia).
  cbn [head fmap option_fmap option_map default id].
  destruct (messageFrom (byte_to_Z b)) as [msg|] eqn:Em; [|done].
  destruct (Z.eqb_spec (byte_to_Z b) msgChannelData) as [Hb|Hb].
  - destruct (binary_Read 2 r1) as [[fields|] r2] eqn:E2; [|done].
    apply binary_Read_ok in E2 as (Hd2 & He2 & Hl2 & Hall).
    destruct fields as [|id [|l [|]]]; try discriminate Hl2. cbn [nth].
    destruct (io_ReadFull l r2) as [[d|] r3] eqn:E3; [|done].
    apply io_ReadFull_ok in E3 as (Hd3 & He3 & Hl3). intros [= <- <-].
    repeat (apply Forall_cons in Hall as [? Hall]).
    assert (b = byte_of_Z msgChannelData) as -> by (rewrite <- Hb; symmetry; apply byte_of_to_Z).
    split; [|split; [congruence|split; [done|split; [done|unfold is_u32 in *; lia]]]].
    rewrite Hd1, Hd2, Hd3. message_bytes; cbn [app].
    by rewrite !binary_Write_cons, <- !app_assoc.
  - destruct (binary_Read (message_nfields msg) r1) as [[fields|] r2] eqn:E2; [|done].
    apply binary_Read_ok in E2 as (Hd2 & He2 & Hl2 & Hall). intros [= <- <-].
    destruct (Message_Bytes_fill _ _ _ Em Hb Hl2 Hall) as [Hbytes Hwf].
    rewrite Hbytes, byte_of_to_Z, Hd1, Hd2. split_and!; [done|congruence|done].
Qed.

Lemma Message_Bytes_length m : 5 ≤ len (Message_Bytes m).
Proof. destruct m; unfold len; cbn; lia. Qed.

(** A stream of encoded messages decodes to those messages, then the error of
    the transport. *)
Lemma decode_stream_Bytes ms e fuel :
  Forall message_wf ms → (length ms < fuel)%nat → errors_As_SyscallError e = None →
  decode_stream fuel (mkReader (mjoin (Message_Bytes <$> ms)) e) = (ms, Some e).
Proof.
  intros Hall Hfuel He. revert fuel Hfuel.
  induction Hall as [|m ms Hm Hall IH]; intros [|fuel] Hfuel; simpl in Hfuel; try lia.
  - cbn [decode_stream fmap list_fmap mjoin list_join]. unfold Decoder_Decode.
    rewrite io_ReadFull_short by done. cbn [rd_data rd_err]. by rewrite He.
  - cbn [decode_stream]. rewrite fmap_cons. cbn [mjoin list_join].
    rewrite Decode_Bytes by done. by rewrite IH by lia.
Qed.

(** ** Streams cut inside a frame *)

(** Where a cut is reported as a plain [io.EOF]: before the frame, after the
    type byte, and between a data frame's header and its payload. *)
Definition eof_boundary (m : Message) (k : nat) : bool :=
  match m with
  | DataMessage _ _ _ => (k =? 0)%nat || (k =? 1)%nat || (k =? 9)%nat
  | _ => (k =? 0)%nat || (k =? 1)%nat
  end.

(** What [io.ReadFull] makes of the first [k] bytes of the [n] it wants. *)
Definition cut_error (k : nat) : error :=
  if (k =? 0)%nat then io_EOF else io_ErrUnexpectedEOF.

Lemma io_ReadFull_cut n k p :
  (k < length p)%nat → n = len p →
  io_ReadFull n (mkReader (take k p) io_EOF) = (Err (cut_error k), mkReader [] io_EOF).
Proof.
  intros Hk ->. rewrite io_ReadFull_short by (cbn; rewrite len_take; unfold len; lia).
  unfold cut_error. cbn [rd_data rd_err]. destruct k as [|k]; [done|].
  by destruct p as [|b p]; [simpl in Hk; lia|].
Qed.

Lemma binary_Read_cut n k fields :
  (k < 4 * n)%nat → length fields = n →
  binary_Read n (mkReader (take k (binary_Write fields)) io_EOF)
  = (Err (cut_error k), mkReader [] io_EOF).
Proof.
  intros Hk Hl. unfold binary_Read.
  rewrite io_ReadFull_cut; [done|..]; unfold len; rewrite ?length_binary_Write; lia.
Qed.

Lemma Decode_first_byte num tail msg k :
  0 ≤ num < 256 → messageFrom num = Ok msg →
  io_ReadFull 1 (mkReader (take (S k) (byte_of_Z num :: tail)) io_EOF)
  = (Ok [byte_of_Z num], mkReader (take k tail) io_EOF).
Proof.
  intros. cbn [take firstn].
  by apply (io_ReadFull_app [byte_of_Z num] (take k tail) io_EOF 1).
Qed.

Lemma Decode_control_cut num msg fields k :
  0 ≤ num < 256 → num ≠ msgChannelData → messageFrom num = Ok msg →
  message_nfields msg = length fields → (k < 4 * length fields)%nat →
  Decoder_Decode
    (mkReader (take (S k) (byte_of_Z num :: binary_Write fields)) io_EOF)
  = (Err (cut_error k), mkReader [] io_EOF).
Proof.
  intros Hnum Hd Hm Hn Hk. unfold Decoder_Decode.
  erewrite Decode_first_byte by done. cbn [head fmap option_fmap option_map default id].
  rewrite byte_to_of_Z, Z.mod_small, Hm by done. cmp_false.
  rewrite binary_Read_cut; [done|lia|done].
Qed.

Lemma Decode_data_cut c d k :
  is_u32 c → is_u32 (len d) → (k < 8 + length d)%nat →
  Decoder_Decode
    (mkReader (take (S k) (Message_Bytes (DataMessage c (len d) d))) io_EOF)
  = (Err (if (k =? 8)%nat then io_EOF else cut_error k), mkReader [] io_EOF).
Proof.
  intros Hc Hl Hk. unfold Decoder_Decode. message_bytes; cbn [app].
  erewrite Decode_first_byte by done. cbn [head fmap option_fmap option_map default id].
  rewrite byte_to_of_Z. change (msgChannelData mod 256) with msgChannelData.
  change (messageFrom msgChannelData) with (Ok (DataMessage 0 0 [])).
  change (msgChannelData =? msgChannelData) with true. cbv iota.
  change (PutUint32 c ++ PutUint32 (len d)) with (binary_Write [c; len d]).
  destruct (decide (k < 8)%nat) as [Hk8|Hk8].
  - rewrite take_app_le by (cbn; lia). rewrite binary_Read_cut by (cbn; lia || done).
    by destruct (Nat.eqb_spec k 8); [lia|].
  - rewrite take_app_ge by (cbn; lia). cbn [length binary_Write].
    rewrite binary_Read_Write by (done || by list_Forall). cbn [nth].
    change (length _) with 8%nat. rewrite io_ReadFull_cut by (done || lia).
    unfold cut_error. destruct (Nat.eqb_spec k 8) as [->|]; [done|].
    by destruct (Nat.eqb_spec (k - 8) 0), (Nat.eqb_spec k 0); try lia.
Qed.

Lemma Decode_truncated m k :
  message_wf m → (k < length (Message_Bytes m))%nat →
  Decoder_Decode (mkReader (take k (Message_Bytes m)) io_EOF)
  = (Err (if eof_boundary m k then io_EOF else io_ErrUnexpectedEOF),
     mkReader [] io_EOF).
Proof.
  intros Hwf Hk. destruct k as [|k].
  { unfold Decoder_Decode. rewrite io_ReadFull_short by done. by destruct m. }
  destruct m; cbn [message_wf] in Hwf; destruct_and?; subst.
  5: { rewrite Decode_data_cut by (done || (cbn in Hk; lia)).
       by destruct k as [|k]. }
  all: message_bytes; eapply eq_trans;
    [eapply Decode_control_cut;
     [split; [by vm_compute|done]|done|reflexivity|reflexivity|cbn in *; lia]
    |by destruct k].
Qed.

(** ** Properties *)

(** [Encode] each message in turn, until one fails. *)
Fixpoint encode_all (ms : list Message) (w : writer) : option error * writer :=
  match ms with
  | [] => (None, w)
  | m :: ms =>
      match Encoder_Encode m w with
      | (Some e, w') => (Some e, w')
      | (None, w') => encode_all ms w'
      end
  end.

Lemma encode_all_out ms out :
  encode_all ms (mkWriter out []) = (None, mkWriter (out ++ (Message_Bytes <$> ms)) []).
Proof.
  revert out. induction ms as [|m ms IH]; intros out; cbn [encode_all].
  - by rewrite app_nil_r.
  - unfold Encoder_Encode, io_Write. cbn [w_script w_out]. rewrite IH, <- app_assoc. done.
Qed.

(** C14. What one side encodes the other side decodes: any sequence of
    well-formed messages, written frame by frame to a transport, is read back as
    the same sequence, and then the transport's own error. *)
Theorem stream_roundtrip ms e :
  Forall message_wf ms → errors_As_SyscallError e = None →
  ∃ w, encode_all ms (mkWriter [] []) = (None, w) ∧
    decode_stream (S (length ms)) (mkReader (mjoin (w_out w)) e) = (ms, Some e).
Proof.
  intros Hms He. eexists. split; [apply encode_all_out|].
  apply decode_stream_Bytes; [done|lia|done].
Qed.

Definition demo_messages : list Message :=
  [OpenMessage 0 1073741824 16777216; OpenConfirmMessage 0 7 1073741824 16777216;
   DataMessage 7 2 [x05; xff]; WindowAdjustMessage 0 2; EOFMessage 7; CloseMessage 7].

Lemma stream_roundtrip_witness :
  Forall message_wf demo_messages ∧
  ∃ w, encode_all demo_messages (mkWriter [] []) = (None, w) ∧
    decode_stream 7 (mkReader (mjoin (w_out w)) io_EOF) = (demo_messages, Some io_EOF).
Proof.
  assert (Forall message_wf demo_messages) as H by (apply (bool_decide_unpack _); by vm_compute).
  split; [exact H|]. by apply (stream_roundtrip demo_messages io_EOF H).
Defined.

(** C15. The decoder accepts exactly the encodings of well-formed messages: it
    returns [m] and leaves [r'] precisely when [m] is well formed and the stream is
    the encoding of [m] followed by what [r'] still has. So no frame of a peer that
    keeps to the encoding is refused, and nothing else is taken for a frame. *)
Theorem decode_exact r m r' :
  Decoder_Decode r = (Ok m, r') ↔
  message_wf m ∧ rd_data r = Message_Bytes m ++ rd_data r' ∧ rd_err r' = rd_err r.
Proof.
  split.
  - by intros (? & ? & ?)%Decode_sound.
  - destruct r as [d e], r' as [d' e']. cbn [rd_data rd_err].
    intros (Hwf & -> & ->). by apply Decode_Bytes.
Qed.

(** A frame with an unknown message number is not the encoding of anything. *)
Lemma decode_exact_witness :
  (∀ m r', ¬ (message_wf m ∧ [x6b; x00] = Message_Bytes m ++ rd_data r' ∧ rd_err r' = io_EOF)) ∧
  Decoder_Decode (mkReader ([x69; x00; x00; x00; x07] ++ [x64]) io_EOF)
  = (Ok (EOFMessage 7), mkReader [x64] io_EOF).
Proof.
  split.
  - intros m r' [_ [E _]]. by destruct m.
  - apply (decode_exact (mkReader ([x69; x00; x00; x00; x07] ++ [x64]) io_EOF)
      (EOFMessage 7) (mkReader [x64] io_EOF)).
    split; [by apply (bool_decide_unpack _)|by split].
Defined.

(** A stream that ends inside a frame never yields a message. The error is
    [io.ErrUnexpectedEOF], except at the boundaries between the reads of a
    frame, where the decoder cannot tell the cut from a clean end and reports
    [io.EOF]: before the frame, after its type byte, and for a data frame after
    its header. *)
Theorem truncated_frame m k :
  message_wf m → (k < length (Message_Bytes m))%nat →
  (Decoder_Decode (mkReader (take k (Message_Bytes m)) io_EOF)).1
  = Err (if eof_boundary m k then io_EOF else io_ErrUnexpectedEOF).
Proof. intros Hwf Hk. by rewrite Decode_truncated. Qed.

Lemma truncated_frame_witness :
  eof_boundary (DataMessage 7 2 [x05; xff]) 9 = true ∧
  (Decoder_Decode (mkReader (take 9 (Message_Bytes (DataMessage 7 2 [x05; xff]))) io_EOF)).1
  = Err io_EOF.
Proof.
  split; [done|]. apply (truncated_frame (DataMessage 7 2 [x05; xff]) 9).
  - apply (bool_decide_unpack _). by vm_compute.
  - apply Nat.ltb_lt. by vm_compute.
Defined.
