(* ===== verification/Buffer.v ===== *)
(** * mux/util_buffer.go: the linked-list receive buffer

    The buffer is modelled with its heap: list elements live at addresses, and
    [head] and [tail] are pointers into the list. [buffer_repr] relates that
    heap to the queue of bytes it holds, and every operation is shown to act
    on the queue as a FIFO of bytes. x/cbor/mux/buffer.go is the same file. *)
From S2P Require Import Prelude GoRuntime.

(** ** State *)

(** [type element struct { buf []byte; next *element }]. *)
Record element := mkElement {
  el_buf : list byte;
  el_next : option nat;
}.

(** [type buffer struct]: the elements by address, the [head] and [tail]
    pointers, the [closed] flag, and the next address the allocator gives. The
    mutex is the atomicity of the operations. *)
Record buffer := mkBuffer {
  b_elems : gmap nat element;
  b_head : nat;
  b_tail : nat;
  b_closed : bool;
  b_fresh : nat;
}.

(** ** Operations *)

Definition newBuffer : buffer :=
  mkBuffer {[ 0%nat := mkElement [] None ]} 0 0 false 1.

(** [b.tail.next = e; b.tail = e] for a new element [e] holding [buf]. *)
Definition buffer_write (buf : list byte) (b : buffer) : buffer :=
  let e := b_fresh b in
  let link el := mkElement (el_buf el) (Some e) in
  mkBuffer (<[e := mkElement buf None]> (alter link (b_tail b) (b_elems b)))
    (b_head b) e (b_closed b) (S e).

Definition buffer_eof (b : buffer) : buffer :=
  mkBuffer (b_elems b) (b_head b) (b_tail b) true (b_fresh b).

(** [b.head.buf = buf] and [b.head = l]. *)
Definition set_head_buf (buf : list byte) (b : buffer) : buffer :=
  let cut el := mkElement buf (el_next el) in
  mkBuffer (alter cut (b_head b) (b_elems b)) (b_head b) (b_tail b)
    (b_closed b) (b_fresh b).

Definition set_head (l : nat) (b : buffer) : buffer :=
  mkBuffer (b_elems b) l (b_tail b) (b_closed b) (b_fresh b).

(** The loop of [Read]. [n] is [len(buf)], the room left in the caller's
    slice; [out] is what was copied so far, so the code's [n] is [length out].
    Waiting on the condition variable is [Block]: the loop waits only when
    nothing was copied, so a woken reader goes through the loop again with the
    slice it started with. *)
Fixpoint buffer_Read_loop (fuel : nat) (n : nat) (out : list byte)
    : M buffer (list byte * option error) := λ b,
  match fuel with
  | O => (NoFuel, b)
  | S fuel =>
      if (n =? 0)%nat then (Ret (out, None), b)
      else
        match b_elems b !! b_head b with
        | None => (Panic "nil pointer dereference", b)
        | Some h =>
            match el_buf h with
            | _ :: _ =>
                let r := Nat.min n (length (el_buf h)) in
                buffer_Read_loop fuel (n - r) (out ++ take r (el_buf h))
                  (set_head_buf (drop r (el_buf h)) b)
            | [] =>
                if (b_head b =? b_tail b)%nat then
                  if (0 <? length out)%nat then (Ret (out, None), b)
                  else if b_closed b then (Ret (out, Some io_EOF), b)
                  else (Block, b)
                else
                  match el_next h with
                  | None => (Panic "nil pointer dereference", b)
                  | Some next => buffer_Read_loop fuel n out (set_head next b)
                  end
            end
        end
  end.

(** [Read(buf)] for a slice of length [n]: the bytes copied and the error.
    Each element takes at most two turns of the loop. *)
Definition buffer_Read (n : nat) : M buffer (list byte * option error) := λ b,
  buffer_Read_loop (2 * size (b_elems b) + 2) n [] b.

(** ** Representation *)

(** The elements at [ls] form a list with the contents [segs]. *)
Fixpoint linked (h : gmap nat element) (ls : list nat) (segs : list (list byte))
    : Prop :=
  match ls, segs with
  | l :: ls', s :: segs' =>
      h !! l = Some (mkElement s (head ls')) ∧
      match ls' with [] => segs' = [] | _ => linked h ls' segs' end
  | _, _ => False
  end.

Record chain (b : buffer) (ls : list nat) (segs : list (list byte)) : Prop := {
  chain_linked : linked (b_elems b) ls segs;
  chain_nodup : NoDup ls;
  chain_head : head ls = Some (b_head b);
  chain_tail : last ls = Some (b_tail b);
  chain_fresh : ∀ l, (b_fresh b ≤ l)%nat → b_elems b !! l = None;
}.

(** [b] holds the bytes [q], in the order they will be read. *)
Definition buffer_repr (b : buffer) (q : list byte) : Prop :=
  ∃ ls segs, chain b ls segs ∧ q = mjoin segs.

(** ** The abstract byte queue *)

(** What [Read] of [n] bytes promises on a queue [q]. *)
Definition queue_read (n : nat) (closed : bool) (q : list byte)
    : outcome (list byte * option error) :=
  if (n =? 0)%nat then Ret ([], None)
  else match q with
       | [] => if closed then Ret ([], Some io_EOF) else Block
       | _ => Ret (take n q, None)
       end.

(** ** Lemmas on linked elements *)

Lemma linked_frame h h' ls segs :
  (∀ l, l ∈ ls → h' !! l = h !! l) → linked h ls segs → linked h' ls segs.
Proof.
  revert segs. induction ls as [|l ls IH]; intros [|s segs] Heq; simpl; try done.
  intros [Hl Htl]. rewrite Heq by constructor. split; [done|].
  destruct ls; [done|]. apply IH; [|done]. intros. apply Heq. by constructor.
Qed.

Lemma linked_dom h ls segs l : linked h ls segs → l ∈ ls → is_Some (h !! l).
Proof.
  revert segs. induction ls as [|l' ls IH]; intros [|s segs]; simpl; try done.
  intros [Hl Htl] [->|Hin]%elem_of_cons; [by rewrite Hl|].
  destruct ls; [by apply elem_of_nil in Hin|]. eauto.
Qed.

Lemma linked_snoc h ls segs t e p :
  linked h ls segs → NoDup ls → last ls = Some t → e ∉ ls →
  linked (<[e := mkElement p None]>
            (alter (λ el, mkElement (el_buf el) (Some e)) t h))
    (ls ++ [e]) (segs ++ [p]).
Proof.
  revert segs. induction ls as [|l ls IH]; intros [|s segs]; cbn [linked]; try done.
  intros [Hl Htl] [Hnl Hnd]%NoDup_cons Hlast He.
  apply not_elem_of_cons in He as [Hel He]. cbn [app linked].
  destruct ls as [|l' ls].
  - subst segs. simplify_eq/=. rewrite lookup_insert_ne, lookup_alter_eq, Hl by done.
    rewrite lookup_insert_eq. done.
  - rewrite last_cons_cons in Hlast. split.
    + rewrite lookup_insert_ne by done. rewrite lookup_alter_ne; [done|].
      intros ->. apply Hnl. by apply last_Some_elem_of.
    + by apply IH.
Qed.

(** ** Each primitive on the representation *)

Lemma newBuffer_repr : buffer_repr newBuffer [].
Proof.
  exists [0%nat], [[]]. split; [|done]. split; try done.
  - repeat constructor. by intros ?%elem_of_nil.
  - intros l Hl. cbn in *. rewrite lookup_singleton_ne by lia. done.
Qed.

Lemma chain_not_fresh b ls segs l :
  chain b ls segs → (b_fresh b ≤ l)%nat → l ∉ ls.
Proof.
  intros [Hl _ _ _ Hf] Hle Hin. destruct (linked_dom _ _ _ _ Hl Hin) as [? Hs].
  by rewrite Hf in Hs.
Qed.

Lemma chain_write b ls segs p :
  chain b ls segs → chain (buffer_write p b) (ls ++ [b_fresh b]) (segs ++ [p]).
Proof.
  intros Hc. pose proof (chain_not_fresh _ _ _ _ Hc (le_n _)) as Hnew.
  destruct Hc as [Hl Hnd Hh Ht Hf]. split; cbn.
  - by apply linked_snoc.
  - apply NoDup_app. split_and!; [done| |apply NoDup_singleton].
    by intros x Hx ->%list_elem_of_singleton.
  - by destruct ls.
  - by rewrite last_snoc.
  - intros l Hle. rewrite lookup_insert_ne by lia. rewrite lookup_alter_ne.
    { apply Hf. lia. }
    intros <-. pose proof (linked_dom _ _ _ _ Hl (last_Some_elem_of _ _ Ht)) as [? Hs].
    rewrite Hf in Hs by lia. done.
Qed.

Lemma chain_eof b ls segs : chain b ls segs → chain (buffer_eof b) ls segs.
Proof. intros []. by split. Qed.

Lemma chain_set_head_buf b l ls s s' segs :
  chain b (l :: ls) (s :: segs) → chain (set_head_buf s' b) (l :: ls) (s' :: segs).
Proof.
  intros [Hl Hnd Hh Ht Hf]. injection Hh as Hh. split; cbn [set_head_buf b_elems
    b_head b_tail b_fresh]; try done.
  - cbn [linked] in *. destruct Hl as [Hl Htl]. rewrite <- Hh, lookup_alter_eq, Hl.
    split; [done|]. destruct ls as [|l' ls]; [done|].
    apply NoDup_cons in Hnd as [Hnd _]. eapply linked_frame; [|done].
    intros k Hk. rewrite lookup_alter_ne; congruence.
  - by rewrite <- Hh.
  - intros k Hk. rewrite lookup_alter_ne; [by apply Hf|].
    intros <-. destruct Hl as [Hl _]. rewrite <- Hh in Hk.
    by rewrite Hf in Hl.
Qed.

Lemma chain_set_head b l l' ls segs :
  chain b (l :: l' :: ls) ([] :: segs) → chain (set_head l' b) (l' :: ls) segs.
Proof.
  intros [Hl Hnd Hh Ht Hf]. split; cbn [set_head b_elems b_head b_tail b_fresh]; try done.
  - by destruct Hl.
  - by apply NoDup_cons in Hnd as [_ ?].
Qed.

Lemma chain_size b ls segs : chain b ls segs → (length ls ≤ size (b_elems b))%nat.
Proof.
  intros Hc. rewrite <- size_dom.
  rewrite <- (size_list_to_set (C := gset nat) ls) by apply Hc.
  apply subseteq_size. intros l Hl%elem_of_list_to_set.
  apply elem_of_dom. eapply linked_dom; [apply Hc|done].
Qed.

(** ** Read *)

(** What the loop returns once [out] was copied and [q] remains. *)
Definition loop_result (n : nat) (out : list byte) (closed : bool) (q : list byte)
    : outcome (list byte * option error) :=
  match q with
  | [] => if (n =? 0)%nat || (0 <? length out)%nat then Ret (out, None)
          else if closed then Ret (out, Some io_EOF) else Block
  | _ => Ret (out ++ take n q, None)
  end.

(** Turns of the loop a list of elements can take. *)
Definition loop_bound (ls : list nat) (segs : list (list byte)) : nat :=
  match segs with
  | [] :: _ => 2 * length ls
  | _ => S (2 * length ls)
  end.

Lemma loop_result_more n out s q closed :
  s ≠ [] → (length s < n)%nat →
  loop_result (n - length s) (out ++ s) closed q = loop_result n out closed (s ++ q).
Proof.
  intros Hs Hn. destruct s as [|b s]; [done|]. unfold loop_result.
  destruct q as [|c q].
  - rewrite app_nil_r, orb_comm, length_app. cbn [app]. rewrite take_ge by (simpl in *; lia).
    destruct (Nat.ltb_spec 0 (length out + length (b :: s))); [done|simpl in *; lia].
  - cbn [app]. rewrite <- app_assoc. do 3 f_equal.
    change (b :: s ++ c :: q) with ((b :: s) ++ c :: q).
    rewrite take_app_ge by lia. done.
Qed.

Lemma loop_result_enough n out s q closed :
  s ≠ [] → (n ≤ length s)%nat →
  loop_result n out closed (s ++ q) = Ret (out ++ take n s, None).
Proof.
  intros Hs Hn. destruct s as [|b s]; [done|]. unfold loop_result. cbn [app].
  change (b :: s ++ q) with ((b :: s) ++ q). by rewrite take_app_le.
Qed.

Lemma Read_loop_spec fuel n out b ls segs :
  chain b ls segs → (loop_bound ls segs ≤ fuel)%nat →
  ∃ b', buffer_Read_loop fuel n out b
          = (loop_result n out (b_closed b) (mjoin segs), b') ∧
        buffer_repr b' (drop n (mjoin segs)) ∧ b_closed b' = b_closed b.
Proof.
  revert n out b ls segs. induction fuel as [|fuel IH]; intros n out b ls segs Hc Hfuel.
  { destruct Hc as [Hl _ _ _ _]. destruct ls, segs as [|[]]; simpl in *; try done; lia. }
  cbn [buffer_Read_loop]. destruct (Nat.eqb_spec n 0) as [->|Hn].
  { exists b. split_and!; [|by exists ls, segs|done].
    unfold loop_result. destruct (mjoin segs); [done|]. cbn [take firstn]. by rewrite app_nil_r. }
  destruct ls as [|l ls], segs as [|s segs]; try by destruct (chain_linked _ _ _ Hc).
  pose proof (chain_head _ _ _ Hc) as [= Hh].
  pose proof (chain_linked _ _ _ Hc) as [Hl Hrest]. rewrite <- Hh, Hl.
  cbn [el_buf el_next]. destruct s as [|c s].
  - pose proof (chain_tail _ _ _ Hc) as Ht. destruct ls as [|l' ls].
    + injection Ht as Ht. rewrite Ht, Nat.eqb_refl. subst segs.
      exists b. cbn [mjoin list_join app]. unfold loop_result. rewrite drop_nil.
      destruct (Nat.eqb_spec n 0); [done|]. cbn [orb].
      split; [by destruct (0 <? length out)%nat, (b_closed b)|].
      split; [by exists [l], [[]]|done].
    + destruct (Nat.eqb_spec l (b_tail b)) as [Heq|_].
      { exfalso. rewrite last_cons_cons in Ht. apply last_Some_elem_of in Ht.
        pose proof (chain_nodup _ _ _ Hc) as [Hnd _]%NoDup_cons. by rewrite Heq in Hnd. }
      cbn [head]. apply chain_set_head in Hc.
      destruct (IH n out (set_head l' b) (l' :: ls) segs Hc) as (b' & Hb' & Hr & Hcl);
        [|by exists b'].
      unfold loop_bound in *. destruct segs as [|[]]; cbn [length] in *; lia.
  - apply (chain_set_head_buf _ _ _ _ (drop (Nat.min n (length (c :: s))) (c :: s))) in Hc.
    destruct (decide (n ≤ length (c :: s))%nat) as [Hle|Hgt].
    + rewrite Nat.min_l, Nat.sub_diag by done.
      destruct fuel as [|fuel]; [simpl in Hfuel; lia|]. cbn [buffer_Read_loop].
      exists (set_head_buf (drop n (c :: s)) b).
      cbn [mjoin list_join]. rewrite loop_result_enough, drop_app_le by done.
      rewrite Nat.min_l in Hc by done. split_and!; [done| |done].
      eexists _, _. split; [done|]. done.
    + rewrite Nat.min_r by lia. rewrite Nat.min_r, drop_all in Hc by lia.
      rewrite drop_all, firstn_all.
      destruct (IH (n - length (c :: s))%nat (out ++ c :: s)
                  (set_head_buf [] b) (l :: ls) ([] :: segs) Hc) as (b' & Hb' & Hr & Hcl).
      { unfold loop_bound in *. cbn [length] in *. lia. }
      exists b'. rewrite Hb'. cbn [mjoin list_join]. rewrite drop_app_ge by lia.
      split_and!; [|done|done]. cbn [set_head_buf b_closed app].
      by rewrite loop_result_more by (done || lia).
Qed.

(** ** Read refines the queue *)

Lemma loop_bound_size b ls segs :
  chain b ls segs → (loop_bound ls segs ≤ 2 * size (b_elems b) + 2)%nat.
Proof.
  intros Hc%chain_size. unfold loop_bound. destruct segs as [|[]]; lia.
Qed.

Lemma buffer_Read_spec n b q :
  buffer_repr b q →
  ∃ b', buffer_Read n b = (queue_read n (b_closed b) q, b') ∧
        buffer_repr b' (drop n q) ∧ b_closed b' = b_closed b.
Proof.
  intros (ls & segs & Hc & ->). unfold buffer_Read.
  destruct (Read_loop_spec _ n [] b ls segs Hc (loop_bound_size _ _ _ Hc))
    as (b' & Hb & Hr & Hcl).
  exists b'. rewrite Hb. split_and!; [|done|done]. f_equal.
  unfold loop_result, queue_read. destruct (mjoin segs) as [|c q].
  - by destruct (n =? 0)%nat.
  - by destruct (Nat.eqb_spec n 0) as [->|].
Qed.

Lemma buffer_write_repr b q p :
  buffer_repr b q → buffer_repr (buffer_write p b) (q ++ p).
Proof.
  intros (ls & segs & Hc & ->). eexists _, _. split; [by apply chain_write|].
  rewrite join_app. cbn [mjoin list_join]. by rewrite app_nil_r.
Qed.

Lemma buffer_eof_repr b q : buffer_repr b q → buffer_repr (buffer_eof b) q.
Proof. intros (ls & segs & Hc & ->). eexists _, _. split; [by apply chain_eof|done]. Qed.

#[export] Hint Resolve newBuffer_repr buffer_write_repr buffer_eof_repr : qtalk.

(** A buffer holds one queue of bytes only. *)
Lemma linked_functional h l ls ls' segs segs' :
  linked h (l :: ls) segs → linked h (l :: ls') segs' → l :: ls = l :: ls' ∧ segs = segs'.
Proof.
  revert l ls' segs segs'. induction ls as [|k ls IH]; intros l ls' [|s segs] [|s' segs'];
    cbn [linked]; try tauto; intros [H1 H1'] [H2 H2'].
  - destruct ls'; simplify_eq/=. done.
  - destruct ls' as [|k' ls']; simplify_eq/=.
    by destruct (IH k ls' segs segs' H1' H2') as [? ->]; simplify_eq.
Qed.

Lemma buffer_repr_functional b q q' : buffer_repr b q → buffer_repr b q' → q = q'.
Proof.
  intros (ls & segs & [Hl _ Hh _ _] & ->) (ls' & segs' & [Hl' _ Hh' _ _] & ->).
  destruct ls as [|l ls], ls' as [|l' ls']; simplify_eq/=.
  by destruct (linked_functional _ _ _ _ _ _ Hl Hl') as [_ ->].
Qed.

(** ** Sequences of operations *)

Inductive buffer_op :=
| OpWrite (p : list byte)
| OpEof
| OpRead (n : nat).

(** One operation: the bytes a read that did not wait returned, and the
    buffer. *)
Definition run_op (op : buffer_op) (b : buffer) : list byte * buffer :=
  match op with
  | OpWrite p => ([], buffer_write p b)
  | OpEof => ([], buffer_eof b)
  | OpRead n => match buffer_Read n b with
                | (Ret (out, _), b') => (out, b')
                | (_, b') => ([], b')
                end
  end.

Fixpoint run_ops (ops : list buffer_op) (b : buffer) : list byte * buffer :=
  match ops with
  | [] => ([], b)
  | op :: ops =>
      let '(out, b') := run_op op b in
      let '(outs, b'') := run_ops ops b' in (out ++ outs, b'')
  end.

(** What the operations write. *)
Definition written (ops : list buffer_op) : list byte :=
  mjoin ((λ op, match op with OpWrite p => p | _ => [] end) <$> ops).

Lemma run_op_repr op b q :
  buffer_repr b q →
  ∃ q', buffer_repr (run_op op b).2 q' ∧ q ++ written [op] = (run_op op b).1 ++ q'.
Proof.
  intros Hr. destruct op as [p| |n]; unfold written; cbn [run_op fmap list_fmap mjoin
    list_join fst snd app]; rewrite ?app_nil_r.
  - exists (q ++ p). auto with qtalk.
  - exists q. auto with qtalk.
  - destruct (buffer_Read_spec n b q Hr) as (b' & -> & Hr' & _). exists (drop n q).
    unfold queue_read. destruct (Nat.eqb_spec n 0) as [->|]; [done|].
    destruct q; [rewrite drop_nil in *; by destruct (b_closed b)|]. cbn [fst snd]. by rewrite take_drop.
Qed.

Lemma run_ops_repr ops b q :
  buffer_repr b q →
  ∃ q', buffer_repr (run_ops ops b).2 q' ∧ q ++ written ops = (run_ops ops b).1 ++ q'.
Proof.
  revert b q. induction ops as [|op ops IH]; intros b q Hr; cbn [run_ops].
  { exists q. split; [done|]. unfold written. simpl. by rewrite app_nil_r. }
  destruct (run_op_repr op b q Hr) as (q1 & Hr1 & Heq).
  destruct (run_op op b) as [out b1]. destruct (IH b1 q1 Hr1) as (q2 & Hr2 & Heq2).
  destruct (run_ops ops b1) as [outs b2]. exists q2. split; [done|]. cbn [fst snd] in *.
  change (op :: ops) with ([op] ++ ops). unfold written in *. rewrite fmap_app, join_app.
  by rewrite app_assoc, Heq, <- !app_assoc, Heq2.
Qed.

(** ** Properties *)

(** C13. [Read] on the linked list does what a byte queue promises: it ends, it
    returns the first [n] bytes (all of them if there are fewer), [io.EOF] on an
    empty closed buffer, and waits on an empty open one; the list then holds
    exactly the rest. *)
Theorem buffer_Read_refines n b q :
  buffer_repr b q →
  ∃ b', buffer_Read n b = (queue_read n (b_closed b) q, b') ∧
        buffer_repr b' (drop n q) ∧ b_closed b' = b_closed b.
Proof. apply buffer_Read_spec. Qed.

Lemma buffer_Read_refines_witness :
  ∃ b', buffer_Read 3 (buffer_write [x03; x04] (buffer_write [] (buffer_write [x01; x02] newBuffer)))
        = (Ret ([x01; x02; x03], None), b') ∧ buffer_repr b' [x04].
Proof.
  assert (buffer_repr (buffer_write [x03; x04] (buffer_write [] (buffer_write [x01; x02] newBuffer)))
    [x01; x02; x03; x04]) as Hr.
  { apply (buffer_write_repr _ [x01; x02]), (buffer_write_repr _ [x01; x02] []),
      (buffer_write_repr _ []), newBuffer_repr. }
  destruct (buffer_Read_refines 3 _ _ Hr) as (b' & Hb & Hr' & _).
  exists b'. exact (conj Hb Hr').
Defined.

(** Every interleaving of writes, reads and the end of the stream is first
    in, first out: what the reads returned, followed by what is still buffered,
    is what was written, in order. *)
Theorem buffer_fifo ops :
  ∃ q, buffer_repr (run_ops ops newBuffer).2 q ∧
       written ops = (run_ops ops newBuffer).1 ++ q.
Proof. exact (run_ops_repr ops newBuffer [] newBuffer_repr). Qed.
