(* ===== verification/Window.v ===== *)
(** * mux/util_window.go: the flow-control window of a writer

    [reserve] is the loop around a condition variable: it registers as a
    waiter, waits while the window is empty and open, then takes its share. *)
From S2P Require Import Prelude GoRuntime.

(** [type window struct]; [win] is a [uint32]. *)
Record window := mkWindow {
  w_win : Z;
  w_writeWaiters : Z;
  w_closed : bool;
}.

(** A window as [newChannel] leaves it. *)
Definition newWindow : window := mkWindow 0 0 false.

(** [add(win uint32) bool]. The sum wraps at 32 bits. *)
Definition window_add (win : Z) (w : window) : bool * window :=
  if win =? 0 then (true, w)
  else if u32 (w_win w + win) <? win then (false, w)
  else (true, mkWindow (u32 (w_win w + win)) (w_writeWaiters w) (w_closed w)).

Definition window_close (w : window) : window :=
  mkWindow (w_win w) (w_writeWaiters w) true.

(** [reserve] up to the loop: [w.writeWaiters++]. *)
Definition reserve_enter (w : window) : window :=
  mkWindow (w_win w) (w_writeWaiters w + 1) (w_closed w).

(** The loop's condition: wait while this holds. *)
Definition reserve_waits (w : window) : bool :=
  (w_win w =? 0) && negb (w_closed w).

(** [reserve] after the loop. *)
Definition reserve_finish (win : Z) (w : window) : (Z * option error) * window :=
  let win' := if w_win w <? win then w_win w else win in
  ((win', if w_closed w then Some io_EOF else None),
   mkWindow (u32 (w_win w - win')) (w_writeWaiters w - 1) (w_closed w)).

(** A waiter that runs again after a broadcast. *)
Definition reserve_retry (win : Z) : M window (Z * option error) := λ w,
  if reserve_waits w then (Block, w)
  else let '(r, w') := reserve_finish win w in (Ret r, w').

(** [reserve(win uint32) (uint32, error)]. *)
Definition window_reserve (win : Z) : M window (Z * option error) := λ w,
  reserve_retry win (reserve_enter w).

(** ** Facts *)

Definition window_wf (w : window) : Prop := is_u32 (w_win w).

(** The overflow test of [add] is exact. *)
Lemma window_add_spec win w :
  window_wf w → is_u32 win →
  window_add win w =
    if w_win w + win <? 2 ^ 32
    then (true, mkWindow (w_win w + win) (w_writeWaiters w) (w_closed w))
    else (false, w).
Proof.
  unfold window_wf, is_u32, window_add, u32. intros Hw Hwin. destruct w as [v n c].
  cbn [w_win w_writeWaiters w_closed] in *.
  destruct (Z.eqb_spec win 0) as [->|].
  { rewrite Z.add_0_r. by cmp_true. }
  destruct (Z.ltb_spec (v + win) (2 ^ 32)).
  - rewrite Z.mod_small by lia. by cmp_false.
  - rewrite <- (Z.mod_unique_pos (v + win) (2 ^ 32) 1 (v + win - 2 ^ 32)) by lia.
    by cmp_true.
Qed.

Lemma window_add_wf win w : window_wf w → is_u32 win → window_wf (window_add win w).2.
Proof.
  intros Hw Hwin. rewrite window_add_spec by done. case_cmp; [|done].
  unfold window_wf, is_u32 in *. cbn. lia.
Qed.

Lemma reserve_finish_spec win w :
  window_wf w → is_u32 win →
  reserve_finish win w =
    ((Z.min (w_win w) win, if w_closed w then Some io_EOF else None),
     mkWindow (w_win w - Z.min (w_win w) win) (w_writeWaiters w - 1) (w_closed w)).
Proof.
  unfold window_wf, is_u32, reserve_finish. intros Hw Hwin.
  replace (if w_win w <? win then w_win w else win) with (Z.min (w_win w) win)
    by (case_cmp; lia).
  rewrite u32_small; [done|]. unfold is_u32. lia.
Qed.

Lemma window_reserve_spec win w :
  window_wf w → is_u32 win →
  window_reserve win w =
    if (w_win w =? 0) && negb (w_closed w) then (Block, reserve_enter w)
    else (Ret (Z.min (w_win w) win, if w_closed w then Some io_EOF else None),
          mkWindow (w_win w - Z.min (w_win w) win) (w_writeWaiters w) (w_closed w)).
Proof.
  intros Hw Hwin. unfold window_reserve, reserve_retry, reserve_waits.
  cbn [reserve_enter w_win w_closed]. destruct (_ && _); [done|].
  rewrite reserve_finish_spec by done. cbn [reserve_enter w_win w_closed w_writeWaiters].
  by rewrite Z.add_simpl_r.
Qed.

#[export] Hint Resolve window_add_wf : qtalk.

(** ** Properties *)

(** C18. [reserve] never takes more than was asked for or than is there, the
    subtraction never wraps, it waits exactly while the window is empty and
    open, and it takes at least one byte whenever one was asked for and it
    returns without error. *)
Theorem window_reserve_safe win w :
  window_wf w → is_u32 win →
  match window_reserve win w with
  | (Ret (got, err), w') =>
      0 ≤ got ≤ win ∧ w_win w' = w_win w - got ∧ window_wf w' ∧
      w_writeWaiters w' = w_writeWaiters w ∧
      (err = None → 0 < win → 0 < got) ∧ (err = None ↔ w_closed w = false)
  | (Block, w') =>
      w_win w = 0 ∧ w_closed w = false ∧ w_win w' = 0 ∧
      w_writeWaiters w' = w_writeWaiters w + 1
  | _ => False
  end.
Proof.
  intros Hw Hwin. rewrite window_reserve_spec by done.
  unfold window_wf, is_u32 in *. destruct w as [v n c]. cbn [w_win w_closed w_writeWaiters] in *.
  destruct (Z.eqb_spec v 0), c; cbn; split_and!; try lia; try done.
Qed.

Lemma window_reserve_safe_witness :
  window_wf (mkWindow 5 0 false) ∧ is_u32 9 ∧
  window_reserve 9 (mkWindow 5 0 false) = (Ret (5, None), mkWindow 0 0 false) ∧
  0 ≤ 5 ≤ 9.
Proof.
  assert (window_wf (mkWindow 5 0 false)) as H1 by (unfold window_wf, is_u32; cbn; lia).
  assert (is_u32 9) as H2 by (unfold is_u32; lia).
  split; [exact H1|]. split; [exact H2|]. split; [reflexivity|].
  exact (proj1 (window_reserve_safe 9 _ H1 H2)).
Defined.

(** [add] detects 32-bit overflow exactly: it adds when the sum fits and
    otherwise refuses and changes nothing. *)
Theorem window_add_exact win w :
  window_wf w → is_u32 win →
  (window_add win w).1 = bool_decide (w_win w + win < 2 ^ 32) ∧
  (window_add win w).2 =
    (if (window_add win w).1 then mkWindow (w_win w + win) (w_writeWaiters w) (w_closed w) else w).
Proof.
  intros Hw Hwin. rewrite window_add_spec by done. case_cmp; cbn.
  - by rewrite bool_decide_true.
  - by rewrite bool_decide_false by lia.
Qed.

Lemma window_add_exact_witness :
  window_wf (mkWindow (2 ^ 32 - 1) 0 false) ∧ is_u32 2 ∧
  (window_add 2 (mkWindow (2 ^ 32 - 1) 0 false)).1 = bool_decide (2 ^ 32 - 1 + 2 < 2 ^ 32).
Proof.
  assert (window_wf (mkWindow (2 ^ 32 - 1) 0 false)) as H1 by (unfold window_wf, is_u32; cbn; lia).
  assert (is_u32 2) as H2 by (unfold is_u32; lia).
  split; [exact H1|]. split; [exact H2|]. apply (window_add_exact 2 _ H1 H2).
Defined.
