(* ===== verification/ChanList.v ===== *)
(** * mux/util_chanlist.go: the table of channels by local id

    A slot holds a pointer to a channel (an address of the session's heap) or
    nil. Ids are slot numbers; [add] reuses the first free slot. *)
From S2P Require Import Prelude.

(** Pointers to channels. *)
Abbreviation chan_ptr := nat.

(** [chans []*channel]; a nil slice is the empty list. *)
Abbreviation chanList := (list (option chan_ptr)).

(** [add(ch) uint32]: the first nil slot, else a new one. *)
Definition chanList_add (ch : chan_ptr) (c : chanList) : Z * chanList :=
  match list_find (λ slot, slot = None) c with
  | Some (i, _) => (u32 (Z.of_nat i), <[i := Some ch]> c)
  | None => let c' := c ++ [Some ch] in (u32 (len c' - 1), c')
  end.

(** [getChan(id) *channel]. *)
Definition chanList_getChan (id : Z) (c : chanList) : option chan_ptr :=
  if id <? u32 (len c) then mjoin (c !! Z.to_nat id) else None.

(** [remove(id)]. *)
Definition chanList_remove (id : Z) (c : chanList) : chanList :=
  if id <? u32 (len c) then <[Z.to_nat id := None]> c else c.

(** [dropAll() []*channel]: the channels left, and the emptied list. *)
Definition chanList_dropAll (c : chanList) : list chan_ptr * chanList :=
  (omap id c, []).

(** ** Facts *)

(** The table fits 32-bit ids. *)
Definition chanList_small (c : chanList) : Prop := len c < 2 ^ 32 - 1.

Lemma getChan_lookup c id :
  chanList_small c → 0 ≤ id →
  chanList_getChan id c = mjoin (c !! Z.to_nat id).
Proof.
  intros Hs Hid. unfold chanList_getChan, chanList_small in *.
  rewrite u32_small by (unfold is_u32; len_solve).
  case_cmp; [done|]. rewrite lookup_ge_None_2; [done|]. unfold len in *. lia.
Qed.

(** [add] takes a slot that was free (or just past the end), and the id it
    gives finds the channel again. *)
Lemma chanList_add_spec ch c :
  chanList_small c →
  ∃ i : nat, chanList_add ch c = (Z.of_nat i, (chanList_add ch c).2) ∧
    mjoin (c !! i) = None ∧ (i ≤ length c)%nat ∧
    (∀ j : nat, (j < i)%nat → is_Some (mjoin (c !! j))) ∧
    (∀ j : nat, (chanList_add ch c).2 !! j = if decide (j = i) then Some (Some ch) else c !! j) ∧
    len c ≤ len (chanList_add ch c).2 ≤ len c + 1.
Proof.
  intros Hs. unfold chanList_add, chanList_small in *.
  destruct (list_find _ c) as [[i x]|] eqn:E; cbn [snd].
  - apply list_find_Some in E as (Hi & -> & Hmin). exists i.
    pose proof (lookup_lt_Some _ _ _ Hi).
    rewrite u32_small by (unfold is_u32, len in *; lia).
    split_and!; [done|by rewrite Hi|lia| | |unfold len; rewrite length_insert; lia..].
    + intros j Hj. destruct (lookup_lt_is_Some_2 c j) as [y Hy]; [lia|].
      rewrite Hy. destruct y; [done|]. by apply (Hmin j _ Hy) in Hj.
    + intros j. case_decide; subst; [by apply list_lookup_insert_eq|by apply list_lookup_insert_ne].
  - exists (length c). rewrite len_app, Z.add_simpl_r.
    rewrite u32_small by (unfold is_u32; len_solve).
    split_and!; [done|by rewrite lookup_ge_None_2|done| | |len_solve..].
    + intros j Hj. destruct (lookup_lt_is_Some_2 c j Hj) as [y Hy]. rewrite Hy.
      apply list_find_None in E. rewrite Forall_lookup in E.
      destruct y; [done|]. by specialize (E _ _ Hy).
    + intros j. case_decide; subst; [by rewrite lookup_app_r, Nat.sub_diag|].
      destruct (decide (j < length c)%nat); [by rewrite lookup_app_l|].
      rewrite lookup_ge_None_2 by (rewrite length_app; simpl; lia).
      by rewrite lookup_ge_None_2 by lia.
Qed.

Lemma chanList_remove_lookup c id j :
  chanList_small c → 0 ≤ id →
  mjoin (chanList_remove id c !! j) = if decide (j = Z.to_nat id) then None else mjoin (c !! j).
Proof.
  intros Hs Hid. unfold chanList_remove, chanList_small in *.
  rewrite u32_small by (unfold is_u32; len_solve). case_cmp.
  - case_decide; subst.
    + rewrite list_lookup_insert_eq; [done|]. unfold len in *. lia.
    + by rewrite list_lookup_insert_ne.
  - case_decide; subst; [|done]. rewrite lookup_ge_None_2; [done|]. unfold len in *. lia.
Qed.

Lemma chanList_remove_len c id : len (chanList_remove id c) = len c.
Proof. unfold chanList_remove. case_cmp; [|done]. unfold len. by rewrite length_insert. Qed.

Lemma dropAll_elem c l : l ∈ (chanList_dropAll c).1 ↔ ∃ i : nat, c !! i = Some (Some l).
Proof.
  cbn. rewrite list_elem_of_omap. split.
  - intros ([y|] & Hin & [=->]). by apply list_elem_of_lookup in Hin.
  - intros [i Hi]. exists (Some l). split; [|done]. by eapply list_elem_of_lookup_2.
Qed.

(** ** Properties *)

(** Ids are stable: adding a channel gives it an id that no live channel
    has, the lowest free one, under which it is found until that id is removed;
    no other id is affected by the addition or by the removal. *)
Theorem chanList_ids ch c :
  chanList_small c →
  let id := (chanList_add ch c).1 in
  let c' := (chanList_add ch c).2 in
  chanList_getChan id c = None ∧ chanList_getChan id c' = Some ch ∧
  (∀ j, 0 ≤ j < id → is_Some (chanList_getChan j c)) ∧
  (∀ j, 0 ≤ j → j ≠ id → chanList_getChan j c' = chanList_getChan j c) ∧
  (∀ j, 0 ≤ j → chanList_small c' →
     chanList_getChan j (chanList_remove id c') = chanList_getChan j c).
Proof.
  intros Hs. destruct (chanList_add_spec ch c Hs) as (i & Hadd & Hfree & Hi & Hmin & Hlk & Hlen).
  rewrite Hadd. cbn [fst snd]. set (c' := (chanList_add ch c).2) in *.
  assert (∀ j, 0 ≤ j → chanList_getChan j c' = mjoin (c' !! Z.to_nat j)) as Hget.
  { intros j Hj. unfold chanList_getChan. case_cmp; [done|].
    unfold chanList_small in Hs. pose proof (u32_small (len c')) as Hu.
    destruct (decide (len c' < 2 ^ 32)); [|exfalso; unfold is_u32 in *; lia].
    rewrite Hu in * by (unfold is_u32; pose proof (len_nonneg c'); lia).
    rewrite lookup_ge_None_2; [done|]. unfold len in *. lia. }
  split_and!.
  - by rewrite getChan_lookup, Nat2Z.id by (done || lia).
  - rewrite Hget, Nat2Z.id, Hlk by lia. by rewrite decide_True.
  - intros j Hj. rewrite getChan_lookup by (done || lia). apply Hmin. lia.
  - intros j Hj Hne. rewrite Hget, getChan_lookup, Hlk by done.
    by rewrite decide_False by lia.
  - intros j Hj Hs'. rewrite !getChan_lookup; [|done|done|by unfold chanList_small;
      rewrite chanList_remove_len|done].
    rewrite chanList_remove_lookup, Nat2Z.id, Hlk by (done || lia).
    destruct (decide (Z.to_nat j = i)) as [->|]; done.
Qed.

Lemma chanList_ids_witness :
  chanList_small [Some 4%nat; None; Some 6%nat] ∧
  chanList_getChan (chanList_add 9%nat [Some 4%nat; None; Some 6%nat]).1
    (chanList_add 9%nat [Some 4%nat; None; Some 6%nat]).2 = Some 9%nat.
Proof.
  assert (chanList_small [Some 4%nat; None; Some 6%nat]) as H by (by vm_compute).
  split; [exact H|]. apply (chanList_ids 9%nat _ H).
Defined.
