(* ===== verification/MuxState.v ===== *)
(** * The state of a mux session and of its channels

    The structs [channel] (mux/channel.go) and [session] (mux/session.go), and
    the primitive accesses the methods are written with. Channels are shared by
    pointer between the session's loop, its table and the user's goroutines, so
    they live in a heap of the session state. *)
From S2P Require Import Prelude GoRuntime Frame Buffer Window ChanList.

(** ** Constants of session.go *)

Definition minPacketLength : Z := 9.
Definition maxPacketLength : Z := 2 ^ 31.
Definition channelMaxPacket : Z := 2 ^ 24.
Definition channelWindowSize : Z := 64 * channelMaxPacket.
Definition chanSize : nat := 16.

(** ** Structs *)

Inductive channelDirection := channelInbound | channelOutbound.

#[global] Instance channelDirection_eq_dec : EqDecision channelDirection.
Proof. solve_decision. Defined.

(** [type channel struct]. The back pointer [session] is the state the methods
    run on; [packetBuf] is never used by the code. *)
Record channel := mkChannel {
  c_localId : Z;
  c_remoteId : Z;
  c_maxIncomingPayload : Z;
  c_maxRemotePayload : Z;
  c_direction : channelDirection;
  c_msg : gochan Message;
  c_sentEOF : bool;
  c_remoteWin : window;
  c_pending : buffer;
  c_myWindow : Z;
  c_sentClose : bool;
}.

(** [type session struct], with the heap its channel pointers point into.
    [enc]/[dec] are the two sides of the transport [t]; [s_tclosed] counts the
    calls of [t.Close]; [s_inbox] is the channel the loop currently offers on
    the unbuffered [inbox]. *)
Record session := mkSession {
  s_enc : writer;
  s_dec : reader;
  s_tclosed : nat;
  s_chans : chanList;
  s_heap : gmap chan_ptr channel;
  s_fresh : chan_ptr;
  s_inbox : option chan_ptr;
  s_err : option error;
  s_closeCh : gochan bool;
}.

(** ** Field assignment *)

Definition set_localId v c := mkChannel v (c_remoteId c) (c_maxIncomingPayload c)
  (c_maxRemotePayload c) (c_direction c) (c_msg c) (c_sentEOF c) (c_remoteWin c)
  (c_pending c) (c_myWindow c) (c_sentClose c).
Definition set_remoteId v c := mkChannel (c_localId c) v (c_maxIncomingPayload c)
  (c_maxRemotePayload c) (c_direction c) (c_msg c) (c_sentEOF c) (c_remoteWin c)
  (c_pending c) (c_myWindow c) (c_sentClose c).
Definition set_maxIncomingPayload v c := mkChannel (c_localId c) (c_remoteId c) v
  (c_maxRemotePayload c) (c_direction c) (c_msg c) (c_sentEOF c) (c_remoteWin c)
  (c_pending c) (c_myWindow c) (c_sentClose c).
Definition set_maxRemotePayload v c := mkChannel (c_localId c) (c_remoteId c)
  (c_maxIncomingPayload c) v (c_direction c) (c_msg c) (c_sentEOF c) (c_remoteWin c)
  (c_pending c) (c_myWindow c) (c_sentClose c).
Definition set_msg v c := mkChannel (c_localId c) (c_remoteId c)
  (c_maxIncomingPayload c) (c_maxRemotePayload c) (c_direction c) v (c_sentEOF c)
  (c_remoteWin c) (c_pending c) (c_myWindow c) (c_sentClose c).
Definition set_sentEOF v c := mkChannel (c_localId c) (c_remoteId c)
  (c_maxIncomingPayload c) (c_maxRemotePayload c) (c_direction c) (c_msg c) v
  (c_remoteWin c) (c_pending c) (c_myWindow c) (c_sentClose c).
Definition set_remoteWin v c := mkChannel (c_localId c) (c_remoteId c)
  (c_maxIncomingPayload c) (c_maxRemotePayload c) (c_direction c) (c_msg c)
  (c_sentEOF c) v (c_pending c) (c_myWindow c) (c_sentClose c).
Definition set_pending v c := mkChannel (c_localId c) (c_remoteId c)
  (c_maxIncomingPayload c) (c_maxRemotePayload c) (c_direction c) (c_msg c)
  (c_sentEOF c) (c_remoteWin c) v (c_myWindow c) (c_sentClose c).
Definition set_myWindow v c := mkChannel (c_localId c) (c_remoteId c)
  (c_maxIncomingPayload c) (c_maxRemotePayload c) (c_direction c) (c_msg c)
  (c_sentEOF c) (c_remoteWin c) (c_pending c) v (c_sentClose c).
Definition set_sentClose v c := mkChannel (c_localId c) (c_remoteId c)
  (c_maxIncomingPayload c) (c_maxRemotePayload c) (c_direction c) (c_msg c)
  (c_sentEOF c) (c_remoteWin c) (c_pending c) (c_myWindow c) v.

Definition set_enc v s := mkSession v (s_dec s) (s_tclosed s) (s_chans s) (s_heap s)
  (s_fresh s) (s_inbox s) (s_err s) (s_closeCh s).
Definition set_dec v s := mkSession (s_enc s) v (s_tclosed s) (s_chans s) (s_heap s)
  (s_fresh s) (s_inbox s) (s_err s) (s_closeCh s).
Definition set_tclosed v s := mkSession (s_enc s) (s_dec s) v (s_chans s) (s_heap s)
  (s_fresh s) (s_inbox s) (s_err s) (s_closeCh s).
Definition set_chans v s := mkSession (s_enc s) (s_dec s) (s_tclosed s) v (s_heap s)
  (s_fresh s) (s_inbox s) (s_err s) (s_closeCh s).
Definition set_heap v s := mkSession (s_enc s) (s_dec s) (s_tclosed s) (s_chans s) v
  (s_fresh s) (s_inbox s) (s_err s) (s_closeCh s).
Definition set_fresh v s := mkSession (s_enc s) (s_dec s) (s_tclosed s) (s_chans s)
  (s_heap s) v (s_inbox s) (s_err s) (s_closeCh s).
Definition set_inbox v s := mkSession (s_enc s) (s_dec s) (s_tclosed s) (s_chans s)
  (s_heap s) (s_fresh s) v (s_err s) (s_closeCh s).
Definition set_err v s := mkSession (s_enc s) (s_dec s) (s_tclosed s) (s_chans s)
  (s_heap s) (s_fresh s) (s_inbox s) v (s_closeCh s).
Definition set_closeCh v s := mkSession (s_enc s) (s_dec s) (s_tclosed s) (s_chans s)
  (s_heap s) (s_fresh s) (s_inbox s) (s_err s) v.

(** ** Access to a channel through its pointer *)

Abbreviation MS := (M session).

Definition deref (l : chan_ptr) : MS channel := λ s,
  match s_heap s !! l with
  | Some c => (Ret c, s)
  | None => (Panic "nil pointer dereference", s)
  end.

(** [ch.field = v]. *)
Definition assign (l : chan_ptr) (f : channel → channel) : MS unit := λ s,
  (Ret tt, set_heap (alter f l (s_heap s)) s).

(** Run a method of a component of the channel. *)
Definition on_remoteWin {A} (l : chan_ptr) (m : M window A) : MS A :=
  c ← deref l;
  st (λ s, let '(o, w) := m (c_remoteWin c) in
           (o, (assign l (set_remoteWin w) s).2)).

Definition on_pending {A} (l : chan_ptr) (m : M buffer A) : MS A :=
  c ← deref l;
  st (λ s, let '(o, b) := m (c_pending c) in (o, (assign l (set_pending b) s).2)).

(** An operation on the Go channel [ch.msg]. *)
Definition on_msg {A} (l : chan_ptr)
    (f : gochan Message → outcome (A * gochan Message)) : MS A :=
  c ← deref l;
  st (λ s, match f (c_msg c) with
           | Ret (a, q) => (Ret a, (assign l (set_msg q) s).2)
           | Block => (Block, s)
           | Panic msg => (Panic msg, s)
           | NoFuel => (NoFuel, s)
           end).

Definition msg_send (m : Message) (q : gochan Message) :=
  match chan_send m q with
  | Ret q' => Ret (tt, q') | Block => Block | Panic e => Panic e | NoFuel => NoFuel
  end.

Definition msg_close (q : gochan Message) :=
  match chan_close q with
  | Ret q' => Ret (tt, q') | Block => Block | Panic e => Panic e | NoFuel => NoFuel
  end.

(** [s.enc.Encode(msg)]. *)
Definition encode (msg : Message) : MS (option error) := λ s,
  let '(e, w) := Encoder_Encode msg (s_enc s) in (Ret e, set_enc w s).

(** [s.chans.remove(id)], [s.chans.getChan(id)]. *)
Definition chans_remove (id : Z) : MS unit := λ s,
  (Ret tt, set_chans (chanList_remove id (s_chans s)) s).

Definition chans_getChan (id : Z) : MS (option chan_ptr) := λ s,
  (Ret (chanList_getChan id (s_chans s)), s).

(** ** Equations: running an access on a known channel *)

(** The state with the channel at [l] replaced. *)
Definition put_ch (l : chan_ptr) (c : channel) (s : session) : session :=
  set_heap (<[l := c]> (s_heap s)) s.

Lemma put_ch_put_ch l c c' s : put_ch l c' (put_ch l c s) = put_ch l c' s.
Proof. unfold put_ch, set_heap. simpl. by rewrite insert_insert_eq. Qed.

Lemma put_ch_id l c s : s_heap s !! l = Some c → put_ch l c s = s.
Proof. intros H. unfold put_ch. destruct s; cbn in *. unfold set_heap. cbn. by rewrite insert_id. Qed.

Lemma heap_put_ch l c s : s_heap (put_ch l c s) !! l = Some c.
Proof. unfold put_ch. cbn. apply lookup_insert_eq. Qed.

Lemma heap_put_ch_ne l l' c s : l ≠ l' → s_heap (put_ch l c s) !! l' = s_heap s !! l'.
Proof. intros. unfold put_ch. cbn. by apply lookup_insert_ne. Qed.

Lemma deref_eq l c s : s_heap s !! l = Some c → deref l s = (Ret c, s).
Proof. intros H. unfold deref. by rewrite H. Qed.

Lemma deref_none l s :
  s_heap s !! l = None → deref l s = (Panic "nil pointer dereference", s).
Proof. intros H. unfold deref. by rewrite H. Qed.

Lemma assign_eq l f c s :
  s_heap s !! l = Some c → assign l f s = (Ret tt, put_ch l (f c) s).
Proof.
  intros H. unfold assign, put_ch. repeat f_equal. apply map_eq. intros k.
  destruct (decide (l = k)) as [<-|]; [by rewrite lookup_alter_eq, H, lookup_insert_eq|].
  by rewrite lookup_alter_ne, lookup_insert_ne.
Qed.

Lemma bind_eq {S A B} (m : M S A) (k : A → M S B) s a s' :
  m s = (Ret a, s') → (m ≫= k) s = k a s'.
Proof. intros H. unfold mbind, M_bind. by rewrite H. Qed.

Lemma bind_stop {S A B} (m : M S A) (k : A → M S B) s o s' :
  m s = (o, s') → (∀ a, o ≠ Ret a) →
  (m ≫= k) s = (match o with Ret _ => NoFuel | Block => Block | Panic e => Panic e
                | NoFuel => NoFuel end, s').
Proof. intros H Hno. unfold mbind, M_bind. rewrite H. destruct o; [by destruct (Hno a)|done..]. Qed.

Lemma on_remoteWin_eq {A} l (m : M window A) c s o w :
  s_heap s !! l = Some c → m (c_remoteWin c) = (o, w) →
  on_remoteWin l m s = (o, put_ch l (set_remoteWin w c) s).
Proof.
  intros Hl Hm. unfold on_remoteWin. rewrite (bind_eq _ _ _ _ _ (deref_eq _ _ _ Hl)). unfold st. rewrite Hm.
  by rewrite (assign_eq _ _ _ _ Hl).
Qed.

Lemma on_pending_eq {A} l (m : M buffer A) c s o b :
  s_heap s !! l = Some c → m (c_pending c) = (o, b) →
  on_pending l m s = (o, put_ch l (set_pending b c) s).
Proof.
  intros Hl Hm. unfold on_pending. rewrite (bind_eq _ _ _ _ _ (deref_eq _ _ _ Hl)). unfold st. rewrite Hm.
  by rewrite (assign_eq _ _ _ _ Hl).
Qed.

Lemma on_msg_eq {A} l f c s (a : A) q :
  s_heap s !! l = Some c → f (c_msg c) = Ret (a, q) →
  on_msg l f s = (Ret a, put_ch l (set_msg q c) s).
Proof.
  intros Hl Hf. unfold on_msg. rewrite (bind_eq _ _ _ _ _ (deref_eq _ _ _ Hl)). unfold st. rewrite Hf.
  by rewrite (assign_eq _ _ _ _ Hl).
Qed.

Lemma on_msg_block {A} l (f : gochan Message → outcome (A * gochan Message)) c s :
  s_heap s !! l = Some c → f (c_msg c) = Block → on_msg l f s = (Block, s).
Proof.
  intros Hl Hf. unfold on_msg. rewrite (bind_eq _ _ _ _ _ (deref_eq _ _ _ Hl)). unfold st. by rewrite Hf.
Qed.
