(* ===== verification/Channel.v ===== *)
(** * mux/channel.go: the methods of a channel

    Each method runs on the session state; [l] is the pointer to the receiver.
    A mutex is the atomicity of the block it guards. *)
From S2P Require Import Prelude GoRuntime Frame Buffer Window ChanList.
From S2P Require Import MuxState.

(** [min(a uint32, b int) uint32]: [b] is first cut to 32 bits. *)
Definition go_min (a : Z) (b : Z) : Z := if a <? u32 b then a else u32 b.

(** [ID()]. *)
Definition channel_ID (l : chan_ptr) : MS Z :=
  ch ← deref l; mret (c_localId ch).

(** [send(msg)]. *)
Definition channel_send (l : chan_ptr) (msg : Message) : MS (option error) :=
  ch ← deref l;
  if c_sentClose ch then mret (Some io_EOF)
  else
    _ ← (match msg with
         | CloseMessage _ => assign l (set_sentClose true)
         | _ => mret tt
         end);
    encode msg.

(** [CloseWrite()]. *)
Definition channel_CloseWrite (l : chan_ptr) : MS (option error) :=
  _ ← assign l (set_sentEOF true);
  ch ← deref l;
  channel_send l (EOFMessage (c_remoteId ch)).

(** [Close()]. *)
Definition channel_Close (l : chan_ptr) : MS (option error) :=
  ch ← deref l; channel_send l (CloseMessage (c_remoteId ch)).

(** The loop of [Write]: [n] is the number of bytes written so far. *)
Fixpoint channel_Write_loop (fuel : nat) (l : chan_ptr) (data : list byte) (n : Z)
    : MS (Z * option error) :=
  match fuel with
  | O => nofuel_st
  | S fuel =>
      if len data =? 0 then mret (n, None)
      else
        ch ← deref l;
        r ← on_remoteWin l
              (window_reserve (go_min (c_maxRemotePayload ch) (len data)));
        match r with
        | (_, Some err) => mret (n, Some err)
        | (space, None) =>
            let toSend := take (Z.to_nat space) data in
            ch ← deref l;
            err ← encode (DataMessage (c_remoteId ch) (u32 (len toSend)) toSend);
            match err with
            | Some e => mret (n, Some e)
            | None =>
                channel_Write_loop fuel l (drop (length toSend) data)
                  (n + len toSend)
            end
        end
  end.

(** [Write(data)]: the bytes written and the error. *)
Definition channel_Write (fuel : nat) (l : chan_ptr) (data : list byte)
    : MS (Z * option error) :=
  ch ← deref l;
  if c_sentEOF ch then mret (0, Some io_EOF)
  else channel_Write_loop fuel l data 0.

(** [adjustWindow(n)]. *)
Definition channel_adjustWindow (l : chan_ptr) (n : Z) : MS (option error) :=
  _ ← assign l (λ c, set_myWindow (u32 (c_myWindow c + n)) c);
  ch ← deref l;
  channel_send l (WindowAdjustMessage (c_remoteId ch) n).

(** [Read(data)] for a slice of length [n]: the bytes and the error. *)
Definition channel_Read (l : chan_ptr) (n : nat)
    : MS (list byte * option error) :=
  r ← on_pending l (buffer_Read n);
  let '(out, err) := r in
  if 0 <? len out then
    err ← channel_adjustWindow l (u32 (len out));
    mret (out, if decide (err = Some io_EOF) then None else err)
  else mret (out, err).

(** [close()]. *)
Definition channel_close (l : chan_ptr) : MS unit :=
  _ ← on_pending l (λ b, (Ret tt, buffer_eof b));
  _ ← on_msg l msg_close;
  _ ← assign l (set_sentClose true);
  on_remoteWin l (λ w, (Ret tt, window_close w)).

(** [responseMessageReceived()]. *)
Definition responseMessageReceived (ch : channel) : option error :=
  match c_direction ch with
  | channelInbound =>
      Some (errorString "qmux: channel response message received on inbound channel")
  | channelOutbound => None
  end.

(** [handleData(msg)]. *)
Definition channel_handleData (l : chan_ptr) (Length : Z) (Data : list byte)
    : MS (option error) :=
  ch ← deref l;
  if c_maxIncomingPayload ch <? Length then
    mret (Some (errorString "qmux: incoming packet exceeds maximum payload size"))
  else if negb (Length =? u32 (len Data)) then
    mret (Some (errorString "qmux: wrong packet length"))
  else if c_myWindow ch <? Length then
    mret (Some (errorString "qmux: remote side wrote too much"))
  else
    _ ← assign l (λ c, set_myWindow (u32 (c_myWindow c - Length)) c);
    _ ← on_pending l (λ b, (Ret tt, buffer_write Data b));
    mret None.

(** [handle(msg)]: the session's loop gives the channel a message. *)
Definition channel_handle (l : chan_ptr) (msg : Message) : MS (option error) :=
  match msg with
  | DataMessage _ Length Data => channel_handleData l Length Data
  | CloseMessage _ =>
      ch ← deref l;
      _ ← channel_send l (CloseMessage (c_remoteId ch));
      ch ← deref l;
      _ ← chans_remove (c_localId ch);
      _ ← channel_close l;
      mret None
  | EOFMessage _ =>
      _ ← on_pending l (λ b, (Ret tt, buffer_eof b));
      mret None
  | WindowAdjustMessage _ AdditionalBytes =>
      ok ← on_remoteWin l (λ w, let '(ok, w') := window_add AdditionalBytes w in
                                (Ret ok, w'));
      if ok : bool then mret None
      else mret (Some (errorString ("qmux: invalid window update for "
                                    +:+ pretty AdditionalBytes +:+ " bytes")))
  | OpenConfirmMessage _ SenderID WindowSize MaxPacketSize =>
      ch ← deref l;
      match responseMessageReceived ch with
      | Some err => mret (Some err)
      | None =>
          if (MaxPacketSize <? minPacketLength) || (maxPacketLength <? MaxPacketSize)
          then mret (Some (errorString ("qmux: invalid MaxPacketSize "
                                        +:+ pretty MaxPacketSize +:+ " from peer")))
          else
            _ ← assign l (set_remoteId SenderID);
            _ ← assign l (set_maxRemotePayload MaxPacketSize);
            _ ← on_remoteWin l (λ w, let '(ok, w') := window_add WindowSize w in
                                     (Ret ok, w'));
            _ ← on_msg l (msg_send msg);
            mret None
      end
  | OpenFailureMessage ChannelID =>
      ch ← deref l;
      match responseMessageReceived ch with
      | Some err => mret (Some err)
      | None =>
          _ ← chans_remove ChannelID;
          _ ← on_msg l (msg_send msg);
          mret None
      end
  | OpenMessage _ _ _ =>
      mret (Some (errorString ("qmux: invalid channel message "
                               +:+ Message_String msg)))
  end.
