(* ===== verification/ChannelSpec.v ===== *)
(** * What the methods of a channel do, as equations

    Every method of Channel.v, run on a state where its receiver is allocated,
    equals an explicit new state; the proofs about sessions and flow control
    rewrite with these equations. *)
From S2P Require Import Prelude GoRuntime Frame Buffer Window ChanList.
From S2P Require Import MuxState Channel.

(** ** Running a method one statement at a time *)

Ltac heap_tac :=
  first [ eassumption | apply heap_put_ch | cbn; eassumption
        | cbn; apply lookup_insert_eq ].

Ltac mderef := erewrite bind_eq; [|eapply deref_eq; heap_tac].
Ltac massign := erewrite bind_eq; [|eapply assign_eq; heap_tac].

(** ** Auxiliary state changes *)

(** The channel as [close()] leaves it. *)
Definition closed_channel (c : channel) : channel :=
  set_remoteWin (window_close (c_remoteWin c))
    (set_sentClose true
       (set_msg (mkChan (ch_buf (c_msg c)) (ch_cap (c_msg c)) true)
          (set_pending (buffer_eof (c_pending c)) c))).

Definition is_close (msg : Message) : bool :=
  match msg with CloseMessage _ => true | _ => false end.

(** The channel as [send msg] leaves it, when it sends. *)
Definition sent_channel (msg : Message) (c : channel) : channel :=
  if is_close msg then set_sentClose true c else c.

(** ** send, Close, CloseWrite *)

Lemma encode_eq msg s :
  encode msg s = (Ret (Encoder_Encode msg (s_enc s)).1,
                  set_enc (Encoder_Encode msg (s_enc s)).2 s).
Proof. unfold encode. by destruct (Encoder_Encode msg (s_enc s)). Qed.

Lemma send_eq l msg c s :
  s_heap s !! l = Some c →
  channel_send l msg s =
    if c_sentClose c then (Ret (Some io_EOF), s)
    else encode msg (put_ch l (sent_channel msg c) s).
Proof.
  intros Hl. unfold channel_send. mderef. destruct (c_sentClose c); [done|].
  unfold sent_channel. destruct msg; cbn [is_close];
    first [by massign | by rewrite (put_ch_id _ _ _ Hl)].
Qed.

Lemma CloseWrite_eq l c s :
  s_heap s !! l = Some c →
  channel_CloseWrite l s =
    (let s1 := put_ch l (set_sentEOF true c) s in
     if c_sentClose c then (Ret (Some io_EOF), s1)
     else encode (EOFMessage (c_remoteId c)) s1).
Proof.
  intros Hl. unfold channel_CloseWrite. massign. mderef.
  rewrite (send_eq _ _ _ _ (heap_put_ch _ _ _)). cbn [c_sentClose set_sentEOF c_remoteId].
  unfold sent_channel. cbn [is_close]. by rewrite put_ch_put_ch.
Qed.

Lemma Close_eq l c s :
  s_heap s !! l = Some c →
  channel_Close l s =
    if c_sentClose c then (Ret (Some io_EOF), s)
    else encode (CloseMessage (c_remoteId c)) (put_ch l (set_sentClose true c) s).
Proof. intros Hl. unfold channel_Close. mderef. by rewrite (send_eq _ _ _ _ Hl). Qed.

(** ** adjustWindow, Read *)

Lemma adjustWindow_eq l n c s :
  s_heap s !! l = Some c →
  channel_adjustWindow l n s =
    (let s1 := put_ch l (set_myWindow (u32 (c_myWindow c + n)) c) s in
     if c_sentClose c then (Ret (Some io_EOF), s1)
     else encode (WindowAdjustMessage (c_remoteId c) n) s1).
Proof.
  intros Hl. unfold channel_adjustWindow. massign. mderef.
  rewrite (send_eq _ _ _ _ (heap_put_ch _ _ _)). cbn [c_sentClose set_myWindow c_remoteId].
  unfold sent_channel. cbn [is_close]. by rewrite put_ch_put_ch.
Qed.

Lemma pending_Read_eq l n c q s :
  s_heap s !! l = Some c → buffer_repr (c_pending c) q →
  ∃ b', on_pending l (buffer_Read n) s
          = (queue_read n (b_closed (c_pending c)) q, put_ch l (set_pending b' c) s) ∧
        buffer_repr b' (drop n q) ∧ b_closed b' = b_closed (c_pending c).
Proof.
  intros Hl Hq. destruct (buffer_Read_spec n _ _ Hq) as (b' & Hb & Hr & Hc).
  exists b'. split_and!; [by apply on_pending_eq|done|done].
Qed.

(** Reading bytes credits the window with their number and tells the peer. *)
Lemma Read_some_eq l n c q s :
  s_heap s !! l = Some c → buffer_repr (c_pending c) q → q ≠ [] → n ≠ 0%nat →
  ∃ b', buffer_repr b' (drop n q) ∧ b_closed b' = b_closed (c_pending c) ∧
    channel_Read l n s =
      (let out := take n q in
       let s1 := put_ch l (set_myWindow (u32 (c_myWindow c + u32 (len out)))
                             (set_pending b' c)) s in
       if c_sentClose c then (Ret (out, None), s1)
       else let r := Encoder_Encode (WindowAdjustMessage (c_remoteId c) (u32 (len out)))
                       (s_enc s) in
            (Ret (out, if decide (r.1 = Some io_EOF) then None else r.1),
             set_enc r.2 s1)).
Proof.
  intros Hl Hq Hne Hn. destruct (pending_Read_eq l n c q s Hl Hq) as (b' & Hp & Hr & Hc).
  exists b'. split_and!; [done..|]. unfold channel_Read.
  assert (queue_read n (b_closed (c_pending c)) q = Ret (take n q, None)) as Hqr.
  { unfold queue_read. destruct (Nat.eqb_spec n 0); [done|]. by destruct q. }
  rewrite Hqr in Hp. rewrite (bind_eq _ _ _ _ _ Hp).
  assert (0 < len (take n q)) as Hlen.
  { destruct q, n; [done..|]. cbn. pose proof (len_nonneg (take n q)). rewrite len_cons. lia. }
  cmp_true. unfold mbind at 1, M_bind at 1.
  rewrite (adjustWindow_eq _ _ _ _ (heap_put_ch _ _ _)). rewrite put_ch_put_ch.
  cbn [c_myWindow c_sentClose c_remoteId set_pending]. destruct (c_sentClose c); [done|].
  by rewrite encode_eq.
Qed.

(** ** close *)

Lemma close_eq l c s :
  s_heap s !! l = Some c → ch_closed (c_msg c) = false →
  channel_close l s = (Ret tt, put_ch l (closed_channel c) s).
Proof.
  intros Hl Hm. unfold channel_close.
  erewrite bind_eq; [|eapply on_pending_eq; [heap_tac|reflexivity]].
  erewrite bind_eq;
    [|eapply on_msg_eq; [heap_tac|unfold msg_close, chan_close; cbn; rewrite Hm; reflexivity]].
  massign. erewrite on_remoteWin_eq; [|heap_tac|reflexivity].
  by rewrite !put_ch_put_ch.
Qed.

(** ** handle *)

Lemma handleData_eq l len_ d c s :
  s_heap s !! l = Some c →
  channel_handleData l len_ d s =
    if (len_ <=? c_maxIncomingPayload c) && (len_ =? u32 (len d)) && (len_ <=? c_myWindow c)
    then (Ret None,
          put_ch l (set_pending (buffer_write d (c_pending c))
                      (set_myWindow (u32 (c_myWindow c - len_)) c)) s)
    else (Ret (Some (errorString
                (if c_maxIncomingPayload c <? len_
                 then "qmux: incoming packet exceeds maximum payload size"
                 else if negb (len_ =? u32 (len d)) then "qmux: wrong packet length"
                 else "qmux: remote side wrote too much"))), s).
Proof.
  intros Hl. unfold channel_handleData. mderef.
  rewrite (Z.leb_antisym (c_maxIncomingPayload c)), (Z.leb_antisym (c_myWindow c)).
  destruct (_ <? len_); [done|]. cbn [negb andb]. destruct (len_ =? _); [|done].
  cbn [negb andb]. destruct (_ <? len_); [done|]. massign.
  erewrite bind_eq; [|eapply on_pending_eq; [heap_tac|reflexivity]].
  by rewrite put_ch_put_ch.
Qed.

(** A close message is answered with a close message, unless one was sent
    already; then the channel leaves the table and is closed. *)
Lemma handle_close_eq l id c s :
  s_heap s !! l = Some c → ch_closed (c_msg c) = false →
  channel_handle l (CloseMessage id) s =
    (Ret None,
     put_ch l (closed_channel c)
       (set_chans (chanList_remove (c_localId c) (s_chans s))
          (if c_sentClose c then s
           else set_enc (Encoder_Encode (CloseMessage (c_remoteId c)) (s_enc s)).2 s))).
Proof.
  intros Hl Hm. cbn [channel_handle]. mderef.
  assert (∃ c', s_heap s !! l = Some c ∧
    channel_send l (CloseMessage (c_remoteId c)) s =
      (Ret (if c_sentClose c then Some io_EOF
            else (Encoder_Encode (CloseMessage (c_remoteId c)) (s_enc s)).1),
       put_ch l c' (if c_sentClose c then s
           else set_enc (Encoder_Encode (CloseMessage (c_remoteId c)) (s_enc s)).2 s)) ∧
    c_localId c' = c_localId c ∧ c_msg c' = c_msg c ∧
    closed_channel c' = closed_channel c) as (c' & _ & Hsend & Hid & Hmsg & Hcl).
  { rewrite (send_eq _ _ _ _ Hl). destruct (c_sentClose c) eqn:E.
    - exists c. by rewrite put_ch_id.
    - exists (set_sentClose true c). by rewrite encode_eq. }
  rewrite (bind_eq _ _ _ _ _ Hsend). mderef. rewrite Hid.
  erewrite bind_eq; [|reflexivity].
  erewrite bind_eq; [|eapply close_eq; [heap_tac|by rewrite Hmsg]].
  rewrite Hcl. unfold put_ch, set_chans, set_heap, set_enc, mret, M_ret. cbn.
  rewrite insert_insert_eq. by destruct (c_sentClose c).
Qed.

Lemma handle_eof_eq l id c s :
  s_heap s !! l = Some c →
  channel_handle l (EOFMessage id) s =
    (Ret None, put_ch l (set_pending (buffer_eof (c_pending c)) c) s).
Proof.
  intros Hl. cbn [channel_handle].
  erewrite bind_eq; [|eapply on_pending_eq; [heap_tac|reflexivity]]. done.
Qed.

Lemma on_add_eq l n c s :
  s_heap s !! l = Some c →
  on_remoteWin l (λ w, let '(ok, w') := window_add n w in (Ret ok, w')) s
  = (Ret (window_add n (c_remoteWin c)).1,
     put_ch l (set_remoteWin (window_add n (c_remoteWin c)).2 c) s).
Proof.
  intros Hl. eapply on_remoteWin_eq; [done|]. by destruct (window_add n _).
Qed.

Lemma handle_adjust_eq l id n c s :
  s_heap s !! l = Some c → window_wf (c_remoteWin c) → is_u32 n →
  channel_handle l (WindowAdjustMessage id n) s =
    let w := c_remoteWin c in
    if w_win w + n <? 2 ^ 32
    then (Ret None,
          put_ch l (set_remoteWin (mkWindow (w_win w + n) (w_writeWaiters w) (w_closed w)) c) s)
    else (Ret (Some (errorString ("qmux: invalid window update for " +:+ pretty n
                                  +:+ " bytes"))), s).
Proof.
  intros Hl Hw Hn. cbn [channel_handle].
  erewrite bind_eq; [|eapply on_add_eq; heap_tac].
  rewrite window_add_spec by done. cbv zeta. destruct (_ <? 2 ^ 32); [done|].
  by destruct c; rewrite put_ch_id.
Qed.

(** An open confirmation completes an outbound channel and is queued for
    [Open]; the queue has room for [chanSize] of them. *)
Lemma handle_confirm_eq l id sender win maxp c s :
  s_heap s !! l = Some c →
  channel_handle l (OpenConfirmMessage id sender win maxp) s =
    if decide (c_direction c = channelInbound)
    then (Ret (Some (errorString
                "qmux: channel response message received on inbound channel")), s)
    else if (maxp <? minPacketLength) || (maxPacketLength <? maxp)
    then (Ret (Some (errorString ("qmux: invalid MaxPacketSize " +:+ pretty maxp
                                  +:+ " from peer"))), s)
    else
      let m := OpenConfirmMessage id sender win maxp in
      let c1 := set_remoteWin (window_add win (c_remoteWin c)).2
                  (set_maxRemotePayload maxp (set_remoteId sender c)) in
      let s1 := put_ch l c1 s in
      match msg_send m (c_msg c) with
      | Ret (_, q) => (Ret None, put_ch l (set_msg q c1) s)
      | Block => (Block, s1)
      | Panic e => (Panic e, s1)
      | NoFuel => (NoFuel, s1)
      end.
Proof.
  intros Hl. cbn [channel_handle]. mderef. unfold responseMessageReceived.
  destruct (c_direction c); [by destruct (decide _)|].
  destruct (decide _) as [H|_]; [done|]. destruct (_ || _); [done|].
  massign. massign. cbn zeta.
  erewrite bind_eq; [|eapply on_add_eq; heap_tac].
  rewrite !put_ch_put_ch. cbn [c_remoteWin set_maxRemotePayload set_remoteId].
  set (c1 := set_remoteWin _ _). unfold mbind at 1, M_bind at 1.
  unfold on_msg. erewrite bind_eq; [|eapply deref_eq; heap_tac].
  unfold st. change (c_msg c1) with (c_msg c).
  destruct (msg_send _ _) as [[[] q]| | |]; [|done..].
  rewrite (assign_eq _ _ _ _ (heap_put_ch _ _ _)). cbn [snd].
  by rewrite put_ch_put_ch.
Qed.

Lemma handle_failure_eq l id c s :
  s_heap s !! l = Some c →
  channel_handle l (OpenFailureMessage id) s =
    if decide (c_direction c = channelInbound)
    then (Ret (Some (errorString
                "qmux: channel response message received on inbound channel")), s)
    else
      let s1 := set_chans (chanList_remove id (s_chans s)) s in
      match msg_send (OpenFailureMessage id) (c_msg c) with
      | Ret (_, q) => (Ret None, put_ch l (set_msg q c) s1)
      | Block => (Block, s1)
      | Panic e => (Panic e, s1)
      | NoFuel => (NoFuel, s1)
      end.
Proof.
  intros Hl. cbn [channel_handle]. mderef. unfold responseMessageReceived.
  destruct (c_direction c); [by destruct (decide _)|].
  destruct (decide _) as [H|_]; [done|].
  erewrite bind_eq; [|reflexivity]. cbn zeta. unfold mbind at 1, M_bind at 1.
  unfold on_msg. erewrite bind_eq; [|eapply deref_eq; heap_tac].
  unfold st. destruct (msg_send _ _) as [[[] q]| | |]; [|done..].
  by erewrite assign_eq by heap_tac.
Qed.

(** ** Write *)

(** A transport that accepts every write. *)
Definition writer_ok (w : writer) : Prop := Forall (λ o, o = None) (w_script w).

(** The writer after it took the frames [msgs]. *)
Definition emit (msgs : list Message) (w : writer) : writer :=
  mkWriter (w_out w ++ (Message_Bytes <$> msgs)) (drop (length msgs) (w_script w)).

Lemma Encode_ok msg w : writer_ok w → Encoder_Encode msg w = (None, emit [msg] w).
Proof.
  intros Hok. unfold Encoder_Encode, io_Write, emit. destruct w as [out [|o scr]]; [done|].
  apply Forall_cons in Hok as [-> _]. done.
Qed.

Lemma encode_ok_eq msg s :
  writer_ok (s_enc s) → encode msg s = (Ret None, set_enc (emit [msg] (s_enc s)) s).
Proof. intros Hok. by rewrite encode_eq, Encode_ok. Qed.

Lemma emit_ok msgs w : writer_ok w → writer_ok (emit msgs w).
Proof. unfold writer_ok. cbn. apply Forall_drop. Qed.

Lemma emit_app ms ms' w : emit ms' (emit ms w) = emit (ms ++ ms') w.
Proof.
  unfold emit. cbn. by rewrite fmap_app, <- app_assoc, drop_drop, length_app.
Qed.

Lemma emit_nil w : emit [] w = w.
Proof. destruct w. unfold emit. cbn. by rewrite app_nil_r. Qed.

#[export] Hint Resolve emit_ok : qtalk.

(** Split into pieces of [m] bytes, the last one maybe shorter. *)
Fixpoint chunks_fuel (fuel : nat) (m : Z) (d : list byte) : list (list byte) :=
  match fuel, d with
  | S fuel, _ :: _ =>
      let k := Z.to_nat (Z.min m (len d)) in
      take k d :: chunks_fuel fuel m (drop k d)
  | _, _ => []
  end.

Definition chunks (m : Z) (d : list byte) : list (list byte) :=
  chunks_fuel (length d) m d.

Lemma chunks_fuel_enough fuel fuel' m d :
  0 < m → (length d ≤ fuel)%nat → (length d ≤ fuel')%nat →
  chunks_fuel fuel m d = chunks_fuel fuel' m d.
Proof.
  intros Hm. revert fuel' d. induction fuel as [|fuel IH]; intros [|fuel'] [|b d] H1 H2;
    try done; try (simpl in *; lia).
  cbn [chunks_fuel]. f_equal.
  apply IH; rewrite length_drop; unfold len; simpl in *; lia.
Qed.

Lemma chunks_nil m : chunks m [] = [].
Proof. done. Qed.

Lemma chunks_cons m d :
  0 < m → d ≠ [] →
  chunks m d = take (Z.to_nat (Z.min m (len d))) d
               :: chunks m (drop (Z.to_nat (Z.min m (len d))) d).
Proof.
  intros Hm Hd. unfold chunks at 1. destruct d as [|b d]; [done|].
  cbn [length chunks_fuel]. f_equal. apply chunks_fuel_enough; [done|..];
    rewrite length_drop; unfold len; cbn [length]; lia.
Qed.

(** The data frames that carry [d] to the channel [id] of the peer. *)
Definition data_frame (id : Z) (p : list byte) : Message := DataMessage id (len p) p.

Definition data_frames (id m : Z) (d : list byte) : list Message :=
  data_frame id <$> chunks m d.

(** The part of [data] a window of [w] bytes lets through. *)
Definition window_part (w : Z) (data : list byte) : list byte :=
  take (Z.to_nat (Z.min w (len data))) data.

Lemma len_window_part w data : 0 ≤ w → len (window_part w data) = Z.min w (len data).
Proof. intros Hw. unfold window_part. rewrite len_take. len_solve. Qed.

Lemma go_min_small a b : is_u32 a → is_u32 b → go_min a b = Z.min a b.
Proof.
  intros Ha Hb. unfold go_min. rewrite (u32_small b) by done. case_cmp; lia.
Qed.

Lemma window_part_drop w data k :
  (Z.of_nat k ≤ Z.min w (len data)) →
  drop k (window_part w data) = window_part (w - Z.of_nat k) (drop k data).
Proof.
  intros Hk. unfold window_part. rewrite len_drop, skipn_firstn_comm. f_equal. lia.
Qed.

(** The first piece of a write is what one turn of the loop sends. *)
Lemma data_frames_window id m w data :
  0 < m → 0 < w → data ≠ [] →
  let k := Z.to_nat (Z.min w (Z.min m (len data))) in
  data_frames id m (window_part w data)
  = data_frame id (take k data)
    :: data_frames id m (window_part (w - Z.of_nat k) (drop k data)).
Proof.
  intros Hm Hw Hd k.
  assert (0 < len data) as Hlen.
  { destruct data; [done|]. rewrite len_cons. len_solve. }
  unfold data_frames. rewrite chunks_cons; [|done|].
  2: { intros Hnil%(f_equal len). unfold window_part in Hnil.
       rewrite len_take, len_nil in Hnil. lia. }
  replace (Z.to_nat (Z.min m (len (window_part w data)))) with k
    by (unfold window_part; rewrite len_take; lia).
  rewrite fmap_cons, window_part_drop by lia. do 2 f_equal.
  unfold window_part. rewrite take_take. f_equal. lia.
Qed.

(** The channel after [sent] bytes of its window were used, with one more
    waiter when the write blocks. *)
Definition wrote_channel (sent : Z) (blocked : bool) (c : channel) : channel :=
  let w := c_remoteWin c in
  set_remoteWin (mkWindow (w_win w - sent)
    (w_writeWaiters w + if blocked then 1 else 0) (w_closed w)) c.

Lemma wrote_nothing l c s :
  s_heap s !! l = Some c → w_closed (c_remoteWin c) = false →
  put_ch l (wrote_channel 0 false c) (set_enc (emit [] (s_enc s)) s) = s.
Proof.
  intros Hl Ho. unfold wrote_channel. rewrite Z.sub_0_r, Z.add_0_r, emit_nil.
  destruct s, c as [? ? ? ? ? ? ? [? ? ?] ? ? ?]. unfold put_ch, set_heap, set_enc; cbn in *.
  by rewrite insert_id.
Qed.

(** A write on an open window over a transport that accepts every frame: it
    sends what the window lets through, in pieces of at most the peer's packet
    size, then returns when that was everything and waits otherwise. *)
Lemma Write_loop_spec fuel l data n c s :
  s_heap s !! l = Some c → writer_ok (s_enc s) →
  window_wf (c_remoteWin c) → w_closed (c_remoteWin c) = false →
  0 < c_maxRemotePayload c → is_u32 (c_maxRemotePayload c) →
  is_u32 (len data) → (length data < fuel)%nat →
  channel_Write_loop fuel l data n s =
    let w := w_win (c_remoteWin c) in
    let sent := window_part w data in
    let blocked := w <? len data in
    (if blocked then Block else Ret (n + len data, None),
     put_ch l (wrote_channel (len sent) blocked c)
       (set_enc (emit (data_frames (c_remoteId c) (c_maxRemotePayload c) sent) (s_enc s)) s)).
Proof.
  revert data n c s. induction fuel as [|fuel IH];
    intros data n c s Hl Hok Hw Hopen Hm Hmu Hdu Hfuel; [lia|].
  cbn [channel_Write_loop]. destruct c as [lid rid mi mr dir mq se [wv ww wc] pb mw sc].
  cbn [c_remoteWin c_maxRemotePayload c_remoteId w_win w_closed] in *. subst wc.
  destruct (Z.eqb_spec (len data) 0) as [Hz|Hnz].
  { apply len_zero_nil in Hz as ->. unfold window_part. rewrite take_nil. cbv zeta.
    unfold window_wf, is_u32 in Hw. cbn in Hw. rewrite !len_nil. cmp_false.
    rewrite Z.add_0_r. change (data_frames rid mr []) with (@nil Message). by rewrite wrote_nothing. }
  assert (data ≠ []) as Hd by (intros ->; done).
  assert (0 < len data) by len_solve.
  mderef. cbn [c_maxRemotePayload]. rewrite go_min_small by done.
  assert (is_u32 (Z.min mr (len data))) as Hmin by (unfold is_u32 in *; lia).
  unfold window_wf in Hw. cbn [w_win] in Hw.
  pose proof (window_reserve_spec _ (mkWindow wv ww false) Hw Hmin) as Hres.
  cbn [w_win w_closed w_writeWaiters negb reserve_enter] in Hres. rewrite andb_true_r in Hres.
  destruct (Z.eqb_spec wv 0) as [->|Hwv].
  - erewrite bind_stop; [|eapply on_remoteWin_eq; [heap_tac|exact Hres]|done].
    cbv zeta. replace (0 <? len data) with true by lia.
    unfold window_part, wrote_channel. rewrite Z.min_l by lia.
    change (take (Z.to_nat 0) data) with (@nil byte).
    change (data_frames rid mr []) with (@nil Message). rewrite emit_nil.
    by destruct s.
  - erewrite bind_eq; [|eapply on_remoteWin_eq; [heap_tac|exact Hres]].
    cbv beta iota. mderef. set (k := Z.to_nat (Z.min wv (Z.min mr (len data)))).
    unfold is_u32 in *.
    assert (len (take k data) = Z.of_nat k) as Hk by (rewrite len_take; lia).
    rewrite u32_small by (unfold is_u32; lia).
    erewrite bind_eq; [|apply encode_ok_eq; done]. cbv beta iota.
    cbn [c_remoteId set_remoteWin].
    erewrite IH; [|heap_tac|cbn; auto with qtalk|..]; cbn [c_remoteWin set_remoteWin w_win
      w_closed c_maxRemotePayload]; try done; unfold window_wf, is_u32; cbn [w_win];
      try (rewrite ?len_drop, ?length_drop, ?length_take; unfold len in *; lia).
    cbv zeta. cbn [c_remoteId set_remoteWin w_writeWaiters].
    assert (length (take k data) = k) as Hkl by (unfold len in Hk; lia). rewrite Hkl.
    rewrite (data_frames_window rid mr wv data) by (done || lia). fold k.
    replace (wv - Z.min wv (Z.min mr (len data))) with (wv - Z.of_nat k) by lia.
    replace (wv - Z.of_nat k <? len (drop k data)) with (wv <? len data)
      by (rewrite len_drop; destruct (Z.ltb_spec wv (len data)); [symmetry; apply Z.ltb_lt|
          symmetry; apply Z.ltb_ge]; lia).
    replace (n + len (take k data) + len (drop k data)) with (n + len data)
      by (rewrite len_drop; lia).
    f_equal. unfold wrote_channel, put_ch, set_enc, set_heap. cbn.
    rewrite insert_insert_eq, emit_app, !len_window_part, len_drop by (rewrite ?len_drop; lia).
    replace (wv - Z.of_nat k - _) with (wv - Z.min wv (len data)) by lia. done.
Qed.

(** ** Properties *)

Lemma chunks_fuel_spec fuel m d :
  0 < m → (length d ≤ fuel)%nat →
  mjoin (chunks_fuel fuel m d) = d ∧ Forall (λ p, 0 < len p ≤ m) (chunks_fuel fuel m d).
Proof.
  intros Hm. revert d. induction fuel as [|fuel IH]; intros [|b d] Hl; try done.
  { simpl in Hl. lia. }
  cbn [chunks_fuel].
  set (k := Z.to_nat (Z.min m (len (b :: d)))).
  assert (1 ≤ Z.of_nat k ∧ Z.of_nat k ≤ m ∧ Z.of_nat k ≤ len (b :: d)) as Hk
    by (subst k; rewrite len_cons; pose proof (len_nonneg d); lia).
  destruct (IH (drop k (b :: d))) as [Hj Hf].
  { rewrite length_drop. simpl in *. lia. }
  split; [|constructor; [rewrite len_take; lia|done]].
  change (take k (b :: d) ++ mjoin (chunks_fuel fuel m (drop k (b :: d))) = b :: d).
  by rewrite Hj, take_drop.
Qed.

Lemma chunks_spec m d :
  0 < m → mjoin (chunks m d) = d ∧ Forall (λ p, 0 < len p ≤ m) (chunks m d).
Proof. intros. by apply chunks_fuel_spec. Qed.

(** C9. [Write] is exact: over a working transport it sends what the peer's
    window lets through, in order, in data frames of one byte to the peer's
    maximum packet size, addressed to the peer's channel; it returns the length
    of the data without error if the window covers it all, and otherwise waits
    for credit with the window used up. The window shrinks by what was sent. *)
Theorem Write_exact fuel l data c s :
  s_heap s !! l = Some c → c_sentEOF c = false → writer_ok (s_enc s) →
  window_wf (c_remoteWin c) → w_closed (c_remoteWin c) = false →
  minPacketLength ≤ c_maxRemotePayload c ≤ maxPacketLength →
  len data < 2 ^ 32 → (length data < fuel)%nat →
  ∃ pieces s',
    channel_Write fuel l data s =
      (if w_win (c_remoteWin c) <? len data then Block else Ret (len data, None), s') ∧
    mjoin pieces = take (Z.to_nat (Z.min (w_win (c_remoteWin c)) (len data))) data ∧
    Forall (λ p, 0 < len p ≤ c_maxRemotePayload c) pieces ∧
    s_enc s' = emit ((λ p, DataMessage (c_remoteId c) (len p) p) <$> pieces) (s_enc s) ∧
    ∃ c', s_heap s' !! l = Some c' ∧
      w_win (c_remoteWin c') = w_win (c_remoteWin c) - len (mjoin pieces) ∧
      (∀ k, k ≠ l → s_heap s' !! k = s_heap s !! k).
Proof.
  intros Hl He Hok Hw Hopen Hsz Hlen Hfuel.
  unfold minPacketLength, maxPacketLength in Hsz.
  destruct (chunks_spec (c_maxRemotePayload c) (window_part (w_win (c_remoteWin c)) data))
    as [Hj Hf]; [lia|].
  exists (chunks (c_maxRemotePayload c) (window_part (w_win (c_remoteWin c)) data)).
  eexists. split.
  { unfold channel_Write. mderef. rewrite He. pose proof (len_nonneg data).
    rewrite (Write_loop_spec _ _ _ _ _ _ Hl Hok Hw Hopen) by (unfold is_u32; lia). cbv zeta.
    rewrite Z.add_0_l. reflexivity. }
  split_and!; [exact Hj|exact Hf|done|].
  eexists. split; [apply heap_put_ch|]. rewrite Hj. split; [done|].
  intros k Hk. by rewrite heap_put_ch_ne.
Qed.

(** A channel towards the peer's channel 7, with ten bytes of window. *)
Definition demo_channel : channel :=
  set_remoteWin (mkWindow 10 0 false)
    (mkChannel 3 7 channelMaxPacket 9 channelOutbound (make_chan chanSize) false newWindow
       newBuffer channelWindowSize false).

Definition demo_session : session :=
  mkSession (mkWriter [] []) (mkReader [] io_EOF) 0
    [None; None; None; Some 0%nat] {[ 0%nat := demo_channel ]} 1 None None (make_chan 1).

Lemma Write_exact_witness :
  ∃ pieces s',
    channel_Write 20 0 (replicate 12 x61) demo_session = (Block, s') ∧
    mjoin pieces = replicate 10 x61 ∧ Forall (λ p, 0 < len p ≤ 9) pieces.
Proof.
  destruct (Write_exact 20 0 (replicate 12 x61) demo_channel demo_session)
    as (ps & s' & H1 & H2 & H3 & _);
    [done|done|by constructor|by vm_compute|done|by vm_compute|by vm_compute
    |by apply Nat.ltb_lt; vm_compute|].
  exists ps, s'. exact (conj H1 (conj H2 H3)).
Defined.

(** Receiving data is exact: [handleData] accepts a frame if and only if it
    is within the maximum payload, says its own length, and fits the receive
    window; it then queues the payload behind what is buffered and shrinks the
    window by its length. A refused frame changes nothing. *)
Theorem handleData_exact l id len_ d c q s :
  s_heap s !! l = Some c → buffer_repr (c_pending c) q →
  is_u32 len_ → is_u32 (c_myWindow c) → is_u32 (len d) →
  (len_ ≤ c_maxIncomingPayload c ∧ len_ = len d ∧ len_ ≤ c_myWindow c →
   ∃ c', channel_handle l (DataMessage id len_ d) s = (Ret None, put_ch l c' s) ∧
     buffer_repr (c_pending c') (q ++ d) ∧ c_myWindow c' = c_myWindow c - len d ∧
     b_closed (c_pending c') = b_closed (c_pending c)) ∧
  (¬ (len_ ≤ c_maxIncomingPayload c ∧ len_ = len d ∧ len_ ≤ c_myWindow c) →
   ∃ e, channel_handle l (DataMessage id len_ d) s = (Ret (Some e), s)).
Proof.
  intros Hl Hq Hlen Hw Hd. cbn [channel_handle]. rewrite (handleData_eq _ _ _ _ _ Hl).
  rewrite (u32_small (len d)) by done. split.
  - intros (H1 & -> & H3). replace (_ && _) with true by (symmetry; rewrite !andb_true_iff; lia).
    eexists. split; [done|]. cbn. split_and!; [by apply buffer_write_repr| |done].
    apply u32_small. unfold is_u32 in *. lia.
  - intros Hnot. destruct (_ && _) eqn:E; [|by eexists].
    exfalso. apply Hnot. rewrite !andb_true_iff in E. lia.
Qed.

Lemma handleData_exact_witness :
  ∃ e, channel_handle 0 (DataMessage 3 2 [x01]) demo_session = (Ret (Some e), demo_session).
Proof.
  apply (handleData_exact 0 3 2 [x01] demo_channel [] demo_session);
    [done|apply newBuffer_repr|by vm_compute..|]. intros (_ & H & _). discriminate H.
Defined.

(** Reading [n] bytes from a channel that holds some returns the first of
    them, removes exactly those, gives their number back to the receive window,
    and announces that number to the peer unless the channel sent its close. *)
Theorem Read_credits l n c q s :
  s_heap s !! l = Some c → buffer_repr (c_pending c) q → q ≠ [] → n ≠ 0%nat →
  writer_ok (s_enc s) → 0 ≤ c_myWindow c → c_myWindow c + len q < 2 ^ 32 →
  let out := take n q in
  ∃ c' s', channel_Read l n s = (Ret (out, None), s') ∧
    s_heap s' = <[l := c']> (s_heap s) ∧
    buffer_repr (c_pending c') (drop n q) ∧ c_myWindow c' = c_myWindow c + len out ∧
    s_enc s' = if c_sentClose c then s_enc s
               else emit [WindowAdjustMessage (c_remoteId c) (len out)] (s_enc s).
Proof.
  intros Hl Hq Hne Hn Hok Hw Hsum out.
  destruct (Read_some_eq l n c q s Hl Hq Hne Hn) as (b' & Hb & Hcl & Hread).
  assert (len out ≤ len q) as Hout by (unfold out; rewrite len_take; lia).
  pose proof (len_nonneg out).
  assert (u32 (len out) = len out) as Hu by (apply u32_small; unfold is_u32; lia).
  fold out in Hread. cbv zeta in Hread.
  rewrite !Hu, (u32_small (c_myWindow c + len out)), Encode_ok in Hread
    by (done || unfold is_u32; lia).
  cbn [fst snd] in Hread. rewrite decide_False in Hread by done.
  destruct (c_sentClose c);
    eexists (set_myWindow (c_myWindow c + len out) (set_pending b' c)), _;
    (split; [exact Hread|by split_and!]).
Qed.

Lemma Read_credits_witness :
  ∃ c' s', channel_Read 0 2
    (put_ch 0 (set_pending (buffer_write [x01; x02; x03] newBuffer) demo_channel) demo_session)
      = (Ret ([x01; x02], None), s') ∧ buffer_repr (c_pending c') [x03].
Proof.
  destruct (Read_credits 0 2 (set_pending (buffer_write [x01; x02; x03] newBuffer) demo_channel)
    [x01; x02; x03]
    (put_ch 0 (set_pending (buffer_write [x01; x02; x03] newBuffer) demo_channel) demo_session))
    as (c' & s' & H1 & _ & H2 & _);
    [done|apply (buffer_write_repr _ []), newBuffer_repr|done|done|by constructor
    |by vm_compute|by vm_compute|].
  exists c', s'. exact (conj H1 H2).
Defined.
