(* ===== verification/Session.v ===== *)
(** * mux/session.go: opening, accepting and the packet loop

    Blocking points that involve another goroutine are cut in two: [Open]
    sends its request and then waits on the channel's message queue,
    [handleOpen] offers the new channel on [inbox] and then hears whether it
    was accepted before the timer fired. The sequential functions compose the
    halves the way the code does. *)
From S2P Require Import Prelude GoRuntime Frame Buffer Window ChanList.
From S2P Require Import MuxState Channel.

(** ** newChannel *)

(** The struct literal of [newChannel]. *)
Definition fresh_channel (direction : channelDirection) : channel :=
  mkChannel 0 0 0 0 direction (make_chan chanSize) false newWindow newBuffer
    channelWindowSize false.

(** [newChannel(direction)] up to the return of [s.chans.add(ch)]: from here on the
    loop finds the channel under the id returned, and the channel does not know it
    yet. *)
Definition session_newChannel_add (direction : channelDirection) : MS (chan_ptr * Z) :=
  s ← get_st;
  let l := s_fresh s in
  _ ← put_st (set_fresh (S l)
                (set_heap (<[l := fresh_channel direction]> (s_heap s)) s));
  s ← get_st;
  let '(id, chans) := chanList_add l (s_chans s) in
  _ ← put_st (set_chans chans s);
  mret (l, id).

(** [newChannel(direction)]: [ch.localId = s.chans.add(ch)]. The assignment is not
    under the lock of the table. *)
Definition session_newChannel (direction : channelDirection) : MS chan_ptr :=
  r ← session_newChannel_add direction;
  let '(l, id) := r in
  _ ← assign l (set_localId id);
  mret l.

(** ** Open *)

(** [Open] between [newChannel] and the select. *)
Definition session_Open_send (l : chan_ptr) : MS (option error) :=
  _ ← assign l (set_maxIncomingPayload channelMaxPacket);
  ch ← deref l;
  encode (OpenMessage (c_localId ch) (c_myWindow ch) (c_maxIncomingPayload ch)).

(** [Open] up to the select: the channel whose reply it will wait for. *)
Definition session_Open_request : MS (result chan_ptr) :=
  l ← session_newChannel channelOutbound;
  err ← session_Open_send l;
  match err with
  | Some e => mret (Err e)
  | None => mret (Ok l)
  end.

(** What [Open] returns for the message it received; [None] is the nil message
    of a closed queue. *)
Definition session_Open_reply (l : chan_ptr) (m : option Message) : result chan_ptr :=
  match m with
  | None => Err net_ErrClosed
  | Some (OpenConfirmMessage _ _ _ _) => Ok l
  | Some (OpenFailureMessage _) =>
      Err (errorString "qmux: channel open failed on remote side")
  | Some msg =>
      Err (errorString ("qmux: unexpected packet in response to channel open: "
                        +:+ Message_String msg))
  end.

(** The select of [Open]: [done] is [ctx.Err()] when the context's case is
    taken, [None] when the message's case is. *)
Definition session_Open_wait (l : chan_ptr) (done : option error)
    : MS (result chan_ptr) :=
  match done with
  | Some e => mret (Err e)
  | None => m ← on_msg l chan_recv; mret (session_Open_reply l m)
  end.

(** [Open(ctx)]. *)
Definition session_Open (done : option error) : MS (result chan_ptr) :=
  r ← session_Open_request;
  match r with
  | Err e => mret (Err e)
  | Ok l => session_Open_wait l done
  end.

(** ** Accept, Close, Wait *)

(** [Accept()]; [from_inbox] says which case of the select is taken. *)
Definition session_Accept (from_inbox : bool) : MS (result chan_ptr) :=
  s ← get_st;
  if from_inbox then
    match s_inbox s with
    | Some l => _ ← put_st (set_inbox None s); mret (Ok l)
    | None => block_st
    end
  else
    match chan_recv (s_closeCh s) with
    | Ret (_, q) => _ ← put_st (set_closeCh q s); mret (Err io_EOF)
    | _ => block_st
    end.

(** [Close()]: closes the transport and returns nil. *)
Definition session_Close : MS unit :=
  modify_st (λ s, set_tclosed (S (s_tclosed s)) s).

(** [Wait()]. *)
Definition session_Wait : MS error :=
  s ← get_st;
  match s_err s with Some e => mret e | None => block_st end.

(** ** handleOpen *)

(** [handleOpen] up to the select: either it is over, with its error, or it
    offers a new channel on [inbox]. *)
Definition session_handleOpen_begin (SenderID WindowSize MaxPacketSize : Z)
    : MS (option error + chan_ptr) :=
  if (MaxPacketSize <? minPacketLength) || (maxPacketLength <? MaxPacketSize)
  then err ← encode (OpenFailureMessage SenderID); mret (inl err)
  else
    l ← session_newChannel channelInbound;
    _ ← assign l (set_remoteId SenderID);
    _ ← assign l (set_maxRemotePayload MaxPacketSize);
    _ ← on_remoteWin l (λ w, let '(ok, w') := window_add WindowSize w in
                             (Ret ok, w'));
    _ ← assign l (set_maxIncomingPayload channelMaxPacket);
    _ ← modify_st (set_inbox (Some l));
    mret (inr l).

(** The rest of [handleOpen]: [accepted] when an [Accept] took the channel,
    else the timer fired first. *)
Definition session_handleOpen_end (l : chan_ptr) (SenderID : Z) (accepted : bool)
    : MS (option error) :=
  if accepted then
    c ← deref l;
    encode (OpenConfirmMessage (c_remoteId c) (c_localId c) (c_myWindow c)
              (c_maxIncomingPayload c))
  else
    _ ← modify_st (set_inbox None);
    encode (OpenFailureMessage SenderID).

(** [handleOpen(msg)], an [Accept] taking the channel in between when
    [accepted]. *)
Definition session_handleOpen (SenderID WindowSize MaxPacketSize : Z)
    (accepted : bool) : MS (option error) :=
  r ← session_handleOpen_begin SenderID WindowSize MaxPacketSize;
  match r with
  | inl err => mret err
  | inr l =>
      _ ← (if accepted then _ ← session_Accept true; mret tt else mret tt);
      session_handleOpen_end l SenderID accepted
  end.

(** ** The packet loop *)

(** [s.dec.Decode()]. *)
Definition session_decode : MS (result Message) :=
  st (λ s, let '(r, d) := Decoder_Decode (s_dec s) in (Ret r, set_dec d s)).

(** What [onePacket] does with a decoded message that is not an open. *)
Definition session_dispatch (id : Z) (msg : Message) : MS (option error) :=
  ch ← chans_getChan id;
  match ch with
  | None => mret (Some (errorString ("qmux: invalid channel " +:+ pretty id)))
  | Some l => channel_handle l msg
  end.

(** [onePacket()]. *)
Definition session_onePacket (accepted : bool) : MS (option error) :=
  r ← session_decode;
  match r with
  | Err err => mret (Some err)
  | Ok msg =>
      let '(id, isChan) := Message_Channel msg in
      if isChan : bool then session_dispatch id msg
      else match msg with
           | OpenMessage s w m => session_handleOpen s w m accepted
           | _ => panic_st "interface conversion: frame.Message"
           end
  end.

(** [ch.close()] for each channel of a slice. *)
Fixpoint close_all (ls : list chan_ptr) : MS unit :=
  match ls with
  | [] => mret tt
  | l :: ls => _ ← channel_close l; close_all ls
  end.

(** [s.closeCh <- true]. *)
Definition closeCh_send : MS unit :=
  s ← get_st;
  match chan_send true (s_closeCh s) with
  | Ret q => put_st (set_closeCh q s)
  | Block => block_st
  | Panic e => panic_st e
  | NoFuel => nofuel_st
  end.

(** The end of [loop], after [onePacket] returned [err]. *)
Definition session_teardown (err : error) : MS unit :=
  s ← get_st;
  let '(ls, chans) := chanList_dropAll (s_chans s) in
  _ ← put_st (set_chans chans s);
  _ ← close_all ls;
  _ ← session_Close;
  _ ← closeCh_send;
  modify_st (set_err (Some err)).

(** [loop()]; [accepted i] tells whether the open request of packet [i], if it
    is one, gets accepted in time. *)
Fixpoint session_loop (fuel : nat) (accepted : nat → bool) (i : nat) : MS unit :=
  match fuel with
  | O => nofuel_st
  | S fuel =>
      err ← session_onePacket (accepted i);
      match err with
      | None => session_loop fuel accepted (S i)
      | Some e => session_teardown e
      end
  end.

(** ** New *)

(** The struct literal of [New]; the loop is started by the caller of the
    model. *)
Definition new_session (w : writer) (r : reader) : session :=
  mkSession w r 0 [] ∅ 0 None None (make_chan 1).

(** [New(t)]: nil for a nil transport. *)
Definition session_New (t : option (writer * reader)) : option session :=
  match t with
  | None => None
  | Some (w, r) => Some (new_session w r)
  end.
