(* ===== verification/SessionSpec.v ===== *)
(** * What the methods of a session do, as equations

    The counterpart of ChannelSpec.v for Session.v. *)
From S2P Require Import Prelude GoRuntime Frame Buffer Window ChanList.
From S2P Require Import MuxState Channel ChannelSpec Session.

(** The state after [chans.add] entered a new channel [ch] in the table. *)
Definition entered (ch : channel) (s : session) : session :=
  let l := s_fresh s in
  set_chans (chanList_add l (s_chans s)).2 (set_fresh (S l) (put_ch l ch s)).

(** The state after [newChannel], where [ch] knows its id. *)
Definition added (ch : channel) (s : session) : session :=
  entered (set_localId (chanList_add (s_fresh s) (s_chans s)).1 ch) s.

Lemma heap_entered ch s : s_heap (entered ch s) !! s_fresh s = Some ch.
Proof. unfold entered. cbn. apply lookup_insert_eq. Qed.

Lemma put_ch_entered ch ch' s : put_ch (s_fresh s) ch' (entered ch s) = entered ch' s.
Proof.
  unfold entered, put_ch, set_heap, set_fresh, set_chans. cbn. by rewrite insert_insert_eq.
Qed.

Lemma heap_added ch s :
  s_heap (added ch s) !! s_fresh s
  = Some (set_localId (chanList_add (s_fresh s) (s_chans s)).1 ch).
Proof. apply heap_entered. Qed.

Lemma put_ch_added ch ch' s :
  put_ch (s_fresh s) (set_localId (chanList_add (s_fresh s) (s_chans s)).1 ch')
    (added ch s) = added ch' s.
Proof. apply put_ch_entered. Qed.

Lemma newChannel_add_eq dir s :
  session_newChannel_add dir s =
    (Ret (s_fresh s, (chanList_add (s_fresh s) (s_chans s)).1), entered (fresh_channel dir) s).
Proof.
  unfold session_newChannel_add. unfold mbind at 1, M_bind at 1. cbn [get_st].
  erewrite bind_eq; [|reflexivity]. erewrite bind_eq; [|reflexivity].
  unfold entered. cbn [s_chans set_fresh set_heap].
  by destruct (chanList_add (s_fresh s) (s_chans s)) as [id chans].
Qed.

Lemma newChannel_eq dir s :
  session_newChannel dir s = (Ret (s_fresh s), added (fresh_channel dir) s).
Proof.
  unfold session_newChannel. rewrite (bind_eq _ _ _ _ _ (newChannel_add_eq dir s)).
  erewrite bind_eq; [|eapply assign_eq, heap_entered]. by rewrite put_ch_entered.
Qed.

(** What [Open] does once the channel knows its id. *)
Lemma Open_send_eq l ch s :
  s_heap s !! l = Some ch →
  session_Open_send l s =
    let r := Encoder_Encode (OpenMessage (c_localId ch) (c_myWindow ch) channelMaxPacket) (s_enc s) in
    (Ret r.1, set_enc r.2 (put_ch l (set_maxIncomingPayload channelMaxPacket ch) s)).
Proof.
  intros Hl. unfold session_Open_send. erewrite bind_eq by by apply assign_eq.
  erewrite bind_eq by (apply deref_eq, heap_put_ch). by rewrite encode_eq.
Qed.

(** The outbound channel of an [Open] that sent its request. *)
Definition opening_channel : channel :=
  set_maxIncomingPayload channelMaxPacket (fresh_channel channelOutbound).

Lemma Open_request_eq s :
  session_Open_request s =
    let l := s_fresh s in
    let id := (chanList_add l (s_chans s)).1 in
    let r := Encoder_Encode (OpenMessage id channelWindowSize channelMaxPacket) (s_enc s) in
    (Ret (match r.1 with Some e => Err e | None => Ok l end),
     set_enc r.2 (added opening_channel s)).
Proof.
  unfold session_Open_request. rewrite (bind_eq _ _ _ _ _ (newChannel_eq _ _)).
  erewrite bind_eq; [|eapply Open_send_eq, heap_added].
  change (set_maxIncomingPayload channelMaxPacket (set_localId ?i ?c))
    with (set_localId i (set_maxIncomingPayload channelMaxPacket c)).
  rewrite put_ch_added. fold opening_channel. cbv zeta.
  change (s_enc (added opening_channel s)) with (s_enc s).
  cbn [c_localId set_localId c_myWindow c_maxIncomingPayload opening_channel
       set_maxIncomingPayload fresh_channel].
  by destruct (Encoder_Encode _ _) as [[e|] w].
Qed.

(** The inbound channel an open request of the peer creates. *)
Definition offered_channel (sender win maxp : Z) : channel :=
  set_maxIncomingPayload channelMaxPacket
    (set_remoteWin (window_add win newWindow).2
       (set_maxRemotePayload maxp
          (set_remoteId sender (fresh_channel channelInbound)))).

(** The packet sizes a peer may announce. *)
Definition packet_size_ok (maxp : Z) : bool :=
  negb ((maxp <? minPacketLength) || (maxPacketLength <? maxp)).

Lemma handleOpen_begin_eq sender win maxp s :
  session_handleOpen_begin sender win maxp s =
    if packet_size_ok maxp
    then (Ret (inr (s_fresh s)),
          set_inbox (Some (s_fresh s)) (added (offered_channel sender win maxp) s))
    else (Ret (inl (Encoder_Encode (OpenFailureMessage sender) (s_enc s)).1),
          set_enc (Encoder_Encode (OpenFailureMessage sender) (s_enc s)).2 s).
Proof.
  unfold session_handleOpen_begin, packet_size_ok. destruct (_ || _); cbn [negb].
  { erewrite bind_eq; [|apply encode_eq]. done. }
  rewrite (bind_eq _ _ _ _ _ (newChannel_eq _ _)).
  erewrite bind_eq; [|eapply assign_eq, heap_added].
  change (set_remoteId sender (set_localId ?i ?c)) with (set_localId i (set_remoteId sender c)).
  rewrite put_ch_added. erewrite bind_eq; [|eapply assign_eq, heap_added].
  change (set_maxRemotePayload maxp (set_localId ?i ?c))
    with (set_localId i (set_maxRemotePayload maxp c)).
  rewrite put_ch_added. erewrite bind_eq; [|eapply on_add_eq, heap_added].
  change (set_remoteWin ?w (set_localId ?i ?c)) with (set_localId i (set_remoteWin w c)).
  rewrite put_ch_added. erewrite bind_eq; [|eapply assign_eq, heap_added].
  change (set_maxIncomingPayload ?m (set_localId ?i ?c))
    with (set_localId i (set_maxIncomingPayload m c)).
  rewrite put_ch_added. done.
Qed.

Lemma handleOpen_end_eq l sender accepted c s :
  s_heap s !! l = Some c →
  session_handleOpen_end l sender accepted s =
    let m := if accepted
             then OpenConfirmMessage (c_remoteId c) (c_localId c) (c_myWindow c)
                    (c_maxIncomingPayload c)
             else OpenFailureMessage sender in
    (Ret (Encoder_Encode m (s_enc s)).1,
     set_enc (Encoder_Encode m (s_enc s)).2
       (if accepted then s else set_inbox None s)).
Proof.
  intros Hl. unfold session_handleOpen_end. destruct accepted.
  - mderef. by rewrite encode_eq.
  - erewrite bind_eq; [|reflexivity]. by rewrite encode_eq.
Qed.

Lemma decode_eq s :
  session_decode s = (Ret (Decoder_Decode (s_dec s)).1,
                      set_dec (Decoder_Decode (s_dec s)).2 s).
Proof. unfold session_decode, st. by destruct (Decoder_Decode (s_dec s)). Qed.

Lemma dispatch_eq id msg s :
  session_dispatch id msg s =
    match chanList_getChan id (s_chans s) with
    | None => (Ret (Some (errorString ("qmux: invalid channel " +:+ pretty id))), s)
    | Some l => channel_handle l msg s
    end.
Proof.
  unfold session_dispatch, chans_getChan. erewrite bind_eq; [|reflexivity].
  by destruct (chanList_getChan id (s_chans s)).
Qed.

(** [Open] returns what the first message of the queue says; with no message
    and an open queue it waits, and a closed queue gives [net.ErrClosed]. *)
Lemma Open_wait_eq l done ch s :
  s_heap s !! l = Some ch →
  session_Open_wait l done s =
    match done, ch_buf (c_msg ch) with
    | Some e, _ => (Ret (Err e), s)
    | None, m :: rest =>
        (Ret (session_Open_reply l (Some m)),
         put_ch l (set_msg (mkChan rest (ch_cap (c_msg ch)) (ch_closed (c_msg ch))) ch) s)
    | None, [] => if ch_closed (c_msg ch) then (Ret (Err net_ErrClosed), s) else (Block, s)
    end.
Proof.
  intros Hl. unfold session_Open_wait. destruct done as [e|]; [done|].
  unfold on_msg, chan_recv. destruct ch as [? ? ? ? ? [buf cap cl] ? ? ? ? ?].
  cbn [c_msg ch_buf ch_closed ch_cap].
  unfold mbind, M_bind. rewrite (deref_eq _ _ _ Hl). unfold st. cbn [c_msg ch_buf ch_closed].
  destruct buf as [|m rest]; [|by rewrite (assign_eq _ _ _ _ Hl)].
  destruct cl; [|done]. rewrite (assign_eq _ _ _ _ Hl). cbn [snd].
  by rewrite put_ch_id.
Qed.

Lemma Accept_inbox_eq l s :
  s_inbox s = Some l → session_Accept true s = (Ret (Ok l), set_inbox None s).
Proof. intros Hl. unfold session_Accept. mred. by rewrite Hl. Qed.
