(* ===== verification/System.v ===== *)
(** * A session under all interleavings

    A configuration is the session state, the point the loop goroutine is at,
    and the user goroutines that are inside a method. An action runs one
    goroutine up to its next lock or channel operation, and [Open] also stops
    between entering its channel in the table and telling it its id, so two
    methods interleave wherever the code lets them. [reach n c] says that [n]
    actions lead from a new session to [c], with a peer that closes no channel
    before it can know its id ([early]). *)
From S2P Require Import Prelude GoRuntime Frame Buffer Window ChanList.
From S2P Require Import MuxState Channel Session.

(** ** Configurations *)

(** Where the goroutine running [session.loop] is. *)
Inductive loop_pc :=
| LRun                                          (* about to decode a packet *)
| LAccept (l : chan_ptr) (SenderID : Z)         (* in the select of handleOpen *)
| LConfirm (l : chan_ptr) (SenderID : Z)        (* accepted, about to confirm *)
| LSend (l : chan_ptr) (m : Message)            (* waiting at [ch.msg <- m] *)
| LDrop (err : error)                           (* onePacket failed *)
| LDrain (ls : list chan_ptr) (err : error)     (* closing what dropAll gave *)
| LDone.                                        (* returned *)

(** A user goroutine inside a method of a channel or in [Open]. *)
Inductive thread :=
| TName (l : chan_ptr) (id : Z)                 (* in newChannel, before localId
                                                   is written *)
| TRequest (l : chan_ptr)                       (* Open, about to send the request *)
| TOpen (l : chan_ptr)                          (* in the select of Open *)
| TReserve (l : chan_ptr) (data : list byte) (n want : Z)
                                                (* Write, inside reserve *)
| TEncode (l : chan_ptr) (data : list byte) (n space : Z)
                                                (* Write, space reserved *)
| TAdjust (l : chan_ptr) (out : list byte).     (* Read, bytes taken *)

(** [g_handles] are the channels [Open] and [Accept] returned: the only ones
    user code can call methods on. *)
Record config := mkConfig {
  g_sess : session;
  g_loop : loop_pc;
  g_threads : list thread;
  g_handles : list chan_ptr;
}.

Definition with_sess s c := mkConfig s (g_loop c) (g_threads c) (g_handles c).
Definition with_loop p c := mkConfig (g_sess c) p (g_threads c) (g_handles c).
Definition with_threads ts c := mkConfig (g_sess c) (g_loop c) ts (g_handles c).
Definition with_handles hs c := mkConfig (g_sess c) (g_loop c) (g_threads c) hs.

Definition spawn t c := with_threads (t :: g_threads c) c.
Definition set_thread i t c := with_threads (<[i := t]> (g_threads c)) c.
Definition end_thread i c := with_threads (delete i (g_threads c)) c.
Definition add_handle l c := with_handles (l :: g_handles c) c.

(** ** Actions *)

Inductive action :=
| ALoop                                  (* the loop goroutine goes on *)
| ATimeout                               (* the timer of handleOpen fires *)
| AOpen                                  (* a goroutine calls Open, up to the
                                            return of chans.add *)
| AAccept (from_inbox : bool)            (* a goroutine calls Accept *)
| AClose (l : chan_ptr)
| ACloseWrite (l : chan_ptr)
| AWrite (l : chan_ptr) (data : list byte)
| ARead (l : chan_ptr) (n : nat)
| ASessionClose
| AThread (i : nat) (done : option error). (* goroutine [i] goes on *)

(** A step of a goroutine: it goes on, waits, or panics. *)
Abbreviation step_result := (outcome unit * config)%type.

(** Run code on the session of a configuration. *)
Definition run {A} (m : MS A) (c : config) (k : A → config → step_result)
    : step_result :=
  match m (g_sess c) with
  | (Ret a, s) => k a (with_sess s c)
  | (Block, s) => (Block, with_sess s c)
  | (Panic e, s) => (Panic e, with_sess s c)
  | (NoFuel, s) => (NoFuel, with_sess s c)
  end.

Definition ok (c : config) : step_result := (Ret tt, c).

(** The loop after [onePacket] returned [err]. *)
Definition loop_next (err : option error) (c : config) : step_result :=
  ok (with_loop (match err with None => LRun | Some e => LDrop e end) c).

(** A message for a channel: [channel.handle] can be left waiting at
    [ch.msg <- msg]. *)
Definition exec_dispatch (msg : Message) (c : config) : step_result :=
  let id := (Message_Channel msg).1 in
  match session_dispatch id msg (g_sess c) with
  | (Ret err, s) => loop_next err (with_sess s c)
  | (Block, s) =>
      match chanList_getChan id (s_chans (g_sess c)) with
      | Some l => ok (with_loop (LSend l msg) (with_sess s c))
      | None => (Block, c)
      end
  | (Panic e, s) => (Panic e, with_sess s c)
  | (NoFuel, s) => (NoFuel, with_sess s c)
  end.

(** [onePacket], up to the point where the goroutine must wait. *)
Definition exec_packet (c : config) : step_result :=
  run session_decode c (λ r c,
    match r with
    | Err e => loop_next (Some e) c
    | Ok (OpenMessage s w m) =>
        run (session_handleOpen_begin s w m) c (λ r c,
          match r with
          | inl err => loop_next err c
          | inr l => ok (with_loop (LAccept l s) c)
          end)
    | Ok msg => exec_dispatch msg c
    end).

(** The end of [loop] once every channel is closed. *)
Definition loop_exit (err : error) : MS unit :=
  _ ← session_Close; _ ← closeCh_send; modify_st (set_err (Some err)).

Definition exec_loop (c : config) : step_result :=
  match g_loop c with
  | LRun => exec_packet c
  | LAccept _ _ => (Block, c)
  | LConfirm l sender => run (session_handleOpen_end l sender true) c loop_next
  | LSend l m => run (on_msg l (msg_send m)) c (λ _, loop_next None)
  | LDrop err =>
      let '(ls, chans) := chanList_dropAll (s_chans (g_sess c)) in
      ok (with_loop (LDrain ls err) (with_sess (set_chans chans (g_sess c)) c))
  | LDrain (l :: ls) err =>
      run (channel_close l) c (λ _ c, ok (with_loop (LDrain ls err) c))
  | LDrain [] err => run (loop_exit err) c (λ _ c, ok (with_loop LDone c))
  | LDone => (Block, c)
  end.

(** The head of the loop in [Write]: the goroutine enters [reserve]. *)
Definition write_turn (l : chan_ptr) (data : list byte) (n : Z)
    (continue : thread → config → config) (return_ : config → config) (c : config)
    : step_result :=
  if len data =? 0 then ok (return_ c)
  else
    run (deref l) c (λ ch c,
      run (on_remoteWin l (λ w, (Ret tt, reserve_enter w))) c (λ _ c,
        ok (continue (TReserve l data n (go_min (c_maxRemotePayload ch) (len data))) c))).

Definition exec_thread (i : nat) (done : option error) (c : config) : step_result :=
  match g_threads c !! i with
  | None => (Block, c)
  | Some (TName l id) =>
      run (assign l (set_localId id)) c (λ _ c, ok (set_thread i (TRequest l) c))
  | Some (TRequest l) =>
      run (session_Open_send l) c (λ err c,
        match err with
        | Some _ => ok (end_thread i c)
        | None => ok (set_thread i (TOpen l) c)
        end)
  | Some (TOpen l) =>
      run (session_Open_wait l done) c (λ r c,
        match r with
        | Ok l => ok (add_handle l (end_thread i c))
        | Err _ => ok (end_thread i c)
        end)
  | Some (TReserve l data n want) =>
      run (on_remoteWin l (reserve_retry want)) c (λ r c,
        match r with
        | (_, Some _) => ok (end_thread i c)
        | (space, None) => ok (set_thread i (TEncode l data n space) c)
        end)
  | Some (TEncode l data n space) =>
      let toSend := take (Z.to_nat space) data in
      run (ch ← deref l;
           encode (DataMessage (c_remoteId ch) (u32 (len toSend)) toSend)) c
        (λ err c,
          match err with
          | Some _ => ok (end_thread i c)
          | None => write_turn l (drop (length toSend) data) (n + len toSend)
                      (set_thread i) (end_thread i) c
          end)
  | Some (TAdjust l out) =>
      run (channel_adjustWindow l (u32 (len out))) c (λ _ c, ok (end_thread i c))
  end.

(** One action. A method is only called on a channel the caller was given. *)
Definition exec (a : action) (c : config) : step_result :=
  match a with
  | ALoop => exec_loop c
  | ATimeout =>
      match g_loop c with
      | LAccept l sender => run (session_handleOpen_end l sender false) c loop_next
      | _ => (Block, c)
      end
  | AOpen =>
      run (session_newChannel_add channelOutbound) c (λ r, λ c,
        ok (spawn (TName r.1 r.2) c))
  | AAccept from_inbox =>
      run (session_Accept from_inbox) c (λ r c,
        match r, g_loop c with
        | Ok l, LAccept l' sender => ok (with_loop (LConfirm l' sender) (add_handle l c))
        | _, _ => ok c
        end)
  | AClose l =>
      if decide (l ∈ g_handles c) then run (channel_Close l) c (λ _, ok) else (Block, c)
  | ACloseWrite l =>
      if decide (l ∈ g_handles c) then run (channel_CloseWrite l) c (λ _, ok)
      else (Block, c)
  | AWrite l data =>
      if decide (l ∈ g_handles c) then
        run (deref l) c (λ ch c,
          if c_sentEOF ch then ok c
          else write_turn l data 0 spawn (λ c, c) c)
      else (Block, c)
  | ARead l n =>
      if decide (l ∈ g_handles c) then
        run (on_pending l (buffer_Read n)) c (λ r c,
          if 0 <? len r.1 then ok (spawn (TAdjust l r.1) c) else ok c)
      else (Block, c)
  | ASessionClose => run session_Close c (λ _, ok)
  | AThread i done => exec_thread i done c
  end.

(** ** Reachable configurations *)

(** The channels in the table that do not know their ids yet, and the ids. *)
Definition thread_naming (t : thread) : option (chan_ptr * Z) :=
  match t with TName l id => Some (l, id) | _ => None end.

Definition namings (ts : list thread) : list (chan_ptr * Z) := omap thread_naming ts.

Definition names (ts : list thread) : gmap chan_ptr Z := list_to_map (namings ts).

(** The loop is about to handle a close frame for such a channel. A peer that
    learns the ids of channels from their open requests sends no such frame;
    Link.v shows that a session never does. *)
Definition early (a : action) (c : config) : bool :=
  match a, g_loop c, (Decoder_Decode (s_dec (g_sess c))).1 with
  | ALoop, LRun, Ok (CloseMessage id) =>
      match chanList_getChan id (s_chans (g_sess c)) with
      | Some l => bool_decide (is_Some (names (g_threads c) !! l))
      | None => false
      end
  | _, _, _ => false
  end.

(** A session just created over a transport. *)
Definition initial (w : writer) (r : reader) : config :=
  mkConfig (new_session w r) LRun [] [].

(** One action that did not panic and was not early; a goroutine that waits may
    have changed the state before. *)
Definition step (c c' : config) : Prop :=
  ∃ a o, early a c = false ∧ exec a c = (o, c') ∧ (o = Ret tt ∨ o = Block).

Inductive reach : nat → config → Prop :=
| reach_init w r : reach 0 (initial w r)
| reach_step n c c' : reach n c → step c c' → reach (S n) c'.

(** A scenario: actions one after the other, unless one panics or is early. *)
Fixpoint scenario (acts : list action) (c : config) : option config :=
  match acts with
  | [] => Some c
  | a :: acts =>
      if early a c then None
      else match exec a c with
           | (Ret _, c') | (Block, c') => scenario acts c'
           | _ => None
           end
  end.

Lemma scenario_reach acts n c c' :
  reach n c → scenario acts c = Some c' → reach (n + length acts) c'.
Proof.
  revert n c. induction acts as [|a acts IH]; intros n c Hr Hs; cbn in Hs.
  - simplify_eq. by rewrite Nat.add_0_r.
  - destruct (early a c) eqn:Ee; [done|].
    destruct (exec a c) as [o c1] eqn:E. cbn [length]. rewrite Nat.add_succ_r.
    assert (reach (S n) c1 → reach (S (n + length acts)) c') as Hk.
    { intros. apply (IH (S n) c1); [done|]. by destruct o. }
    apply Hk. eapply reach_step; [done|]. exists a, o. split; [done|]. split; [done|].
    destruct o as [[]| | |]; auto; done.
Qed.

Lemma initial_scenario acts w r c :
  scenario acts (initial w r) = Some c → reach (length acts) c.
Proof. apply (scenario_reach acts 0), reach_init. Qed.

Lemma scenario_app a b c :
  scenario (a ++ b) c = match scenario a c with Some c' => scenario b c' | None => None end.
Proof.
  revert c. induction a as [|x a IH]; intros c; [done|]. cbn.
  destruct (early x c); [done|]. destruct (exec x c) as [[]]; try done; apply IH.
Qed.
