(* ===== verification/SystemInv.v ===== *)
(** * The invariant of a session under all interleavings

    [sys_inv n c] holds of every configuration reached in [n] actions: the
    table, the heap and the goroutines agree, message queues are open exactly
    while the loop can still reach them, and for each channel the receive
    window, the bytes buffered and the bytes a [Read] has taken but not yet
    credited add up to the initial window. *)
From S2P Require Import Prelude GoRuntime Frame Buffer Window ChanList.
From S2P Require Import MuxState Channel ChannelSpec Session SessionSpec System.

(** ** Per-channel invariant *)

(** A channel a peer's packet size was accepted for. *)
Definition sized (ch : channel) : Prop :=
  minPacketLength ≤ c_maxRemotePayload ch ≤ maxPacketLength.

(** Bytes taken from [l] by a [Read] that has not yet credited the window. *)
Definition thread_credit (l : chan_ptr) (t : thread) : Z :=
  match t with
  | TAdjust l' out => if decide (l = l') then len out else 0
  | _ => 0
  end.

Fixpoint credits (l : chan_ptr) (ts : list thread) : Z :=
  match ts with
  | [] => 0
  | t :: ts => thread_credit l t + credits l ts
  end.

(** Conservation of the receive window. *)
Definition flow_ok (credit : Z) (ch : channel) : Prop :=
  ∃ q, buffer_repr (c_pending ch) q ∧ 0 ≤ c_myWindow ch ∧
       c_myWindow ch + len q + credit = channelWindowSize.

Definition is_confirm (m : Message) : bool :=
  match m with OpenConfirmMessage _ _ _ _ => true | _ => false end.

Record chan_inv (credit : Z) (ch : channel) : Prop := {
  ci_window : window_wf (c_remoteWin ch);
  ci_max : is_u32 (c_maxRemotePayload ch);
  ci_flow : flow_ok credit ch;
  ci_cap : ch_cap (c_msg ch) = chanSize ∧ (length (ch_buf (c_msg ch)) ≤ chanSize)%nat;
  ci_confirm : ∀ m, m ∈ ch_buf (c_msg ch) → is_confirm m = true → sized ch;
}.

Definition msg_open (ch : channel) : Prop := ch_closed (c_msg ch) = false.

(** The slot a channel was given: its local id, once [newChannel] has written it. *)
Definition chan_id (ts : list thread) (l : chan_ptr) (ch : channel) : Z :=
  default (c_localId ch) (names ts !! l).

(** The channels inside [Open]. *)
Definition thread_opening (t : thread) : option chan_ptr :=
  match t with TName l _ | TRequest l | TOpen l => Some l | _ => None end.

Definition opening (ts : list thread) : list chan_ptr := omap thread_opening ts.

(** ** The invariant *)

Section inv.
Context (s : session).

(** A pointer to an allocated channel with the property [P]. *)
Definition at_ptr (P : channel → Prop) (l : chan_ptr) : Prop :=
  ∃ ch, s_heap s !! l = Some ch ∧ P ch.

Definition in_table (l : chan_ptr) : Prop := ∃ i, s_chans s !! i = Some (Some l).

Definition loop_inv (p : loop_pc) : Prop :=
  match p with
  | LAccept l _ => s_inbox s = Some l ∧ at_ptr sized l
  | LConfirm l _ => at_ptr (λ _, True) l
  | LSend l m => at_ptr (λ ch, msg_open ch ∧ (is_confirm m = true → sized ch)) l
  | LDrain ls _ =>
      NoDup ls ∧ ∀ l, l ∈ ls → at_ptr msg_open l ∧ ¬ in_table l
  | LRun | LDrop _ | LDone => True
  end.

(** A channel blocked at [ch.msg <- m] or in the table is never closed; what a
    write holds fits its data. *)
Definition thread_inv (t : thread) : Prop :=
  match t with
  | TName l _ | TRequest l | TOpen l => at_ptr (λ _, True) l
  | TReserve l data _ want => at_ptr sized l ∧ is_u32 want
  | TEncode l data _ space => at_ptr sized l ∧ is_u32 space
  | TAdjust l out => at_ptr sized l ∧ 0 < len out
  end.

Record sess_inv (n : nat) (p : loop_pc) (ts : list thread) (hs : list chan_ptr) : Prop := {
  si_fresh : ∀ l ch, s_heap s !! l = Some ch → (l < s_fresh s)%nat;
  si_chan : ∀ l ch, s_heap s !! l = Some ch → chan_inv (credits l ts) ch;
  si_table : ∀ (i : nat) l, s_chans s !! i = Some (Some l) →
    at_ptr (λ ch, chan_id ts l ch = Z.of_nat i ∧ msg_open ch) l;
  si_small : len (s_chans s) ≤ Z.of_nat n;
  si_loop : loop_inv p;
  si_inbox : ∀ l, s_inbox s = Some l → ∃ sender, p = LAccept l sender;
  si_closeCh : p ≠ LDone → s_closeCh s = make_chan 1;
  si_handles : Forall (at_ptr sized) hs;
  si_threads : Forall thread_inv ts;
  si_opening : NoDup (opening ts);
}.
End inv.

Definition sys_inv (n : nat) (c : config) : Prop :=
  sess_inv (g_sess c) n (g_loop c) (g_threads c) (g_handles c).

(** ** Monotonicity *)

Lemma at_ptr_mono s s' (P Q : channel → Prop) l :
  at_ptr s P l →
  (∀ ch, s_heap s !! l = Some ch → P ch → ∃ ch', s_heap s' !! l = Some ch' ∧ Q ch') →
  at_ptr s' Q l.
Proof. intros (ch & Hl & HP) H. by apply (H ch). Qed.

(** The heap only gains facts of the kind goroutines rely on: a channel stays
    allocated, and sized once it is. *)
Definition heap_le (s s' : session) : Prop :=
  ∀ l ch, s_heap s !! l = Some ch →
    ∃ ch', s_heap s' !! l = Some ch' ∧ (sized ch → sized ch').

Lemma at_sized_le s s' l : heap_le s s' → at_ptr s sized l → at_ptr s' sized l.
Proof. intros Hle (ch & Hl & Hs). destruct (Hle _ _ Hl) as (ch' & ? & ?). exists ch'; auto. Qed.

Lemma at_any_le s s' l : heap_le s s' → at_ptr s (λ _, True) l → at_ptr s' (λ _, True) l.
Proof. intros Hle (ch & Hl & Hs). destruct (Hle _ _ Hl) as (ch' & ? & ?). by exists ch'. Qed.

Lemma thread_inv_le s s' t : heap_le s s' → thread_inv s t → thread_inv s' t.
Proof.
  intros Hle. destruct t; cbn; intros; destruct_and?; split_and?;
    eauto using at_sized_le, at_any_le.
Qed.

Lemma threads_inv_le s s' ts :
  heap_le s s' → Forall (thread_inv s) ts → Forall (thread_inv s') ts.
Proof. intros Hle H. eapply Forall_impl; [done|]. eauto using thread_inv_le. Qed.

Lemma handles_le s s' hs :
  heap_le s s' → Forall (at_ptr s sized) hs → Forall (at_ptr s' sized) hs.
Proof. intros Hle H. eapply Forall_impl; [done|]. eauto using at_sized_le. Qed.

Lemma heap_le_same s s' : s_heap s' = s_heap s → heap_le s s'.
Proof. intros H l ch Hl. rewrite H. eauto. Qed.

Lemma chan_inv_confirm_sized k ch m :
  chan_inv k ch → m ∈ ch_buf (c_msg ch) → is_confirm m = true → sized ch.
Proof. intros []; eauto. Qed.

(** ** Credits *)

Lemma thread_credit_nonneg l t : 0 ≤ thread_credit l t.
Proof. destruct t; cbn; try lia. case_decide; [apply len_nonneg|lia]. Qed.

Lemma credits_nonneg l ts : 0 ≤ credits l ts.
Proof. induction ts as [|t ts]; cbn; [lia|]. pose proof (thread_credit_nonneg l t). lia. Qed.

Lemma credits_insert l ts i t t' :
  ts !! i = Some t →
  credits l (<[i := t']> ts) = credits l ts - thread_credit l t + thread_credit l t'.
Proof.
  revert i. induction ts as [|t0 ts IH]; intros [|i] Hi; simplify_eq/=; [lia|].
  rewrite IH by done. lia.
Qed.

Lemma credits_delete l ts i t :
  ts !! i = Some t → credits l (delete i ts) = credits l ts - thread_credit l t.
Proof.
  revert i. induction ts as [|t0 ts IH]; intros [|i] Hi; simplify_eq/=; [lia|].
  rewrite IH by done. lia.
Qed.

(** ** Goroutines inside Open *)

(** The goroutines go on; none leaves or enters [newChannel], and none enters
    [Open]. *)
Record goes_on (ts ts' : list thread) : Prop := {
  go_names : names ts' = names ts;
  go_opening : NoDup (opening ts) → NoDup (opening ts');
}.

Lemma goes_refl ts : goes_on ts ts.
Proof. done. Qed.

Lemma goes_cons t ts : thread_opening t = None → goes_on ts (t :: ts).
Proof. by destruct t; split. Qed.

(** Goroutine [i] goes on or ends. *)
Lemma omap_at {A B} (f : A → option B) (ts : list A) i t :
  ts !! i = Some t → ∃ xs ys,
    omap f ts = xs ++ option_list (f t) ++ ys ∧ omap f (delete i ts) = xs ++ ys ∧
    ∀ t', omap f (<[i := t']> ts) = xs ++ option_list (f t') ++ ys.
Proof.
  revert i. induction ts as [|t0 ts IH]; intros [|i] Hi; simplify_eq/=.
  - exists [], (omap f ts). split_and!; [by destruct (f t)|done|]. intros t'. by destruct (f t').
  - destruct (IH i Hi) as (xs & ys & E1 & E2 & E3).
    exists (option_list (f t0) ++ xs), ys. rewrite E1, E2.
    split_and!; [by destruct (f t0)..|]. intros t'. rewrite E3. by destruct (f t0).
Qed.

Lemma goes_delete ts i t : ts !! i = Some t → thread_naming t = None → goes_on ts (delete i ts).
Proof.
  intros Hi Ht. split.
  - destruct (omap_at thread_naming ts i t Hi) as (xs & ys & E1 & E2 & _).
    unfold names, namings. rewrite E1, E2, Ht. done.
  - destruct (omap_at thread_opening ts i t Hi) as (xs & ys & E1 & E2 & _).
    unfold opening. rewrite E1, E2. destruct (thread_opening t); [|done]. cbn.
    rewrite !NoDup_app. intros (? & Hd & [? ?]%NoDup_cons). split_and!; [done| |done].
    intros x Hx Hy. apply (Hd x Hx). by right.
Qed.

Lemma goes_insert ts i t t' :
  ts !! i = Some t → thread_naming t = None → thread_naming t' = None →
  thread_opening t' = thread_opening t → goes_on ts (<[i := t']> ts).
Proof.
  intros Hi Ht Ht' Ho. split.
  - destruct (omap_at thread_naming ts i t Hi) as (xs & ys & E1 & _ & E3).
    unfold names, namings. by rewrite E1, E3, Ht, Ht'.
  - destruct (omap_at thread_opening ts i t Hi) as (xs & ys & E1 & _ & E3).
    unfold opening. by rewrite E1, E3, Ho.
Qed.

Lemma namings_opening ts l id : (l, id) ∈ namings ts → l ∈ opening ts.
Proof.
  intros (t & Ht & E)%list_elem_of_omap. apply list_elem_of_omap. exists t.
  split; [done|]. destruct t; by simplify_eq/=.
Qed.

Lemma namings_NoDup ts : NoDup (opening ts) → NoDup (namings ts).*1.
Proof.
  induction ts as [|t ts IH]; [constructor|]. intros Hnd.
  destruct t as [l id|l|l| | |]; try (by apply IH); cbn in Hnd |- *;
    apply NoDup_cons in Hnd as [Hl Hnd]; [constructor|..]; try by apply IH.
  intros ([l' id'] & -> & Hin)%list_elem_of_fmap. apply Hl. by eapply namings_opening.
Qed.

Lemma names_Some ts l id :
  NoDup (opening ts) → (names ts !! l = Some id ↔ TName l id ∈ ts).
Proof.
  intros Hnd. unfold names. rewrite <- elem_of_list_to_map by by apply namings_NoDup.
  unfold namings. rewrite list_elem_of_omap. split.
  - intros (t & Ht & E). by destruct t; simplify_eq/=.
  - intros Ht. by exists (TName l id).
Qed.

(** Nobody is inside [Open] with a channel that is not allocated. *)
Lemma opening_at s ts l : Forall (thread_inv s) ts → l ∈ opening ts → at_ptr s (λ _, True) l.
Proof.
  intros Hts (t & Ht & E)%list_elem_of_omap. rewrite Forall_forall in Hts.
  pose proof (Hts t Ht) as H. by destruct t; simplify_eq/=.
Qed.

Lemma opening_uniq ts i j t t' l :
  NoDup (opening ts) → ts !! i = Some t → ts !! j = Some t' →
  thread_opening t = Some l → thread_opening t' = Some l → i = j.
Proof.
  assert (∀ k u ts, ts !! k = Some u → thread_opening u = Some l → l ∈ opening ts) as Hin.
  { intros k u us Hk Hu. apply list_elem_of_omap. exists u. split; [by eapply list_elem_of_lookup_2|done]. }
  revert i j. induction ts as [|t0 ts IH]; intros [|i] [|j] Hnd Hi Hj Ht Ht'; simplify_eq/=; try done.
  - unfold opening in Hnd. cbn in Hnd. rewrite Ht in Hnd. apply NoDup_cons in Hnd as [[] _].
    by eapply Hin.
  - unfold opening in Hnd. cbn in Hnd. rewrite Ht' in Hnd. apply NoDup_cons in Hnd as [[] _].
    by eapply Hin.
  - f_equal. apply IH; try done. unfold opening in *. cbn in Hnd.
    destruct (thread_opening t0); [by apply NoDup_cons in Hnd as []|done].
Qed.

(** A channel past [newChannel] knows its id. *)
Lemma past_naming ts i t l :
  NoDup (opening ts) → ts !! i = Some t → thread_opening t = Some l → thread_naming t = None →
  names ts !! l = None.
Proof.
  intros Hnd Hi Ht Hn. apply eq_None_not_Some. intros [id Hid%(names_Some _ _ _ Hnd)].
  apply list_elem_of_lookup in Hid as [j Hj].
  rewrite (opening_uniq ts i j t (TName l id) l Hnd Hi Hj Ht eq_refl) in Hi. by simplify_eq.
Qed.

(** Goroutine [i] writes the id of its channel. *)
Lemma named_opening ts i l id :
  ts !! i = Some (TName l id) → NoDup (opening ts) → NoDup (opening (<[i := TRequest l]> ts)).
Proof.
  intros Hi. destruct (omap_at thread_opening ts i _ Hi) as (xs & ys & E1 & _ & E3).
  unfold opening. by rewrite E1, E3.
Qed.

Lemma named_names ts i l id k :
  ts !! i = Some (TName l id) → NoDup (opening ts) →
  names (<[i := TRequest l]> ts) !! k = if decide (k = l) then None else names ts !! k.
Proof.
  intros Hi Hnd. pose proof (named_opening ts i l id Hi Hnd) as Hnd'.
  assert (<[i := TRequest l]> ts !! i = Some (TRequest l)) as Hi'.
  { apply list_lookup_insert_eq. by eapply lookup_lt_Some. }
  case_decide as E.
  { subst. by apply (past_naming _ i (TRequest l)). }
  apply option_eq. intros x. rewrite !names_Some, !list_elem_of_lookup by done.
  split; intros [j Hj]; exists j; destruct (decide (j = i)) as [->|];
    [congruence| |congruence|]; revert Hj; by rewrite list_lookup_insert_ne.
Qed.

(** ** Preservation: changes of the state *)

(** Nothing the invariant speaks of changed, apart from the goroutines. *)
Lemma inv_frame s s' n p ts hs :
  s_heap s' = s_heap s → s_fresh s' = s_fresh s → s_chans s' = s_chans s →
  s_inbox s' = s_inbox s → s_closeCh s' = s_closeCh s →
  sess_inv s n p ts hs → sess_inv s' n p ts hs.
Proof.
  intros Hh Hf Hc Hi Hcl [].
  assert (∀ P l, at_ptr s' P l ↔ at_ptr s P l) as Hat
    by (intros; unfold at_ptr; by rewrite Hh).
  split; rewrite ?Hh, ?Hf, ?Hc, ?Hi, ?Hcl; try done.
  - intros i l Hil. rewrite Hat. eauto.
  - unfold loop_inv in *. rewrite Hi.
    destruct p; rewrite ?Hat; try done.
    destruct si_loop0 as [Hnd Hls]. split; [done|]. intros l Hl. rewrite Hat.
    unfold in_table. rewrite Hc. by apply Hls.
  - eapply handles_le; [|done]. by apply heap_le_same.
  - eapply threads_inv_le; [|done]. by apply heap_le_same.
Qed.

(** One channel changed, keeping its slot, the state of its queue and its size;
    the goroutines may change with it. *)
Lemma inv_put_slot s n p ts ts' hs l ch ch' :
  sess_inv s n p ts hs → s_heap s !! l = Some ch →
  chan_inv (credits l ts') ch' →
  chan_id ts' l ch' = chan_id ts l ch → (∀ k, k ≠ l → names ts' !! k = names ts !! k) →
  ch_closed (c_msg ch') = ch_closed (c_msg ch) → (sized ch → sized ch') →
  (∀ k, k ≠ l → credits k ts' = credits k ts) → NoDup (opening ts') →
  (∀ s', heap_le s s' → Forall (thread_inv s') ts') →
  sess_inv (put_ch l ch' s) n p ts' hs.
Proof.
  intros Hinv Hl Hci Hid Hnm Hcl Hsz Hcr Hop Hts. pose proof Hinv as [].
  assert (heap_le s (put_ch l ch' s)) as Hle.
  { intros k c Hk. destruct (decide (k = l)) as [->|].
    - exists ch'. rewrite heap_put_ch. simplify_eq. auto.
    - exists c. rewrite heap_put_ch_ne by done. auto. }
  assert (∀ k (P : channel → Prop),
    (P ch → P ch') → at_ptr s P k → at_ptr (put_ch l ch' s) P k) as Hat.
  { intros k P HP (c & Hk & HPc). destruct (decide (k = l)) as [->|].
    - exists ch'. rewrite heap_put_ch. simplify_eq. auto.
    - exists c. by rewrite heap_put_ch_ne. }
  split; try done; cbn [put_ch set_heap s_fresh s_chans s_inbox s_closeCh].
  - intros k c Hk. destruct (decide (k = l)) as [->|]; [eauto|].
    rewrite heap_put_ch_ne in Hk by done. eauto.
  - intros k c Hk. destruct (decide (k = l)) as [->|].
    + rewrite heap_put_ch in Hk. by simplify_eq.
    + rewrite heap_put_ch_ne in Hk by done. rewrite Hcr by done. eauto.
  - intros i k Hik. destruct (si_table0 i k Hik) as (c & Hk & Hck & Ho).
    destruct (decide (k = l)) as [->|].
    + exists ch'. rewrite heap_put_ch. simplify_eq. unfold msg_open. by rewrite Hid, Hcl.
    + exists c. rewrite heap_put_ch_ne by done. unfold chan_id in *. by rewrite Hnm.
  - unfold loop_inv in *. destruct p; try done.
    + destruct si_loop0. split; [done|]. by apply (Hat l0).
    + by apply (Hat l0).
    + apply (Hat l0); [|done]. unfold msg_open. rewrite Hcl. tauto.
    + destruct si_loop0 as [Hnd Hls]. split; [done|]. intros k Hk.
      destruct (Hls k Hk) as [Ho Ht]. split; [|done]. apply (Hat k); [|done].
      unfold msg_open. by rewrite Hcl.
  - by eapply handles_le.
  - by apply Hts.
Qed.

(** The channel keeps its id, and no goroutine leaves or enters [newChannel]. *)
Lemma inv_put s n p ts ts' hs l ch ch' :
  sess_inv s n p ts hs → s_heap s !! l = Some ch →
  chan_inv (credits l ts') ch' →
  c_localId ch' = c_localId ch → ch_closed (c_msg ch') = ch_closed (c_msg ch) →
  (sized ch → sized ch') →
  (∀ k, k ≠ l → credits k ts' = credits k ts) → goes_on ts ts' →
  (∀ s', heap_le s s' → Forall (thread_inv s') ts') →
  sess_inv (put_ch l ch' s) n p ts' hs.
Proof.
  intros Hinv Hl Hci Hid Hcl Hsz Hcr [Hnm Hop] Hts. eapply inv_put_slot; try done.
  - unfold chan_id. by rewrite Hnm, Hid.
  - intros. by rewrite Hnm.
  - apply Hop, Hinv.
Qed.

(** A channel changed and no goroutine did. *)
Lemma inv_put_same s n p ts hs l ch ch' :
  sess_inv s n p ts hs → s_heap s !! l = Some ch →
  chan_inv (credits l ts) ch' →
  c_localId ch' = c_localId ch → ch_closed (c_msg ch') = ch_closed (c_msg ch) →
  (sized ch → sized ch') →
  sess_inv (put_ch l ch' s) n p ts hs.
Proof.
  intros Hinv **. eapply inv_put; try done. intros s' Hle.
  eapply threads_inv_le; [done|]. by apply Hinv.
Qed.

Lemma credits_fresh s l ts :
  Forall (thread_inv s) ts → s_heap s !! l = None → credits l ts = 0.
Proof.
  intros Hts Hl. induction Hts as [|t ts Ht Hts IH]; [done|]. cbn [credits].
  rewrite IH. destruct t as [| | | | |k out]; cbn; try done.
  case_decide; [|done]. subst k. destruct Ht as [(ch & Hk & _) _]. congruence.
Qed.

Lemma inv_heap_fresh s n p ts hs : sess_inv s n p ts hs → s_heap s !! s_fresh s = None.
Proof.
  intros []. destruct (s_heap s !! s_fresh s) as [ch|] eqn:E; [|done].
  apply si_fresh0 in E. lia.
Qed.

Lemma entered_heap_ne ch s l : l ≠ s_fresh s → s_heap (entered ch s) !! l = s_heap s !! l.
Proof. intros. unfold entered. cbn. by rewrite lookup_insert_ne. Qed.

Lemma added_heap_ne ch s l : l ≠ s_fresh s → s_heap (added ch s) !! l = s_heap s !! l.
Proof. apply entered_heap_ne. Qed.

(** The id a new channel gets. *)
Definition add_id_of (s : session) : Z := (chanList_add (s_fresh s) (s_chans s)).1.

(** The table after [add]: every old slot, and the new channel's. *)
Lemma added_table n s ch (i : nat) l :
  len (s_chans s) ≤ Z.of_nat n → Z.of_nat n < 2 ^ 32 - 1 →
  s_chans (entered ch s) !! i = Some (Some l) →
  s_chans s !! i = Some (Some l) ∨ (l = s_fresh s ∧ add_id_of s = Z.of_nat i).
Proof.
  intros Hn Hmax. unfold entered, add_id_of. cbn [s_chans set_chans]. intros Hi.
  destruct (chanList_add_spec (s_fresh s) (s_chans s)) as (j & Hadd & _ & _ & _ & Hlk & _).
  { unfold chanList_small. lia. }
  rewrite Hlk in Hi. case_decide; simplify_eq; [|by left].
  right. split; [done|]. by rewrite Hadd.
Qed.

(** A new channel in a table that is not full; its goroutine may be new too. *)
Lemma inv_entered s n p ts ts' hs ch :
  sess_inv s n p ts hs → Z.of_nat n < 2 ^ 32 - 1 → chan_inv 0 ch → msg_open ch →
  chan_id ts' (s_fresh s) ch = add_id_of s →
  (∀ l, l ≠ s_fresh s → names ts' !! l = names ts !! l) → (∀ l, credits l ts' = credits l ts) →
  (Forall (thread_inv (entered ch s)) ts → Forall (thread_inv (entered ch s)) ts') →
  NoDup (opening ts') → sess_inv (entered ch s) (S n) p ts' hs.
Proof.
  intros Hinv Hn Hci Hop Hid Hnm Hcr Hts Hnd. pose proof (inv_heap_fresh _ _ _ _ _ Hinv) as Hnew.
  pose proof Hinv as [].
  assert (∀ l c, s_heap s !! l = Some c → l ≠ s_fresh s) as Hold by congruence.
  assert (heap_le s (entered ch s)) as Hle.
  { intros l c Hl. exists c. rewrite entered_heap_ne; eauto. }
  assert (∀ l (P : channel → Prop), at_ptr s P l → at_ptr (entered ch s) P l) as Hat.
  { intros l P (c & Hl & HP). exists c. rewrite entered_heap_ne; eauto. }
  split; try done.
  - intros l c Hl. cbn. destruct (decide (l = s_fresh s)) as [->|]; [lia|].
    rewrite entered_heap_ne in Hl by done. apply si_fresh0 in Hl. lia.
  - intros l c Hl. rewrite Hcr. destruct (decide (l = s_fresh s)) as [->|].
    + rewrite heap_entered in Hl. simplify_eq. by erewrite credits_fresh.
    + rewrite entered_heap_ne in Hl by done. eauto.
  - intros i l Hi. destruct (added_table n s ch i l) as [Hi'|[-> E]]; eauto.
    + destruct (si_table0 i l Hi') as (c & Hl & E & Ho). apply Hat. exists c.
      unfold chan_id in *. rewrite Hnm; eauto.
    + exists ch. split; [apply heap_entered|]. cbn beta. by rewrite Hid, E.
  - unfold entered. cbn [s_chans set_chans].
    destruct (chanList_add_spec (s_fresh s) (s_chans s)) as (j & _ & _ & _ & _ & _ & Hlen);
      [unfold chanList_small; lia|lia].
  - unfold loop_inv in *. destruct p; try done; [|by apply Hat..|].
    { destruct si_loop0. split; [done|by apply Hat]. }
    destruct si_loop0 as [Hnd' Hls]. split; [done|]. intros l Hl.
    destruct (Hls l Hl) as [Ho Ht]. split; [by apply Hat|]. intros [i Hi].
    destruct (added_table n s ch i l) as [Hi'|[-> _]]; eauto; [by apply Ht; exists i|].
    destruct Ho as (c & Hc & _). congruence.
  - by eapply handles_le.
  - apply Hts. by eapply threads_inv_le.
Qed.

Lemma names_fresh s n p ts hs : sess_inv s n p ts hs → names ts !! s_fresh s = None.
Proof.
  intros Hinv. apply eq_None_not_Some. intros [id Hid%(names_Some _ _ _ (si_opening _ _ _ _ _ Hinv))].
  destruct (opening_at s ts (s_fresh s)) as (ch & Hl & _); [apply Hinv| |].
  - apply list_elem_of_omap. by exists (TName (s_fresh s) id).
  - by rewrite (inv_heap_fresh _ _ _ _ _ Hinv) in Hl.
Qed.

(** A channel that knows its id. *)
Lemma inv_added s n p ts hs ch :
  sess_inv s n p ts hs → Z.of_nat n < 2 ^ 32 - 1 →
  (∀ id, chan_inv 0 (set_localId id ch)) → msg_open ch →
  sess_inv (added ch s) (S n) p ts hs.
Proof.
  intros Hinv Hn Hci Hop. eapply inv_entered; try done; [|by apply Hinv].
  unfold chan_id. by rewrite (names_fresh _ _ _ _ _ Hinv).
Qed.

(** A slot of the table is cleared. *)
Lemma inv_remove s n p ts hs id :
  sess_inv s n p ts hs → sess_inv (set_chans (chanList_remove id (s_chans s)) s) n p ts hs.
Proof.
  intros Hinv. pose proof Hinv as [].
  assert (∀ (i : nat) l, chanList_remove id (s_chans s) !! i = Some (Some l) →
    s_chans s !! i = Some (Some l)) as Hsub.
  { intros i l. unfold chanList_remove. case_cmp; [|done].
    intros Hi. destruct (decide (i = Z.to_nat id)) as [->|].
    - apply list_lookup_insert_Some in Hi as [(_ & ? & _)|[? _]]; congruence.
    - by rewrite list_lookup_insert_ne in Hi. }
  split; try done; cbn [s_chans set_chans].
  - intros i l Hi. by apply (si_table0 i l), Hsub.
  - by rewrite chanList_remove_len.
  - unfold loop_inv in *. destruct p; try done.
    destruct si_loop0 as [Hnd Hls]. split; [done|]. intros l Hl.
    destruct (Hls l Hl) as [Ho Ht]. split; [done|]. intros [i Hi].
    apply Ht. exists i. by apply Hsub.
Qed.

Lemma inv_loop_change s n p p' ts hs :
  sess_inv s n p ts hs → loop_inv s p' →
  (∀ l, s_inbox s = Some l → ∃ sender, p' = LAccept l sender) →
  (p' ≠ LDone → p ≠ LDone) →
  sess_inv s n p' ts hs.
Proof. intros [] Hl Hi Hd. split; auto. Qed.

Lemma inv_mono s n n' p ts hs :
  sess_inv s n p ts hs → (n ≤ n')%nat → sess_inv s n' p ts hs.
Proof. intros [] Hle. split; auto. lia. Qed.

(** The loop is not in the select of [handleOpen]: nothing is offered. *)
Lemma inv_no_inbox s n p ts hs :
  sess_inv s n p ts hs → (∀ l sender, p ≠ LAccept l sender) → s_inbox s = None.
Proof.
  intros [] Hp. destruct (s_inbox s) as [l|] eqn:E; [|done].
  destruct (si_inbox0 l eq_refl) as [sender ->]. by destruct (Hp l sender).
Qed.

Lemma chan_inv_closed k ch : chan_inv k ch → chan_inv k (closed_channel ch).
Proof.
  intros []. split; try done. destruct ci_flow0 as (q & Hq & H). exists q.
  split; [by apply buffer_eof_repr|done].
Qed.

(** Closing a channel the loop can no longer find. *)
Lemma inv_close s n p p' ts hs l ch :
  sess_inv s n p ts hs → s_heap s !! l = Some ch → ¬ in_table s l →
  loop_inv (put_ch l (closed_channel ch) s) p' →
  (∀ k, s_inbox s = Some k → ∃ sender, p' = LAccept k sender) →
  (p' ≠ LDone → p ≠ LDone) →
  sess_inv (put_ch l (closed_channel ch) s) n p' ts hs.
Proof.
  intros Hinv Hl Hnot Hp' Hin Hd. pose proof Hinv as [].
  assert (heap_le s (put_ch l (closed_channel ch) s)) as Hle.
  { intros k c Hk. destruct (decide (k = l)) as [->|].
    - exists (closed_channel ch). rewrite heap_put_ch. by simplify_eq.
    - exists c. rewrite heap_put_ch_ne by done. auto. }
  split; try done; cbn [put_ch set_heap s_fresh s_chans s_inbox s_closeCh]; auto.
  - intros k c Hk. destruct (decide (k = l)) as [->|]; [eauto|].
    rewrite heap_put_ch_ne in Hk by done. eauto.
  - intros k c Hk. destruct (decide (k = l)) as [->|].
    + rewrite heap_put_ch in Hk. simplify_eq. apply chan_inv_closed. eauto.
    + rewrite heap_put_ch_ne in Hk by done. eauto.
  - intros i k Hi. destruct (si_table0 i k Hi) as (c & Hk & HP). exists c.
    rewrite heap_put_ch_ne; [done|]. intros <-. apply Hnot. by exists i.
  - by eapply handles_le.
  - by eapply threads_inv_le.
Qed.

(** A channel is gone from the table once its slot is cleared. *)
Lemma removed_not_in_table s n p ts hs l ch :
  sess_inv s n p ts hs → Z.of_nat n < 2 ^ 32 - 1 → s_heap s !! l = Some ch →
  is_u32 (chan_id ts l ch) →
  ¬ in_table (set_chans (chanList_remove (chan_id ts l ch) (s_chans s)) s) l.
Proof.
  intros [] Hn Hl Hid [i Hi]. cbn in Hi.
  assert (chanList_small (s_chans s)) as Hsm by (unfold chanList_small; lia).
  assert (mjoin (chanList_remove (chan_id ts l ch) (s_chans s) !! i) = Some l) as Hj
    by by rewrite Hi.
  rewrite chanList_remove_lookup in Hj by (done || apply Hid).
  case_decide as Hc; [done|].
  destruct (s_chans s !! i) as [[k|]|] eqn:E; simplify_eq/=.
  destruct (si_table0 i l E) as (c & Hlc & Hloc & _). simplify_eq.
  apply Hc. rewrite Hloc. lia.
Qed.

(** ** Preservation: a message of the peer *)

(** What handling a message leaves, at the loop's next point; it waits only
    while the channel's message queue is full. *)
Definition handled (n : nat) (ts : list thread) (hs : list chan_ptr) (l : chan_ptr)
    (msg : Message) (r : outcome (option error) * session) : Prop :=
  match r with
  | (Ret _, s) => sess_inv s n LRun ts hs
  | (Block, s) => sess_inv s n (LSend l msg) ts hs ∧
                  at_ptr s (λ ch, length (ch_buf (c_msg ch)) = chanSize) l
  | _ => False
  end.

Lemma msg_send_open k ch m :
  chan_inv k ch → msg_open ch →
  msg_send m (c_msg ch)
  = if (length (ch_buf (c_msg ch)) <? chanSize)%nat
    then Ret (tt, mkChan (ch_buf (c_msg ch) ++ [m]) chanSize false) else Block.
Proof.
  intros Hci Hop. unfold msg_send, chan_send. rewrite Hop, (proj1 (ci_cap _ _ Hci)). by case_cmp.
Qed.

Lemma chan_inv_send k ch m :
  chan_inv k ch → (length (ch_buf (c_msg ch)) < chanSize)%nat →
  (is_confirm m = true → sized ch) →
  chan_inv k (set_msg (mkChan (ch_buf (c_msg ch) ++ [m]) chanSize false) ch).
Proof.
  intros [H1 H2 H3 [H4 H5] H6] Hlt Hm. split; try done; cbn.
  - split; [done|]. rewrite length_app. cbn. lia.
  - intros m' [Hin|Hin%list_elem_of_singleton]%elem_of_app; [by apply (H6 m')|by subst].
Qed.

Section handle.
Context (s : session) (n : nat) (ts : list thread) (hs : list chan_ptr).
Context (l : chan_ptr) (ch : channel).
Hypothesis Hinv : sess_inv s n LRun ts hs.
Hypothesis Hl : s_heap s !! l = Some ch.
Hypothesis Hopen : msg_open ch.

Let Hci : chan_inv (credits l ts) ch := si_chan _ _ _ _ _ Hinv l ch Hl.

Lemma handle_data_inv id len_ d :
  is_u32 len_ → len_ = len d → handled n ts hs l (DataMessage id len_ d)
    (channel_handle l (DataMessage id len_ d) s).
Proof using All.
  intros Hu ->. cbn [channel_handle]. rewrite (handleData_eq _ _ _ _ _ Hl).
  rewrite (u32_small (len d)) by done.
  destruct (_ && _) eqn:E; cbn [handled]; [|done].
  apply andb_true_iff in E as [E Hw%Z.leb_le].
  eapply inv_put_same; try done. destruct Hci as [H1 H2 (q & Hq & H3 & H4) H5 H6].
  split; try done. exists (q ++ d). cbn. pose proof (len_nonneg d).
  pose proof (len_nonneg q). pose proof (credits_nonneg l ts).
  unfold channelWindowSize, channelMaxPacket in *.
  rewrite u32_small by (unfold is_u32; lia). rewrite len_app.
  split_and!; [by apply buffer_write_repr|lia..].
Qed.

Lemma handle_eof_inv id :
  handled n ts hs l (EOFMessage id) (channel_handle l (EOFMessage id) s).
Proof using All.
  rewrite (handle_eof_eq _ _ _ _ Hl). cbn [handled].
  eapply inv_put_same; try done. destruct Hci as [H1 H2 (q & Hq & H3) H5 H6].
  split; try done. exists q. split; [by apply buffer_eof_repr|done].
Qed.

Lemma handle_adjust_inv id k :
  is_u32 k → handled n ts hs l (WindowAdjustMessage id k)
    (channel_handle l (WindowAdjustMessage id k) s).
Proof using All.
  intros Hk. destruct Hci as [H1 H2 H3 H5 H6].
  rewrite (handle_adjust_eq _ _ _ _ _ Hl H1 Hk). cbv zeta.
  destruct (Z.ltb_spec (w_win (c_remoteWin ch) + k) (2 ^ 32)); cbn [handled]; [|done].
  eapply inv_put_same; try done. split; try done.
  unfold window_wf, is_u32 in *. cbn. lia.
Qed.

Lemma handle_confirm_inv id sender win maxp :
  is_u32 win → handled n ts hs l (OpenConfirmMessage id sender win maxp)
    (channel_handle l (OpenConfirmMessage id sender win maxp) s).
Proof using All.
  intros Hwin. rewrite (handle_confirm_eq _ _ _ _ _ _ _ Hl).
  case_decide; [done|]. destruct (_ || _) eqn:Esz; [done|].
  apply orb_false_iff in Esz as [Hmin%Z.ltb_ge Hmax%Z.ltb_ge].
  cbv zeta. rewrite (msg_send_open _ _ _ Hci Hopen). destruct Hci as [H1 H2 H3 [H4 H5] H6].
  set (c1 := set_remoteWin _ _).
  assert (sized c1) as Hsz by done.
  assert (is_u32 maxp) as Hmaxp
    by (unfold is_u32, minPacketLength, maxPacketLength in *; lia).
  assert (window_wf (c_remoteWin c1)) as Hww by by apply window_add_wf.
  assert (chan_inv (credits l ts) c1) as Hc1 by by split.
  case_cmp; cbn [handled].
  - eapply inv_put_same; try done. by apply (chan_inv_send _ c1).
  - split; [|exists c1; rewrite heap_put_ch; split; [done|cbn; lia]].
    eapply inv_loop_change.
    + by eapply inv_put_same.
    + exists c1. by rewrite heap_put_ch.
    + cbn. by rewrite (inv_no_inbox _ _ _ _ _ Hinv).
    + done.
Qed.

Lemma handle_failure_inv id :
  handled n ts hs l (OpenFailureMessage id) (channel_handle l (OpenFailureMessage id) s).
Proof using All.
  rewrite (handle_failure_eq _ _ _ _ Hl). case_decide; [done|].
  cbv zeta. rewrite (msg_send_open _ _ _ Hci Hopen).
  pose proof (inv_remove _ _ _ _ _ id Hinv) as Hrem.
  case_cmp; cbn [handled].
  - eapply inv_put_same; try done. by apply chan_inv_send.
  - split; [|exists ch; destruct (ci_cap _ _ Hci); split; [done|lia]].
    eapply inv_loop_change; [done| |by cbn; rewrite (inv_no_inbox _ _ _ _ _ Hinv)|done].
    by exists ch.
Qed.

Lemma handle_close_inv id :
  Z.of_nat n < 2 ^ 32 - 1 → is_u32 (c_localId ch) → names ts !! l = None →
  handled n ts hs l (CloseMessage id) (channel_handle l (CloseMessage id) s).
Proof using All.
  intros Hn Hid Hnm. rewrite (handle_close_eq _ _ _ _ Hl Hopen). cbn [handled].
  set (s1 := if c_sentClose ch then s else _).
  assert (sess_inv s1 n LRun ts hs) as Hinv1.
  { subst s1. destruct (c_sentClose ch); [done|].
    by apply (inv_frame s). }
  assert (s_heap s1 !! l = Some ch) as Hl1 by (subst s1; by destruct (c_sentClose ch)).
  replace (s_chans s) with (s_chans s1) by (subst s1; by destruct (c_sentClose ch)).
  eapply (inv_close _ n LRun); try done.
  - by apply inv_remove.
  - replace (c_localId ch) with (chan_id ts l ch) in Hid |- * by by (unfold chan_id; rewrite Hnm).
    by eapply removed_not_in_table.
  - cbn. by rewrite (inv_no_inbox _ _ _ _ _ Hinv1).
Qed.
End handle.

(** Any message of the peer for a channel of the table; it closes none that does
    not know its id yet. *)
Lemma handle_inv s n ts hs (i : nat) l msg :
  sess_inv s n LRun ts hs → Z.of_nat n < 2 ^ 32 - 1 →
  s_chans s !! i = Some (Some l) → message_wf msg →
  (∀ id, msg = CloseMessage id → names ts !! l = None) →
  handled n ts hs l msg (channel_handle l msg s).
Proof.
  intros Hinv Hn Hi Hwf Hnm. destruct (si_table _ _ _ _ _ Hinv _ _ Hi) as (ch & Hl & Hid & Hop).
  destruct msg; cbn [message_wf] in Hwf; destruct_and?; [done|..];
    eauto using handle_data_inv, handle_eof_inv, handle_adjust_inv, handle_confirm_inv,
      handle_failure_inv.
  specialize (Hnm _ eq_refl). apply handle_close_inv with ch; try done.
  unfold chan_id in Hid. rewrite Hnm in Hid. cbn in Hid. rewrite Hid.
  apply lookup_lt_Some in Hi. pose proof (si_small _ _ _ _ _ Hinv). unfold is_u32, len in *. lia.
Qed.
