(* ===== verification/SystemSafe.v ===== *)
(** * No interleaving of a session panics

    Every action keeps the invariant of SystemInv.v and ends by going on or
    by waiting: no send on a closed queue, no double close, no nil pointer. The peer
    may send anything but a close for a channel [newChannel] has not named yet. *)
From S2P Require Import Prelude GoRuntime Frame Buffer Window ChanList.
From S2P Require Import MuxState Channel ChannelSpec Session SessionSpec System.
From S2P Require Import SystemInv.

(** ** Preservation: actions *)

(** A step that keeps the invariant and does not panic. *)
Definition safe (n : nat) (r : step_result) : Prop :=
  (r.1 = Ret tt ∨ r.1 = Block) ∧ sys_inv n r.2.

Lemma safe_ok n c : sys_inv n c → safe n (ok c).
Proof. intros. split; [by left|done]. Qed.

Lemma safe_block n c : sys_inv n c → safe n (Block, c).
Proof. intros. split; [by right|done]. Qed.

Lemma run_ret {A} (m : MS A) c k a s :
  m (g_sess c) = (Ret a, s) → run m c k = k a (with_sess s c).
Proof. intros H. unfold run. by rewrite H. Qed.

Lemma run_block {A} (m : MS A) c k s :
  m (g_sess c) = (Block, s) → run m c k = (Block, with_sess s c).
Proof. intros H. unfold run. by rewrite H. Qed.

Lemma inv_run_inbox s n ts hs : sess_inv s n LRun ts hs → s_inbox s = None.
Proof. intros H. by apply (inv_no_inbox _ _ _ _ _ H). Qed.

(** From a point with no loop obligation the loop goes on or fails. *)
Lemma loop_next_safe n s p ts hs err :
  sess_inv s n p ts hs → p ≠ LDone → s_inbox s = None →
  safe n (loop_next err (mkConfig s p ts hs)).
Proof.
  intros Hinv Hp Hi. apply safe_ok. unfold sys_inv. cbn.
  destruct err; (eapply inv_loop_change; [done|done|by rewrite Hi|done]).
Qed.

Lemma is_u32_id s n p ts hs l ch :
  sess_inv s n p ts hs → s_heap s !! l = Some ch → is_u32 (c_maxRemotePayload ch).
Proof. intros Hinv Hl. by apply (si_chan _ _ _ _ _ Hinv) in Hl as []. Qed.

(** *** The loop *)

Lemma fresh_flow_ok ch :
  c_pending ch = newBuffer → c_myWindow ch = channelWindowSize → flow_ok 0 ch.
Proof.
  intros Hp Hw. exists []. rewrite Hp, Hw. unfold len, channelWindowSize, channelMaxPacket.
  split_and!; [apply newBuffer_repr|simpl; lia..].
Qed.

Lemma fresh_channel_inv dir id : chan_inv 0 (set_localId id (fresh_channel dir)).
Proof. split; try done; [by apply fresh_flow_ok|cbn; split; [done|lia]|by intros m Hm%elem_of_nil]. Qed.

Lemma opening_channel_inv id : chan_inv 0 (set_localId id opening_channel).
Proof. split; try done; [by apply fresh_flow_ok|cbn; split; [done|lia]|by intros m Hm%elem_of_nil]. Qed.

Lemma offered_channel_inv id sender win maxp :
  is_u32 win → is_u32 maxp → chan_inv 0 (set_localId id (offered_channel sender win maxp)).
Proof.
  intros Hw Hm. split; try done.
  - by apply window_add_wf.
  - by apply fresh_flow_ok.
  - cbn. split; [done|lia].
  - by intros m ?%elem_of_nil.
Qed.

Lemma packet_size_sized maxp sender win :
  packet_size_ok maxp = true → sized (offered_channel sender win maxp).
Proof.
  unfold packet_size_ok, sized. rewrite negb_true_iff, orb_false_iff, !Z.ltb_ge. done.
Qed.

Lemma handleOpen_begin_safe n c sender win maxp :
  sys_inv n c → Z.of_nat n < 2 ^ 32 - 1 → g_loop c = LRun →
  is_u32 win → is_u32 maxp →
  safe (S n)
    (run (session_handleOpen_begin sender win maxp) c (λ r c,
       match r with
       | inl err => loop_next err c
       | inr l => ok (with_loop (LAccept l sender) c)
       end)).
Proof.
  intros Hinv Hn Hp Hw Hm. unfold sys_inv in Hinv. rewrite Hp in Hinv.
  pose proof (handleOpen_begin_eq sender win maxp (g_sess c)) as Heq.
  destruct (packet_size_ok maxp) eqn:Hsz; rewrite (run_ret _ _ _ _ _ Heq); cbv iota.
  - apply safe_ok. unfold sys_inv. cbn.
    pose proof (inv_added _ _ _ _ _ (offered_channel sender win maxp) Hinv Hn
      (λ id, offered_channel_inv id sender win maxp Hw Hm) eq_refl) as Ha.
    destruct Ha. split; try done.
    + split; [done|]. eexists. split; [apply heap_added|].
      by apply (packet_size_sized maxp sender win).
    + cbn. intros l [= <-]. by eexists.
    + intros _. by apply si_closeCh.
  - unfold with_sess. rewrite Hp. apply loop_next_safe; [|done|].
    + eapply inv_mono; [by apply (inv_frame (g_sess c))|lia].
    + cbn. by eapply inv_run_inbox.
Qed.

Lemma getChan_table n s p ts hs id l :
  sess_inv s n p ts hs → Z.of_nat n < 2 ^ 32 - 1 → is_u32 id →
  chanList_getChan id (s_chans s) = Some l → s_chans s !! Z.to_nat id = Some (Some l).
Proof.
  intros [] Hn [Hid _]. rewrite getChan_lookup by (done || unfold chanList_small; lia).
  by destruct (s_chans s !! Z.to_nat id) as [[|]|]; intros; simplify_eq/=.
Qed.

Lemma message_channel_u32 m : message_wf m → is_u32 (Message_Channel m).1.
Proof. destruct m; cbn; intros; destruct_and?; by try lia. Qed.

Lemma exec_dispatch_safe n s ts hs msg :
  sess_inv s n LRun ts hs → Z.of_nat n < 2 ^ 32 - 1 → message_wf msg →
  (∀ id l, msg = CloseMessage id → chanList_getChan id (s_chans s) = Some l → names ts !! l = None) →
  safe (S n) (exec_dispatch msg (mkConfig s LRun ts hs)).
Proof.
  intros Hinv Hn Hwf Hnm. pose proof (inv_run_inbox _ _ _ _ Hinv) as Hin.
  unfold exec_dispatch. rewrite dispatch_eq. cbn [g_sess].
  destruct (chanList_getChan _ _) as [l|] eqn:Eg.
  2: { apply loop_next_safe; [|done..]. eapply inv_mono; [done|lia]. }
  assert (∀ id, msg = CloseMessage id → names ts !! l = None) as Hnm'
    by (intros id ->; by apply (Hnm id)).
  eapply getChan_table in Eg; [|done..|by apply message_channel_u32].
  pose proof (handle_inv _ _ _ _ _ _ _ Hinv Hn Eg Hwf Hnm') as Hh.
  destruct (channel_handle l msg s) as [[err| | |] s']; cbn in Hh |- *; try done.
  - apply loop_next_safe; [eapply inv_mono; [done|lia]|done|by eapply inv_run_inbox].
  - destruct Hh as [Hh _]. apply safe_ok. eapply inv_mono; [done|]. lia.
Qed.

Lemma exec_packet_safe n s ts hs :
  sess_inv s n LRun ts hs → Z.of_nat n < 2 ^ 32 - 1 →
  early ALoop (mkConfig s LRun ts hs) = false →
  safe (S n) (exec_packet (mkConfig s LRun ts hs)).
Proof.
  intros Hinv Hn He. unfold early in He. cbn [g_loop g_sess g_threads] in He. unfold exec_packet. erewrite run_ret by apply decode_eq.
  cbn [g_sess]. destruct (Decoder_Decode (s_dec s)) as [r d] eqn:Ed.
  cbn [fst snd with_sess g_loop g_threads g_handles].
  apply (inv_frame s (set_dec d s)) in Hinv; [|done..].
  destruct r as [msg|e].
  2: { apply loop_next_safe; [eapply inv_mono; [done|lia]|done|by eapply inv_run_inbox]. }
  apply Decode_sound in Ed as (_ & _ & Hwf).
  assert (∀ id l, msg = CloseMessage id → chanList_getChan id (s_chans s) = Some l →
    names ts !! l = None) as Hnm.
  { intros id l -> Hg. cbn in He. rewrite Hg in He.
    apply bool_decide_eq_false in He. by apply eq_None_not_Some. }
  pose proof (exec_dispatch_safe n _ ts hs msg Hinv Hn Hwf Hnm) as Hd.
  destruct msg; try exact Hd. destruct Hwf as (? & ? & ?). by apply handleOpen_begin_safe.
Qed.

(** What [handleOpen] offered is taken or withdrawn. *)
Lemma inv_clear_inbox s n p p' ts hs :
  sess_inv s n p ts hs → loop_inv (set_inbox None s) p' → (p' ≠ LDone → p ≠ LDone) →
  sess_inv (set_inbox None s) n p' ts hs.
Proof. intros [] Hp Hd. split; try done. cbn. auto. Qed.

(** [loop_next] over a state where only the transport changed. *)
Lemma loop_next_enc_safe n s p ts hs w err :
  sess_inv s n p ts hs → p ≠ LDone → s_inbox s = None →
  safe (S n) (loop_next err (mkConfig (set_enc w s) p ts hs)).
Proof.
  intros Hinv Hp Hi. apply loop_next_safe; [|done..].
  eapply inv_mono; [by apply (inv_frame s)|lia].
Qed.

Lemma handleOpen_end_safe n s l sender ts hs :
  sess_inv s n (LConfirm l sender) ts hs →
  safe (S n) (run (session_handleOpen_end l sender true)
                (mkConfig s (LConfirm l sender) ts hs) loop_next).
Proof.
  intros Hinv. destruct (si_loop _ _ _ _ _ Hinv) as (ch & Hl & _).
  erewrite run_ret by by apply handleOpen_end_eq. cbn [g_sess with_sess g_loop].
  apply loop_next_enc_safe; [done..|]. by eapply inv_no_inbox.
Qed.

Lemma timeout_safe n s l sender ts hs :
  sess_inv s n (LAccept l sender) ts hs →
  safe (S n) (run (session_handleOpen_end l sender false)
                (mkConfig s (LAccept l sender) ts hs) loop_next).
Proof.
  intros Hinv. destruct (si_loop _ _ _ _ _ Hinv) as (_ & ch & Hl & _).
  erewrite run_ret by by apply handleOpen_end_eq. cbn [g_sess with_sess g_loop].
  apply (inv_clear_inbox _ _ _ LRun) in Hinv; [|done..].
  eapply (loop_next_enc_safe _ _ LRun) in Hinv; [|done..]. exact Hinv.
Qed.

(** The queue of a channel gains a message, or the loop waits. *)
Lemma send_msg_safe n s l m ts hs :
  sess_inv s n (LSend l m) ts hs →
  safe (S n) (run (on_msg l (msg_send m)) (mkConfig s (LSend l m) ts hs)
                (λ _, loop_next None)).
Proof.
  intros Hinv. destruct (si_loop _ _ _ _ _ Hinv) as (ch & Hl & Hop & Hsz).
  pose proof (si_chan _ _ _ _ _ Hinv _ _ Hl) as Hci.
  pose proof (msg_send_open _ _ m Hci Hop) as Hs.
  destruct (Nat.ltb_spec (length (ch_buf (c_msg ch))) chanSize).
  - erewrite run_ret by by eapply on_msg_eq. cbn [with_sess g_loop g_threads g_handles].
    apply loop_next_safe; [|done|by apply (inv_no_inbox _ _ _ _ _ Hinv)].
    eapply inv_mono; [|apply Nat.le_succ_diag_r].
    eapply inv_put_same; try done. by apply chan_inv_send.
  - erewrite run_block by by eapply on_msg_block. apply safe_block.
    eapply inv_mono; [done|]. lia.
Qed.

(** Ids are slot numbers, so the table holds a channel once. *)
Lemma table_NoDup s n p ts hs :
  sess_inv s n p ts hs → NoDup (omap id (s_chans s)).
Proof.
  intros Hinv. pose proof (si_table _ _ _ _ _ Hinv) as Ht.
  assert (∀ i j l, s_chans s !! i = Some (Some l) → s_chans s !! j = Some (Some l) → i = j)
    as Hinj.
  { intros i j l Hi Hj. destruct (Ht _ _ Hi) as (c & Hc & Hci & _).
    destruct (Ht _ _ Hj) as (c' & Hc' & Hcj & _). simplify_eq. cbn in *. lia. }
  clear - Hinj. induction (s_chans s) as [|[l|] cs IH]; cbn; [constructor|..].
  - constructor.
    + intros (x & Hin & Hx)%list_elem_of_omap. cbn in Hx. subst x.
      apply list_elem_of_lookup in Hin as [i Hi]. by specialize (Hinj 0%nat (S i) l eq_refl Hi).
    + apply IH. intros i j k Hi Hj. by specialize (Hinj (S i) (S j) k Hi Hj) as [= ->].
  - apply IH. intros i j k Hi Hj. by specialize (Hinj (S i) (S j) k Hi Hj) as [= ->].
Qed.

Lemma drop_safe n s err ts hs :
  sess_inv s n (LDrop err) ts hs →
  safe (S n) (exec_loop (mkConfig s (LDrop err) ts hs)).
Proof.
  intros Hinv. apply safe_ok. eapply inv_mono; [|apply Nat.le_succ_diag_r].
  pose proof (table_NoDup _ _ _ _ _ Hinv) as Hnd.
  pose proof (inv_no_inbox _ _ _ _ _ Hinv ltac:(done)) as Hin.
  pose proof (si_closeCh _ _ _ _ _ Hinv ltac:(done)) as Hcl.
  destruct Hinv. split; try done; cbn [s_chans set_chans g_sess with_sess with_loop].
  - unfold len. cbn. lia.
  - cbn [loop_inv]. split; [done|]. intros l [i Hi]%dropAll_elem. split.
    + destruct (si_table i l Hi) as (ch & Hl & _ & Ho). by exists ch.
    + intros [j Hj]. done.
  - cbn. by rewrite Hin.
Qed.

Lemma drain_safe n s l ls err ts hs :
  sess_inv s n (LDrain (l :: ls) err) ts hs →
  safe (S n) (exec_loop (mkConfig s (LDrain (l :: ls) err) ts hs)).
Proof.
  intros Hinv. pose proof (si_loop _ _ _ _ _ Hinv) as [[Hni Hnd]%NoDup_cons Hls].
  destruct (Hls l) as [(ch & Hl & Ho) Ht]; [by left|].
  cbn [exec_loop g_loop]. erewrite run_ret by by apply close_eq.
  apply safe_ok. eapply inv_mono; [|apply Nat.le_succ_diag_r].
  cbn [g_sess with_sess with_loop]. eapply inv_close; try done.
  - cbn [loop_inv]. split; [done|]. intros k Hk. destruct (Hls k) as [(c & Hc & Hco) Hkt]; [by right|].
    split; [|done]. exists c. rewrite heap_put_ch_ne; [done|]. by intros <-.
  - cbn [g_sess with_sess with_loop]. by rewrite (inv_no_inbox _ _ _ _ _ Hinv).
Qed.

Lemma exit_safe n s err ts hs :
  sess_inv s n (LDrain [] err) ts hs →
  safe (S n) (exec_loop (mkConfig s (LDrain [] err) ts hs)).
Proof.
  intros Hinv. pose proof (si_closeCh _ _ _ _ _ Hinv ltac:(done)) as Hc.
  pose proof (inv_no_inbox _ _ _ _ _ Hinv ltac:(done)) as Hin.
  cbn [exec_loop g_loop]. unfold loop_exit, closeCh_send. unfold run. mred. rewrite Hc. cbn.
  apply safe_ok. unfold sys_inv. cbn. eapply inv_mono; [|apply Nat.le_succ_diag_r].
  destruct Hinv. split; try done. cbn. by rewrite Hin.
Qed.

Lemma exec_loop_safe n c :
  sys_inv n c → Z.of_nat n < 2 ^ 32 - 1 → early ALoop c = false → safe (S n) (exec_loop c).
Proof.
  destruct c as [s p ts hs]. unfold sys_inv. cbn [g_sess g_loop g_threads g_handles].
  intros Hinv Hn He.
  destruct p as [|l sd|l sd|l m|e|[|l ls] e|].
  - by apply exec_packet_safe.
  - apply safe_block. eapply inv_mono; [done|lia].
  - by apply handleOpen_end_safe.
  - by apply send_msg_safe.
  - by apply drop_safe.
  - by apply exit_safe.
  - by apply drain_safe.
  - apply safe_block. eapply inv_mono; [done|lia].
Qed.

(** *** User goroutines *)

(** Goroutines come and go; no credit does. *)
Lemma inv_threads s n p ts ts' hs :
  sess_inv s n p ts hs → (∀ k, credits k ts' = credits k ts) → goes_on ts ts' →
  Forall (thread_inv s) ts' → sess_inv s n p ts' hs.
Proof.
  intros [] Hc [Hnm Hop] Hts. split; try done.
  - intros l ch. rewrite Hc. auto.
  - intros i l Hi. unfold chan_id. rewrite Hnm. by apply si_table.
  - by apply Hop.
Qed.

Lemma inv_end s n p ts hs i t :
  sess_inv s n p ts hs → ts !! i = Some t → (∀ k, thread_credit k t = 0) →
  thread_naming t = None → sess_inv s n p (delete i ts) hs.
Proof.
  intros Hinv Hi Ht Hn. eapply inv_threads; [done|..].
  - intros k. rewrite (credits_delete _ _ _ _ Hi), Ht. lia.
  - by eapply goes_delete.
  - apply Forall_delete, Hinv.
Qed.

Lemma inv_set s n p ts hs i t t' :
  sess_inv s n p ts hs → ts !! i = Some t → (∀ k, thread_credit k t = 0) →
  (∀ k, thread_credit k t' = 0) → thread_naming t = None → thread_naming t' = None →
  thread_opening t' = thread_opening t → thread_inv s t' →
  sess_inv s n p (<[i := t']> ts) hs.
Proof.
  intros Hinv Hi Ht Ht' Hnm Hnm' Ho Hinv'. eapply inv_threads; [done|..].
  - intros k. rewrite (credits_insert _ _ _ _ _ Hi), Ht, Ht'. lia.
  - by eapply goes_insert.
  - apply Forall_insert; [apply Hinv|done].
Qed.

Lemma inv_spawn s n p ts hs t :
  sess_inv s n p ts hs → (∀ k, thread_credit k t = 0) → thread_opening t = None →
  thread_inv s t → sess_inv s n p (t :: ts) hs.
Proof.
  intros Hinv Ht Ho Hi. eapply inv_threads; [done|..].
  - intros k. cbn. rewrite Ht. lia.
  - by apply goes_cons.
  - constructor; [done|apply Hinv].
Qed.

Lemma inv_handle s n p ts hs l :
  sess_inv s n p ts hs → at_ptr s sized l → sess_inv s n p ts (l :: hs).
Proof. intros [] Hl. split; try done. by constructor. Qed.

Lemma inv_enc s n p ts hs w :
  sess_inv s n p ts hs → sess_inv (set_enc w s) n p ts hs.
Proof. by apply inv_frame. Qed.

(** The remote window of a channel changed. *)
Lemma inv_window s n p ts hs l ch w :
  sess_inv s n p ts hs → s_heap s !! l = Some ch → window_wf w →
  sess_inv (put_ch l (set_remoteWin w ch) s) n p ts hs.
Proof.
  intros Hinv Hl Hw. eapply inv_put_same; try done.
  destruct (si_chan _ _ _ _ _ Hinv _ _ Hl). by split.
Qed.

(** A message was taken from the queue of a channel. *)
Lemma inv_received s n p ts hs l ch m rest :
  sess_inv s n p ts hs → s_heap s !! l = Some ch → ch_buf (c_msg ch) = m :: rest →
  sess_inv (put_ch l (set_msg (mkChan rest (ch_cap (c_msg ch)) (ch_closed (c_msg ch))) ch) s)
    n p ts hs.
Proof.
  intros Hinv Hl Hm. pose proof (si_chan _ _ _ _ _ Hinv _ _ Hl) as [].
  rewrite Hm in *. eapply inv_put_same; try done. split; try done; cbn.
  - destruct ci_cap as [? Hlen]. cbn in Hlen. split; [done|lia].
  - intros x Hx. apply ci_confirm. by right.
Qed.

(** The message [Open] waits for is a confirmation only if the peer's packet
    size was accepted. *)
Lemma Open_reply_sized s n p ts hs l ch m rest l' :
  sess_inv s n p ts hs → s_heap s !! l = Some ch → ch_buf (c_msg ch) = m :: rest →
  session_Open_reply l (Some m) = Ok l' → l' = l ∧ sized ch.
Proof.
  intros Hinv Hl Hm Ho. pose proof (si_chan _ _ _ _ _ Hinv _ _ Hl) as [].
  destruct m; simplify_eq/=. split; [done|].
  eapply ci_confirm; [rewrite Hm; by left|done].
Qed.

(** The id returned by [chans.add] is written. *)
Lemma name_thread_safe n s p ts hs i l id done :
  sess_inv s n p ts hs → ts !! i = Some (TName l id) →
  safe (S n) (exec_thread i done (mkConfig s p ts hs)).
Proof.
  intros Hinv Hi. unfold exec_thread. cbn [g_threads]. rewrite Hi.
  apply (inv_mono _ _ (S n)) in Hinv; [|lia].
  pose proof (si_threads _ _ _ _ _ Hinv) as Ht. rewrite Forall_lookup in Ht.
  destruct (Ht _ _ Hi) as (ch & Hl & _). pose proof (si_opening _ _ _ _ _ Hinv) as Hnd.
  assert (∀ k, credits k (<[i := TRequest l]> ts) = credits k ts) as Hcr
    by (intros k; rewrite (credits_insert _ _ _ _ _ Hi); cbn; lia).
  erewrite run_ret by by apply assign_eq. apply safe_ok. eapply inv_put_slot; try done.
  - rewrite Hcr. destruct (si_chan _ _ _ _ _ Hinv _ _ Hl). by split.
  - unfold chan_id. rewrite (named_names ts i l id) by done. rewrite decide_True by done.
    by rewrite (proj2 (names_Some ts l id Hnd) (list_elem_of_lookup_2 _ _ _ Hi)).
  - intros k Hk. rewrite (named_names ts i l id) by done. by rewrite decide_False.
  - by eapply named_opening.
  - intros s' Hle. apply Forall_insert; [eapply threads_inv_le; [done|apply Hinv]|].
    eapply at_any_le; [done|by exists ch].
Qed.

(** The request of [Open] is sent, or the goroutine ends. *)
Lemma request_thread_safe n s p ts hs i l done :
  sess_inv s n p ts hs → ts !! i = Some (TRequest l) →
  safe (S n) (exec_thread i done (mkConfig s p ts hs)).
Proof.
  intros Hinv Hi. unfold exec_thread. cbn [g_threads]. rewrite Hi.
  apply (inv_mono _ _ (S n)) in Hinv; [|lia].
  pose proof (si_threads _ _ _ _ _ Hinv) as Ht. rewrite Forall_lookup in Ht.
  destruct (Ht _ _ Hi) as (ch & Hl & _).
  erewrite run_ret by by apply Open_send_eq. cbv zeta. set (r := Encoder_Encode _ _).
  assert (sess_inv (put_ch l (set_maxIncomingPayload channelMaxPacket ch) s) (S n) p ts hs) as Hp.
  { eapply inv_put_same; try done. destruct (si_chan _ _ _ _ _ Hinv _ _ Hl). by split. }
  apply (inv_enc _ _ _ _ _ r.2) in Hp.
  destruct r.1; apply safe_ok; [by eapply inv_end|]. eapply inv_set; try done.
  exists (set_maxIncomingPayload channelMaxPacket ch). split; [apply heap_put_ch|done].
Qed.

Lemma open_thread_safe n s p ts hs i l done :
  sess_inv s n p ts hs → ts !! i = Some (TOpen l) →
  safe (S n) (exec_thread i done (mkConfig s p ts hs)).
Proof.
  intros Hinv Hi. unfold exec_thread. cbn [g_threads]. rewrite Hi.
  apply (inv_mono _ _ (S n)) in Hinv; [|lia].
  assert (∀ s', sess_inv s' (S n) p ts hs → sess_inv s' (S n) p (delete i ts) hs) as Hend
    by (intros; by eapply inv_end).
  pose proof (si_threads _ _ _ _ _ Hinv) as Ht. rewrite Forall_lookup in Ht.
  destruct (Ht _ _ Hi) as (ch & Hl & _).
  pose proof (Open_wait_eq l done ch s Hl) as Hw. unfold run. cbn [g_sess]. rewrite Hw.
  destruct done as [e|]; [by apply safe_ok, Hend|].
  destruct (ch_buf (c_msg ch)) as [|m rest] eqn:Em.
  { destruct (ch_closed (c_msg ch)); [by apply safe_ok, Hend|by apply safe_block]. }
  pose proof (inv_received _ _ _ _ _ _ _ _ _ Hinv Hl Em) as Hinv'.
  destruct (session_Open_reply l (Some m)) as [l'|e] eqn:Eo; apply safe_ok; [|by apply Hend].
  destruct (Open_reply_sized _ _ _ _ _ _ _ _ _ _ Hinv Hl Em Eo) as [-> Hs].
  apply inv_handle; [by apply Hend|]. eexists. split; [apply heap_put_ch|done].
Qed.

Lemma at_sized_put s l ch ch' :
  s_heap s !! l = Some ch → (sized ch → sized ch') → at_ptr s sized l →
  at_ptr (put_ch l ch' s) sized l.
Proof. intros Hl Hs (c & Hc & HP). simplify_eq. exists ch'. rewrite heap_put_ch. auto. Qed.

Lemma go_min_u32 a b : is_u32 a → is_u32 (go_min a b).
Proof. intros Ha. unfold go_min. pose proof (u32_range b). by case_cmp. Qed.

(** The head of the loop in [Write]: what follows needs only that a thread
    inside [reserve] can be added. *)
Lemma write_turn_safe n s p ts hs l data k cont ret :
  sess_inv s n p ts hs → at_ptr s sized l →
  (∀ s' t, sess_inv s' n p ts hs → (∀ i, thread_credit i t = 0) → thread_opening t = None →
     thread_inv s' t → sys_inv n (cont t (mkConfig s' p ts hs))) →
  sys_inv n (ret (mkConfig s p ts hs)) →
  safe n (write_turn l data k cont ret (mkConfig s p ts hs)).
Proof.
  intros Hinv (ch & Hl & Hs) Hcont Hret. unfold write_turn.
  case_cmp; [by apply safe_ok|].
  erewrite run_ret by by apply deref_eq. cbn [with_sess g_loop g_threads g_handles].
  erewrite run_ret by by eapply on_remoteWin_eq.
  destruct (si_chan _ _ _ _ _ Hinv _ _ Hl) as [Hww Hmax _ _ _].
  apply safe_ok, Hcont; [by apply inv_window|done..|]. split; [|by apply go_min_u32].
  eapply at_sized_put; [done|done|by exists ch].
Qed.

Lemma reserve_thread_safe n s p ts hs i l data k want done :
  sess_inv s n p ts hs → ts !! i = Some (TReserve l data k want) →
  safe (S n) (exec_thread i done (mkConfig s p ts hs)).
Proof.
  intros Hinv Hi. unfold exec_thread. cbn [g_threads]. rewrite Hi.
  apply (inv_mono _ _ (S n)) in Hinv; [|lia].
  pose proof (si_threads _ _ _ _ _ Hinv) as Ht. rewrite Forall_lookup in Ht.
  destruct (Ht _ _ Hi) as [(ch & Hl & Hs) Hwant].
  destruct (si_chan _ _ _ _ _ Hinv _ _ Hl) as [Hww _ _ _ _].
  destruct (reserve_retry want (c_remoteWin ch)) as [o w] eqn:Er.
  pose proof (on_remoteWin_eq _ _ _ _ _ _ Hl Er) as Hrun.
  unfold reserve_retry in Er. destruct (reserve_waits _).
  { simplify_eq. erewrite run_block by done. apply safe_block.
    apply inv_window; [done..|]. destruct (c_remoteWin ch); done. }
  rewrite reserve_finish_spec in Er by done. simplify_eq.
  assert (is_u32 (Z.min (w_win (c_remoteWin ch)) want)) as Hmin
    by (unfold window_wf, is_u32 in *; lia).
  assert (window_wf (mkWindow (w_win (c_remoteWin ch) - Z.min (w_win (c_remoteWin ch)) want)
    (w_writeWaiters (c_remoteWin ch) - 1) (w_closed (c_remoteWin ch)))) as Hw'
    by (unfold window_wf, is_u32 in *; cbn; lia).
  pose proof (inv_window _ _ _ _ _ _ _ _ Hinv Hl Hw') as Hinv'.
  erewrite run_ret by done. destruct (w_closed (c_remoteWin ch)); apply safe_ok.
  - by eapply inv_end.
  - eapply inv_set; [done..|]. split; [|done].
    eapply at_sized_put; [done|done|by exists ch].
Qed.

Lemma encode_thread_safe n s p ts hs i l data k space done :
  sess_inv s n p ts hs → ts !! i = Some (TEncode l data k space) →
  safe (S n) (exec_thread i done (mkConfig s p ts hs)).
Proof.
  intros Hinv Hi. unfold exec_thread. cbn [g_threads]. rewrite Hi.
  apply (inv_mono _ _ (S n)) in Hinv; [|lia].
  pose proof (si_threads _ _ _ _ _ Hinv) as Ht. rewrite Forall_lookup in Ht.
  destruct (Ht _ _ Hi) as [(ch & Hl & Hs) Hspace]. cbv zeta.
  set (d := take (Z.to_nat space) data).
  assert (∀ err w, encode (DataMessage (c_remoteId ch) (u32 (len d)) d) s
    = (Ret err, set_enc w s) → safe (S n)
      match err with
      | Some _ => ok (end_thread i (mkConfig (set_enc w s) p ts hs))
      | None => write_turn l (drop (length d) data) (k + len d) (set_thread i)
                  (end_thread i) (mkConfig (set_enc w s) p ts hs)
      end) as Hk.
  { intros err w _. apply (inv_enc _ _ _ _ _ w) in Hinv.
    assert (sys_inv (S n) (end_thread i (mkConfig (set_enc w s) p ts hs))) as Hend
      by by eapply inv_end.
    destruct err; [by apply safe_ok|]. apply write_turn_safe; [done|by exists ch| |done].
    intros s' t ? ? Ho ?. eapply inv_set; try done. by destruct t. }
  unfold run. cbn [g_sess]. unfold mbind, M_bind. rewrite (deref_eq _ _ _ Hl), encode_eq.
  apply Hk, encode_eq.
Qed.

Lemma adjust_thread_safe n s p ts hs i l out done :
  sess_inv s n p ts hs → ts !! i = Some (TAdjust l out) →
  safe (S n) (exec_thread i done (mkConfig s p ts hs)).
Proof.
  intros Hinv Hi. unfold exec_thread. cbn [g_threads]. rewrite Hi.
  apply (inv_mono _ _ (S n)) in Hinv; [|lia].
  pose proof (si_threads _ _ _ _ _ Hinv) as Ht. rewrite Forall_lookup in Ht.
  destruct (Ht _ _ Hi) as [(ch & Hl & _) Hlen].
  pose proof (si_chan _ _ _ _ _ Hinv _ _ Hl) as [H1 H2 (q & Hq & H3 & H4) H5 H6].
  pose proof (credits_delete l _ _ _ Hi) as Hdel. cbn [thread_credit] in Hdel.
  rewrite decide_True in Hdel by done. pose proof (credits_nonneg l (delete i ts)).
  pose proof (len_nonneg q).
  assert (is_u32 (len out) ∧ is_u32 (c_myWindow ch + len out)) as [Ho Hs]
    by (unfold is_u32, channelWindowSize, channelMaxPacket in *; lia).
  assert (sess_inv (put_ch l (set_myWindow (u32 (c_myWindow ch + u32 (len out))) ch) s)
    (S n) p (delete i ts) hs) as Hinv'.
  { rewrite (u32_small (len out)), u32_small by done.
    eapply inv_put; [done|done|split; try done|done..| | |].
    - exists q. cbn. split_and!; [done|lia..].
    - intros k Hk. rewrite (credits_delete _ _ _ _ Hi). cbn. rewrite decide_False by done. lia.
    - by eapply goes_delete.
    - intros s' Hle. apply Forall_delete. eapply threads_inv_le; [done|]. apply Hinv. }
  pose proof (adjustWindow_eq l (u32 (len out)) ch s Hl) as Ha.
  unfold run. cbn [g_sess]. rewrite Ha.
  destruct (c_sentClose ch); [|rewrite encode_eq]; apply safe_ok; [done|by apply inv_enc].
Qed.

Lemma exec_thread_safe n c i done : sys_inv n c → safe (S n) (exec_thread i done c).
Proof.
  destruct c as [s p ts hs]. intros Hinv.
  destruct (ts !! i) as [[]|] eqn:Hi;
    eauto using name_thread_safe, request_thread_safe, open_thread_safe, reserve_thread_safe, encode_thread_safe, adjust_thread_safe.
  unfold exec_thread. cbn [g_threads]. rewrite Hi. apply safe_block.
  eapply inv_mono; [done|lia].
Qed.

(** *** Calls of user code *)

Lemma open_call_safe n s p ts hs :
  sess_inv s n p ts hs → Z.of_nat n < 2 ^ 32 - 1 →
  safe (S n) (exec AOpen (mkConfig s p ts hs)).
Proof.
  intros Hinv Hn. cbn [exec]. erewrite run_ret by apply newChannel_add_eq.
  cbn [g_sess with_sess g_loop g_threads g_handles fst snd]. apply safe_ok.
  pose proof (si_threads _ _ _ _ _ Hinv) as Hts. pose proof (inv_heap_fresh _ _ _ _ _ Hinv) as Hf.
  apply (inv_entered s n p ts); try done; unfold spawn; cbn [g_threads with_threads].
  - apply (fresh_channel_inv channelOutbound 0).
  - unfold chan_id, names. cbn. by rewrite lookup_insert_eq.
  - intros l Hl. unfold names. cbn. by rewrite lookup_insert_ne.
  - intros Hall. constructor; [|done]. eexists. split; [apply heap_entered|done].
  - apply NoDup_cons. split; [|apply Hinv]. intros Hin.
    destruct (opening_at s ts (s_fresh s) Hts Hin) as (ch & Hl & _). congruence.
Qed.

Lemma accept_call_safe n s p ts hs b :
  sess_inv s n p ts hs → safe (S n) (exec (AAccept b) (mkConfig s p ts hs)).
Proof.
  intros Hinv. apply (inv_mono _ _ (S n)) in Hinv; [|lia].
  cbn [exec]. unfold session_Accept, run. mred. destruct b.
  - destruct (s_inbox s) as [l|] eqn:Hin; [|by apply safe_block].
    destruct (si_inbox _ _ _ _ _ Hinv _ Hin) as [sender ->].
    destruct (si_loop _ _ _ _ _ Hinv) as [Hil (ch & Hl & Hs)]. rewrite Hin in Hil. simplify_eq.
    apply safe_ok, inv_handle; [|by exists ch].
    apply (inv_clear_inbox _ _ (LAccept l sender)); [done|by exists ch|done].
  - assert (p = LDone ∨ p ≠ LDone) as [->|Hp] by (destruct p; (by left) || by right).
    + destruct (chan_recv (s_closeCh s)) as [[? q]| | |]; try by apply safe_block.
      cbn. assert (sess_inv (set_closeCh q s) (S n) LDone ts hs) as Hinv'
        by (by destruct Hinv). by apply safe_ok.
    + rewrite (si_closeCh _ _ _ _ _ Hinv Hp). by apply safe_block.
Qed.

(** A channel user code holds. *)
Lemma handle_sized n s p ts hs l :
  sess_inv s n p ts hs → l ∈ hs → at_ptr s sized l.
Proof. intros Hinv Hl. pose proof (si_handles _ _ _ _ _ Hinv) as H. by eapply Forall_forall in H. Qed.

(** A field no invariant speaks of was set. *)
Lemma inv_flag s n p ts hs l ch ch' :
  sess_inv s n p ts hs → s_heap s !! l = Some ch →
  ch' = set_sentEOF true ch ∨ ch' = set_sentClose true ch →
  sess_inv (put_ch l ch' s) n p ts hs.
Proof.
  intros Hinv Hl [-> | ->]; (eapply inv_put_same; [done..| |done|done|done];
    destruct (si_chan _ _ _ _ _ Hinv _ _ Hl); by split).
Qed.

Lemma close_call_safe n s p ts hs l :
  sess_inv s n p ts hs → safe (S n) (exec (AClose l) (mkConfig s p ts hs)).
Proof.
  intros Hinv. apply (inv_mono _ _ (S n)) in Hinv; [|lia].
  cbn [exec g_handles]. case_decide as Hin; [|by apply safe_block].
  destruct (handle_sized _ _ _ _ _ _ Hinv Hin) as (ch & Hl & _).
  unfold run. cbn [g_sess]. rewrite (Close_eq _ _ _ Hl).
  destruct (c_sentClose ch); [|rewrite encode_eq]; apply safe_ok; [done|].
  apply inv_enc. eapply inv_flag; eauto.
Qed.

Lemma closewrite_call_safe n s p ts hs l :
  sess_inv s n p ts hs → safe (S n) (exec (ACloseWrite l) (mkConfig s p ts hs)).
Proof.
  intros Hinv. apply (inv_mono _ _ (S n)) in Hinv; [|lia].
  cbn [exec g_handles]. case_decide as Hin; [|by apply safe_block].
  destruct (handle_sized _ _ _ _ _ _ Hinv Hin) as (ch & Hl & _).
  unfold run. cbn [g_sess]. rewrite (CloseWrite_eq _ _ _ Hl). cbv zeta.
  assert (sess_inv (put_ch l (set_sentEOF true ch) s) (S n) p ts hs) as Hinv'
    by (eapply inv_flag; eauto).
  destruct (c_sentClose ch); [|rewrite encode_eq]; apply safe_ok; [done|by apply inv_enc].
Qed.

Lemma write_call_safe n s p ts hs l data :
  sess_inv s n p ts hs → safe (S n) (exec (AWrite l data) (mkConfig s p ts hs)).
Proof.
  intros Hinv. apply (inv_mono _ _ (S n)) in Hinv; [|lia].
  cbn [exec g_handles]. case_decide as Hin; [|by apply safe_block].
  pose proof (handle_sized _ _ _ _ _ _ Hinv Hin) as (ch & Hl & Hs).
  erewrite run_ret by by apply deref_eq. destruct (c_sentEOF ch); [by apply safe_ok|].
  apply write_turn_safe; [done|by exists ch| |done]. intros. by apply inv_spawn.
Qed.

(** Bytes move from the buffer to a reader that owes the window their number. *)
Lemma read_call_safe n s p ts hs l k :
  sess_inv s n p ts hs → safe (S n) (exec (ARead l k) (mkConfig s p ts hs)).
Proof.
  intros Hinv. apply (inv_mono _ _ (S n)) in Hinv; [|lia].
  cbn [exec g_handles]. case_decide as Hin; [|by apply safe_block].
  destruct (handle_sized _ _ _ _ _ _ Hinv Hin) as (ch & Hl & Hs).
  pose proof (si_chan _ _ _ _ _ Hinv _ _ Hl) as [H1 H2 (q & Hq & H3 & H4) H5 H6].
  destruct (pending_Read_eq l k ch q s Hl Hq) as (b' & Hread & Hb & Hcl).
  assert (∀ credit, flow_ok credit (set_pending b' ch) →
    chan_inv credit (set_pending b' ch)) as Hci by (intros; by split).
  unfold run. cbn [g_sess]. rewrite Hread.
  assert (drop k q = q → sess_inv (put_ch l (set_pending b' ch) s) (S n) p ts hs) as Hsame.
  { intros Heq. eapply inv_put_same; [done..| |done|done|done]. apply Hci. exists q.
    rewrite Heq in Hb. done. }
  unfold queue_read. destruct (Nat.eqb_spec k 0) as [->|Hk].
  { cbn. apply safe_ok, Hsame, drop_0. }
  destruct q as [|x q'] eqn:Eq.
  { destruct (b_closed _); cbn; [apply safe_ok|apply safe_block]; apply Hsame, drop_nil. }
  rewrite <- Eq in *. cbn [fst]. assert (0 < len (take k q)) as Hpos.
  { subst q. destruct k; [done|]. cbn [take]. rewrite len_cons. len_solve. }
  cmp_true. apply safe_ok. cbn [g_sess g_threads g_handles g_loop with_sess spawn with_threads].
  eapply inv_put; [done|done| |done..| | |].
  - apply Hci. exists (drop k q). cbn. rewrite decide_True by done.
    rewrite len_drop, len_take in *. pose proof (len_nonneg q). split_and!; [done|lia..].
  - intros j Hj. cbn. by rewrite decide_False.
  - by apply goes_cons.
  - intros s' Hle. constructor.
    + split; [|done]. apply (at_sized_le s); [done|by exists ch].
    + eapply threads_inv_le; [done|]. apply Hinv.
Qed.

(** Every action is safe that closes no channel too early. *)
Lemma exec_safe n c a :
  sys_inv n c → Z.of_nat n < 2 ^ 32 - 1 → early a c = false → safe (S n) (exec a c).
Proof.
  intros Hinv Hn He. destruct c as [s p ts hs]. destruct a; cbn [exec].
  - by apply exec_loop_safe.
  - cbn [g_loop]. destruct p; try (apply safe_block; eapply inv_mono; [done|lia]).
    by apply timeout_safe.
  - by apply open_call_safe.
  - by apply accept_call_safe.
  - by apply close_call_safe.
  - by apply closewrite_call_safe.
  - by apply write_call_safe.
  - by apply read_call_safe.
  - apply safe_ok. eapply inv_mono; [by apply (inv_frame s)|lia].
  - by apply exec_thread_safe.
Qed.

Lemma initial_inv w r : sys_inv 0 (initial w r).
Proof. split; try done. constructor. Qed.

Lemma reach_inv n c : reach n c → Z.of_nat n < 2 ^ 32 - 1 → sys_inv n c.
Proof.
  induction 1 as [w r|n c c' Hr IH (a & o & Hea & He & Ho)]; intros Hn; [apply initial_inv|].
  pose proof (exec_safe n c a (IH ltac:(lia)) ltac:(lia) Hea) as [_ H]. by rewrite He in H.
Qed.

Lemma scenario_inv acts n c c' :
  sys_inv n c → scenario acts c = Some c' → Z.of_nat (n + length acts) < 2 ^ 32 →
  sys_inv (n + length acts) c'.
Proof.
  revert n c. induction acts as [|a acts IH]; intros n c Hinv Hs Hn; cbn in Hs.
  { simplify_eq. by rewrite Nat.add_0_r. }
  cbn [length] in *. rewrite Nat.add_succ_r in *. destruct (early a c) eqn:Ea; [done|].
  destruct (exec_safe n c a Hinv ltac:(lia) Ea) as [Ho Hi].
  destruct (exec a c) as [o c1]. cbn in Ho, Hi. apply (IH (S n) c1); [done| |lia].
  by destruct Ho as [-> | ->].
Qed.

(** ** What holds in every reachable configuration *)

(** C4. However the loop, the calls of user code and the timers interleave, no
    step of a session panics: no message is sent on a closed queue, no queue is
    closed twice, no pointer is nil. Each step goes on or waits. The peer may
    send any bytes, with one exception that [early] spells out: no close frame
    arrives for a channel [Open] has entered in the table but not told its id
    yet ([early_close_panics] in MuxHazards.v shows what such a frame does; a
    peer that waits for the open request sends none). *)
Theorem session_never_panics n c a :
  reach n c → Z.of_nat n < 2 ^ 32 - 1 → early a c = false →
  (exec a c).1 = Ret tt ∨ (exec a c).1 = Block.
Proof. intros Hr Hn Ha. by apply (exec_safe n c a (reach_inv n c Hr Hn) Hn Ha). Qed.

(** A session whose peer opens a channel, is accepted and sends three bytes. *)
Definition demo_input : list byte :=
  mjoin (Message_Bytes <$> [OpenMessage 5 (2 ^ 30) 16777216;
    DataMessage 0 3 [x01; x02; x03]; CloseMessage 0]).

Definition demo_acts : list action :=
  [ALoop; AAccept true; ALoop; ALoop; AWrite 0 [x07; x08]; AThread 0 None;
   AThread 0 None; ARead 0 2].

Definition demo : config :=
  default (initial (mkWriter [] []) (mkReader [] io_EOF))
    (scenario demo_acts (initial (mkWriter [] []) (mkReader demo_input io_EOF))).

Lemma demo_reach : reach 8 demo.
Proof.
  apply (initial_scenario demo_acts (mkWriter [] []) (mkReader demo_input io_EOF)).
  by vm_compute.
Qed.

Lemma session_never_panics_witness :
  (exec ALoop demo).1 = Ret tt ∧ ((exec ALoop demo).1 = Ret tt ∨ (exec ALoop demo).1 = Block).
Proof.
  split; [by vm_compute|]. apply (session_never_panics 8 _ ALoop demo_reach); by vm_compute.
Defined.

(** C5. Flow control never loses a byte of window: for every channel, the
    receive window, the bytes waiting in the buffer, and the bytes a [Read] has
    taken and is about to credit add up to the initial window. So the unsigned
    window arithmetic never wraps around. (The peer sends no [early] close.) *)
Theorem flow_conservation n c l ch :
  reach n c → Z.of_nat n < 2 ^ 32 - 1 → s_heap (g_sess c) !! l = Some ch →
  ∃ q, buffer_repr (c_pending ch) q ∧ 0 ≤ c_myWindow ch ∧
       c_myWindow ch + len q + credits l (g_threads c) = channelWindowSize.
Proof.
  intros Hr Hn Hl. exact (ci_flow _ _ (si_chan _ _ _ _ _ (reach_inv n c Hr Hn) l ch Hl)).
Qed.

Lemma flow_conservation_witness :
  ∃ ch, s_heap (g_sess demo) !! 0%nat = Some ch ∧ c_myWindow ch = channelWindowSize - 3 ∧
    ∃ q, buffer_repr (c_pending ch) q ∧ 0 ≤ c_myWindow ch ∧
         c_myWindow ch + len q + credits 0 (g_threads demo) = channelWindowSize.
Proof.
  eexists. split; [by vm_compute|]. split; [by vm_compute|].
  apply (flow_conservation 8 demo 0 _ demo_reach); by vm_compute.
Defined.

(** C16. The table and the heap agree: the channel in slot [i] is allocated, its
    message queue is still open, no other slot holds it, and its local id is [i],
    or a goroutine inside [newChannel] is about to set it to [i]; and every
    channel given to user code came with an accepted packet size. This is for a
    peer that sends no [early] close: one that does leaves a closed channel in the
    table. *)
Theorem table_consistent n c :
  reach n c → Z.of_nat n < 2 ^ 32 - 1 →
  (∀ (i : nat) l, s_chans (g_sess c) !! i = Some (Some l) →
     (∃ ch, s_heap (g_sess c) !! l = Some ch ∧ ch_closed (c_msg ch) = false ∧
            (c_localId ch = Z.of_nat i ∨ TName l (Z.of_nat i) ∈ g_threads c)) ∧
     ∀ j : nat, s_chans (g_sess c) !! j = Some (Some l) → j = i) ∧
  (∀ l, l ∈ g_handles c → ∃ ch, s_heap (g_sess c) !! l = Some ch ∧
     minPacketLength ≤ c_maxRemotePayload ch ≤ maxPacketLength).
Proof.
  intros Hr Hn. pose proof (reach_inv n c Hr Hn) as Hinv.
  pose proof (si_table _ _ _ _ _ Hinv) as Ht. split.
  - intros i l Hi. destruct (Ht i l Hi) as (ch & Hl & Hid & Ho).
    split.
    + exists ch. split_and!; [done..|]. unfold chan_id in Hid.
      destruct (names _ !! l) as [id|] eqn:E; [right|by left].
      apply names_Some in E; [|apply Hinv]. cbn in Hid. by subst id.
    + intros j Hj. destruct (Ht j l Hj) as (ch' & Hl' & Hid' & _). simplify_eq. lia.
  - intros l Hl. by apply (handle_sized _ _ _ _ _ _ Hinv).
Qed.

Lemma table_consistent_witness :
  0%nat ∈ g_handles demo ∧
  ∃ ch, s_heap (g_sess demo) !! 0%nat = Some ch ∧
     minPacketLength ≤ c_maxRemotePayload ch ≤ maxPacketLength.
Proof.
  assert (0%nat ∈ g_handles demo) as H
    by (replace (g_handles demo) with [0%nat] by (by vm_compute); by left).
  split; [exact H|]. apply (table_consistent 8 demo demo_reach); [by vm_compute|exact H].
Defined.
