(* ===== verification/Protocol.v ===== *)
(** * The channel protocol between two sessions, abstractly

    What a session promises its peer, without buffers, queues, tables or bytes:
    a side is the channels it has by id, each with what it may still send, what
    its writers have reserved and what it is ready to receive. [pstep] is one
    step of a side, reading at most one message and writing at most one. No
    channel is closed: ids are never reused. The invariant says that for every
    pair of channels window, reservations and messages in flight add up, so no
    message is ever refused. *)
From S2P Require Import Prelude GoRuntime Frame MuxState.

Local Abbreviation W := channelWindowSize.
Local Abbreviation maxp := channelMaxPacket.

(** ** Sides and steps *)

(** A channel: opened here or by the peer; the peer's id once known; the window
    for writing, the part of it reserved, the window for reading. *)
Record achan := mkA {
  a_out : bool;
  a_peer : option Z;
  a_win : Z;
  a_resv : Z;
  a_mine : Z;
}.

(** The channels by id, and the one being offered to [Accept]. *)
Record side := mkSide {
  sd : gmap Z achan;
  offer : option Z;
}.

Definition upd (k : Z) (c : achan) (X : side) : side := mkSide (<[k := c]> (sd X)) (offer X).

Definition set_win v c := mkA (a_out c) (a_peer c) v (a_resv c) (a_mine c).
Definition set_resv v c := mkA (a_out c) (a_peer c) (a_win c) v (a_mine c).
Definition set_mine v c := mkA (a_out c) (a_peer c) (a_win c) (a_resv c) v.
Definition set_peer v c := mkA (a_out c) v (a_win c) (a_resv c) (a_mine c).

(** [pstep X f X' f' out]: the side goes from [X] to [X'], the messages for it
    from [f] to [f'], and it sends [out]. *)
Inductive pstep : side → list Message → side → list Message → list Message → Prop :=
| p_open X f i :
    sd X !! i = None →
    pstep X f (upd i (mkA true None 0 0 W) X) f [OpenMessage i W maxp]
| p_recv_open X f i j :
    offer X = None → sd X !! j = None →
    pstep X (OpenMessage i W maxp :: f)
      (mkSide (<[j := mkA false (Some i) W 0 W]> (sd X)) (Some j)) f []
| p_confirm X f j c i :
    offer X = Some j → sd X !! j = Some c → a_peer c = Some i →
    pstep X f (mkSide (sd X) None) f [OpenConfirmMessage i j (a_mine c) maxp]
| p_recv_confirm X f i j w c :
    sd X !! i = Some c →
    pstep X (OpenConfirmMessage i j w maxp :: f)
      (upd i (set_peer (Some j) (set_win (a_win c + w) c)) X) f []
| p_reserve X f i n c :
    sd X !! i = Some c → 0 ≤ n ≤ a_win c →
    pstep X f (upd i (set_resv (a_resv c + n) (set_win (a_win c - n) c)) X) f []
| p_send X f i n d c p :
    sd X !! i = Some c → a_peer c = Some p → n = len d → n ≤ a_resv c → n ≤ maxp →
    pstep X f (upd i (set_resv (a_resv c - n) c) X) f [DataMessage p n d]
| p_recv_data X f i n d c :
    sd X !! i = Some c →
    pstep X (DataMessage i n d :: f) (upd i (set_mine (a_mine c - n) c) X) f []
| p_credit X f i n c p :
    sd X !! i = Some c → a_peer c = Some p → 0 < n → a_mine c + n ≤ W →
    pstep X f (upd i (set_mine (a_mine c + n) c) X) f [WindowAdjustMessage p n]
| p_recv_adjust X f i n c :
    sd X !! i = Some c →
    pstep X (WindowAdjustMessage i n :: f) (upd i (set_win (a_win c + n) c) X) f []
| p_eof X f i c p :
    sd X !! i = Some c → a_peer c = Some p →
    pstep X f X f [EOFMessage p]
| p_recv_eof X f i c :
    sd X !! i = Some c →
    pstep X (EOFMessage i :: f) X f [].

(** A message a side can take: its channel exists, and it respects the state of
    the channel. *)
Definition acceptable (X : side) (m : Message) : Prop :=
  match m with
  | OpenMessage _ w mx => w = W ∧ mx = maxp
  | OpenConfirmMessage i _ w mx =>
      ∃ c, sd X !! i = Some c ∧ a_out c = true ∧ a_peer c = None ∧ mx = maxp ∧
           0 ≤ w ∧ a_win c + w ≤ W
  | DataMessage i n d => ∃ c, sd X !! i = Some c ∧ n = len d ∧ n ≤ maxp ∧ n ≤ a_mine c
  | WindowAdjustMessage i n => ∃ c, sd X !! i = Some c ∧ 0 ≤ n ∧ a_win c + n ≤ W
  | EOFMessage i => is_Some (sd X !! i)
  | CloseMessage _ | OpenFailureMessage _ => False
  end.

(** ** What is in flight *)

(** The receiver's id a message carries; an open request has none. *)
Definition target (m : Message) : option Z :=
  match m with
  | OpenMessage _ _ _ => None
  | OpenConfirmMessage i _ _ _ | OpenFailureMessage i | DataMessage i _ _
  | WindowAdjustMessage i _ | EOFMessage i | CloseMessage i => Some i
  end.

(** The messages for channel [k], in order. *)
Definition to_ (k : Z) (f : list Message) : list Message :=
  filter (λ m, target m = Some k) f.

(** The open requests of the sender's channel [i]. *)
Definition opener (m : Message) : option Z :=
  match m with OpenMessage s _ _ => Some s | _ => None end.

Definition opens (i : Z) (f : list Message) : list Message :=
  filter (λ m, opener m = Some i) f.

Definition msum (g : Message → Z) (f : list Message) : Z := foldr (λ m z, g m + z) 0 f.

Definition w_data (m : Message) : Z := match m with DataMessage _ n _ => n | _ => 0 end.
Definition w_adj (m : Message) : Z := match m with WindowAdjustMessage _ n => n | _ => 0 end.
Definition w_conf (m : Message) : Z := match m with OpenConfirmMessage _ _ w _ => w | _ => 0 end.
Definition n_conf (m : Message) : Z :=
  match m with OpenConfirmMessage _ _ _ _ => 1 | _ => 0 end.
Definition n_adj (m : Message) : Z := match m with WindowAdjustMessage _ _ => 1 | _ => 0 end.

Lemma msum_nil g : msum g [] = 0.
Proof. done. Qed.

Lemma msum_cons g m f : msum g (m :: f) = g m + msum g f.
Proof. done. Qed.

Lemma msum_snoc g f m : msum g (f ++ [m]) = msum g f + g m.
Proof.
  induction f as [|x f IH]; [cbn; lia|]. rewrite <- app_comm_cons, !msum_cons, IH. lia.
Qed.

(** ** The invariant *)

(** Channel [i], opened here, and its counterpart [j]: [g] says whether [j] is
    still offered to [Accept], [lxy] and [lyx] are the messages in flight for [j]
    and for [i]. *)
Record linked (i j : Z) (cx cy : achan) (g : bool) (lxy lyx : list Message) : Prop := {
  ln_in : a_out cy = false;
  ln_peer : a_peer cy = Some i;
  ln_stage :
    (a_peer cx = None ∧ msum n_conf lyx + (if g then 1 else 0) = 1 ∧
       msum w_conf lyx + (if g then W else 0) = W ∧ msum n_adj lyx = 0 ∧ msum w_adj lyx = 0 ∧
       a_win cx = 0 ∧ a_resv cx = 0 ∧ lxy = []) ∨
    (a_peer cx = Some j ∧ msum n_conf lyx = 0 ∧ g = false);
  ln_xy : a_win cx + a_resv cx + msum w_data lxy + msum w_adj lyx + msum w_conf lyx
          + (if g then W else 0) = a_mine cy;
  ln_yx : a_win cy + a_resv cy + msum w_data lyx + msum w_adj lxy = a_mine cx;
  ln_conf : ∀ i' j' w mx, OpenConfirmMessage i' j' w mx ∈ lyx → j' = j;
  ln_noconf : msum n_conf lxy = 0 ∧ msum w_conf lxy = 0;
  ln_bounds : 0 ≤ a_win cx ∧ 0 ≤ a_resv cx ∧ 0 ≤ a_win cy ∧ 0 ≤ a_resv cy ∧
              a_mine cx ≤ W ∧ a_mine cy ≤ W;
}.

(** A message a side with channels [Y] can be sent by one with channels [X]. *)
Definition msg_ok (X Y : side) (σ : gmap Z Z) (m : Message) : Prop :=
  match m with
  | OpenMessage i w mx =>
      w = W ∧ mx = maxp ∧ σ !! i = None ∧ ∃ cx, sd X !! i = Some cx ∧ a_out cx = true
  | OpenConfirmMessage i _ w mx => mx = maxp ∧ 0 ≤ w ∧ ∃ cy, sd Y !! i = Some cy ∧ a_out cy = true
  | DataMessage j n d => n = len d ∧ n ≤ maxp ∧ is_Some (sd Y !! j)
  | WindowAdjustMessage j n => 0 ≤ n ∧ is_Some (sd Y !! j)
  | EOFMessage j => is_Some (sd Y !! j)
  | CloseMessage _ | OpenFailureMessage _ => False
  end.

(** The channels opened by [X]: [σ] maps their ids to those [Y] gave them. *)
Record half (X Y : side) (σ : gmap Z Z) (fxy fyx : list Message) : Prop := {
  hf_out : ∀ i cx, sd X !! i = Some cx → a_out cx = true →
    match σ !! i with
    | None => cx = mkA true None 0 0 W ∧ length (opens i fxy) = 1%nat ∧ to_ i fyx = []
    | Some j => opens i fxy = [] ∧ ∃ cy, sd Y !! j = Some cy ∧
        linked i j cx cy (bool_decide (offer Y = Some j)) (to_ j fxy) (to_ i fyx)
    end;
  hf_in : ∀ j cy, sd Y !! j = Some cy → a_out cy = false →
    ∃ i cx, σ !! i = Some j ∧ sd X !! i = Some cx ∧ a_out cx = true;
  hf_dom : ∀ i j, σ !! i = Some j → ∃ cx, sd X !! i = Some cx ∧ a_out cx = true;
  hf_offer : ∀ j, offer Y = Some j → ∃ cy, sd Y !! j = Some cy ∧ a_out cy = false;
  hf_msgs : Forall (msg_ok X Y σ) fxy;
}.

(** ** Lists in flight *)

Lemma to_cons k m f : to_ k (m :: f) = if decide (target m = Some k) then m :: to_ k f else to_ k f.
Proof. unfold to_. by rewrite filter_cons. Qed.

Lemma to_app k f g : to_ k (f ++ g) = to_ k f ++ to_ k g.
Proof. unfold to_. apply filter_app. Qed.

Lemma to_nil k : to_ k [] = [].
Proof. done. Qed.

Lemma opens_app k f g : opens k (f ++ g) = opens k f ++ opens k g.
Proof. unfold opens. apply filter_app. Qed.

Lemma elem_of_to k m f : m ∈ to_ k f ↔ target m = Some k ∧ m ∈ f.
Proof. unfold to_. by rewrite list_elem_of_filter. Qed.

Lemma opens_cons k m f :
  opens k (m :: f) = if decide (opener m = Some k) then m :: opens k f else opens k f.
Proof. unfold opens. by rewrite filter_cons. Qed.

Lemma target_opens m f k : is_Some (target m) → opens k (m :: f) = opens k f.
Proof. intros [p Hp]. rewrite opens_cons, decide_False; [done|]. by destruct m. Qed.

Lemma to_all k ms : Forall (λ m, target m = Some k) ms → to_ k ms = ms.
Proof. induction 1 as [|m ms Hm _ IH]; [done|]. by rewrite to_cons, decide_True, IH. Qed.

Lemma to_none k ms : Forall (λ m, target m ≠ Some k) ms → to_ k ms = [].
Proof. induction 1 as [|m ms Hm _ IH]; [done|]. by rewrite to_cons, decide_False. Qed.

Lemma opens_none k ms : Forall (λ m, is_Some (target m)) ms → opens k ms = [].
Proof. induction 1 as [|m ms Hm _ IH]; [done|]. by rewrite target_opens. Qed.

(** ** One half of the invariant under the steps of either side *)

Section half.
Context (X Y : side) (σ : gmap Z Z) (fxy fyx : list Message).
Hypothesis Hh : half X Y σ fxy fyx.

Lemma half_linked i j :
  σ !! i = Some j → ∃ cx cy, sd X !! i = Some cx ∧ a_out cx = true ∧ sd Y !! j = Some cy ∧
    opens i fxy = [] ∧
    linked i j cx cy (bool_decide (offer Y = Some j)) (to_ j fxy) (to_ i fyx).
Proof using Hh.
  intros Hs. destruct (hf_dom _ _ _ _ _ Hh _ _ Hs) as (cx & Hx & Ho).
  pose proof (hf_out _ _ _ _ _ Hh i cx Hx Ho) as H. rewrite Hs in H.
  destruct H as (Hop & cy & Hy & Hl). by exists cx, cy.
Qed.

(** The counterpart of a channel the other side opened here. *)
Lemma half_in j cy :
  sd Y !! j = Some cy → a_out cy = false → ∃ i cx,
    a_peer cy = Some i ∧ σ !! i = Some j ∧ sd X !! i = Some cx ∧ a_out cx = true ∧
    linked i j cx cy (bool_decide (offer Y = Some j)) (to_ j fxy) (to_ i fyx).
Proof using Hh.
  intros Hy Ho. destruct (hf_in _ _ _ _ _ Hh j cy Hy Ho) as (i & cx & Hs & Hx & Hox).
  destruct (half_linked i j Hs) as (cx' & cy' & Hx' & _ & Hy' & _ & Hl).
  rewrite Hx in Hx'. rewrite Hy in Hy'. simplify_eq.
  exists i, cx'. split_and!; try done. apply Hl.
Qed.

Lemma half_inj i i' j : σ !! i = Some j → σ !! i' = Some j → i = i'.
Proof using Hh.
  intros H1 H2. destruct (half_linked i j H1) as (cx & cy & _ & _ & Hy & _ & Hl).
  destruct (half_linked i' j H2) as (cx' & cy' & _ & _ & Hy' & _ & Hl').
  rewrite Hy in Hy'. simplify_eq.
  pose proof (ln_peer _ _ _ _ _ _ _ Hl). pose proof (ln_peer _ _ _ _ _ _ _ Hl'). congruence.
Qed.

(** The peer of a channel opened here, once known. *)
Lemma half_peer i cx p :
  sd X !! i = Some cx → a_out cx = true → a_peer cx = Some p →
  σ !! i = Some p ∧ ∃ cy, sd Y !! p = Some cy ∧ a_out cy = false.
Proof using Hh.
  intros Hx Ho Hp. pose proof (hf_out _ _ _ _ _ Hh i cx Hx Ho) as H.
  destruct (σ !! i) as [j|]; [|by destruct H as [-> _]].
  destruct H as (_ & cy & Hy & Hl).
  destruct (ln_stage _ _ _ _ _ _ _ Hl) as [(Hn & _)|(Hp' & _)]; [congruence|].
  rewrite Hp in Hp'. simplify_eq. split; [done|]. exists cy. split; [done|]. by apply Hl.
Qed.

Lemma half_msgs_sub f' X' Y' σ' ms :
  (∀ m, m ∈ f' → m ∈ fxy) → (∀ m, msg_ok X Y σ m → msg_ok X' Y' σ' m) →
  Forall (msg_ok X' Y' σ') ms → Forall (msg_ok X' Y' σ') (f' ++ ms).
Proof using Hh.
  intros Hsub Hok Hms. apply Forall_app. split; [|done]. apply Forall_forall. intros m Hm.
  apply Hok. pose proof (hf_msgs _ _ _ _ _ Hh) as H. rewrite Forall_forall in H. by apply H, Hsub.
Qed.

(** The opener updates channel [k], reads from [fyx] and sends [ms]. *)
Lemma half_opener_step k c c' o f' ms :
  sd X !! k = Some c → a_out c' = a_out c →
  (a_out c = false → ∀ p, a_peer c = Some p → ∃ cy, sd Y !! p = Some cy ∧ a_out cy = true) →
  (∀ k', k' ≠ k → to_ k' f' = to_ k' fyx) →
  Forall (λ m, ∃ p, target m = Some p ∧ a_peer c = Some p) ms → Forall (msg_ok X Y σ) ms →
  (∀ j cy g lxy, a_out c = true → linked k j c cy g lxy (to_ k fyx) →
     linked k j c' cy g (lxy ++ ms) (to_ k f')) →
  (a_out c = true → c = mkA true None 0 0 W → to_ k fyx = [] → c' = c ∧ to_ k f' = []) →
  half (mkSide (<[k := c']> (sd X)) o) Y σ (fxy ++ ms) f'.
Proof using Hh.
  intros Hk Ho Hin Hf Hms Hok Hlink Hnew.
  assert (Hopens : ∀ i, opens i (fxy ++ ms) = opens i fxy).
  { intros i. rewrite opens_app, (opens_none i ms), app_nil_r; [done|].
    eapply Forall_impl; [exact Hms|]. intros m (p & Hp & _). by eexists. }
  assert (Hdom : ∀ i, (∃ cx, sd X !! i = Some cx ∧ a_out cx = true) →
    ∃ cx, <[k := c']> (sd X) !! i = Some cx ∧ a_out cx = true).
  { intros i (cx & Hx & Hox). destruct (decide (i = k)) as [->|Hne].
    - exists c'. rewrite lookup_insert_eq. split; [done|]. congruence.
    - exists cx. by rewrite lookup_insert_ne. }
  split; cbn [sd].
  - intros i cx Hx Hox. rewrite Hopens. destruct (decide (i = k)) as [->|Hne].
    + rewrite lookup_insert_eq in Hx. simplify_eq. rewrite Ho in Hox.
      pose proof (hf_out _ _ _ _ _ Hh k c Hk Hox) as H. destruct (σ !! k) as [j|] eqn:Hs.
      * destruct H as (Hop & cy & Hy & Hl). split; [done|]. exists cy. split; [done|].
        rewrite to_app. rewrite (to_all j ms); [by apply Hlink|].
        destruct (ln_stage _ _ _ _ _ _ _ Hl) as [(Hn & _)|(Hp & _)];
          (eapply Forall_impl; [exact Hms|]; intros m (p & H1 & H2); congruence).
      * destruct H as (Hc & Hop & Ht). destruct (Hnew Hox Hc Ht) as [-> Ht']. by split_and!.
    + rewrite lookup_insert_ne in Hx by done.
      pose proof (hf_out _ _ _ _ _ Hh i cx Hx Hox) as H. destruct (σ !! i) as [j|] eqn:Hs.
      * destruct H as (Hop & cy & Hy & Hl). split; [done|]. exists cy. split; [done|].
        rewrite Hf by done. rewrite to_app, (to_none j ms), app_nil_r; [done|].
        eapply Forall_impl; [exact Hms|]. intros m (p & Hp & Hcp) Ht. rewrite Hp in Ht. simplify_eq.
        destruct (a_out c) eqn:Hoc.
        -- destruct (half_peer k c j Hk Hoc Hcp) as [Hsk _]. by destruct Hne; apply (half_inj i k j).
        -- destruct (Hin eq_refl j Hcp) as (cy' & Hy' & Hoy'). rewrite Hy in Hy'. simplify_eq.
           pose proof (ln_in _ _ _ _ _ _ _ Hl). congruence.
      * destruct H as (Hc & Hop & Ht). split_and!; [done..|]. by rewrite Hf.
  - intros j cy Hy Hoy. destruct (hf_in _ _ _ _ _ Hh j cy Hy Hoy) as (i & cx & Hs & Hx & Hox).
    destruct (Hdom i) as (cx' & Hx' & Hox'); [by exists cx|]. by exists i, cx'.
  - intros i j Hs. apply Hdom. by eapply hf_dom.
  - exact (hf_offer _ _ _ _ _ Hh).
  - assert (Hmono : ∀ m, msg_ok X Y σ m → msg_ok (mkSide (<[k := c']> (sd X)) o) Y σ m).
    { intros [] Hm; try done. cbn in *. destruct Hm as (? & ? & ? & Hm). split_and!; try done.
      by apply Hdom. }
    apply half_msgs_sub; [done|exact Hmono|]. by eapply Forall_impl.
Qed.

(** The other side updates channel [k], reads from [fxy] and sends [ms]. *)
Lemma half_other_step k c c' f' ms :
  sd Y !! k = Some c → a_out c' = a_out c →
  (a_out c = true → ∀ p, a_peer c = Some p → ∃ cx, sd X !! p = Some cx ∧ a_out cx = false) →
  (∀ k', k' ≠ k → to_ k' f' = to_ k' fxy) → (∀ i, opens i f' = opens i fxy) →
  (∀ m, m ∈ f' → m ∈ fxy) →
  Forall (λ m, ∃ p, target m = Some p ∧ a_peer c = Some p) ms →
  (∀ i cx g lyx, a_out c = false → linked i k cx c g (to_ k fxy) lyx →
     linked i k cx c' g (to_ k f') (lyx ++ ms)) →
  half X (upd k c' Y) σ f' (fyx ++ ms).
Proof using Hh.
  intros Hk Ho Hin Hf Hopens Hsub Hms Hlink.
  assert (Hsome : ∀ j (P : achan → Prop), (P c → P c') →
    (∃ cy, sd Y !! j = Some cy ∧ P cy) → ∃ cy, <[k := c']> (sd Y) !! j = Some cy ∧ P cy).
  { intros j P HP (cy & Hy & Hoy). destruct (decide (j = k)) as [->|Hne].
    - exists c'. rewrite lookup_insert_eq. split; [done|]. simplify_eq. auto.
    - exists cy. by rewrite lookup_insert_ne. }
  assert (Hpeer : ∀ i, (a_out c = false → σ !! i ≠ Some k) →
    (∃ cx, sd X !! i = Some cx ∧ a_out cx = true) → to_ i (fyx ++ ms) = to_ i fyx).
  { intros i Hne (cx & Hx & Hox). rewrite to_app, (to_none i ms), app_nil_r; [done|].
    eapply Forall_impl; [exact Hms|]. intros m (p & Hp & Hcp) Ht. rewrite Hp in Ht. simplify_eq.
    destruct (a_out c) eqn:Hoc.
    - destruct (Hin eq_refl i Hcp) as (cx' & Hx' & Hox'). congruence.
    - destruct (half_in k c Hk Hoc) as (i' & cx' & Hpc & Hs & _).
      rewrite Hcp in Hpc. simplify_eq. by apply Hne. }
  split; cbn [sd upd offer].
  - intros i cx Hx Hox. rewrite Hopens. pose proof (hf_out _ _ _ _ _ Hh i cx Hx Hox) as H.
    destruct (σ !! i) as [j|] eqn:Hs.
    + destruct H as (Hop & cy & Hy & Hl). split; [done|].
      destruct (decide (j = k)) as [->|Hne].
      * exists c'. rewrite lookup_insert_eq. split; [done|]. simplify_eq.
        pose proof (ln_in _ _ _ _ _ _ _ Hl) as Hoc. rewrite to_app, (to_all i ms); [by apply Hlink|].
        eapply Forall_impl; [exact Hms|]. intros m (p & Hp & Hcp).
        pose proof (ln_peer _ _ _ _ _ _ _ Hl). congruence.
      * exists cy. rewrite lookup_insert_ne by done. split; [done|]. rewrite Hf by done.
        rewrite Hpeer; [done|congruence|by exists cx].
    + destruct H as (Hc & Hop & Ht). split_and!; [done..|].
      rewrite Hpeer; [done|congruence|by exists cx].
  - intros j cy Hy Hoy. destruct (decide (j = k)) as [->|Hne].
    + rewrite lookup_insert_eq in Hy. simplify_eq. rewrite Ho in Hoy. by eapply hf_in.
    + rewrite lookup_insert_ne in Hy by done. by eapply hf_in.
  - exact (hf_dom _ _ _ _ _ Hh).
  - intros j Hj. apply Hsome; [congruence|]. by eapply hf_offer.
  - rewrite <- (app_nil_r f'). apply half_msgs_sub; [done| |constructor].
    assert (Hex : ∀ j, is_Some (sd Y !! j) → is_Some (<[k := c']> (sd Y) !! j)).
    { intros j Hj. apply lookup_insert_is_Some'. by right. }
    intros [] Hm; cbn in *; try done; destruct_and?; split_and?; try done; try by apply Hex.
    apply Hsome; [congruence|done].
Qed.
End half.

(** ** Opening and confirming *)

Lemma msg_ok_nonneg X Y σ m :
  msg_ok X Y σ m → 0 ≤ w_data m ∧ 0 ≤ w_adj m ∧ 0 ≤ w_conf m ∧ 0 ≤ n_conf m.
Proof.
  destruct m; cbn; intros Hm; destruct_and?; split_and!; try lia.
  subst. apply len_nonneg.
Qed.

Lemma msum_nonneg X Y σ f k :
  Forall (msg_ok X Y σ) f →
  0 ≤ msum w_data (to_ k f) ∧ 0 ≤ msum w_adj (to_ k f) ∧ 0 ≤ msum w_conf (to_ k f) ∧
  0 ≤ msum n_conf (to_ k f).
Proof.
  induction 1 as [|m f Hm _ IH]; [done|]. rewrite to_cons.
  apply msg_ok_nonneg in Hm. case_decide; [|done]. rewrite !msum_cons. lia.
Qed.

(** Nothing is in flight for a channel that does not exist. *)
Lemma to_absent X Y σ f k : Forall (msg_ok X Y σ) f → sd Y !! k = None → to_ k f = [].
Proof.
  intros Hf Hk. apply to_none. eapply Forall_impl; [exact Hf|]. intros m Hm Ht.
  destruct m; cbn in Hm, Ht; simplify_eq; try done;
    first [destruct Hm as (_ & _ & cy & Hy & _) | destruct Hm as (_ & _ & [cy Hy])
          |destruct Hm as (_ & [cy Hy]) | destruct Hm as [cy Hy]]; congruence.
Qed.

Lemma opens_absent X Y σ f k :
  Forall (msg_ok X Y σ) f → sd X !! k = None → opens k f = [].
Proof.
  induction 1 as [|m f Hm _ IH]; intros Hk; [done|]. rewrite opens_cons.
  case_decide as Ho; [|by apply IH]. destruct m; cbn in *; simplify_eq.
  destruct Hm as (_ & _ & _ & cx & Hx & _). congruence.
Qed.

Lemma to_snoc_open k f i w mx : to_ k (f ++ [OpenMessage i w mx]) = to_ k f.
Proof. by rewrite to_app, app_nil_r. Qed.

Section opening.
Context (X Y : side) (σ : gmap Z Z) (fxy fyx : list Message).
Hypothesis Hh : half X Y σ fxy fyx.

Lemma msg_ok_grow X' Y' m :
  (∀ i c, sd X !! i = Some c → sd X' !! i = Some c) →
  (∀ i c, sd Y !! i = Some c → sd Y' !! i = Some c) →
  msg_ok X Y σ m → msg_ok X' Y' σ m.
Proof using.
  intros HX HY. assert (∀ i, is_Some (sd Y !! i) → is_Some (sd Y' !! i)) as Hs
    by (intros i [c Hc]; exists c; auto).
  destruct m; cbn; try done; intros Hm; destruct_and?; split_and?; try done; try by apply Hs.
  all: match goal with H : ∃ c, _ |- _ => destruct H as (c & Hc & Ho); exists c; auto end.
Qed.

(** The opener opens channel [i]. *)
Lemma half_open i :
  sd X !! i = None → to_ i fyx = [] →
  half (upd i (mkA true None 0 0 W) X) Y σ (fxy ++ [OpenMessage i W maxp]) fyx.
Proof using Hh.
  intros Hi Hto. assert (Hs : σ !! i = None).
  { destruct (σ !! i) as [j|] eqn:Hs; [|done]. destruct (hf_dom _ _ _ _ _ Hh _ _ Hs) as (cx & Hx & _).
    congruence. }
  split; cbn [upd sd offer].
  - intros k cx Hx Ho. rewrite opens_app, opens_cons. cbn [opener].
    destruct (decide (k = i)) as [->|Hne].
    + rewrite lookup_insert_eq in Hx. simplify_eq. rewrite Hs, decide_True by done.
      rewrite (opens_absent X Y σ) by (try done; apply Hh). done.
    + rewrite lookup_insert_ne in Hx by done. rewrite decide_False, app_nil_r by congruence.
      pose proof (hf_out _ _ _ _ _ Hh k cx Hx Ho) as H. destruct (σ !! k) as [j|]; [|done].
      by rewrite to_snoc_open.
  - intros j cy Hy Ho. destruct (hf_in _ _ _ _ _ Hh j cy Hy Ho) as (k & cx & H1 & H2 & H3).
    exists k, cx. rewrite lookup_insert_ne by congruence. done.
  - intros k j Hk. destruct (hf_dom _ _ _ _ _ Hh _ _ Hk) as (cx & H1 & H2).
    exists cx. rewrite lookup_insert_ne by congruence. done.
  - exact (hf_offer _ _ _ _ _ Hh).
  - apply (half_msgs_sub X Y σ fxy fyx Hh); [done| |].
    + intros m. apply msg_ok_grow; [|done]. intros k c Hk. cbn. rewrite lookup_insert_ne; congruence.
    + constructor; [|constructor]. cbn. split_and!; [done..|]. eexists.
      by rewrite lookup_insert_eq.
Qed.

(** The other side opens a channel of its own. *)
Lemma half_other_open i :
  sd Y !! i = None →
  half X (upd i (mkA true None 0 0 W) Y) σ fxy (fyx ++ [OpenMessage i W maxp]).
Proof using Hh.
  intros Hi. split; cbn [upd sd offer].
  - intros k cx Hx Ho. rewrite to_snoc_open.
    pose proof (hf_out _ _ _ _ _ Hh k cx Hx Ho) as H. destruct (σ !! k) as [j|]; [|done].
    destruct H as (Hop & cy & Hy & Hl). split; [done|]. exists cy.
    rewrite lookup_insert_ne by congruence. done.
  - intros j cy Hy Ho. destruct (decide (j = i)) as [->|Hne].
    + rewrite lookup_insert_eq in Hy. by simplify_eq.
    + rewrite lookup_insert_ne in Hy by done. by eapply hf_in.
  - exact (hf_dom _ _ _ _ _ Hh).
  - intros j Hj. destruct (hf_offer _ _ _ _ _ Hh j Hj) as (cy & Hy & Ho). exists cy.
    rewrite lookup_insert_ne by congruence. done.
  - eapply Forall_impl; [apply Hh|]. intros m. apply msg_ok_grow; [done|].
    intros k c Hk. cbn. rewrite lookup_insert_ne; congruence.
Qed.
End opening.

(** Messages after the request are as right once the channel it asked for exists. *)
Lemma msg_ok_offered X Y σ i j c o m f :
  msg_ok X Y σ m → sd Y !! j = None → m ∈ f → opens i f = [] →
  msg_ok X (mkSide (<[j := c]> (sd Y)) o) (<[i := j]> σ) m.
Proof.
  intros Hm Hj Hin Hno.
  assert (Hs' : ∀ k, is_Some (sd Y !! k) → is_Some (<[j := c]> (sd Y) !! k)).
  { intros k Hk. apply lookup_insert_is_Some'. by right. }
  destruct m as [s w mx| | | | | |]; cbn in *; try done; destruct_and?; split_and?; try done;
    try by apply Hs'.
  - rewrite lookup_insert_ne; [done|]. intros <-.
    assert (OpenMessage i w mx ∈ opens i f) as Hc by by apply list_elem_of_filter.
    rewrite Hno in Hc. by apply elem_of_nil in Hc.
  - match goal with H : ∃ c, _ |- _ => destruct H as (cy & Hy & Hoy) end.
    exists cy. rewrite lookup_insert_ne by congruence. done.
Qed.

(** The other side receives the opener's request and offers a new channel. *)
Lemma half_recv_open X Y σ i f fyx j :
  half X Y σ (OpenMessage i W maxp :: f) fyx → offer Y = None → sd Y !! j = None →
  half X (mkSide (<[j := mkA false (Some i) W 0 W]> (sd Y)) (Some j)) (<[i := j]> σ) f fyx.
Proof.
  intros Hh Hoff Hj. pose proof (hf_msgs _ _ _ _ _ Hh) as Hms.
  apply Forall_cons in Hms as [Hm Hms]. cbn in Hm. destruct Hm as (_ & _ & Hsi & cx & Hx & Ho).
  pose proof (hf_out _ _ _ _ _ Hh i cx Hx Ho) as Hi. rewrite Hsi in Hi.
  destruct Hi as (-> & Hlen & Hto). rewrite opens_cons, decide_True in Hlen by done.
  cbn [length] in Hlen.
  assert (Hno : opens i f = []) by (by destruct (opens i f); [|cbn in Hlen; lia]).
  assert (Htoj : to_ j f = []) by by eapply to_absent.
  split; cbn [sd offer].
  - intros k c Hk Hok. destruct (decide (k = i)) as [->|Hne].
    + rewrite Hx in Hk. simplify_eq. rewrite lookup_insert_eq. split; [done|].
      eexists. rewrite lookup_insert_eq. split; [done|].
      rewrite bool_decide_true by done. rewrite Htoj, Hto.
      unfold channelWindowSize, channelMaxPacket.
      split; cbn; try done; try lia. { left. split_and!; done || lia. }
      { intros ? ? ? ? []%elem_of_nil. }
    + rewrite lookup_insert_ne by congruence.
      pose proof (hf_out _ _ _ _ _ Hh k c Hk Hok) as H. destruct (σ !! k) as [j'|] eqn:Hs.
      * destruct H as (Hop & cy & Hy & Hl). rewrite opens_cons in Hop.
        rewrite decide_False in Hop by (cbn; congruence). split; [done|]. exists cy.
        assert (j ≠ j') by congruence.
        rewrite lookup_insert_ne by done. split; [done|].
        rewrite Hoff, bool_decide_false in Hl by done. rewrite bool_decide_false by congruence.
        done.
      * rewrite opens_cons, decide_False in H by (cbn; congruence). done.
  - intros k cy Hy Hok. destruct (decide (k = j)) as [->|Hne].
    + rewrite lookup_insert_eq in Hy. simplify_eq. exists i. eexists. by rewrite lookup_insert_eq.
    + rewrite lookup_insert_ne in Hy by done.
      destruct (hf_in _ _ _ _ _ Hh k cy Hy Hok) as (i' & c & H1 & H2 & H3). exists i', c.
      rewrite lookup_insert_ne by congruence. done.
  - intros k j' Hk. apply lookup_insert_Some in Hk as [[<- <-]|[_ Hk]]; [by eexists|].
    by eapply hf_dom.
  - intros k [= <-]. eexists. by rewrite lookup_insert_eq.
  - apply Forall_forall. intros m Hin. rewrite Forall_forall in Hms.
    by apply (msg_ok_offered X Y σ i j _ _ m f (Hms m Hin)).
Qed.

(** Reading that request changes nothing of the channels the reader opened. *)
Lemma half_opener_recv_open X Y σ fxy i w mx f j p o :
  half X Y σ fxy (OpenMessage i w mx :: f) → sd X !! j = None →
  half (mkSide (<[j := mkA false p W 0 W]> (sd X)) o) Y σ fxy f.
Proof.
  intros Hh Hj.
  assert (Hto : ∀ k, to_ k f = to_ k (OpenMessage i w mx :: f)) by done.
  split; cbn [sd offer].
  - intros k c Hk Ho. destruct (decide (k = j)) as [->|Hne].
    + rewrite lookup_insert_eq in Hk. by simplify_eq.
    + rewrite lookup_insert_ne in Hk by done. rewrite Hto. by eapply hf_out.
  - intros k cy Hy Ho. destruct (hf_in _ _ _ _ _ Hh k cy Hy Ho) as (i' & c & H1 & H2 & H3).
    exists i', c. rewrite lookup_insert_ne by congruence. done.
  - intros k k' Hk. destruct (hf_dom _ _ _ _ _ Hh _ _ Hk) as (c & H1 & H2). exists c.
    rewrite lookup_insert_ne by congruence. done.
  - exact (hf_offer _ _ _ _ _ Hh).
  - eapply Forall_impl; [apply Hh|]. intros m. apply msg_ok_grow; [|done].
    intros k c Hk. cbn. rewrite lookup_insert_ne; congruence.
Qed.

(** The other side confirms the channel it offered. *)
Lemma half_other_confirm X Y σ fxy fyx j c i :
  half X Y σ fxy fyx → Forall (λ m, 0 ≤ w_adj m ∧ 0 ≤ w_conf m) fyx →
  offer Y = Some j → sd Y !! j = Some c → a_peer c = Some i →
  half X (mkSide (sd Y) None) σ fxy (fyx ++ [OpenConfirmMessage i j (a_mine c) maxp])
  ∧ 0 ≤ a_mine c ∧ ∃ cx, sd X !! i = Some cx ∧ a_out cx = true.
Proof.
  intros Hh Hpos Hoff Hc Hp. destruct (hf_offer _ _ _ _ _ Hh j Hoff) as (c' & Hc' & Ho).
  rewrite Hc in Hc'. symmetry in Hc'. simplify_eq.
  destruct (half_in X Y σ fxy fyx Hh j c Hc Ho) as (i' & cx & Hp' & Hs & Hx & Hox & Hl).
  rewrite Hp in Hp'. simplify_eq. rewrite bool_decide_true in Hl by done.
  assert (Hsum : 0 ≤ msum w_adj (to_ i' fyx) ∧ 0 ≤ msum w_conf (to_ i' fyx)).
  { clear -Hpos. induction Hpos as [|m f Hm _ IH]; [done|]. rewrite to_cons.
    case_decide; [|done]. rewrite !msum_cons. lia. }
  assert (Hmine : 0 ≤ a_mine c).
  { destruct Hl as [_ _ [(_ & _ & Hcw & _ & Haw & Hw & Hr & Hnil)|(_ & _ & ?)] Hxy _ _ _ _]; [|done].
    rewrite Hnil in Hxy. change (msum w_data []) with 0 in Hxy. cbv iota in Hxy.
    unfold channelWindowSize, channelMaxPacket in *. lia. }
  split; [|split; [done|by exists cx]]. split; cbn [sd offer].
  - intros k ck Hk Hok. pose proof (hf_out _ _ _ _ _ Hh k ck Hk Hok) as H.
    rewrite to_app, to_cons, to_nil. cbn [target].
    destruct (decide (k = i')) as [->|Hne].
    + rewrite Hs in H |- *. rewrite decide_True by done. destruct H as (Hop & cy & Hy & _).
      split; [done|]. exists cy. split; [done|]. rewrite Hc in Hy. rewrite Hx in Hk. simplify_eq.
      rewrite bool_decide_false by done.
      destruct Hl as [H1 H2 [(H3 & H4 & Hcw & Hna & Haw & H5 & H6 & H7)|(_ & _ & ?)] Hxy Hyx Hcf Hnc Hb];
        [|done].
      rewrite H7, !msum_nil in *. cbv iota in *. assert (a_mine cy = W) by lia.
      split; rewrite ?msum_snoc, ?msum_nil; cbn [w_data w_adj w_conf n_conf n_adj]; try done; try lia.
      * left. split_and!; try done; lia.
      * intros i'' j'' w mx [Hin|Hin%list_elem_of_singleton]%elem_of_app; [by eapply Hcf|].
        by simplify_eq.
    + rewrite decide_False, app_nil_r by congruence. destruct (σ !! k) as [j'|] eqn:Hsk; [|done].
      destruct H as (Hop & cy & Hy & Hl'). split; [done|]. exists cy. split; [done|].
      rewrite bool_decide_false by done. rewrite bool_decide_false in Hl'; [done|].
      intros Hj'. rewrite Hoff in Hj'. simplify_eq.
      by apply Hne, (half_inj X Y σ fxy fyx Hh k i' j').
  - exact (hf_in _ _ _ _ _ Hh).
  - exact (hf_dom _ _ _ _ _ Hh).
  - done.
  - eapply Forall_impl; [apply Hh|]. intros m. by apply msg_ok_grow.
Qed.

(** Confirming changes nothing of the channels the confirmer opened. *)
Lemma half_opener_confirm X Y σ fxy fyx i j w cy :
  half X Y σ fxy fyx → 0 ≤ w → sd Y !! i = Some cy → a_out cy = true →
  half (mkSide (sd X) None) Y σ (fxy ++ [OpenConfirmMessage i j w maxp]) fyx.
Proof.
  intros Hh Hw Hy Ho. split; cbn [sd].
  - intros k cx Hx Hox. pose proof (hf_out _ _ _ _ _ Hh k cx Hx Hox) as H.
    rewrite opens_app, app_nil_r. destruct (σ !! k) as [j'|]; [|done].
    destruct H as (Hop & cy' & Hy' & Hl). split; [done|]. exists cy'. split; [done|].
    rewrite to_app, to_cons, decide_False, to_nil, app_nil_r; [done|]. cbn.
    intros [= ->]. rewrite Hy in Hy'. simplify_eq. pose proof (ln_in _ _ _ _ _ _ _ Hl). congruence.
  - exact (hf_in _ _ _ _ _ Hh).
  - exact (hf_dom _ _ _ _ _ Hh).
  - exact (hf_offer _ _ _ _ _ Hh).
  - apply Forall_app. split.
    + eapply Forall_impl; [apply Hh|]. intros m. by apply msg_ok_grow.
    + constructor; [|constructor]. cbn. split_and!; [done..|]. by exists cy.
Qed.

(** ** The invariant of the pair *)

(** Both sides, with the messages from the first to the second and back. *)
Record net := mkNet {
  n_x : side;
  n_y : side;
  n_xy : list Message;
  n_yx : list Message;
}.

Definition swap (N : net) : net := mkNet (n_y N) (n_x N) (n_yx N) (n_xy N).

(** Either side takes a step. *)
Inductive nstep : net → net → Prop :=
| n_left X Y fxy fyx X' fyx' out :
    pstep X fyx X' fyx' out → nstep (mkNet X Y fxy fyx) (mkNet X' Y (fxy ++ out) fyx')
| n_right X Y fxy fyx Y' fxy' out :
    pstep Y fxy Y' fxy' out → nstep (mkNet X Y fxy fyx) (mkNet X Y' fxy' (fyx ++ out)).

Definition net_init : net := mkNet (mkSide ∅ None) (mkSide ∅ None) [] [].

Definition net_inv (N : net) : Prop :=
  ∃ σ τ, half (n_x N) (n_y N) σ (n_xy N) (n_yx N) ∧ half (n_y N) (n_x N) τ (n_yx N) (n_xy N).

Lemma net_inv_swap N : net_inv N → net_inv (swap N).
Proof. intros (σ & τ & H1 & H2). by exists τ, σ. Qed.

Lemma net_inv_init : net_inv net_init.
Proof. exists ∅, ∅. split; split; cbn; done || constructor. Qed.

Section both.
Context (X Y : side) (σ τ : gmap Z Z) (fxy fyx : list Message).
Hypothesis H1 : half X Y σ fxy fyx.
Hypothesis H2 : half Y X τ fyx fxy.

(** The counterpart of a channel, whoever opened it. *)
Lemma peer_exists k c p :
  sd X !! k = Some c → a_peer c = Some p → ∃ cy, sd Y !! p = Some cy ∧ a_out cy = negb (a_out c).
Proof using All.
  intros Hk Hp. destruct (a_out c) eqn:Ho.
  - by destruct (half_peer X Y σ fxy fyx H1 k c p Hk Ho Hp) as [_ H].
  - destruct (half_in Y X τ fyx fxy H2 k c Hk Ho) as (i & cx & Hp' & _ & Hx & Hox & _).
    rewrite Hp in Hp'. simplify_eq. by exists cx.
Qed.

(** The first side updates channel [k] to [c'], having read [mh] and sent
    [ms]. *)
Lemma chan_step k c c' mh f' ms :
  fyx = mh ++ f' → Forall (λ m, target m = Some k) mh →
  sd X !! k = Some c → a_out c' = a_out c →
  (∀ p, a_peer c = Some p → is_Some (sd Y !! p) →
     Forall (λ m, target m = Some p ∧ msg_ok X Y σ m) ms) →
  (a_peer c = None → ms = []) →
  (∀ j cy g lxy lyx, a_out c = true → linked k j c cy g lxy (mh ++ lyx) →
     linked k j c' cy g (lxy ++ ms) lyx) →
  (∀ i cx g lxy lyx, a_out c = false → linked i k cx c g (mh ++ lxy) lyx →
     linked i k cx c' g lxy (lyx ++ ms)) →
  (mh = [] → c = mkA true None 0 0 W → c' = c) →
  half (upd k c' X) Y σ (fxy ++ ms) f' ∧ half Y (upd k c' X) τ f' (fxy ++ ms).
Proof using All.
  intros Hf Hmh Hk Ho Hms Hms0 Lx Ly Hnew.
  assert (Hto : ∀ k', k' ≠ k → to_ k' f' = to_ k' fyx).
  { intros k' Hne. rewrite Hf, to_app, (to_none k' mh); [done|].
    eapply Forall_impl; [exact Hmh|]. intros m ->. congruence. }
  assert (Htk : to_ k fyx = mh ++ to_ k f') by (by rewrite Hf, to_app, (to_all k mh)).
  assert (Hms' : Forall (λ m, ∃ p, target m = Some p ∧ a_peer c = Some p) ms ∧
                 Forall (msg_ok X Y σ) ms).
  { destruct (a_peer c) as [p|] eqn:Hp; [|by rewrite (Hms0 eq_refl)].
    destruct (peer_exists k c p Hk Hp) as (cy & Hy & _).
    pose proof (Hms p eq_refl (ex_intro _ _ Hy)) as H.
    split; (eapply Forall_impl; [exact H|]); intros m [? ?]; [by exists p|done]. }
  destruct Hms' as [Ht Hok]. split.
  - apply (half_opener_step X Y σ fxy fyx H1 k c c'); try done.
    + intros Hoc p Hp. destruct (peer_exists k c p Hk Hp) as (cy & Hy & Hoy).
      rewrite Hoc in Hoy. by exists cy.
    + intros j cy g lxy Hoc. rewrite Htk. by apply Lx.
    + intros Hoc Hc Hnil. rewrite Htk in Hnil. apply app_nil in Hnil as [-> Hnil]. auto.
  - apply (half_other_step Y X τ fyx fxy H2 k c c'); try done.
    + intros Hoc p Hp. destruct (peer_exists k c p Hk Hp) as (cy & Hy & Hoy).
      rewrite Hoc in Hoy. by exists cy.
    + intros i. rewrite Hf, opens_app, (opens_none i mh); [done|].
      eapply Forall_impl; [exact Hmh|]. intros m ->. by eexists.
    + intros m Hm. rewrite Hf. apply elem_of_app. by right.
    + intros i cx g lyx Hoc. rewrite Htk. by apply Ly.
Qed.
End both.

Lemma n_adj_nonneg f : 0 ≤ msum n_adj f.
Proof. induction f as [|m f IH]; [done|]. rewrite msum_cons. destruct m; cbn; lia. Qed.

Lemma n_conf_nonneg f : 0 ≤ msum n_conf f.
Proof. induction f as [|m f IH]; [done|]. rewrite msum_cons. destruct m; cbn; lia. Qed.

Ltac stages H :=
  destruct H as [(?Hs1 & ?Hs2 & ?Hs3 & ?Hs4 & ?Hs5 & ?Hs6 & ?Hs7 & ?Hs8)|(?Hs1 & ?Hs2 & ?Hs3)].

(** The counters of a linked pair are linear; the stage and the confirmations
    in flight are cases. *)
Ltac linked_solve :=
  intros [Hin Hpeer Hst Hxy Hyx Hcf Hnc Hb]; split;
  rewrite ?app_nil_r, ?msum_snoc in *; cbn [app] in *; rewrite ?msum_cons in *;
  cbn [a_out a_peer a_win a_resv a_mine w_data w_adj w_conf n_conf n_adj
    set_win set_resv set_mine set_peer] in *;
  try done; try lia;
  try (intros ? ? ? ? Hm; eapply Hcf; by right);
  try (by intros ? ? ? ? [Hm|Hm%list_elem_of_singleton]%elem_of_app; [eapply Hcf|]);
  try (stages Hst; [first [exfalso; first [congruence | lia]|left; split_and!; done || lia]
                   |right; split_and!; done || lia]).

(** The ways a channel of a linked pair changes, by its opener and by the
    other side. *)
Section linked.
Context (i j : Z) (g : bool).

Lemma linked_confirm c cy w lxy lyx i' j' mx :
  0 ≤ w → linked i j c cy g lxy (OpenConfirmMessage i' j' w mx :: lyx) →
  j' = j ∧ linked i j (set_peer (Some j') (set_win (a_win c + w) c)) cy g lxy lyx.
Proof.
  intros Hw Hl. assert (j' = j) as -> by (eapply (ln_conf _ _ _ _ _ _ _ Hl); by left).
  split; [done|]. revert Hl. pose proof (n_conf_nonneg lyx). linked_solve.
  right. stages Hst; [|lia]. split_and!; [done|destruct g; lia|destruct g; [lia|done]].
Qed.

Lemma linked_reserve_x c cy n lxy lyx :
  0 ≤ n ≤ a_win c → linked i j c cy g lxy lyx →
  linked i j (set_resv (a_resv c + n) (set_win (a_win c - n) c)) cy g lxy lyx.
Proof. intros Hn. linked_solve. Qed.

Lemma linked_reserve_y cx c n lxy lyx :
  0 ≤ n ≤ a_win c → linked i j cx c g lxy lyx →
  linked i j cx (set_resv (a_resv c + n) (set_win (a_win c - n) c)) g lxy lyx.
Proof. intros Hn. linked_solve. Qed.

Lemma linked_send_x c cy n d p lxy lyx :
  a_peer c = Some p → 0 ≤ n ≤ a_resv c → linked i j c cy g lxy lyx →
  linked i j (set_resv (a_resv c - n) c) cy g (lxy ++ [DataMessage p n d]) lyx.
Proof. intros Hp Hn. linked_solve. Qed.

Lemma linked_send_y cx c n d p lxy lyx :
  0 ≤ n ≤ a_resv c → linked i j cx c g lxy lyx →
  linked i j cx (set_resv (a_resv c - n) c) g lxy (lyx ++ [DataMessage p n d]).
Proof. intros Hn. linked_solve. Qed.

Lemma linked_data_x c cy n d lxy lyx :
  0 ≤ n → linked i j c cy g lxy (DataMessage i n d :: lyx) →
  linked i j (set_mine (a_mine c - n) c) cy g lxy lyx.
Proof. intros Hn. linked_solve. Qed.

Lemma linked_data_y cx c n d lxy lyx :
  0 ≤ n → linked i j cx c g (DataMessage j n d :: lxy) lyx →
  linked i j cx (set_mine (a_mine c - n) c) g lxy lyx.
Proof. intros Hn. linked_solve. Qed.

Lemma linked_credit_x c cy n p lxy lyx :
  a_peer c = Some p → 0 < n → a_mine c + n ≤ W → linked i j c cy g lxy lyx →
  linked i j (set_mine (a_mine c + n) c) cy g (lxy ++ [WindowAdjustMessage p n]) lyx.
Proof. intros Hp Hn Hle. linked_solve. Qed.

Lemma linked_credit_y cx c n p lxy lyx :
  0 < n → a_mine c + n ≤ W → linked i j cx c g lxy lyx →
  linked i j cx (set_mine (a_mine c + n) c) g lxy (lyx ++ [WindowAdjustMessage p n]).
Proof.
  intros Hn Hle. linked_solve.
  stages Hst; [|right; by rewrite Z.add_0_r]. subst. rewrite ?msum_nil in *. lia.
Qed.

Lemma linked_adjust_x c cy n lxy lyx :
  0 ≤ n → linked i j c cy g lxy (WindowAdjustMessage i n :: lyx) →
  linked i j (set_win (a_win c + n) c) cy g lxy lyx.
Proof. intros Hn. pose proof (n_adj_nonneg lyx). linked_solve. Qed.

Lemma linked_adjust_y cx c n lxy lyx :
  0 ≤ n → linked i j cx c g (WindowAdjustMessage j n :: lxy) lyx →
  linked i j cx (set_win (a_win c + n) c) g lxy lyx.
Proof. intros Hn. linked_solve. Qed.

Lemma linked_eof_x c cy p lxy lyx :
  a_peer c = Some p → linked i j c cy g lxy lyx → linked i j c cy g (lxy ++ [EOFMessage p]) lyx.
Proof. intros Hp. linked_solve. Qed.

Lemma linked_eof_y cx c p lxy lyx :
  linked i j cx c g lxy lyx → linked i j cx c g lxy (lyx ++ [EOFMessage p]).
Proof. linked_solve. Qed.

Lemma linked_recv_eof_x cx c lxy lyx :
  linked i j cx c g lxy (EOFMessage i :: lyx) → linked i j cx c g lxy lyx.
Proof. linked_solve. Qed.

Lemma linked_recv_eof_y cx c lxy lyx :
  linked i j cx c g (EOFMessage j :: lxy) lyx → linked i j cx c g lxy lyx.
Proof. linked_solve. Qed.
End linked.

(** ** Every step keeps the invariant *)

Lemma upd_id k c X : sd X !! k = Some c → upd k c X = X.
Proof. intros Hk. unfold upd. rewrite insert_id by done. by destruct X. Qed.

Create HintDb linked.
#[export] Hint Resolve linked_reserve_x linked_reserve_y linked_send_x linked_send_y
  linked_data_x linked_data_y linked_credit_x linked_credit_y linked_adjust_x linked_adjust_y
  linked_eof_x linked_eof_y linked_recv_eof_x linked_recv_eof_y : linked.

(** The sides of [chan_step] that do not depend on the rule. *)
Ltac chan_step_solve :=
  lazymatch goal with
  | |- Forall (λ m, target m = Some _) _ => by repeat constructor
  | |- ∀ p, a_peer _ = Some p → _ → Forall _ [] => constructor
  | |- ∀ (_ : Z) (_ : achan) (_ : bool) (_ _ : list Message), _ =>
      intros ? ? ? ? ? ? ?; rewrite ?app_nil_r; cbn [app] in *;
      solve [eauto 4 with linked | congruence]
  | |- ∀ p, a_peer _ = Some p → _ → Forall _ _ =>
      intros ? ? ?; simplify_eq; constructor; [|constructor]; cbn; split_and!; done || lia
  | |- a_peer _ = None → _ => (done || congruence)
  | |- _ = [] → _ = mkA _ _ _ _ _ → _ => intros ? ->; done
  end.

Tactic Notation "chan_rule" constr(c) uconstr(mh) uconstr(ms) :=
  lazymatch goal with
  | H1 : half ?X ?Y ?σ ?fxy ?fyx, H2 : half ?Y ?X ?τ ?fyx ?fxy |- _ =>
      eapply (chan_step X Y σ τ fxy fyx H1 H2 _ c _ mh _ ms)
  end;
  try done; try chan_step_solve.

Lemma inv_left X Y σ τ fxy fyx X' f' out :
  half X Y σ fxy fyx → half Y X τ fyx fxy → pstep X fyx X' f' out →
  ∃ σ' τ', half X' Y σ' (fxy ++ out) f' ∧ half Y X' τ' f' (fxy ++ out).
Proof.
  intros H1 H2 Hs. pose proof (hf_msgs _ _ _ _ _ H2) as Hms.
  destruct Hs as [X f i Hi|X f i j Hoff Hj|X f j c i Hoff Hc Hp|X f i j w c Hi|X f i n c Hi Hn
    |X f i n d c p Hi Hp Hn Hr Hm|X f i n d c Hi|X f i n c p Hi Hp Hn Hm|X f i n c Hi
    |X f i c p Hi Hp|X f i c Hi].
  1: { exists σ, τ. split; [apply half_open; [done..|by eapply to_absent]|by apply half_other_open]. }
  1: { exists σ, (<[i := j]> τ). rewrite app_nil_r.
       split; [by eapply half_opener_recv_open|by apply half_recv_open]. }
  1: { exists σ, τ.
       destruct (half_other_confirm Y X τ f fxy j c i H2) as (Hy & Hw & cy & Hcy & Ho); try done.
       { eapply Forall_impl; [apply H1|]. intros m Hm%msg_ok_nonneg. lia. }
       split; [by eapply half_opener_confirm|done]. }
  all: exists σ, τ; try (apply Forall_cons in Hms as [Hm Hms]; cbn in Hm).
  - destruct Hm as (_ & Hw & cy & Hcy & Ho). simplify_eq.
    chan_rule c [_] [].
    intros ? ? ? ? ? _ Hl. rewrite app_nil_r.
    by destruct (linked_confirm _ _ _ _ _ _ _ _ _ _ _ Hw Hl) as [_ Hl'].
  - chan_rule c [] [].
    intros _ ->. cbn in Hn. assert (n = 0) as -> by lia. done.
  - assert (0 ≤ n) by (subst; apply len_nonneg).
    chan_rule c [] [_].
  - assert (0 ≤ n) by (destruct Hm; subst; apply len_nonneg).
    chan_rule c [_] [].
  - chan_rule c [] [_].
  - destruct Hm as [Hm _].
    chan_rule c [_] [].
  - rewrite <- (upd_id i c X Hi).
    chan_rule c [] [_].
  - rewrite <- (upd_id i c X Hi).
    chan_rule c [_] [].
Qed.

(** ** Nothing is refused *)

Definition nonneg (l : list Message) : Prop :=
  0 ≤ msum w_data l ∧ 0 ≤ msum w_adj l ∧ 0 ≤ msum w_conf l ∧ 0 ≤ msum n_conf l.

(** The state of the channel a message is for, whoever opened it. *)
Lemma head_linked X Y σ τ fxy m f k c :
  half X Y σ fxy (m :: f) → half Y X τ (m :: f) fxy → target m = Some k → sd X !! k = Some c →
  nonneg (to_ k f) ∧ ∃ k' c' g l, nonneg l ∧
    ((a_out c = true ∧ linked k k' c c' g l (m :: to_ k f)) ∨
     (a_out c = false ∧ linked k' k c' c g (m :: to_ k f) l)).
Proof.
  intros H1 H2 Ht Hk. assert (Hto : to_ k (m :: f) = m :: to_ k f) by (by rewrite to_cons, decide_True).
  pose proof (hf_msgs _ _ _ _ _ H1) as Hm1. pose proof (hf_msgs _ _ _ _ _ H2) as Hm2.
  split; [apply Forall_cons in Hm2 as [_ Hm2]; by eapply msum_nonneg|].
  destruct (a_out c) eqn:Ho.
  - pose proof (hf_out _ _ _ _ _ H1 k c Hk Ho) as H. rewrite Hto in H.
    destruct (σ !! k) as [j|]; [|by destruct H as (_ & _ & ?)].
    destruct H as (_ & cy & _ & Hl). exists j, cy. do 2 eexists.
    split; [|left; split; [done|exact Hl]]. by eapply msum_nonneg.
  - destruct (half_in Y X τ (m :: f) fxy H2 k c Hk Ho) as (i & cx & _ & _ & _ & _ & Hl).
    rewrite Hto in Hl. exists i, cx. do 2 eexists.
    split; [|right; split; [done|exact Hl]]. by eapply msum_nonneg.
Qed.

(** The bounds on the channel [c] a message is for. *)
Ltac bounds H1 H2 Hc :=
  destruct (head_linked _ _ _ _ _ _ _ _ _ H1 H2 eq_refl Hc)
    as (?Hnl & ? & ? & ?g & ? & ?Hnl' & [[?Ho ?Hl]|[?Ho ?Hl]]); [| ];
  match goal with
  | Hl : linked _ _ _ _ _ _ _ |- _ =>
      destruct Hl as [_ _ ?Hst ?Hxy ?Hyx _ ?Hnc ?Hb]; rewrite !msum_cons in *;
      cbn [w_data w_adj w_conf n_conf n_adj] in *; unfold nonneg in *; stages Hst
  end; subst; try congruence; try lia; destruct_and?;
  match goal with g : bool |- _ => destruct g end; try done; try lia.

Lemma head_acceptable X Y σ τ fxy m f :
  half X Y σ fxy (m :: f) → half Y X τ (m :: f) fxy → acceptable X m.
Proof.
  intros H1 H2. pose proof (hf_msgs _ _ _ _ _ H2) as [Hm _]%Forall_cons.
  destruct m as [i w mx|i j w mx|i|i n|i n d|i|i]; cbn in Hm |- *; try done.
  - by destruct Hm as (-> & -> & _).
  - destruct Hm as (-> & Hw & c & Hc & Ho). exists c.
    assert (a_peer c = None ∧ a_win c + w ≤ W) as [? ?].
    { bounds H1 H2 Hc. split; [done|lia]. }
    by split_and!.
  - destruct Hm as (Hn & [c Hc]). exists c. split_and!; [done..|]. bounds H1 H2 Hc.
  - destruct Hm as (Hn & Hmx & [c Hc]). exists c. split_and!; [done..|]. bounds H1 H2 Hc.
Qed.

(** The message at the head of a queue respects the state of the channel it is
    for. *)
Lemma inv_acceptable N m f : net_inv N → n_yx N = m :: f → acceptable (n_x N) m.
Proof. destruct N. intros (σ & τ & H1 & H2). cbn in *. intros ->. by eapply head_acceptable. Qed.

Lemma inv_step N N' : nstep N N' → net_inv N → net_inv N'.
Proof.
  intros Hs (σ & τ & H1 & H2). destruct Hs as [X Y fxy fyx X' fyx' out Hs|X Y fxy fyx Y' fxy' out Hs].
  - exact (inv_left X Y σ τ fxy fyx X' fyx' out H1 H2 Hs).
  - apply (net_inv_swap (mkNet Y' X (fyx ++ out) fxy')).
    exact (inv_left Y X τ σ fyx fxy Y' fxy' out H2 H1 Hs).
Qed.

Lemma inv_steps N : rtc nstep net_init N → net_inv N.
Proof.
  intros Hs. remember net_init as N0 eqn:E. assert (net_inv N0) as H by (subst; apply net_inv_init).
  clear E. induction Hs as [|N0 N1 N2 Hs _ IH]; [done|]. by apply IH, (inv_step N0).
Qed.
