(* ===== verification/Refine.v ===== *)
(** * A session refines the abstract channel protocol

    [seen] relates a configuration of System.v to a side of Protocol.v: the
    channels of the table whose open request was sent or received, with what
    their windows hold and what their writers have reserved. As long as nobody
    closes a channel or the session and no timer fires, every action that runs on
    acceptable input is one step of [pstep], or none, and sends what that step
    sends. *)
From S2P Require Import Prelude GoRuntime Frame Buffer Window ChanList.
From S2P Require Import MuxState Channel ChannelSpec Session SessionSpec System.
From S2P Require Import SystemInv SystemSafe Protocol.

Local Abbreviation maxp := channelMaxPacket.

(** ** The side of a configuration *)

(** Bytes of window reserved for [l] by a [Write] that has not sent them. *)
Definition thread_reserved (l : chan_ptr) (t : thread) : Z :=
  match t with
  | TEncode l' _ _ space => if decide (l = l') then space else 0
  | _ => 0
  end.

Fixpoint reserved (l : chan_ptr) (ts : list thread) : Z :=
  match ts with
  | [] => 0
  | t :: ts => thread_reserved l t + reserved l ts
  end.

(** The peer's id counts once its packet size is known. *)
Definition abs_chan (ts : list thread) (l : chan_ptr) (ch : channel) : achan :=
  mkA (bool_decide (c_direction ch = channelOutbound))
    (if c_maxRemotePayload ch =? 0 then None else Some (c_remoteId ch))
    (w_win (c_remoteWin ch)) (reserved l ts) (c_myWindow ch).

(** The channels of this side whose open request is not sent yet: the peer has
    never heard of them. *)
Definition thread_unsent (t : thread) : option chan_ptr :=
  match t with TName l _ | TRequest l => Some l | _ => None end.

Definition unsent (ts : list thread) : list chan_ptr := omap thread_unsent ts.

(** [ch] is allocated at [l] and known to the peer, or about to be confirmed. *)
Definition live (s : session) (ts : list thread) (l : chan_ptr) (ch : channel) : Prop :=
  s_heap s !! l = Some ch ∧ l ∉ unsent ts.

(** The channel with local id [k]. *)
Definition chan_at (s : session) (ts : list thread) (k : Z) : option achan :=
  if k <? 0 then None
  else l ← mjoin (s_chans s !! Z.to_nat k);
       if decide (l ∈ unsent ts) then None else abs_chan ts l <$> s_heap s !! l.

(** The id offered to [Accept] and not yet confirmed. *)
Definition offered (s : session) (p : loop_pc) : option Z :=
  match p with
  | LAccept l _ | LConfirm l _ => c_localId <$> s_heap s !! l
  | _ => None
  end.

Definition seen (s : session) (p : loop_pc) (ts : list thread) (X : side) : Prop :=
  (∀ k, sd X !! k = chan_at s ts k) ∧ offer X = offered s p.

(** ** Nothing closed *)

Definition chan_calm (ch : channel) : Prop :=
  c_maxIncomingPayload ch = maxp ∧ c_sentClose ch = false ∧
  w_closed (c_remoteWin ch) = false ∧ is_u32 (c_remoteId ch) ∧
  (c_maxRemotePayload ch = 0 ∧ c_direction ch = channelOutbound ∧ ch_buf (c_msg ch) = [] ∨
   c_maxRemotePayload ch = maxp ∧ (length (ch_buf (c_msg ch)) ≤ 1)%nat).

Definition thread_calm (t : thread) : Prop :=
  match t with
  | TReserve _ data _ want => 0 ≤ want ≤ maxp ∧ want ≤ len data
  | TEncode _ data _ space => 0 ≤ space ≤ maxp ∧ space ≤ len data
  | TName _ _ | TRequest _ | TOpen _ | TAdjust _ _ => True
  end.

(** The loop runs, handles an open request, or waits for nothing else. *)
Definition loop_calm (s : session) (p : loop_pc) : Prop :=
  match p with
  | LRun => True
  | LAccept l _ | LConfirm l _ => at_ptr s (λ ch, c_maxRemotePayload ch = maxp) l
  | _ => False
  end.

Record calm (s : session) (p : loop_pc) (ts : list thread) : Prop := {
  ca_slots : ∀ i : nat, s_chans s !! i ≠ Some None;
  ca_chan : ∀ l ch, live s ts l ch → in_table s l ∧ chan_calm ch;
  ca_unsent : ∀ l ch, s_heap s !! l = Some ch → l ∈ unsent ts →
    in_table s l ∧ ∃ id, ch = set_localId id (fresh_channel channelOutbound);
  ca_writer : w_script (s_enc s) = [];
  ca_loop : loop_calm s p;
  ca_threads : Forall thread_calm ts;
}.

(** ** Steps *)

Definition frames (ms : list Message) : list byte := mjoin (Message_Bytes <$> ms).

Lemma frames_app f g : frames (f ++ g) = frames f ++ frames g.
Proof. unfold frames. by rewrite fmap_app, join_app. Qed.

(** The data sent to channel [k], in order. *)
Definition data_of (k : Z) (m : Message) : list byte :=
  match m with DataMessage k' _ d => if decide (k' = k) then d else [] | _ => [] end.

Definition stream_to (k : Z) (ms : list Message) : list byte := mjoin (data_of k <$> ms).

Lemma stream_to_app k f g : stream_to k (f ++ g) = stream_to k f ++ stream_to k g.
Proof. unfold stream_to. by rewrite fmap_app, join_app. Qed.

(** Handling [ms] and reading [rd l] from every channel [l]: what was buffered,
    and then the data of [ms], is what was read, and then what is buffered. A
    channel the peer gets to know starts with an empty buffer. *)
Definition streams (s s' : session) (ts ts' : list thread) (rd : chan_ptr → list byte)
    (ms : list Message) : Prop :=
  (∀ l ch q, live s ts l ch → buffer_repr (c_pending ch) q →
    ∃ ch' q', live s' ts' l ch' ∧ c_localId ch' = c_localId ch ∧
      buffer_repr (c_pending ch') q' ∧ rd l ++ q' = q ++ stream_to (c_localId ch) ms) ∧
  (∀ l ch', (∀ ch, ¬ live s ts l ch) → live s' ts' l ch' →
    c_pending ch' = newBuffer ∧ rd l = [] ∧ stream_to (c_localId ch') ms = [] ∧
    chan_at s ts (c_localId ch') = None).

(** The step of the session to [c] is a step of its side [X], or none: [f] are
    the messages it has yet to read, [rd] what its user reads. *)
Definition refines_as (rd : chan_ptr → list byte) (s : session) (ts : list thread)
    (X : side) (f : list Message) (c : config) : Prop :=
  ∃ X' f' out ms,
    (pstep X f X' f' out ∨ X' = X ∧ f' = f ∧ out = []) ∧
    calm (g_sess c) (g_loop c) (g_threads c) ∧
    seen (g_sess c) (g_loop c) (g_threads c) X' ∧
    s_dec (g_sess c) = mkReader (frames f') (rd_err (s_dec s)) ∧
    s_enc (g_sess c) = emit out (s_enc s) ∧ Forall message_wf out ∧
    f = ms ++ f' ∧ streams s (g_sess c) ts (g_threads c) rd ms.

Definition no_read : chan_ptr → list byte := λ _, [].

Abbreviation refines := (refines_as no_read).

(** What an action reads from a channel. *)
Definition read_now (a : action) (c : config) : chan_ptr → list byte :=
  match a with
  | ARead l k =>
      if decide (l ∈ g_handles c) then λ l',
        if decide (l' = l) then
          match (on_pending l (buffer_Read k) (g_sess c)).1 with Ret r => r.1 | _ => [] end
        else []
      else no_read
  | _ => no_read
  end.

(** ** Reserved bytes *)

Lemma reserved_insert l ts i t t' :
  ts !! i = Some t →
  reserved l (<[i := t']> ts) = reserved l ts - thread_reserved l t + thread_reserved l t'.
Proof.
  revert i. induction ts as [|t0 ts IH]; intros [|i] Hi; simplify_eq/=; [lia|].
  rewrite IH by done. lia.
Qed.

Lemma reserved_delete l ts i t :
  ts !! i = Some t → reserved l (delete i ts) = reserved l ts - thread_reserved l t.
Proof.
  revert i. induction ts as [|t0 ts IH]; intros [|i] Hi; simplify_eq/=; [lia|].
  rewrite IH by done. lia.
Qed.

Lemma reserved_bound l ts :
  Forall thread_calm ts → 0 ≤ reserved l ts ∧ ∀ i t, ts !! i = Some t → thread_reserved l t ≤ reserved l ts.
Proof.
  intros Hts. assert (∀ t, thread_calm t → 0 ≤ thread_reserved l t) as Hnn.
  { intros [] Ht; cbn in *; try done. case_decide; lia. }
  induction Hts as [|t ts Ht Hts [IH IH']]; [done|]. cbn [reserved].
  apply Hnn in Ht. split; [lia|]. intros [|i] t' Hi; simplify_eq/=; [lia|].
  apply IH' in Hi. lia.
Qed.

Lemma reserved_absent s l ts :
  Forall (thread_inv s) ts → s_heap s !! l = None → reserved l ts = 0.
Proof.
  intros Hts Hl. induction Hts as [|t ts Ht Hts IH]; [done|]. cbn [reserved].
  rewrite IH. destruct t as [| | | |k data n space|]; cbn; try done.
  case_decide; [|done]. subst k. destruct Ht as [(ch & Hk & _) _]. congruence.
Qed.

(** ** Channels the peer does not know *)

Lemma elem_of_unsent ts l :
  l ∈ unsent ts ↔ ∃ i t, ts !! i = Some t ∧ thread_unsent t = Some l.
Proof.
  unfold unsent. rewrite list_elem_of_omap. split.
  - intros (t & [i Hi]%list_elem_of_lookup & E). by exists i, t.
  - intros (i & t & Hi & E). exists t. split; [by eapply list_elem_of_lookup_2|done].
Qed.

Lemma unsent_opening ts l : l ∈ unsent ts → l ∈ opening ts.
Proof.
  intros (t & Ht & E)%list_elem_of_omap. apply list_elem_of_omap. exists t.
  split; [done|]. by destruct t.
Qed.

Lemma unsent_insert ts i t t' :
  ts !! i = Some t → thread_unsent t' = thread_unsent t → unsent (<[i := t']> ts) = unsent ts.
Proof.
  intros Hi Ht. destruct (omap_at thread_unsent ts i t Hi) as (xs & ys & E1 & _ & E3).
  unfold unsent. by rewrite E1, E3, Ht.
Qed.

Lemma unsent_delete ts i t :
  ts !! i = Some t → thread_unsent t = None → unsent (delete i ts) = unsent ts.
Proof.
  intros Hi Ht. destruct (omap_at thread_unsent ts i t Hi) as (xs & ys & E1 & E2 & _).
  unfold unsent. by rewrite E1, E2, Ht.
Qed.

(** Past the request the channel is known. *)
Lemma open_sent ts i l : NoDup (opening ts) → ts !! i = Some (TOpen l) → l ∉ unsent ts.
Proof.
  intros Hnd Hi (j & t & Hj & E)%elem_of_unsent.
  assert (i = j) as <- by (by eapply (opening_uniq ts i j); [done..|destruct t]).
  rewrite Hi in Hj. by simplify_eq.
Qed.

Lemma unsent_sent ts i l k :
  NoDup (opening ts) → ts !! i = Some (TRequest l) →
  (k ∈ unsent (<[i := TOpen l]> ts) ↔ k ∈ unsent ts ∧ k ≠ l).
Proof.
  intros Hnd Hi. pose proof (lookup_lt_Some _ _ _ Hi) as Hlt. rewrite !elem_of_unsent. split.
  - intros (j & t & Hj & E). apply list_lookup_insert_Some in Hj as [(<- & <- & _)|[Hne Hj]]; [done|].
    split; [by exists j, t|]. intros ->. apply Hne.
    by eapply (opening_uniq ts i j); [done..|destruct t].
  - intros [(j & t & Hj & E) Hne]. exists j, t. split; [|done].
    rewrite list_lookup_insert_ne; [done|]. intros <-. rewrite Hi in Hj. by simplify_eq/=.
Qed.

Lemma names_sent ts l : l ∉ unsent ts → names ts !! l = None.
Proof.
  intros Hl. apply eq_None_not_Some. intros [id Hid%elem_of_list_to_map_2]. apply Hl.
  apply list_elem_of_omap in Hid as (t & Ht & E). apply list_elem_of_omap. exists t.
  split; [done|]. by destruct t; simplify_eq/=.
Qed.

Lemma chan_at_neg s ts k : k < 0 → chan_at s ts k = None.
Proof. intros. unfold chan_at. case_cmp; [done|lia]. Qed.

(** What a step leaves alone, the protocol sees as before. *)
Lemma chan_at_ext s s' ts ts' k :
  mjoin (s_chans s' !! Z.to_nat k) = mjoin (s_chans s !! Z.to_nat k) →
  (∀ l, mjoin (s_chans s !! Z.to_nat k) = Some l →
     (l ∈ unsent ts' ↔ l ∈ unsent ts) ∧
     (l ∉ unsent ts → s_heap s' !! l = s_heap s !! l ∧ reserved l ts' = reserved l ts)) →
  chan_at s' ts' k = chan_at s ts k.
Proof.
  intros Hc Hl. unfold chan_at. case_cmp; [done|]. rewrite Hc.
  destruct (mjoin (s_chans s !! Z.to_nat k)) as [l|]; [|done]. cbn.
  destruct (Hl l eq_refl) as [Hu Hk]. rewrite (decide_ext _ _ _ _ Hu). case_decide; [done|].
  destruct Hk as [-> Hr]; [done|]. destruct (s_heap s !! l); [|done]. cbn.
  unfold abs_chan. by rewrite Hr.
Qed.

(** ** Looking up channels *)

Section lookup.
Context (n : nat) (s : session) (p : loop_pc) (ts : list thread) (hs : list chan_ptr).
Hypothesis Hinv : sess_inv s n p ts hs.

(** A channel of the table has its slot for id. *)
Lemma slot_id l (i : nat) ch :
  s_chans s !! i = Some (Some l) → live s ts l ch → c_localId ch = Z.of_nat i.
Proof using Hinv.
  intros Hi [Hl Hu]. destruct (si_table _ _ _ _ _ Hinv i l Hi) as (c & Hc & Hid & _).
  unfold chan_id in Hid. rewrite (names_sent _ _ Hu) in Hid. cbn in Hid. congruence.
Qed.

Lemma chan_at_slot l (i : nat) ch :
  s_chans s !! i = Some (Some l) → live s ts l ch →
  chan_at s ts (Z.of_nat i) = Some (abs_chan ts l ch).
Proof using.
  intros Hi [Hl Hu]. unfold chan_at. case_cmp; [lia|]. rewrite Nat2Z.id, Hi. cbn.
  by rewrite decide_False, Hl.
Qed.

Lemma chan_at_some k a :
  chan_at s ts k = Some a → ∃ l ch, s_chans s !! Z.to_nat k = Some (Some l) ∧
    live s ts l ch ∧ a = abs_chan ts l ch ∧ c_localId ch = k.
Proof using Hinv.
  unfold chan_at. case_cmp; [done|]. destruct (s_chans s !! Z.to_nat k) as [[l|]|] eqn:E; try done.
  cbn. case_decide as Hu; [done|]. destruct (s_heap s !! l) as [ch|] eqn:Hl; [|done].
  intros [= <-]. exists l, ch. assert (live s ts l ch) as Hlive by done.
  split_and!; [done..|]. rewrite (slot_id l _ ch E Hlive). lia.
Qed.

(** A channel of the heap, by its id. *)
Lemma calm_at l ch :
  calm s p ts → live s ts l ch →
  s_chans s !! Z.to_nat (c_localId ch) = Some (Some l) ∧ 0 ≤ c_localId ch ∧
  chan_at s ts (c_localId ch) = Some (abs_chan ts l ch).
Proof using Hinv.
  intros Hc Hl. destruct (ca_chan _ _ _ Hc l ch Hl) as [[i Hi] _].
  rewrite (slot_id l i ch Hi Hl), Nat2Z.id. split; [done|]. split; [lia|]. by apply chan_at_slot.
Qed.
End lookup.

(** Nothing is reserved on a channel that is not sized. *)
Lemma reserved_small s ts l ch :
  Forall (thread_inv s) ts → s_heap s !! l = Some ch → ¬ sized ch → reserved l ts = 0.
Proof.
  intros Hts Hl Hs. induction Hts as [|t ts Ht Hts IH]; [done|]. cbn [reserved].
  rewrite IH. destruct t as [| | | |k data n space|]; cbn; try done.
  case_decide; [|done]. subst k. destruct Ht as [(c & Hk & Hc) _]. by simplify_eq.
Qed.

(** ** Changes that keep a session calm *)

Section change.
Context (n : nat) (s : session) (p : loop_pc) (ts : list thread) (hs : list chan_ptr) (X : side).
Hypothesis Hinv : sess_inv s n p ts hs.
Hypothesis Hcalm : calm s p ts.
Hypothesis Hseen : seen s p ts X.

(** The channel offered to [Accept] is known. *)
Lemma offered_known l sender :
  p = LAccept l sender ∨ p = LConfirm l sender → ∃ ch, live s ts l ch.
Proof using All.
  intros Hp. assert (at_ptr s (λ ch, c_maxRemotePayload ch = maxp) l) as (ch & Hl & Hm).
  { pose proof (ca_loop _ _ _ Hcalm) as H. by destruct Hp; subst. }
  exists ch. split; [done|]. intros Hu.
  by destruct (ca_unsent _ _ _ Hcalm l ch Hl Hu) as (_ & id & ->).
Qed.

(** Only a channel the peer does not know changed. *)
Lemma offered_hidden s' :
  (∀ l ch, live s ts l ch → s_heap s' !! l = Some ch) → offered s' p = offered s p.
Proof using All.
  intros Hs. pose proof offered_known as Hk. unfold offered.
  destruct p as [|l sd|l sd| | | |]; try done; (destruct (Hk l sd) as [ch Hl]; [auto|]);
    by rewrite (Hs l ch Hl), (proj1 Hl).
Qed.

Lemma loop_calm_hidden s' :
  (∀ l ch, live s ts l ch → s_heap s' !! l = Some ch) → loop_calm s' p.
Proof using All.
  intros Hs. pose proof offered_known as Hk. pose proof (ca_loop _ _ _ Hcalm) as Hlp.
  unfold loop_calm in *.
  destruct p as [|l sd|l sd| | | |]; try done; (destruct (Hk l sd) as [ch Hl]; [auto|]);
    destruct Hlp as (c & Hc & Hm); pose proof (Hs l ch Hl) as Hs'; destruct Hl as [Hl _];
    exists ch; (split; [done|congruence]).
Qed.

(** One channel changed, and what its writers hold. *)
Lemma seen_put l ch ch' s' ts' :
  live s ts l ch → unsent ts' = unsent ts →
  s_heap s' = <[l := ch']> (s_heap s) → s_chans s' = s_chans s →
  w_script (s_enc s') = [] → c_localId ch' = c_localId ch → chan_calm ch' →
  (c_maxRemotePayload ch = maxp → c_maxRemotePayload ch' = maxp) →
  (∀ k, k ≠ l → reserved k ts' = reserved k ts) → Forall thread_calm ts' →
  calm s' p ts' ∧ seen s' p ts' (upd (c_localId ch) (abs_chan ts' l ch') X).
Proof using All.
  intros Hlive Hus Hheap Hchans Hw Hid Hch Hmax Hres Hts. pose proof Hlive as [Hl Hu].
  assert (∀ k c, s_heap s !! k = Some c → ∃ c', s_heap s' !! k = Some c' ∧
    c_localId c' = c_localId c ∧ (c_maxRemotePayload c = maxp → c_maxRemotePayload c' = maxp))
    as Hmono.
  { intros k c Hk. rewrite Hheap. destruct (decide (k = l)) as [->|Hne].
    - exists ch'. rewrite lookup_insert_eq. by simplify_eq.
    - exists c. by rewrite lookup_insert_ne. }
  destruct (calm_at n s p ts hs Hinv l ch Hcalm Hlive) as (Hslot & Hpos & _).
  split; [split|split].
  - rewrite Hchans. apply Hcalm.
  - intros k c [Hk Hku]. unfold in_table. rewrite Hchans. rewrite Hheap in Hk. rewrite Hus in Hku.
    apply lookup_insert_Some in Hk as [[<- <-]|[Hne Hk]]; [|by eapply ca_chan].
    split; [by eexists|done].
  - intros k c Hk Hku. unfold in_table. rewrite Hchans. rewrite Hus in Hku.
    rewrite Hheap, lookup_insert_ne in Hk by (by intros <-). by eapply ca_unsent.
  - done.
  - pose proof (ca_loop _ _ _ Hcalm) as Hlp. destruct p; try done;
      destruct Hlp as (c & Hc & Hm); destruct (Hmono _ c Hc) as (c' & Hc' & _ & Hm');
      exists c'; auto.
  - done.
  - intros k. cbn [upd sd]. destruct (decide (k = c_localId ch)) as [->|Hne].
    + unfold chan_at. rewrite Hchans, Hheap, Hus, lookup_insert_eq. case_cmp; [lia|].
      rewrite Hslot. cbn. by rewrite decide_False, lookup_insert_eq.
    + rewrite lookup_insert_ne by done. rewrite (proj1 Hseen). symmetry.
      destruct (Z.ltb_spec k 0); [by rewrite !chan_at_neg|].
      apply chan_at_ext; [by rewrite Hchans|]. intros l' E. rewrite Hus. split; [done|].
      intros _. destruct (s_chans s !! Z.to_nat k) as [[k'|]|] eqn:Ek; simplify_eq/=.
      assert (l' ≠ l) as Hll by (intros ->; pose proof (slot_id n s p ts hs Hinv l _ ch Ek Hlive); lia).
      by rewrite Hheap, lookup_insert_ne, Hres.
  - unfold upd; cbn [offer]; rewrite (proj2 Hseen). unfold offered. destruct p as [|k ?|k ?| | | |]; try done;
      pose proof (si_loop _ _ _ _ _ Hinv) as H; cbn in H |- *.
    + destruct H as (_ & c & Hc & _). destruct (Hmono k c Hc) as (c' & -> & Hi & _).
      rewrite Hc. cbn. by rewrite Hi.
    + destruct H as (c & Hc & _). destruct (Hmono k c Hc) as (c' & -> & Hi & _).
      rewrite Hc. cbn. by rewrite Hi.
Qed.

(** Only the transport or the goroutines changed. *)
Lemma seen_same s' ts' :
  s_heap s' = s_heap s → s_chans s' = s_chans s → w_script (s_enc s') = [] →
  (∀ k, reserved k ts' = reserved k ts) → unsent ts' = unsent ts → Forall thread_calm ts' →
  calm s' p ts' ∧ seen s' p ts' X.
Proof using Hcalm Hseen.
  intros Hheap Hchans Hw Hres Hus Hts. split; [split|split]; try done.
  - rewrite Hchans. apply Hcalm.
  - intros l ch. unfold in_table, live. rewrite Hheap, Hchans, Hus. apply Hcalm.
  - intros l ch. unfold in_table. rewrite Hheap, Hchans, Hus. apply Hcalm.
  - pose proof (ca_loop _ _ _ Hcalm) as Hlp. unfold loop_calm, at_ptr in *. by rewrite Hheap.
  - intros k. rewrite (proj1 Hseen). symmetry. apply chan_at_ext; [by rewrite Hchans|].
    intros l _. rewrite Hus, Hheap. done.
  - rewrite (proj2 Hseen). unfold offered. by rewrite Hheap.
Qed.

(** A channel the peer does not know changed, and stays unknown. *)
Lemma seen_hidden l ch id s' ts' :
  s_heap s !! l = Some ch → l ∈ unsent ts → unsent ts' = unsent ts →
  s_heap s' = <[l := set_localId id (fresh_channel channelOutbound)]> (s_heap s) →
  s_chans s' = s_chans s → w_script (s_enc s') = [] →
  (∀ k, reserved k ts' = reserved k ts) → Forall thread_calm ts' →
  calm s' p ts' ∧ seen s' p ts' X.
Proof using All.
  intros Hl Hu Hus Hheap Hchans Hw Hres Hts.
  assert (∀ k c, live s ts k c → s_heap s' !! k = Some c) as Hkeep.
  { intros k c [Hk Hku]. rewrite Hheap, lookup_insert_ne; [done|]. by intros <-. }
  split; [split|split]; try done.
  - rewrite Hchans. apply Hcalm.
  - intros k c [Hk Hku]. unfold in_table. rewrite Hchans. rewrite Hus in Hku.
    rewrite Hheap, lookup_insert_ne in Hk by (by intros <-). by apply Hcalm.
  - intros k c Hk Hku. unfold in_table. rewrite Hchans. rewrite Hus in Hku. rewrite Hheap in Hk.
    apply lookup_insert_Some in Hk as [[<- <-]|[Hne Hk]]; [|by eapply ca_unsent].
    split; [by eapply ca_unsent|by exists id].
  - by apply loop_calm_hidden.
  - intros k. rewrite (proj1 Hseen). symmetry. apply chan_at_ext; [by rewrite Hchans|].
    intros k' _. rewrite Hus. split; [done|]. intros Hk'. split; [|done].
    rewrite Hheap, lookup_insert_ne; [done|]. by intros <-.
  - rewrite (proj2 Hseen). symmetry. by apply offered_hidden.
Qed.

(** The peer is told of channel [l]. *)
Lemma seen_told l ch ch' s' ts' :
  Z.of_nat n < 2 ^ 32 - 1 → s_heap s !! l = Some ch → l ∈ unsent ts → names ts !! l = None →
  (∀ k, k ∈ unsent ts' ↔ k ∈ unsent ts ∧ k ≠ l) →
  s_heap s' = <[l := ch']> (s_heap s) → s_chans s' = s_chans s → w_script (s_enc s') = [] →
  c_localId ch' = c_localId ch → chan_calm ch' →
  (∀ k, reserved k ts' = reserved k ts) → Forall thread_calm ts' →
  sd X !! c_localId ch = None ∧ is_u32 (c_localId ch) ∧
  calm s' p ts' ∧ seen s' p ts' (upd (c_localId ch) (abs_chan ts' l ch') X).
Proof using All.
  intros Hn Hl Hu Hnm Hus Hheap Hchans Hw Hid Hch Hres Hts.
  destruct (ca_unsent _ _ _ Hcalm l ch Hl Hu) as ([i Hi] & _).
  destruct (si_table _ _ _ _ _ Hinv i l Hi) as (c & Hc & Hci & _). simplify_eq.
  unfold chan_id in Hci. rewrite Hnm in Hci. cbn in Hci.
  assert (∀ k c, live s ts k c → s_heap s' !! k = Some c) as Hkeep.
  { intros k c' [Hk Hku]. rewrite Hheap, lookup_insert_ne; [done|]. by intros <-. }
  rewrite Hci. split; [|split; [|split; [split|split]]]; try done.
  - rewrite (proj1 Hseen). unfold chan_at. case_cmp; [done|]. rewrite Nat2Z.id, Hi. cbn.
    by rewrite decide_True.
  - pose proof (si_small _ _ _ _ _ Hinv). apply lookup_lt_Some in Hi. unfold is_u32, len in *. lia.
  - rewrite Hchans. apply Hcalm.
  - intros k c' [Hk Hku]. unfold in_table. rewrite Hchans. rewrite Hheap in Hk.
    apply lookup_insert_Some in Hk as [[<- <-]|[Hne Hk]]; [split; [by exists i|done]|].
    apply (ca_chan _ _ _ Hcalm). split; [done|]. intros Hk'. apply Hku, Hus. by split.
  - intros k c' Hk [Hku Hne]%Hus. unfold in_table. rewrite Hchans.
    rewrite Hheap, lookup_insert_ne in Hk by done. by eapply ca_unsent.
  - by apply loop_calm_hidden.
  - intros k. cbn [upd sd]. destruct (decide (k = Z.of_nat i)) as [->|Hne].
    + unfold chan_at. rewrite Hchans, Hheap, lookup_insert_eq. case_cmp; [lia|].
      rewrite Nat2Z.id, Hi. cbn. rewrite decide_False by (by rewrite Hus; intros []).
      by rewrite lookup_insert_eq.
    + rewrite lookup_insert_ne by done. rewrite (proj1 Hseen). symmetry.
      destruct (Z.ltb_spec k 0); [by rewrite !chan_at_neg|].
      apply chan_at_ext; [by rewrite Hchans|]. intros l' E.
      destruct (s_chans s !! Z.to_nat k) as [[k'|]|] eqn:Ek; simplify_eq/=.
      assert (l' ≠ l) as Hll.
      { intros ->. destruct (si_table _ _ _ _ _ Hinv _ _ Ek) as (c' & Hc' & Hcj & _). simplify_eq.
        unfold chan_id in Hcj. rewrite Hnm in Hcj. cbn in Hcj. lia. }
      rewrite Hus. split; [tauto|]. intros _. by rewrite Hheap, lookup_insert_ne, Hres.
  - unfold upd; cbn [offer]. rewrite (proj2 Hseen). symmetry. by apply offered_hidden.
Qed.

(** The loop moved on. *)
Lemma seen_loop p' o :
  loop_calm s p' → offered s p' = o → calm s p' ts ∧ seen s p' ts (mkSide (sd X) o).
Proof using Hcalm Hseen.
  intros Hl Ho. destruct Hcalm. split; [by split|]. split; [apply Hseen|done].
Qed.

(** The slot of a new channel. *)
Lemma entered_slot ch :
  Z.of_nat n < 2 ^ 32 - 1 → ∃ i : nat,
    (chanList_add (s_fresh s) (s_chans s)).1 = Z.of_nat i ∧ is_u32 (Z.of_nat i) ∧
    mjoin (s_chans s !! i) = None ∧
    ∀ j, s_chans (entered ch s) !! j =
      (if decide (j = i) then Some (Some (s_fresh s)) else s_chans s !! j).
Proof using Hinv.
  intros Hn. pose proof (si_small _ _ _ _ _ Hinv) as Hsmall.
  destruct (chanList_add_spec (s_fresh s) (s_chans s)) as (i & Hadd & Hnone & Hle & _ & Hlk & _).
  { unfold chanList_small. lia. }
  exists i. rewrite Hadd. split; [done|]. split; [unfold is_u32, len in *; lia|]. done.
Qed.

(** A new channel is not known to anybody, and no slot held it. *)
Lemma fresh_unknown : s_heap s !! s_fresh s = None ∧ (s_fresh s ∉ unsent ts) ∧
  ∀ i : nat, s_chans s !! i ≠ Some (Some (s_fresh s)).
Proof using Hinv.
  pose proof (inv_heap_fresh _ _ _ _ _ Hinv) as Hf. split_and!; [done|..].
  - intros Hu%unsent_opening. destruct (opening_at s ts (s_fresh s)) as (ch & Hl & _);
      [apply Hinv|done|congruence].
  - intros i Hi. destruct (si_table _ _ _ _ _ Hinv _ _ Hi) as (c & Hc & _). congruence.
Qed.

(** A channel was entered in the table that the peer does not know. *)
Lemma seen_entered t :
  Z.of_nat n < 2 ^ 32 - 1 → thread_unsent t = Some (s_fresh s) → thread_calm t →
  (∀ k, thread_reserved k t = 0) →
  let s' := entered (fresh_channel channelOutbound) s in
  calm s' p (t :: ts) ∧ seen s' p (t :: ts) X.
Proof using All.
  intros Hn Ht Htc Htr s'. destruct (entered_slot (fresh_channel channelOutbound) Hn)
    as (i & Hid & _ & Hnone & Hch'). fold s' in Hch'. destruct fresh_unknown as (Hf & Hfu & Hft).
  assert (∀ l, s_heap s' !! l = if decide (l = s_fresh s) then Some (fresh_channel channelOutbound)
    else s_heap s !! l) as Hh'.
  { intros l. unfold s'. case_decide; subst; [by rewrite heap_entered|by rewrite entered_heap_ne]. }
  assert (∀ k, k ∈ unsent (t :: ts) ↔ k = s_fresh s ∨ k ∈ unsent ts) as Hus.
  { intros k. unfold unsent. cbn. rewrite Ht. apply elem_of_cons. }
  assert (∀ l c, live s ts l c → s_heap s' !! l = Some c) as Hkeep.
  { intros l c [Hl _]. rewrite Hh', decide_False; [done|congruence]. }
  assert (∀ l, in_table s l → in_table s' l) as Htab.
  { intros l [j Hj]. exists j. rewrite Hch', decide_False; [done|]. intros ->. by rewrite Hj in Hnone. }
  split; [split|split]; try done.
  - intros j. rewrite Hch'. case_decide; [done|]. apply Hcalm.
  - intros l c [Hl Hlu]. rewrite Hh' in Hl. rewrite Hus in Hlu. apply Decidable.not_or in Hlu as [Hne Hlu].
    rewrite decide_False in Hl by done. destruct (ca_chan _ _ _ Hcalm l c); [done|auto].
  - intros l c Hl Hlu%Hus. rewrite Hh' in Hl. case_decide as Hd.
    + subst. split; [exists i; by rewrite Hch', decide_True|exists 0]. by simplify_eq.
    + destruct Hlu as [->|Hlu]; [done|]. destruct (ca_unsent _ _ _ Hcalm l c); [done..|auto].
  - apply Hcalm.
  - by apply loop_calm_hidden.
  - constructor; [done|apply Hcalm].
  - intros k. rewrite (proj1 Hseen). symmetry. destruct (decide (Z.to_nat k = i)) as [Ek|Ek].
    + unfold chan_at. rewrite Ek, Hch', decide_True, Hnone by done. cbn.
      rewrite decide_True; [done|]. apply Hus. by left.
    + apply chan_at_ext; [by rewrite Hch', decide_False|]. intros l Hl.
      assert (l ≠ s_fresh s) as Hne.
      { intros ->. destruct (s_chans s !! Z.to_nat k) as [[]|] eqn:E; simplify_eq/=. by apply (Hft (Z.to_nat k)). }
      rewrite Hus, Hh', decide_False by done. split; [tauto|]. intros _. split; [done|].
      cbn [reserved]. rewrite Htr. lia.
  - rewrite (proj2 Hseen). symmetry. by apply offered_hidden.
Qed.

(** A channel the peer asked for was added to the table. *)
Lemma seen_added ch p' s' :
  Z.of_nat n < 2 ^ 32 - 1 → chan_calm (set_localId 0 ch) →
  s_heap s' = s_heap (added ch s) → s_chans s' = s_chans (added ch s) → w_script (s_enc s') = [] →
  loop_calm s' p' → ∃ id : Z, (chanList_add (s_fresh s) (s_chans s)).1 = id ∧
    is_u32 id ∧ sd X !! id = None ∧ calm s' p' ts ∧
    seen s' p' ts (mkSide (<[id := abs_chan [] 0 ch]> (sd X)) (offered s' p')).
Proof using All.
  intros Hn Hch Hheap Hchans Hw Hlp.
  destruct (entered_slot (set_localId (add_id_of s) ch) Hn) as (i & Hid & Hu & Hnone & Hlk).
  destruct fresh_unknown as (Hf & Hfu & Hft).
  exists (Z.of_nat i). split; [done|]. split; [done|].
  assert (∀ j : nat, s_chans s' !! j = if decide (j = i) then Some (Some (s_fresh s)) else s_chans s !! j)
    as Hch' by (intros j; rewrite Hchans; apply Hlk).
  assert (∀ l, s_heap s' !! l = if decide (l = s_fresh s) then Some (set_localId (Z.of_nat i) ch)
    else s_heap s !! l) as Hh'.
  { intros l. rewrite Hheap. case_decide; subst; [by rewrite heap_added, Hid|].
    by rewrite added_heap_ne. }
  assert (∀ l, in_table s l → in_table s' l) as Htab.
  { intros l [j Hj]. exists j. rewrite Hch', decide_False; [done|]. intros ->. by rewrite Hj in Hnone. }
  split; [|split; [split|split]]; try done.
  - rewrite (proj1 Hseen). unfold chan_at. case_cmp; [done|]. by rewrite Nat2Z.id, Hnone.
  - intros j. rewrite Hch'. case_decide; [done|]. apply Hcalm.
  - intros l c [Hl Hlu]. rewrite Hh' in Hl. case_decide as Hd.
    + simplify_eq. split; [exists i; by rewrite Hch', decide_True|exact Hch].
    + destruct (ca_chan _ _ _ Hcalm l c); [done|auto].
  - intros l c Hl Hlu. rewrite Hh', decide_False in Hl by (by intros ->).
    destruct (ca_unsent _ _ _ Hcalm l c); [done..|auto].
  - apply Hcalm.
  - intros k. cbn [sd]. destruct (decide (k = Z.of_nat i)) as [->|Hne].
    + unfold chan_at. rewrite lookup_insert_eq. case_cmp; [lia|]. rewrite Nat2Z.id, Hch', decide_True by done.
      cbn. rewrite decide_False, Hh', decide_True by done. cbn. unfold abs_chan. cbn.
      by rewrite (reserved_absent s) by (apply Hinv || done).
    + rewrite lookup_insert_ne by done. rewrite (proj1 Hseen). symmetry.
      destruct (Z.ltb_spec k 0); [by rewrite !chan_at_neg|].
      apply chan_at_ext; [by rewrite Hch', decide_False by lia|]. intros l Hl. split; [done|].
      intros _. split; [|done]. rewrite Hh', decide_False; [done|]. intros ->.
      destruct (s_chans s !! Z.to_nat k) as [[]|] eqn:E; simplify_eq/=. by apply (Hft (Z.to_nat k)).
Qed.
End change.

(** ** User goroutines *)

Lemma streams_same s s' ts ts' :
  s_heap s' = s_heap s → unsent ts' = unsent ts → streams s s' ts ts' no_read [].
Proof.
  intros Hh Hu. unfold streams, live. rewrite Hh, Hu. split.
  - intros l ch q Hl Hq. exists ch, q. split_and!; try done; try apply Hl.
    unfold stream_to. cbn. by rewrite app_nil_r.
  - intros l ch' Hn Hl. by destruct (Hn ch').
Qed.

(** A channel the peer does not know changed or is new, and stays unknown. *)
Lemma streams_hidden s s' ts ts' l :
  (∀ k, k ≠ l → s_heap s' !! k = s_heap s !! k) → (∀ ch, ¬ live s ts l ch) →
  (∀ k, k ∈ unsent ts' ↔ k = l ∨ k ∈ unsent ts) → streams s s' ts ts' no_read [].
Proof.
  unfold streams, live. intros Hh Hl Hu. split.
  - intros k ch q [Hk Hku] Hq. assert (k ≠ l) as Hne by (intros ->; by eapply Hl). exists ch, q.
    split_and!; [by rewrite Hh|rewrite Hu; tauto|done..|].
    unfold stream_to. cbn. by rewrite app_nil_r.
  - intros k ch' Hn [Hk Hku]. rewrite Hu in Hku. destruct (Hn ch'). rewrite Hh in Hk by tauto.
    split; tauto.
Qed.

(** The peer is told of a channel nobody has used. *)
Lemma streams_told s s' ts ts' l ch ch' :
  s_heap s !! l = Some ch → s_heap s' = <[l := ch']> (s_heap s) → c_pending ch' = newBuffer →
  (∀ k, k ∈ unsent ts' ↔ k ∈ unsent ts ∧ k ≠ l) → l ∈ unsent ts →
  chan_at s ts (c_localId ch') = None → streams s s' ts ts' no_read [].
Proof.
  unfold streams, live. intros Hl Hh Hp Hu Hlu Hat. split.
  - intros k c q [Hk Hku] Hq. assert (k ≠ l) as Hne by (by intros ->). exists c, q.
    split_and!; [by rewrite Hh, lookup_insert_ne|rewrite Hu; tauto|done..|].
    unfold stream_to. cbn. by rewrite app_nil_r.
  - intros k c Hn [Hk Hku]. rewrite Hu in Hku. rewrite Hh in Hk.
    apply lookup_insert_Some in Hk as [[<- <-]|[Hne Hk]]; [done|].
    destruct (Hn c). split; [done|]. intros Hk'. apply Hku. by split.
Qed.

(** One channel changed. *)
Lemma streams_put s s' ts ts' rd ms l ch ch' :
  live s ts l ch → unsent ts' = unsent ts → s_heap s' = <[l := ch']> (s_heap s) →
  c_localId ch' = c_localId ch → (∀ k, k ≠ l → rd k = []) →
  (∀ k c, live s ts k c → k ≠ l → stream_to (c_localId c) ms = []) →
  (∀ q, buffer_repr (c_pending ch) q → ∃ q', buffer_repr (c_pending ch') q' ∧
     rd l ++ q' = q ++ stream_to (c_localId ch) ms) →
  streams s s' ts ts' rd ms.
Proof.
  intros [Hl Hlu] Hu Hh Hid Hrd Hms Hq. unfold streams, live. rewrite Hu, Hh. split.
  - intros k c q [Hk Hku] Hc. destruct (decide (k = l)) as [->|Hne].
    + rewrite Hl in Hk. simplify_eq. destruct (Hq q Hc) as (q' & Hq' & E).
      exists ch', q'. by rewrite lookup_insert_eq.
    + exists c, q. rewrite lookup_insert_ne, Hrd by done. rewrite (Hms k c), app_nil_r; done.
  - intros k c Hn [Hk Hku]. apply lookup_insert_Some in Hk as [[<- <-]|[Hne Hk]].
    + by destruct (Hn ch).
    + by destruct (Hn c).
Qed.

(** A channel the peer asked for was allocated. *)
Lemma streams_added s s' ts ch ms :
  chanList_small (s_chans s) → (∀ k, stream_to k ms = []) → s_heap s !! s_fresh s = None →
  s_heap s' = s_heap (added ch s) → c_pending ch = newBuffer → streams s s' ts ts no_read ms.
Proof.
  intros Hsmall Hms Hf Hh Hp. unfold streams, live. rewrite Hh. split.
  - intros l c q [Hl Hu] Hq. exists c, q. rewrite added_heap_ne by congruence.
    split_and!; try done. by rewrite Hms, app_nil_r.
  - intros l c Hn [Hc Hu]. destruct (decide (l = s_fresh s)) as [->|Hne].
    + rewrite heap_added in Hc.
      destruct (chanList_add_spec (s_fresh s) (s_chans s) Hsmall) as (i & E & Hi & _).
      apply (f_equal fst) in E. cbn in E. simplify_eq.
      split_and!; try done. cbn. rewrite E. unfold chan_at. case_cmp; [done|]. by rewrite Nat2Z.id, Hi.
    + rewrite added_heap_ne in Hc by done. by destruct (Hn c).
Qed.

(** What a [refines] consists of, when nothing is read. *)
Lemma refines_intro rd s ts X f c X' out :
  (pstep X f X' f out ∨ X' = X ∧ out = []) →
  calm (g_sess c) (g_loop c) (g_threads c) ∧ seen (g_sess c) (g_loop c) (g_threads c) X' →
  s_dec s = mkReader (frames f) (rd_err (s_dec s)) → s_dec (g_sess c) = s_dec s →
  s_enc (g_sess c) = emit out (s_enc s) → Forall message_wf out →
  streams s (g_sess c) ts (g_threads c) rd [] → refines_as rd s ts X f c.
Proof.
  intros Hs [Hc Hv] Hd Hd' He Hwf Hst. exists X', f, out, []. split_and!; try done.
  - destruct Hs as [Hs|[-> ->]]; [by left|by right].
  - by rewrite Hd'.
Qed.

Lemma emit_script ms w : w_script w = [] → w_script (emit ms w) = [].
Proof. intros Hw. cbn. by rewrite Hw, drop_nil. Qed.

Lemma encode_calm_eq m s : w_script (s_enc s) = [] → encode m s = (Ret None, set_enc (emit [m] (s_enc s)) s).
Proof. intros Hw. apply encode_ok_eq. unfold writer_ok. by rewrite Hw. Qed.

Lemma go_min_bounds a b : 0 ≤ a → 0 ≤ b → 0 ≤ go_min a b ≤ a ∧ go_min a b ≤ b.
Proof.
  intros Ha Hb. unfold go_min. pose proof (u32_range b) as [? ?]. 
  assert (u32 b ≤ b) by (apply Z.mod_le; lia). case_cmp; lia.
Qed.

Section actions.
Context (n : nat) (s : session) (p : loop_pc) (ts : list thread) (hs : list chan_ptr).
Context (X : side) (f : list Message).
Hypothesis Hinv : sess_inv s n p ts hs.
Hypothesis Hcalm : calm s p ts.
Hypothesis Hseen : seen s p ts X.
Hypothesis Hdec : s_dec s = mkReader (frames f) (rd_err (s_dec s)).

Let Hw : w_script (s_enc s) = [] := ca_writer _ _ _ Hcalm.

(** Nothing the protocol speaks of changed. *)
Lemma refines_same s' ts' hs' :
  s_heap s' = s_heap s → s_chans s' = s_chans s → s_enc s' = s_enc s → s_dec s' = s_dec s →
  (∀ k, reserved k ts' = reserved k ts) → unsent ts' = unsent ts → Forall thread_calm ts' →
  refines s ts X f (mkConfig s' p ts' hs').
Proof using All.
  intros Hh Hc He Hd Hr Hu Ht. apply (refines_intro _ _ _ _ _ _ X []); [by right| |done..| |done|].
  - eapply seen_same; try done. cbn. by rewrite He.
  - cbn. by rewrite He, emit_nil.
  - by apply streams_same.
Qed.

(** Fields of one channel changed that the protocol does not see; [rd] was read
    from it. *)
Lemma refines_quiet_as rd l ch ch' s' ts' hs' :
  live s ts l ch → s' = put_ch l ch' s → c_localId ch' = c_localId ch →
  chan_calm ch' → abs_chan ts' l ch' = abs_chan ts l ch →
  (∀ k, k ≠ l → reserved k ts' = reserved k ts) → unsent ts' = unsent ts → Forall thread_calm ts' →
  (c_maxRemotePayload ch = maxp → c_maxRemotePayload ch' = maxp) →
  (∀ k, k ≠ l → rd k = []) →
  (∀ q, buffer_repr (c_pending ch) q → ∃ q', buffer_repr (c_pending ch') q' ∧ rd l ++ q' = q) →
  refines_as rd s ts X f (mkConfig s' p ts' hs').
Proof using All.
  intros Hl -> Hid Hch Habs Hr Hu Ht Hmax Hrd Hq.
  apply (refines_intro _ _ _ _ _ _ X []); [by right| |done|done|by rewrite emit_nil|done|].
  - pose proof (seen_put n s p ts hs X Hinv Hcalm Hseen l ch ch' (put_ch l ch' s) ts') as Hp.
    rewrite Habs, upd_id in Hp; [by apply Hp|].
    rewrite (proj1 Hseen). by apply (calm_at n s p ts hs Hinv).
  - eapply streams_put; try done. intros q Hq'. destruct (Hq q Hq') as (q' & ? & ?).
    exists q'. split; [done|]. unfold stream_to. cbn. by rewrite app_nil_r.
Qed.

Lemma refines_quiet l ch ch' s' ts' hs' :
  live s ts l ch → s' = put_ch l ch' s → c_localId ch' = c_localId ch →
  chan_calm ch' → abs_chan ts' l ch' = abs_chan ts l ch →
  (∀ k, k ≠ l → reserved k ts' = reserved k ts) → unsent ts' = unsent ts → Forall thread_calm ts' →
  (c_maxRemotePayload ch = maxp → c_maxRemotePayload ch' = maxp) →
  c_pending ch' = c_pending ch → refines s ts X f (mkConfig s' p ts' hs').
Proof using All.
  intros. eapply refines_quiet_as; try done. intros q Hq. exists q. split; [congruence|done].
Qed.

(** A step of the protocol on one channel that sends [out]. *)
Lemma refines_chan l ch ch' w ts' hs' out :
  live s ts l ch → w = emit out (s_enc s) → c_localId ch' = c_localId ch →
  chan_calm ch' → (∀ k, k ≠ l → reserved k ts' = reserved k ts) → unsent ts' = unsent ts →
  Forall thread_calm ts' →
  (c_maxRemotePayload ch = maxp → c_maxRemotePayload ch' = maxp) → Forall message_wf out →
  c_pending ch' = c_pending ch →
  (sd X !! c_localId ch = Some (abs_chan ts l ch) →
    pstep X f (upd (c_localId ch) (abs_chan ts' l ch') X) f out) →
  refines s ts X f (mkConfig (set_enc w (put_ch l ch' s)) p ts' hs').
Proof using All.
  intros Hl -> Hid Hch Hr Hu Ht Hmax Hwf Hpd Hs.
  apply (refines_intro _ _ _ _ _ _ (upd (c_localId ch) (abs_chan ts' l ch') X) out); try done.
  - left. apply Hs. rewrite (proj1 Hseen). by apply (calm_at n s p ts hs Hinv).
  - eapply seen_put; try done. by apply emit_script.
  - eapply (streams_put _ _ _ _ _ _ l ch ch'); try done. intros q Hq. exists q.
    unfold stream_to. cbn. rewrite app_nil_r. split; [congruence|done].
Qed.

(** A goroutine that only waits for something the protocol does not see. *)
Lemma delete_calm i t :
  ts !! i = Some t → (∀ k, thread_reserved k t = 0) → thread_unsent t = None →
  (∀ k, reserved k (delete i ts) = reserved k ts) ∧ unsent (delete i ts) = unsent ts ∧
  Forall thread_calm (delete i ts).
Proof using Hcalm.
  intros Hi Ht Hu. split; [|split; [by eapply unsent_delete|by apply Forall_delete, Hcalm]].
  intros k. rewrite (reserved_delete _ _ _ _ Hi), Ht. lia.
Qed.

Lemma chan_calm_of l ch : live s ts l ch → chan_calm ch.
Proof using Hcalm. intros Hl. by apply (ca_chan _ _ _ Hcalm l ch Hl). Qed.

(** A channel whose packet size is known is ready. *)
Lemma sized_maxp l : at_ptr s sized l → ∃ ch, live s ts l ch ∧ chan_calm ch ∧
  c_maxRemotePayload ch = maxp ∧ ∀ ts l, a_peer (abs_chan ts l ch) = Some (c_remoteId ch).
Proof using Hcalm.
  intros (ch & Hh & Hs). exists ch. unfold sized, minPacketLength in Hs.
  assert (live s ts l ch) as Hl.
  { split; [done|]. intros Hu. destruct (ca_unsent _ _ _ Hcalm l ch Hh Hu) as (_ & id & ->).
    cbn in Hs. lia. }
  pose proof (chan_calm_of l ch Hl) as Hc. destruct Hc as (H1 & H2 & H3 & H4 & [(H5 & _)|[H5 H6]]); [lia|].
  split_and!; try done.
  - split_and!; try done. by right.
  - intros. unfold abs_chan. by rewrite H5.
Qed.

(** The id of a channel is written; nobody but its goroutine sees. *)
Lemma name_refines i l id done :
  ts !! i = Some (TName l id) → refines s ts X f (exec_thread i done (mkConfig s p ts hs)).2.
Proof using All.
  intros Hi. unfold exec_thread. cbn [g_threads]. rewrite Hi.
  assert (l ∈ unsent ts) as Hlu by (apply elem_of_unsent; by exists i, (TName l id)).
  pose proof (si_threads _ _ _ _ _ Hinv) as Ht. rewrite Forall_lookup in Ht.
  destruct (Ht _ _ Hi) as (ch & Hl & _).
  destruct (ca_unsent _ _ _ Hcalm l ch Hl Hlu) as (_ & id0 & Hch).
  erewrite run_ret by by apply assign_eq. cbn [snd ok].
  assert (unsent (<[i := TRequest l]> ts) = unsent ts) as Hu by by eapply unsent_insert.
  apply (refines_intro _ _ _ _ _ _ X []); [by right| |done|done|by rewrite emit_nil|done|].
  - apply (seen_hidden n s p ts hs X Hinv Hcalm Hseen l ch id); try done.
    + cbn. by rewrite Hch.
    + intros k. cbn [set_thread with_threads g_threads with_sess]. rewrite (reserved_insert _ _ _ _ _ Hi). cbn. lia.
    + by apply Forall_insert; [apply Hcalm|].
  - apply (streams_hidden _ _ _ _ l).
    + intros k Hk. cbn. by rewrite lookup_insert_ne.
    + by intros c [_ ?].
    + intros k. cbn [set_thread with_threads g_threads with_sess]. rewrite Hu. split; [tauto|].
      by intros [->|?].
Qed.

(** The open request is sent. *)
Lemma request_refines i l done :
  Z.of_nat n < 2 ^ 32 - 1 → ts !! i = Some (TRequest l) →
  refines s ts X f (exec_thread i done (mkConfig s p ts hs)).2.
Proof using All.
  intros Hn Hi. unfold exec_thread. cbn [g_threads]. rewrite Hi.
  assert (l ∈ unsent ts) as Hlu by (apply elem_of_unsent; by exists i, (TRequest l)).
  pose proof (si_threads _ _ _ _ _ Hinv) as Ht. rewrite Forall_lookup in Ht.
  destruct (Ht _ _ Hi) as (ch & Hl & _). pose proof (si_opening _ _ _ _ _ Hinv) as Hnd.
  destruct (ca_unsent _ _ _ Hcalm l ch Hl Hlu) as (_ & id & Hch).
  assert (names ts !! l = None) as Hnm by by apply (past_naming ts i (TRequest l)).
  erewrite run_ret by by apply Open_send_eq. cbv zeta. cbn [g_sess].
  rewrite Encode_ok by (unfold writer_ok; by rewrite Hw). cbn [fst snd ok g_sess].
  set (m := OpenMessage _ _ _). set (ch' := set_maxIncomingPayload _ _).
  destruct (seen_told n s p ts hs X Hinv Hcalm Hseen l ch ch'
    (set_enc (emit [m] (s_enc s)) (put_ch l ch' s)) (<[i := TOpen l]> ts))
    as (Habs & Hu32 & Hcs); try done.
  { intros k. by apply unsent_sent. }
  { by apply emit_script. }
  { subst ch' ch. split_and!; try done. by left. }
  { intros k. rewrite (reserved_insert _ _ _ _ _ Hi). cbn. lia. }
  { by apply Forall_insert; [apply Hcalm|]. }
  apply (refines_intro _ _ _ _ _ _ (upd (c_localId ch) (abs_chan (<[i := TOpen l]> ts) l ch') X) [m]);
    try done.
  - left. assert (abs_chan (<[i := TOpen l]> ts) l ch' = mkA true None 0 0 channelWindowSize) as ->.
    { unfold abs_chan. rewrite (reserved_insert _ _ _ _ _ Hi).
      rewrite (reserved_small s ts l ch); [by subst ch' ch|apply Hinv|done|].
      subst ch. unfold sized, minPacketLength. cbn. lia. }
    replace m with (OpenMessage (c_localId ch) channelWindowSize maxp) by (by subst m ch).
    by apply p_open.
  - constructor; [|done]. subst m. split_and!; try done. by subst ch.
  - apply (streams_told _ _ _ _ l ch ch'); try done.
    + subst ch' ch. done.
    + intros k. by apply unsent_sent.
    + rewrite <- (proj1 Hseen). exact Habs.
Qed.

Lemma open_refines i l done :
  ts !! i = Some (TOpen l) → refines s ts X f (exec_thread i done (mkConfig s p ts hs)).2.
Proof using All.
  intros Hi. unfold exec_thread. cbn [g_threads]. rewrite Hi.
  pose proof (si_threads _ _ _ _ _ Hinv) as Ht. rewrite Forall_lookup in Ht.
  destruct (Ht _ _ Hi) as (ch & Hh & _).
  assert (live s ts l ch) as Hl by (split; [done|by eapply open_sent; [apply Hinv|]]).
  destruct (delete_calm i _ Hi) as (Hr & Hu & Hts); [done..|].
  pose proof (Open_wait_eq l done ch s Hh) as Hwait. unfold run. cbn [g_sess]. rewrite Hwait.
  destruct done as [e|]; [by apply refines_same|].
  destruct (ch_buf (c_msg ch)) as [|m rest] eqn:Em.
  { destruct (ch_closed (c_msg ch)); cbn; apply refines_same; try done. apply Hcalm. }
  assert (∀ hs', refines s ts X f (mkConfig
    (put_ch l (set_msg (mkChan rest (ch_cap (c_msg ch)) (ch_closed (c_msg ch))) ch) s) p
    (delete i ts) hs')) as Hq.
  { intros hs'. eapply refines_quiet; try done.
    - destruct (chan_calm_of l ch Hl) as (H1 & H2 & H3 & H4 & H5). rewrite Em in H5.
      split_and!; try done. cbn in *. destruct H5 as [(_ & _ & ?)|[? ?]]; [done|].
      right. split; [done|lia].
    - unfold abs_chan. by rewrite Hr. }
  destruct (session_Open_reply l (Some m)); apply Hq.
Qed.

Lemma write_turn_eq l ch data k cont ret s0 ts0 :
  s_heap s0 !! l = Some ch →
  write_turn l data k cont ret (mkConfig s0 p ts0 hs) =
    if len data =? 0 then ok (ret (mkConfig s0 p ts0 hs))
    else ok (cont (TReserve l data k (go_min (c_maxRemotePayload ch) (len data)))
      (mkConfig (put_ch l (set_remoteWin (reserve_enter (c_remoteWin ch)) ch) s0) p ts0 hs)).
Proof using.
  intros Hl. unfold write_turn. case_cmp; [done|].
  erewrite run_ret by by apply deref_eq. cbn [with_sess g_loop g_threads g_handles].
  by erewrite run_ret by by eapply on_remoteWin_eq.
Qed.

(** A change of the window object keeps a channel calm. *)
Lemma chan_calm_window ch w :
  chan_calm ch → w_closed w = false → chan_calm (set_remoteWin w ch).
Proof using. intros (H1 & H2 & H3 & H4 & H5) Hc. by split_and!. Qed.

Lemma reserve_refines i l data k want done :
  ts !! i = Some (TReserve l data k want) →
  refines s ts X f (exec_thread i done (mkConfig s p ts hs)).2.
Proof using All.
  intros Hi. unfold exec_thread. cbn [g_threads]. rewrite Hi.
  pose proof (si_threads _ _ _ _ _ Hinv) as Ht. rewrite Forall_lookup in Ht.
  destruct (Ht _ _ Hi) as [Hl Hwant]. destruct (sized_maxp l Hl) as (ch & Hl' & Hch & Hmax & Hp).
  pose proof (ca_threads _ _ _ Hcalm) as Hts. rewrite Forall_lookup in Hts.
  pose proof (Hts _ _ Hi) as [Hw1 Hw2].
  pose proof (si_chan _ _ _ _ _ Hinv _ _ (proj1 Hl')) as [Hww _ _ _ _].
  destruct (reserve_retry want (c_remoteWin ch)) as [o w] eqn:Er.
  pose proof (on_remoteWin_eq _ _ _ _ _ _ (proj1 Hl') Er) as Hrun.
  unfold reserve_retry in Er. destruct (reserve_waits _).
  { simplify_eq. erewrite run_block by done. cbn [snd].
    replace (set_remoteWin _ ch) with ch by (by destruct ch). rewrite put_ch_id by apply Hl'.
    apply refines_same; try done. apply Hcalm. }
  rewrite reserve_finish_spec in Er by done.
  replace (w_closed (c_remoteWin ch)) with false in Er by (symmetry; apply Hch). simplify_eq.
  erewrite run_ret by done. cbn [snd ok set_thread with_threads g_threads g_sess g_loop g_handles with_sess].
  set (got := Z.min (w_win (c_remoteWin ch)) want).
  assert (0 ≤ got ≤ w_win (c_remoteWin ch) ∧ got ≤ want) as Hgot
    by (unfold window_wf, is_u32 in *; lia).
  set (ch' := set_remoteWin _ ch).
  apply (refines_chan l ch ch' (s_enc s) _ _ []); try done.
  - by rewrite emit_nil.
  - by apply chan_calm_window.
  - intros j Hj. rewrite (reserved_insert _ _ _ _ _ Hi). cbn. rewrite decide_False by done. lia.
  - by eapply unsent_insert.
  - apply Forall_insert; [apply Hcalm|]. cbn. lia.
  - intros Hlk. replace (abs_chan _ l ch') with
      (set_resv (a_resv (abs_chan ts l ch) + got)
        (set_win (a_win (abs_chan ts l ch) - got) (abs_chan ts l ch))).
    + apply p_reserve; [done|]. apply Hgot.
    + unfold abs_chan, Protocol.set_resv, Protocol.set_win. cbn.
      rewrite (reserved_insert _ _ _ _ _ Hi). cbn. rewrite decide_True by done. f_equal. lia.
Qed.

Lemma encode_refines i l data k space done :
  ts !! i = Some (TEncode l data k space) →
  refines s ts X f (exec_thread i done (mkConfig s p ts hs)).2.
Proof using All.
  intros Hi. unfold exec_thread. cbn [g_threads]. rewrite Hi.
  pose proof (si_threads _ _ _ _ _ Hinv) as Ht. rewrite Forall_lookup in Ht.
  destruct (Ht _ _ Hi) as [Hl Hspace]. destruct (sized_maxp l Hl) as (ch & Hl' & Hch & Hmax & Hp).
  pose proof (ca_threads _ _ _ Hcalm) as Hts.
  destruct (reserved_bound l ts Hts) as [_ Hb]. specialize (Hb _ _ Hi).
  rewrite Forall_lookup in Hts. pose proof (Hts _ _ Hi) as [Hw1 Hw2].
  cbn in Hb. rewrite decide_True in Hb by done. cbv zeta.
  set (d := take (Z.to_nat space) data). assert (len d = space) as Hd by (unfold d; rewrite len_take; lia).
  rewrite Hd, u32_small by done.
  erewrite run_ret.
  2: { cbn [g_sess]. erewrite bind_eq by by apply deref_eq, Hl'. by apply encode_calm_eq. }
  cbv iota. set (m := DataMessage _ _ _).
  assert (∀ ch' ts', c_localId ch' = c_localId ch → chan_calm ch' →
    c_maxRemotePayload ch' = maxp → w_win (c_remoteWin ch') = w_win (c_remoteWin ch) →
    c_direction ch' = c_direction ch → c_remoteId ch' = c_remoteId ch →
    c_myWindow ch' = c_myWindow ch → c_pending ch' = c_pending ch →
    Forall thread_calm ts' → unsent ts' = unsent ts →
    (∀ k, reserved k ts' = reserved k ts - thread_reserved k (TEncode l data 0 space)) →
    refines s ts X f (mkConfig (set_enc (emit [m] (s_enc s)) (put_ch l ch' s)) p ts' hs)) as Hgo.
  { intros ch' ts' E1 E2 E3 E4 E5 E6 E7 E8 Hts' Hus Hr. apply (refines_chan l ch ch' _ _ _ [m]); try done.
    - intros j Hj. rewrite Hr. cbn. rewrite decide_False by done. lia.
    - constructor; [|done]. cbn. split_and!; [apply Hch|done|done].
    - intros Hlk. replace (abs_chan ts' l ch') with
        (set_resv (a_resv (abs_chan ts l ch) - space) (abs_chan ts l ch)).
      + eapply p_send; try done; cbn; lia.
      + unfold abs_chan, Protocol.set_resv. cbn. rewrite E3, E4, E5, E6, E7, Hmax, Hr. cbn.
        by rewrite decide_True. }
  unfold with_sess. cbn [g_loop g_threads g_handles].
  rewrite (write_turn_eq l ch) by apply Hl'. case_cmp; cbn [snd ok].
  - cbn [end_thread with_threads g_sess g_loop g_threads g_handles].
    rewrite <- (put_ch_id l ch s (proj1 Hl')) at 3. apply Hgo; try done.
    + by apply Forall_delete, Hcalm.
    + by eapply unsent_delete.
    + intros j. by rewrite (reserved_delete _ _ _ _ Hi).
  - cbn [set_thread with_threads g_sess g_loop g_threads g_handles].
    change (put_ch l ?c (set_enc ?w s)) with (set_enc w (put_ch l c s)). apply Hgo; try done.
    + apply Forall_insert; [apply Hcalm|]. cbn. rewrite Hmax. apply go_min_bounds; [done|apply len_nonneg].
    + by eapply unsent_insert.
    + intros j. rewrite (reserved_insert _ _ _ _ _ Hi). cbn. lia.
Qed.

Lemma adjust_refines i l out done :
  ts !! i = Some (TAdjust l out) →
  refines s ts X f (exec_thread i done (mkConfig s p ts hs)).2.
Proof using All.
  intros Hi. unfold exec_thread. cbn [g_threads]. rewrite Hi.
  pose proof (si_threads _ _ _ _ _ Hinv) as Ht. rewrite Forall_lookup in Ht.
  destruct (Ht _ _ Hi) as [Hsz Hlen]. destruct (sized_maxp l Hsz) as (ch & Hl & Hch & Hmax & Hp).
  pose proof (si_chan _ _ _ _ _ Hinv _ _ (proj1 Hl)) as [_ _ (q & Hq & H3 & H4) _ _].
  pose proof (credits_delete l _ _ _ Hi) as Hdel. cbn [thread_credit] in Hdel.
  rewrite decide_True in Hdel by done. pose proof (credits_nonneg l (delete i ts)).
  pose proof (len_nonneg q). destruct (delete_calm i _ Hi) as (Hr & Hu & Hts); [done..|].
  assert (is_u32 (len out) ∧ is_u32 (c_myWindow ch + len out)) as [Ho Hs]
    by (unfold is_u32, channelWindowSize, channelMaxPacket in *; lia).
  set (ch' := set_myWindow (u32 (c_myWindow ch + u32 (len out))) ch).
  set (m := WindowAdjustMessage (c_remoteId ch) (u32 (len out))).
  assert (channel_adjustWindow l (u32 (len out)) s
    = (Ret None, set_enc (emit [m] (s_enc s)) (put_ch l ch' s))) as Ha.
  { rewrite (adjustWindow_eq l _ ch s (proj1 Hl)). cbv zeta.
    replace (c_sentClose ch) with false by (symmetry; apply Hch).
    by rewrite encode_calm_eq. }
  unfold run. cbn [g_sess]. rewrite Ha. cbn [snd ok end_thread with_threads with_sess g_threads g_sess g_loop g_handles].
  apply (refines_chan l ch ch' _ _ _ [m]); try done.
  - constructor; [|done]. split; [apply Hch|by rewrite u32_small].
  - intros Hlk. cbn [with_sess g_threads].
    replace (abs_chan _ l ch') with
      (Protocol.set_mine (a_mine (abs_chan ts l ch) + len out) (abs_chan ts l ch)).
    + unfold m. rewrite (u32_small (len out)) by done. eapply p_credit; try done. cbn. lia.
    + unfold abs_chan, Protocol.set_mine. cbn. rewrite Hr, !u32_small; done || by rewrite u32_small.
Qed.

Lemma thread_refines i done :
  Z.of_nat n < 2 ^ 32 - 1 → refines s ts X f (exec_thread i done (mkConfig s p ts hs)).2.
Proof using All.
  intros Hn. destruct (ts !! i) as [[]|] eqn:Hi;
    eauto using name_refines, request_refines, open_refines, reserve_refines, encode_refines,
      adjust_refines.
  unfold exec_thread. cbn [g_threads]. rewrite Hi. cbn [snd]. apply refines_same; try done.
  apply Hcalm.
Qed.

(** *** Calls of user code *)

(** Reading takes a prefix of what is buffered. *)
Lemma queue_read_split k closed q :
  match queue_read k closed q with (Ret r) => r.1 | _ => [] end ++ drop k q = q.
Proof using.
  unfold queue_read. case_cmp; [by subst|]. destruct q as [|x q]; [by destruct closed; destruct k|].
  cbn [fst]. apply take_drop.
Qed.

Lemma open_call_refines :
  Z.of_nat n < 2 ^ 32 - 1 → refines s ts X f (exec AOpen (mkConfig s p ts hs)).2.
Proof using All.
  intros Hn. cbn [exec]. erewrite run_ret by apply newChannel_add_eq. cbn [g_sess fst snd ok].
  apply (refines_intro _ _ _ _ _ _ X []); [by right| |done|done|by rewrite emit_nil|done|].
  - by apply (seen_entered n s p ts hs X Hinv Hcalm Hseen).
  - apply (streams_hidden _ _ _ _ (s_fresh s)).
    + intros k Hk. by apply entered_heap_ne.
    + intros ch [Hl _]. by rewrite (inv_heap_fresh _ _ _ _ _ Hinv) in Hl.
    + intros k. apply elem_of_cons.
Qed.

Lemma accept_call_refines b : refines s ts X f (exec (AAccept b) (mkConfig s p ts hs)).2.
Proof using All.
  pose proof (ca_threads _ _ _ Hcalm) as Hts.
  cbn [exec]. unfold session_Accept, run. mred. destruct b.
  - destruct (s_inbox s) as [l|] eqn:Hin; [|by apply refines_same].
    destruct (si_inbox _ _ _ _ _ Hinv _ Hin) as [sender ->]. cbn.
    apply (refines_intro _ _ _ _ _ _ X []);
      [by right| |done|done|by rewrite emit_nil|done|by apply streams_same].
    pose proof (si_loop _ _ _ _ _ Hinv) as [Hil _].
    assert (calm s (LConfirm l sender) ts ∧ seen s (LConfirm l sender) ts X) as [[] Hv].
    { replace X with (mkSide (sd X) (offer X)) by (by destruct X).
      apply (seen_loop s (LAccept l sender)); try done; [apply Hcalm|].
      symmetry. rewrite (proj2 Hseen). done. }
    split; [by split|exact Hv].
  - assert (p ≠ LDone) as Hp by (intros ->; by pose proof (ca_loop _ _ _ Hcalm)).
    rewrite (si_closeCh _ _ _ _ _ Hinv Hp). cbn. by apply refines_same.
Qed.

Lemma closewrite_refines l : refines s ts X f (exec (ACloseWrite l) (mkConfig s p ts hs)).2.
Proof using All.
  pose proof (ca_threads _ _ _ Hcalm) as Hts.
  cbn [exec g_handles]. case_decide as Hin; [|by apply refines_same].
  destruct (sized_maxp l (handle_sized _ _ _ _ _ _ Hinv Hin)) as (ch & Hl & Hch & Hmax & Hp).
  unfold run. cbn [g_sess]. rewrite (CloseWrite_eq _ _ _ (proj1 Hl)). cbv zeta.
  replace (c_sentClose ch) with false by (symmetry; apply Hch). cbv iota.
  rewrite encode_calm_eq by done. cbn [snd ok with_sess g_loop g_threads g_handles].
  apply (refines_chan l ch (set_sentEOF true ch) _ _ _ [EOFMessage (c_remoteId ch)]); try done.
  - constructor; [apply Hch|done].
  - intros Hlk. change (abs_chan ts l (set_sentEOF true ch)) with (abs_chan ts l ch).
    rewrite upd_id by done. by eapply p_eof.
Qed.

Lemma write_call_refines l data : refines s ts X f (exec (AWrite l data) (mkConfig s p ts hs)).2.
Proof using All.
  pose proof (ca_threads _ _ _ Hcalm) as Hts.
  cbn [exec g_handles]. case_decide as Hin; [|by apply refines_same].
  destruct (sized_maxp l (handle_sized _ _ _ _ _ _ Hinv Hin)) as (ch & Hl & Hch & Hmax & Hp).
  erewrite run_ret by apply deref_eq, Hl. destruct (c_sentEOF ch); [by apply refines_same|].
  unfold with_sess. cbn [g_sess g_loop g_threads g_handles].
  rewrite (write_turn_eq l ch) by apply Hl. case_cmp; cbn [snd ok]; [by apply refines_same|].
  cbn [spawn with_threads g_sess g_loop g_threads g_handles].
  eapply (refines_quiet l ch); try done.
  constructor; [|done]. cbn. rewrite Hmax. apply go_min_bounds; [done|apply len_nonneg].
Qed.

Lemma read_call_refines l k :
  refines_as (read_now (ARead l k) (mkConfig s p ts hs)) s ts X f
    (exec (ARead l k) (mkConfig s p ts hs)).2.
Proof using All.
  pose proof (ca_threads _ _ _ Hcalm) as Hts. unfold read_now.
  cbn [exec g_handles g_sess]. case_decide as Hin; [|by apply refines_same].
  destruct (sized_maxp l (handle_sized _ _ _ _ _ _ Hinv Hin)) as (ch & Hl & Hch & Hmax & Hp).
  pose proof (si_chan _ _ _ _ _ Hinv _ _ (proj1 Hl)) as [_ _ (q & Hq & _) _ _].
  destruct (pending_Read_eq l k ch q s (proj1 Hl) Hq) as (b' & Hread & Hq' & _).
  assert (∀ rd ts', (∀ k, reserved k ts' = reserved k ts) → unsent ts' = unsent ts →
    Forall thread_calm ts' →
    (∀ k, k ≠ l → rd k = []) → rd l ++ drop k q = q →
    refines_as rd s ts X f (mkConfig (put_ch l (set_pending b' ch) s) p ts' hs)) as Hgo.
  { intros rd ts' Hr Hu Ht Hrd Hrl. eapply (refines_quiet_as rd l ch); try done.
    - unfold abs_chan. by rewrite Hr.
    - intros q0 Hq0. rewrite (buffer_repr_functional _ _ _ Hq0 Hq). by exists (drop k q). }
  unfold run. cbn [g_sess]. rewrite Hread.
  pose proof (queue_read_split k (b_closed (c_pending ch)) q) as Hsplit.
  destruct (queue_read _ _ _) as [[out err]| | |]; cbn [fst snd ok] in *;
    try (apply Hgo; [done..|by intros; rewrite decide_False|by rewrite decide_True]).
  case_cmp; (apply Hgo; [done|done|done || by constructor|by intros; rewrite decide_False|
    by rewrite decide_True]).
Qed.
End actions.

(** ** The loop *)

(** Data is for its target only. *)
Lemma data_of_other m k k' : target m = Some k → k' ≠ k → data_of k' m = [].
Proof. destruct m; cbn; try done. intros. simplify_eq. by rewrite decide_False. Qed.

Section reading.
Context (n : nat) (s : session) (ts : list thread) (hs : list chan_ptr).
Context (X : side) (m : Message) (f : list Message).
Hypothesis Hinv : sess_inv s n LRun ts hs.
Hypothesis Hn : Z.of_nat n < 2 ^ 32 - 1.
Hypothesis Hcalm : calm s LRun ts.
Hypothesis Hseen : seen s LRun ts X.
Hypothesis Hdec : s_dec s = mkReader (frames (m :: f)) (rd_err (s_dec s)).
Hypothesis Hwf : message_wf m.

(** The session once the frame of [m] was read. *)
Let s1 := set_dec (mkReader (frames f) (rd_err (s_dec s))) s.

Let Hinv1 : sess_inv s1 n LRun ts hs.
Proof. by apply (inv_frame s). Qed.

Let Hcalm1 : calm s1 LRun ts ∧ seen s1 LRun ts X.
Proof. eapply seen_same; try done; apply Hcalm. Qed.

Lemma packet_eq :
  exec_packet (mkConfig s LRun ts hs) =
    match m with
    | OpenMessage sd w mx =>
        run (session_handleOpen_begin sd w mx) (mkConfig s1 LRun ts hs) (λ r c,
          match r with
          | inl err => loop_next err c
          | inr l => ok (with_loop (LAccept l sd) c)
          end)
    | _ => exec_dispatch m (mkConfig s1 LRun ts hs)
    end.
Proof using Hdec Hwf.
  unfold exec_packet. erewrite run_ret by apply decode_eq. cbn [g_sess].
  assert (Decoder_Decode (s_dec s) = (Ok m, mkReader (frames f) (rd_err (s_dec s)))) as ->.
  { rewrite Hdec at 1. cbn [frames fmap list_fmap mjoin list_join]. by apply Decode_Bytes. }
  by destruct m.
Qed.

(** The data of [m] is buffered at the end. *)
Definition received (ch ch' : channel) : Prop :=
  ∀ q, buffer_repr (c_pending ch) q → buffer_repr (c_pending ch') (q ++ data_of (c_localId ch) m).

(** Handling [m] changed one channel as the protocol says. *)
Lemma refines_read l ch ch' :
  live s ts l ch → c_localId ch' = c_localId ch → chan_calm ch' →
  (c_maxRemotePayload ch = maxp → c_maxRemotePayload ch' = maxp) →
  target m = Some (c_localId ch) → received ch ch' →
  pstep X (m :: f) (upd (c_localId ch) (abs_chan ts l ch') X) f [] →
  refines s ts X (m :: f) (mkConfig (put_ch l ch' s1) LRun ts hs).
Proof using Hinv Hcalm Hseen.
  intros Hl Hid Hch Hmax Ht Hrec Hs. exists (upd (c_localId ch) (abs_chan ts l ch') X), f, [], [m].
  split; [by left|].
  destruct (seen_put n s1 LRun ts hs X Hinv1 (proj1 Hcalm1) (proj2 Hcalm1) l ch ch'
    (put_ch l ch' s1) ts) as [Hc Hv]; try done; [apply Hcalm..|].
  split_and!; try done; [cbn; by rewrite emit_nil|].
  apply (streams_put _ _ _ _ _ _ l ch ch'); try done.
  - intros k c Hk Hne. unfold stream_to. cbn. rewrite app_nil_r. apply (data_of_other _ _ _ Ht).
    intros E. destruct (calm_at n s LRun ts hs Hinv l ch Hcalm Hl) as (Hi & _).
    destruct (calm_at n s LRun ts hs Hinv k c Hcalm Hk) as (Hj & _). congruence.
  - intros q Hq. eexists. split; [by apply Hrec|]. unfold stream_to. cbn. by rewrite app_nil_r.
Qed.

(** The channel [m] is for; handling [m] there is the step of the protocol. *)
Lemma dispatch_refines a k :
  target m = Some k → sd X !! k = Some a → ∃ l ch,
    live s ts l ch ∧ c_localId ch = k ∧ chan_calm ch ∧ a = abs_chan ts l ch ∧
    chan_inv (credits l ts) ch ∧ ch_closed (c_msg ch) = false ∧
    ∀ ch', channel_handle l m s1 = (Ret None, put_ch l ch' s1) →
      c_localId ch' = k → chan_calm ch' →
      (c_maxRemotePayload ch = maxp → c_maxRemotePayload ch' = maxp) → received ch ch' →
      pstep X (m :: f) (upd k (abs_chan ts l ch') X) f [] →
      refines s ts X (m :: f) (exec_dispatch m (mkConfig s1 LRun ts hs)).2.
Proof using Hinv Hn Hcalm Hseen.
  intros Ht Ha. rewrite (proj1 Hseen) in Ha.
  destruct (chan_at_some n s LRun ts hs Hinv k a Ha) as (l & ch & Hi & Hl & -> & Hid).
  exists l, ch. destruct (si_table _ _ _ _ _ Hinv _ _ Hi) as (c & Hc & Hidc & Hop).
  rewrite (proj1 Hl) in Hc. injection Hc as <-.
  split_and!; try done; [by apply (chan_calm_of s LRun ts Hcalm l)| |].
  { by apply (si_chan _ _ _ _ _ Hinv), Hl. }
  intros ch' Hh Hid' Hch Hmax Hrec Hs. unfold exec_dispatch. rewrite dispatch_eq. cbn [g_sess].
  change (s_chans s1) with (s_chans s).
  assert ((Message_Channel m).1 = k) as -> by (clear - Ht; destruct m; by simplify_eq/=).
  assert (chanList_getChan k (s_chans s) = Some l) as ->.
  { pose proof (si_small _ _ _ _ _ Hinv).
    destruct (calm_at n s LRun ts hs Hinv l ch Hcalm Hl) as (_ & Hpos & _).
    rewrite getChan_lookup; [by rewrite Hi|unfold chanList_small; cbn; lia|lia]. }
  rewrite Hh. apply (refines_read l ch ch'); try done; congruence.
Qed.
End reading.

(** A channel as a confirmation leaves it. *)
Definition confirmed_channel (i j w : Z) (ch : channel) : channel :=
  set_msg (mkChan [OpenConfirmMessage i j w maxp] chanSize false)
    (set_remoteWin (mkWindow (w_win (c_remoteWin ch) + w) (w_writeWaiters (c_remoteWin ch))
       (w_closed (c_remoteWin ch))) (set_maxRemotePayload maxp (set_remoteId j ch))).

Lemma confirm_handled l i j w ch s credit :
  s_heap s !! l = Some ch → chan_inv credit ch → ch_closed (c_msg ch) = false →
  c_direction ch = channelOutbound → ch_buf (c_msg ch) = [] → is_u32 w →
  w_win (c_remoteWin ch) + w < 2 ^ 32 →
  channel_handle l (OpenConfirmMessage i j w maxp) s = (Ret None, put_ch l (confirmed_channel i j w ch) s).
Proof.
  intros Hl Hci Hop Hd Hb Hw Hle. rewrite (handle_confirm_eq _ _ _ _ _ _ _ Hl).
  rewrite decide_False by congruence. cbv zeta.
  replace (_ || _) with false by by vm_compute.
  rewrite window_add_spec by (apply Hci || done). case_cmp; [|lia].
  rewrite (msg_send_open credit) by done. rewrite Hb. done.
Qed.

(** An unconfirmed channel was opened here and its queue is empty. *)
Lemma unconfirmed ts l ch :
  chan_calm ch → a_peer (abs_chan ts l ch) = None →
  c_maxRemotePayload ch = 0 ∧ c_direction ch = channelOutbound ∧ ch_buf (c_msg ch) = [].
Proof.
  intros (_ & _ & _ & _ & [H|[H _]]) Hp; [done|]. unfold abs_chan in Hp. cbn in Hp.
  by rewrite H in Hp.
Qed.

(** The state offered to [Accept] for the request [OpenMessage i]. *)
Lemma offer_refines n s ts hs X i f :
  sess_inv s n LRun ts hs → Z.of_nat n < 2 ^ 32 - 1 → calm s LRun ts → seen s LRun ts X →
  is_u32 i →
  let s1 := set_dec (mkReader (frames f) (rd_err (s_dec s))) s in
  refines s ts X (OpenMessage i channelWindowSize maxp :: f)
    (run (session_handleOpen_begin i channelWindowSize maxp) (mkConfig s1 LRun ts hs) (λ r c,
       match r with
       | inl err => loop_next err c
       | inr l => ok (with_loop (LAccept l i) c)
       end)).2.
Proof.
  intros Hinv Hn Hcalm Hseen Hi s1.
  erewrite run_ret by by rewrite (handleOpen_begin_eq i channelWindowSize maxp). cbv iota.
  change (packet_size_ok maxp) with true. cbv iota. cbn [snd ok].
  set (l := s_fresh s). set (ch := offered_channel i channelWindowSize maxp).
  set (s' := set_inbox _ _).
  destruct (seen_added n s LRun ts hs X Hinv Hcalm Hseen ch (LAccept l i) s' Hn)
    as (id & Hid & Hu & Habs & Hc' & Hs'); try done.
  { split_and!; try done. right. split; [done|cbn; lia]. }
  { apply Hcalm. }
  { eexists. split; [exact (heap_added ch s)|done]. }
  assert (offered s' (LAccept l i) = Some id) as Hoff.
  { pose proof (heap_added ch s) as Hh. rewrite Hid in Hh. exact (f_equal (fmap c_localId) Hh). }
  rewrite Hoff in Hs'. do 3 eexists. exists [OpenMessage i channelWindowSize maxp].
  split; [left; apply (p_recv_open X f i id); [|done]|].
  { rewrite (proj2 Hseen). done. }
  split_and!; try done; [cbn; by rewrite emit_nil|].
  apply (streams_added _ _ _ ch); try done; [|by eapply inv_heap_fresh].
  pose proof (si_small _ _ _ _ _ Hinv). unfold chanList_small. lia.
Qed.

(** A data message of the size the channel takes is buffered. *)
Lemma data_taken l i k d ch s :
  s_heap s !! l = Some ch → k = len d → is_u32 k → k ≤ c_maxIncomingPayload ch →
  k ≤ c_myWindow ch → c_myWindow ch < 2 ^ 32 →
  channel_handle l (DataMessage i k d) s =
    (Ret None, put_ch l (set_pending (buffer_write d (c_pending ch))
                           (set_myWindow (c_myWindow ch - k) ch)) s).
Proof.
  intros Hl -> Hk Hm Hw Hw'. cbn [channel_handle]. rewrite (handleData_eq l _ d ch s Hl).
  unfold is_u32 in Hk. rewrite !u32_small by (unfold is_u32; lia).
  by rewrite (proj2 (Z.leb_le _ _) Hm), Z.eqb_refl, (proj2 (Z.leb_le _ _) Hw).
Qed.

(** Every message the protocol accepts is handled, and the loop goes on. *)
Lemma packet_refines n s ts hs X m f :
  sess_inv s n LRun ts hs → Z.of_nat n < 2 ^ 32 - 1 → calm s LRun ts → seen s LRun ts X →
  s_dec s = mkReader (frames (m :: f)) (rd_err (s_dec s)) → message_wf m → acceptable X m →
  refines s ts X (m :: f) (exec_packet (mkConfig s LRun ts hs)).2.
Proof.
  intros Hinv Hn Hcalm Hseen Hdec Hwf Hacc. rewrite (packet_eq s ts hs m f Hdec Hwf).
  pose proof (λ a k, dispatch_refines n s ts hs X m f Hinv Hn Hcalm Hseen a k) as Hdis.
  set (s1 := set_dec _ s) in *. cbv zeta in *.
  destruct m as [i w mx|i j w mx|i|i k|i k d|i|i]; cbn in Hacc; try done.
  - destruct Hacc as [-> ->]. destruct Hwf as (Hi & _). by apply (offer_refines n).
  - destruct Hacc as (a & Ha & Hout & Hpeer & -> & Hw & Hle).
    destruct (Hdis a i eq_refl Ha) as (l & ch & Hl & Hid & Hch & -> & Hci & Hop & Hgo).
    destruct (unconfirmed _ _ _ Hch Hpeer) as (Hm & Hd & Hb). destruct Hwf as (_ & Hj & Hwu & _).
    cbn in Hle. unfold channelWindowSize, channelMaxPacket in Hle.
    apply (Hgo (confirmed_channel i j w ch)); try done.
    + eapply confirm_handled; try apply Hl; done || lia.
    + destruct Hch as (? & ? & ? & _). split_and!; try done. by right.
    + intros q Hq. cbn. by rewrite app_nil_r.
    + by apply (p_recv_confirm X f i j w (abs_chan ts l ch)).
  - destruct Hacc as (a & Ha & Hk & Hle).
    destruct (Hdis a i eq_refl Ha) as (l & ch & Hl & Hid & Hch & -> & Hci & Hop & Hgo).
    destruct Hwf as [_ Hku]. cbn in Hle.
    assert (w_win (c_remoteWin ch) + k < 2 ^ 32)
      by (unfold channelWindowSize, channelMaxPacket in Hle; lia).
    eapply Hgo.
    + rewrite (handle_adjust_eq l i k ch s1 (proj1 Hl)) by (done || apply Hci). cbv zeta. by cmp_true.
    + done.
    + apply chan_calm_window; [done|apply Hch].
    + done.
    + intros q' Hq'. cbn. by rewrite app_nil_r.
    + by apply (p_recv_adjust X f i k (abs_chan ts l ch)).
  - destruct Hacc as (a & Ha & Hk & Hmx & Hle).
    destruct (Hdis a i eq_refl Ha) as (l & ch & Hl & Hid & Hch & -> & Hci & Hop & Hgo).
    destruct Hwf as (_ & Hku & _). cbn in Hle.
    destruct (ci_flow _ _ Hci) as (q & _ & Hw0 & Hw1).
    pose proof (credits_nonneg l ts). pose proof (len_nonneg q).
    eapply Hgo; [apply data_taken; try done; try apply Hl| | | | |]; try done.
    + by replace (c_maxIncomingPayload ch) with maxp by (symmetry; apply Hch).
    + unfold channelWindowSize, channelMaxPacket in *. lia.
    + intros q' Hq'. cbn. rewrite decide_True by done. by apply buffer_write_repr.
    + by apply (p_recv_data X f i k d (abs_chan ts l ch)).
  - destruct Hacc as (a & Ha).
    destruct (Hdis a i eq_refl Ha) as (l & ch & Hl & Hid & Hch & -> & Hci & Hop & Hgo).
    eapply Hgo; [by apply (handle_eof_eq l i ch s1 (proj1 Hl))| | | | |]; try done.
    { intros q Hq. cbn. rewrite app_nil_r. by apply buffer_eof_repr. }
    rewrite upd_id by done. by eapply p_recv_eof.
Qed.

(** ** Every action *)

(** The actions of a session nobody closes and whose offers no timer withdraws. *)
Definition polite (a : action) : Prop :=
  match a with AClose _ | ASessionClose | ATimeout => False | _ => True end.

(** The confirmation of an accepted channel. *)
Lemma confirm_refines n s ts hs X l sender f :
  sess_inv s n (LConfirm l sender) ts hs → Z.of_nat n < 2 ^ 32 - 1 →
  calm s (LConfirm l sender) ts → seen s (LConfirm l sender) ts X → s_dec s = mkReader (frames f) (rd_err (s_dec s)) →
  refines s ts X f (run (session_handleOpen_end l sender true)
    (mkConfig s (LConfirm l sender) ts hs) loop_next).2.
Proof.
  intros Hinv Hn Hcalm Hseen Hdec. destruct (ca_loop _ _ _ Hcalm) as (ch & Hl & Hmax).
  destruct (offered_known n s _ ts hs X Hinv Hcalm Hseen l sender) as (c & Hlive); [by right|].
  assert (c = ch) as -> by (destruct Hlive; congruence).
  destruct (ca_chan _ _ _ Hcalm l ch Hlive) as [_ Hch].
  pose proof (calm_at n s _ ts hs Hinv l ch Hcalm Hlive) as (Hslot & Hpos & Hat).
  erewrite run_ret by by apply handleOpen_end_eq. cbn [g_sess]. cbv zeta iota.
  rewrite Encode_ok by (unfold writer_ok; by rewrite (ca_writer _ _ _ Hcalm)). cbn [fst snd loop_next ok].
  set (m := OpenConfirmMessage _ _ _ _).
  apply (refines_intro _ _ _ _ _ _ (mkSide (sd X) None) [m]); try done.
  - left. unfold m. replace (c_maxIncomingPayload ch) with maxp by (symmetry; apply Hch).
    apply (p_confirm X f _ (abs_chan ts l ch)).
    + rewrite (proj2 Hseen). cbn. by rewrite Hl.
    + by rewrite (proj1 Hseen).
    + unfold abs_chan. cbn. by rewrite Hmax.
  - destruct (seen_same s (LConfirm l sender) ts X Hcalm Hseen (set_enc (emit [m] (s_enc s)) s) ts)
      as [Hc Hv]; try done; [by apply emit_script, Hcalm|apply Hcalm|].
    by apply (seen_loop _ (LConfirm l sender)).
  - constructor; [|done]. destruct (si_chan _ _ _ _ _ Hinv _ _ Hl) as [_ _ (q & _ & Hw0 & Hw1) _ _].
    pose proof (credits_nonneg l ts). pose proof (len_nonneg q).
    pose proof (si_small _ _ _ _ _ Hinv). apply lookup_lt_Some in Hslot.
    unfold m. cbn. destruct Hch as (-> & _ & _ & Hr & _).
    unfold is_u32, len, channelWindowSize, channelMaxPacket in *. lia.
  - by apply streams_same.
Qed.

Lemma exec_refines n c X f a :
  sys_inv n c → Z.of_nat n < 2 ^ 32 - 1 → calm (g_sess c) (g_loop c) (g_threads c) →
  seen (g_sess c) (g_loop c) (g_threads c) X →
  s_dec (g_sess c) = mkReader (frames f) (rd_err (s_dec (g_sess c))) → Forall message_wf f →
  polite a → (∀ m f', f = m :: f' → acceptable X m) →
  (a = ALoop → g_loop c = LRun → f ≠ []) →
  refines_as (read_now a c) (g_sess c) (g_threads c) X f (exec a c).2.
Proof.
  destruct c as [s p ts hs]. unfold sys_inv. cbn [g_sess g_loop g_threads g_handles].
  intros Hinv Hn Hcalm Hseen Hdec Hwf Hpol Hacc Hne. destruct a; try done.
  - pose proof (ca_loop _ _ _ Hcalm) as Hlp. destruct p as [|l sd|l sd| | | |]; try done.
    + destruct f as [|m f]; [by destruct (Hne eq_refl eq_refl)|].
      apply Forall_cons in Hwf as [Hm Hwf]. apply (packet_refines n); try done. by apply (Hacc m f).
    + apply (refines_same n s _ ts hs); try done. apply Hcalm.
    + by apply (confirm_refines n).
  - by apply (open_call_refines n).
  - by apply (accept_call_refines n).
  - by apply (closewrite_refines n).
  - by apply (write_call_refines n).
  - by apply (read_call_refines n).
  - by apply (thread_refines n).
Qed.
