(* ===== verification/Link.v ===== *)
(** * Two sessions over one transport

    The sessions of System.v at the two ends of a connection: what one side
    encodes is what the other side decodes, in order and complete; a frame that
    is still on its way is one the receiving loop has not read yet. As long as
    nobody closes and no offer times out, every execution is one of the
    abstract protocol, so neither loop ever fails, window, reservations, bytes
    in flight and buffered bytes of every channel always add up, and what is read
    from a channel is what was sent on it. *)
From S2P Require Import Prelude GoRuntime Frame Buffer Window ChanList.
From S2P Require Import MuxState Channel ChannelSpec Session SessionSpec System.
From S2P Require Import SystemInv SystemSafe Protocol Refine.

(** ** The pair of sessions *)

(** The two sessions, and what users have read from each of their channels. *)
Record link := mkLink {
  lk_a : config;
  lk_b : config;
  lk_read_a : chan_ptr → list byte;
  lk_read_b : chan_ptr → list byte;
}.

Definition swap_link (L : link) : link :=
  mkLink (lk_b L) (lk_a L) (lk_read_b L) (lk_read_a L).

(** What the step from [c] to [c'] wrote to the transport. *)
Definition written (c c' : config) : list byte :=
  mjoin (drop (length (w_out (s_enc (g_sess c)))) (w_out (s_enc (g_sess c')))).

(** More bytes for the decoder of a side. *)
Definition deliver (bs : list byte) (c : config) : config :=
  with_sess (set_dec (mkReader (rd_data (s_dec (g_sess c)) ++ bs) (rd_err (s_dec (g_sess c))))
               (g_sess c)) c.

(** The loop's [Decode] waits while nothing has arrived. *)
Definition waits_for_data (a : action) (c : config) : bool :=
  match a, g_loop c, rd_data (s_dec (g_sess c)) with
  | ALoop, LRun, [] => true
  | _, _, _ => false
  end.

Definition read_more (a : action) (c : config) (log : chan_ptr → list byte) : chan_ptr → list byte :=
  λ l, log l ++ read_now a c l.

(** One side runs an action. *)
Definition link_exec (at_a : bool) (a : action) (L : link) : outcome unit * link :=
  if at_a then
    let '(o, A) := exec a (lk_a L) in
    (o, mkLink A (deliver (written (lk_a L) A) (lk_b L))
          (read_more a (lk_a L) (lk_read_a L)) (lk_read_b L))
  else
    let '(o, B) := exec a (lk_b L) in
    (o, mkLink (deliver (written (lk_b L) B) (lk_a L)) B
          (lk_read_a L) (read_more a (lk_b L) (lk_read_b L))).

(** A step of a pair that nobody closes. *)
Definition link_step (L L' : link) : Prop :=
  ∃ at_a a o, polite a ∧ waits_for_data a (if at_a : bool then lk_a L else lk_b L) = false ∧
    link_exec at_a a L = (o, L') ∧ (o = Ret tt ∨ o = Block).

Definition link_init (ea eb : error) : link :=
  mkLink (initial (mkWriter [] []) (mkReader [] ea)) (initial (mkWriter [] []) (mkReader [] eb))
    no_read no_read.

Inductive link_reach : nat → link → Prop :=
| lr_init ea eb : link_reach 0 (link_init ea eb)
| lr_step n L L' : link_reach n L → link_step L L' → link_reach (S n) L'.

(** ** The pair and the protocol *)

(** The side [c] is [X], has [f] yet to read, and is calm. *)
Record side_ok (n : nat) (c : config) (X : side) (f : list Message) : Prop := {
  so_inv : sys_inv n c;
  so_calm : calm (g_sess c) (g_loop c) (g_threads c);
  so_seen : seen (g_sess c) (g_loop c) (g_threads c) X;
  so_data : rd_data (s_dec (g_sess c)) = frames f;
  so_wf : Forall message_wf f;
}.

(** [log] was read from the channels of [c], which has handled [dn] so far. *)
Record side_log (c : config) (X : side) (log : chan_ptr → list byte) (dn : list Message) : Prop := {
  sl_read : ∀ l ch q, live (g_sess c) (g_threads c) l ch → buffer_repr (c_pending ch) q →
    log l ++ q = stream_to (c_localId ch) dn;
  sl_fresh : ∀ k, sd X !! k = None → stream_to k dn = [];
  sl_none : ∀ l, (∀ ch, ¬ live (g_sess c) (g_threads c) l ch) → log l = [];
}.

(** The frames [c] wrote so far: those the peer handled, and those in flight. *)
Definition sent_all (c : config) (ms : list Message) : Prop :=
  w_out (s_enc (g_sess c)) = Message_Bytes <$> ms.

Definition link_net (n : nat) (L : link) (N : net) : Prop :=
  side_ok n (lk_a L) (n_x N) (n_yx N) ∧ side_ok n (lk_b L) (n_y N) (n_xy N) ∧
  ∃ dn_a dn_b,
    side_log (lk_a L) (n_x N) (lk_read_a L) dn_a ∧ side_log (lk_b L) (n_y N) (lk_read_b L) dn_b ∧
    sent_all (lk_a L) (dn_b ++ n_xy N) ∧ sent_all (lk_b L) (dn_a ++ n_yx N).

(** More frames arrive. *)
Lemma side_ok_deliver n c X f out :
  side_ok n c X f → Forall message_wf out → side_ok (S n) (deliver (frames out) c) X (f ++ out).
Proof.
  intros [Hinv Hcalm Hseen Hdata Hwf] Hout. destruct c as [s p ts hs]. split.
  - eapply inv_mono; [by apply (inv_frame s)|lia].
  - eapply (seen_same s _ ts); done || apply Hcalm.
  - eapply (seen_same s _ ts); done || apply Hcalm.
  - cbn in *. by rewrite Hdata, frames_app.
  - by apply Forall_app.
Qed.

Lemma written_emit c c' out :
  s_enc (g_sess c') = emit out (s_enc (g_sess c)) → written c c' = frames out.
Proof. intros H. unfold written. rewrite H. cbn. by rewrite drop_app_length. Qed.

(** A side that reads only what the protocol accepts reads no close frame. *)
Lemma side_not_early n c X f a :
  side_ok n c X f → (∀ m f', f = m :: f' → acceptable X m) → early a c = false.
Proof.
  intros [_ _ _ Hdata Hwf] Hacc. unfold early. destruct a, (g_loop c); try done.
  destruct (s_dec (g_sess c)) as [d e]. cbn in Hdata. subst d. destruct f as [|m f].
  { assert (∃ e' r', io_ReadFull 1 (mkReader [] e) = (Err e', r')) as (e' & r' & He)
      by (unfold io_ReadFull; cbn; eauto).
    unfold Decoder_Decode. cbn. rewrite He. by destruct (errors_As_SyscallError e') as [[]|]. }
  apply Forall_cons in Hwf as [Hm _]. cbn [frames fmap list_fmap mjoin list_join].
  rewrite Decode_Bytes by done. cbn [fst]. pose proof (Hacc m f eq_refl) as Ha. by destruct m.
Qed.

(** One side steps: it follows the protocol. *)
Lemma side_step n c X f a o c' :
  side_ok n c X f → Z.of_nat n < 2 ^ 32 - 1 → polite a → waits_for_data a c = false →
  (∀ m f', f = m :: f' → acceptable X m) → exec a c = (o, c') →
  ∃ X' f' out ms, (pstep X f X' f' out ∨ X' = X ∧ f' = f ∧ out = []) ∧
    side_ok (S n) c' X' f' ∧ s_enc (g_sess c') = emit out (s_enc (g_sess c)) ∧
    Forall message_wf out ∧ f = ms ++ f' ∧
    streams (g_sess c) (g_sess c') (g_threads c) (g_threads c') (read_now a c) ms.
Proof.
  intros Hok Hn Hpol Hwait Hacc He. pose proof (side_not_early n c X f a Hok Hacc) as Hearly.
  destruct Hok as [Hinv Hcalm Hseen Hdata Hwf].
  destruct (exec_safe n c a Hinv Hn Hearly) as [_ Hinv']. rewrite He in Hinv'.
  destruct (exec_refines n c X f a)
    as (X' & f' & out & ms & Hs & Hc & Hv & Hd & Henc & Hout & Hf & Hst); try done.
  - rewrite <- Hdata. by destruct (s_dec (g_sess c)).
  - intros -> Hl ->. unfold waits_for_data in Hwait. by rewrite Hl, Hdata in Hwait.
  - rewrite He in *. cbn [snd] in *. exists X', f', out, ms. split_and!; try done.
    split; try done; [by rewrite Hd|]. rewrite Hf in Hwf. by apply Forall_app in Hwf as [_ ?].
Qed.

(** Data is handled only for channels that exist. *)
Lemma pstep_stream X f X' f' out ms k :
  pstep X f X' f' out ∨ X' = X ∧ f' = f ∧ out = [] → f = ms ++ f' → sd X !! k = None →
  stream_to k ms = [].
Proof.
  intros Hs Hf Hk.
  assert (f = f' ∨ ∃ m, f = m :: f' ∧ data_of k m = []) as [E|(m & E & Hm)].
  { destruct Hs as [Hs|(_ & -> & _)]; [|by left]. destruct Hs; (by left) || right; eexists;
      (split; [reflexivity|]); try done. cbn. rewrite decide_False; [done|]. congruence. }
  - subst f'. destruct ms; [done|]. apply (f_equal length) in Hf. rewrite length_app in Hf.
    cbn in Hf. lia.
  - rewrite E in Hf. destruct ms as [|m' ms].
    + apply (f_equal length) in Hf. cbn in Hf. lia.
    + injection Hf as <- Hf. destruct ms as [|m' ms].
      * unfold stream_to. cbn. by rewrite Hm.
      * apply (f_equal length) in Hf. rewrite length_app in Hf. cbn in Hf. lia.
Qed.

Lemma live_dec s ts l : (∃ ch, live s ts l ch) ∨ (∀ ch, ¬ live s ts l ch).
Proof.
  destruct (s_heap s !! l) as [ch|] eqn:E; [|by right; intros ch [? _]; congruence].
  destruct (decide (l ∈ unsent ts)); [by right; intros c [_ ?]|by left; exists ch].
Qed.

(** The log of a side that steps. *)
Lemma side_log_step n c X f a c' X' f' out ms log dn :
  side_ok n c X f → side_ok (S n) c' X' f' → side_log c X log dn →
  (pstep X f X' f' out ∨ X' = X ∧ f' = f ∧ out = []) → f = ms ++ f' →
  streams (g_sess c) (g_sess c') (g_threads c) (g_threads c') (read_now a c) ms →
  side_log c' X' (read_more a c log) (dn ++ ms).
Proof.
  intros Hok Hok' [Hread Hfresh Hnone] Hs Hf [Hold Hnew].
  pose proof (so_seen _ _ _ _ Hok) as [Hseen _]. pose proof (so_seen _ _ _ _ Hok') as [Hseen' _].
  assert (∀ k, sd X !! k = None → stream_to k (dn ++ ms) = []) as Hgone.
  { intros k Hk. rewrite stream_to_app, Hfresh by done. by eapply pstep_stream. }
  assert (∀ l ch, live (g_sess c) (g_threads c) l ch → ∃ q, buffer_repr (c_pending ch) q) as Hq.
  { intros l ch [Hl _]. destruct (ci_flow _ _ (si_chan _ _ _ _ _ (so_inv _ _ _ _ Hok) l ch Hl)) as (q & ? & _).
    by exists q. }
  split.
  - intros l ch' q' Hl' Hq'. unfold read_more. rewrite <- app_assoc.
    destruct (live_dec (g_sess c) (g_threads c) l) as [[ch Hl]|Hl].
    + destruct (Hq l ch Hl) as [q Hqq]. destruct (Hold l ch q Hl Hqq) as (ch'' & q'' & Hl'' & Hid & Hr & E).
      destruct Hl' as [Hl' _], Hl'' as [Hl'' _]. rewrite Hl' in Hl''. injection Hl'' as <-.
      rewrite (buffer_repr_functional _ _ _ Hq' Hr), E, app_assoc, (Hread l ch q Hl Hqq), Hid.
      by rewrite stream_to_app.
    + destruct (Hnew l ch' Hl Hl') as (Hp & -> & _ & Hslot). rewrite Hp in Hq'.
      rewrite (Hnone l Hl), (buffer_repr_functional _ _ _ Hq' newBuffer_repr). symmetry. apply Hgone.
      by rewrite Hseen.
  - intros k Hk. apply Hgone. destruct (sd X !! k) as [a0|] eqn:E; [|done].
    rewrite Hseen in E. destruct (chan_at_some n _ _ _ _ (so_inv _ _ _ _ Hok) k a0 E) as (l & ch & _ & Hl & _ & Hid).
    destruct (Hq l ch Hl) as [q Hqq]. destruct (Hold l ch q Hl Hqq) as (ch' & _ & Hl' & Hid' & _).
    destruct (calm_at (S n) _ _ _ _ (so_inv _ _ _ _ Hok') l ch' (so_calm _ _ _ _ Hok') Hl') as (_ & _ & Hat).
    rewrite <- Hseen', Hid', Hid in Hat. congruence.
  - intros l Hl. unfold read_more. assert (∀ ch, ¬ live (g_sess c) (g_threads c) l ch) as Hl0.
    { intros ch Hc. destruct (Hq l ch Hc) as [q Hqq].
      destruct (Hold l ch q Hc Hqq) as (ch' & _ & Hl' & _). by apply (Hl ch'). }
    rewrite (Hnone l Hl0). unfold read_now. destruct a; try done.
    case_decide as Hin; [|done]. case_decide as Hd; [|done]. subst l0.
    destruct (sized_maxp (g_sess c) (g_loop c) (g_threads c) (so_calm _ _ _ _ Hok) l) as (ch & Hc & _).
    { apply (handle_sized _ _ _ _ _ _ (so_inv _ _ _ _ Hok) Hin). }
    by destruct (Hl0 ch).
Qed.

Lemma side_log_deliver c X log dn bs : side_log c X log dn → side_log (deliver bs c) X log dn.
Proof. by intros []. Qed.

Lemma link_net_swap n L N : link_net n L N → link_net n (swap_link L) (swap N).
Proof. intros (HA & HB & dn_a & dn_b & H1 & H2 & H3 & H4). split_and!; try done. by exists dn_b, dn_a. Qed.

Lemma nstep_swap N N' : nstep N N' → nstep (swap N) (swap N').
Proof. by intros []; constructor. Qed.

Lemma link_step_left n A B ra rb N a o A' :
  link_net n (mkLink A B ra rb) N → net_inv N → Z.of_nat n < 2 ^ 32 - 1 → polite a →
  waits_for_data a A = false → exec a A = (o, A') →
  ∃ N', rtc nstep N N' ∧
    link_net (S n) (mkLink A' (deliver (written A A') B) (read_more a A ra) rb) N'.
Proof.
  destruct N as [X Y fxy fyx]. intros (HA & HB & dn_a & dn_b & L1 & L2 & S1 & S2) Hinv Hn Hpol Hwait He.
  destruct (side_step n A X fyx a o A' HA Hn Hpol Hwait)
    as (X' & f' & out & ms & Hs & HA' & Henc & Hout & Hf & Hst);
    [by intros m f' ->; eapply (inv_acceptable (mkNet X Y fxy (m :: f')))|done|].
  rewrite (written_emit _ _ _ Henc).
  exists (mkNet X' Y (fxy ++ out) f'). split.
  { destruct Hs as [Hs|(-> & -> & ->)]; [by apply rtc_once; constructor|by rewrite app_nil_r]. }
  split; [done|]. split; [by apply side_ok_deliver|].
  exists (dn_a ++ ms), dn_b. cbn in *. split_and!.
  - by eapply side_log_step.
  - by apply side_log_deliver.
  - unfold sent_all in *. rewrite Henc. cbn. by rewrite S1, app_assoc, <- fmap_app.
  - unfold sent_all in *. cbn. rewrite S2, Hf. by rewrite app_assoc.
Qed.

Lemma rtc_nstep_swap N N' : rtc nstep N N' → rtc nstep (swap N) (swap N').
Proof. induction 1 as [|N N1 N2 H _ IH]; [done|]. eapply rtc_l; [by apply nstep_swap|done]. Qed.

Lemma link_net_step n L L' N :
  link_net n L N → net_inv N → Z.of_nat n < 2 ^ 32 - 1 → link_step L L' →
  ∃ N', rtc nstep N N' ∧ link_net (S n) L' N'.
Proof.
  intros Hl Hinv Hn (at_a & a & o & Hpol & Hwait & He & _). destruct L as [A B ra rb].
  unfold link_exec in He. destruct at_a; cbn [lk_a lk_b] in *.
  - destruct (exec a A) as [o' A'] eqn:E. simplify_eq. by eapply link_step_left.
  - destruct (exec a B) as [o' B'] eqn:E. simplify_eq.
    destruct (link_step_left n B A rb ra (swap N) a o B') as (N' & Hs & Hl'); try done.
    + by apply (link_net_swap n (mkLink A B ra rb)).
    + by apply net_inv_swap.
    + exists (swap N'). split; [|by apply (link_net_swap _ (mkLink B' _ _ _))].
      apply rtc_nstep_swap in Hs. by destruct N.
Qed.

Lemma side_ok_initial e : side_ok 0 (initial (mkWriter [] []) (mkReader [] e)) (mkSide ∅ None) [].
Proof.
  split; try done; [apply initial_inv|by split; try done; intros l ch [? _]|]. split; [|done]. intros k. unfold chan_at. by case_cmp.
Qed.

Lemma link_reach_net n L :
  link_reach n L → Z.of_nat n < 2 ^ 32 - 1 → ∃ N, rtc nstep net_init N ∧ link_net n L N.
Proof.
  induction 1 as [ea eb|n L L' Hr IH Hs]; intros Hn.
  - exists net_init. split; [done|]. split; [apply side_ok_initial|].
    split; [apply side_ok_initial|]. exists [], []. split_and!; try done; split; try done;
      by intros l ch q [? _].
  - destruct IH as (N & HN & Hl); [lia|].
    destruct (link_net_step n L L' N Hl (inv_steps N HN) ltac:(lia) Hs) as (N' & HN' & Hl').
    exists N'. split; [by etrans|done].
Qed.

(** ** Properties *)

(** C8. Two sessions joined by a transport follow the abstract channel protocol:
    whatever the interleaving of their loops and of the calls of their users, the
    channels in the two tables with their windows, and the frames in flight, are
    a state the protocol reaches, as long as nobody closes and no offered channel
    times out. *)
Theorem link_refines_protocol n L :
  link_reach n L → Z.of_nat n < 2 ^ 32 - 1 → ∃ N, rtc nstep net_init N ∧
    seen (g_sess (lk_a L)) (g_loop (lk_a L)) (g_threads (lk_a L)) (n_x N) ∧
    seen (g_sess (lk_b L)) (g_loop (lk_b L)) (g_threads (lk_b L)) (n_y N) ∧
    rd_data (s_dec (g_sess (lk_b L))) = frames (n_xy N) ∧
    rd_data (s_dec (g_sess (lk_a L))) = frames (n_yx N).
Proof.
  intros Hr Hn. destruct (link_reach_net n L Hr Hn) as (N & HN & [] & [] & _). by exists N.
Qed.

(** The loop has not failed. *)
Definition running (p : loop_pc) : Prop :=
  match p with LRun | LAccept _ _ | LConfirm _ _ => True | _ => False end.

Lemma side_running n c X f : side_ok n c X f → running (g_loop c).
Proof. intros []. pose proof (ca_loop _ _ _ so_calm0). by destruct (g_loop c). Qed.

(** C1. Two sessions never break each other: as long as no user closes a channel
    or the session and no offered channel times out, both loops go on reading for
    ever, no matter what is written, how much, and in which order the goroutines
    run. No frame a session writes is ever refused by its peer - not for its
    channel, its length, the window or the packet size - and nothing panics. *)
Theorem link_never_fails n L :
  link_reach n L → Z.of_nat n < 2 ^ 32 - 1 →
  running (g_loop (lk_a L)) ∧ running (g_loop (lk_b L)) ∧
  ∀ at_a a, (link_exec at_a a L).1 = Ret tt ∨ (link_exec at_a a L).1 = Block.
Proof.
  intros Hr Hn. destruct (link_reach_net n L Hr Hn) as (N & HN & HA & HB & _).
  split_and!; [by eapply side_running..|]. intros at_a a. unfold link_exec.
  destruct N as [X Y fxy fyx]. pose proof (inv_steps _ HN) as Hinv. cbn [n_x n_y n_xy n_yx] in *.
  assert (early a (lk_a L) = false) as Ea.
  { apply (side_not_early _ _ _ _ _ HA). intros m f' ->.
    by eapply (inv_acceptable (mkNet X Y fxy (m :: f'))). }
  assert (early a (lk_b L) = false) as Eb.
  { apply (side_not_early _ _ _ _ _ HB). intros m f' ->.
    apply net_inv_swap in Hinv.
    by eapply (inv_acceptable (mkNet Y X fyx (m :: f'))). }
  pose proof (exec_safe n (lk_a L) a (so_inv _ _ _ _ HA) Hn Ea) as [Ha _].
  pose proof (exec_safe n (lk_b L) a (so_inv _ _ _ _ HB) Hn Eb) as [Hb _].
  destruct at_a; [destruct (exec a (lk_a L))|destruct (exec a (lk_b L))]; done.
Qed.

(** The conservation law of a pair of channels, seen from the writer. *)
Definition window_adds_up (A B : config) (l : chan_ptr) (ch : channel) : Prop :=
  ∃ l' ch' q fab fba,
    s_chans (g_sess B) !! Z.to_nat (c_remoteId ch) = Some (Some l') ∧
    s_heap (g_sess B) !! l' = Some ch' ∧ c_direction ch' ≠ c_direction ch ∧
    buffer_repr (c_pending ch') q ∧
    rd_data (s_dec (g_sess B)) = frames fab ∧ rd_data (s_dec (g_sess A)) = frames fba ∧
    w_win (c_remoteWin ch) + reserved l (g_threads A)
      + msum w_data (to_ (c_remoteId ch) fab) + len q + credits l' (g_threads B)
      + msum w_adj (to_ (c_localId ch) fba) = channelWindowSize.

Lemma no_confirms f : msum n_conf f = 0 → msum w_conf f = 0.
Proof.
  induction f as [|m f IH]; [done|]. rewrite !msum_cons. pose proof (n_conf_nonneg f).
  destruct m; cbn; intros; try (rewrite IH; lia).
Qed.

(** The sum over the protocol's state. *)
Lemma net_window X Y σ τ fxy fyx k c p :
  half X Y σ fxy fyx → half Y X τ fyx fxy → sd X !! k = Some c → a_peer c = Some p →
  ∃ cy, sd Y !! p = Some cy ∧ a_out cy = negb (a_out c) ∧
    a_win c + a_resv c + msum w_data (to_ p fxy) + msum w_adj (to_ k fyx) = a_mine cy.
Proof.
  intros H1 H2 Hk Hp. destruct (a_out c) eqn:Ho.
  - destruct (half_peer X Y σ fxy fyx H1 k c p Hk Ho Hp) as [Hs _].
    destruct (half_linked X Y σ fxy fyx H1 k p Hs) as (cx & cy & Hx & _ & Hy & _ & Hl).
    rewrite Hk in Hx. simplify_eq. exists cy.
    destruct Hl as [Hin _ [(? & _)|(_ & Hc & Hg)] Hxy _ _ _ _]; [congruence|].
    rewrite Hg, (no_confirms _ Hc) in Hxy. split_and!; [done..|]. cbv iota in Hxy. lia.
  - destruct (half_in Y X τ fyx fxy H2 k c Hk Ho) as (i & cx & Hp' & _ & Hx & Hox & Hl).
    rewrite Hp in Hp'. simplify_eq. exists cx. destruct Hl as [_ _ _ _ Hyx _ _ _].
    split_and!; [done..|]. lia.
Qed.

Lemma abs_peer ts l ch p : a_peer (abs_chan ts l ch) = Some p → p = c_remoteId ch.
Proof. unfold abs_chan. cbn. by destruct (_ =? _); intros; simplify_eq. Qed.

Lemma window_left n A B ra rb N l ch :
  link_net n (mkLink A B ra rb) N → net_inv N → s_heap (g_sess A) !! l = Some ch →
  c_maxRemotePayload ch ≠ 0 → window_adds_up A B l ch.
Proof.
  destruct N as [X Y fxy fyx]. intros (HA & HB & _) (σ & τ & H1 & H2) Hl Hm.
  destruct HA as [IA CA [SA _] DA _], HB as [IB CB [SB _] DB _]. cbn in *.
  assert (live (g_sess A) (g_threads A) l ch) as Hlive.
  { split; [done|]. intros Hu. destruct (ca_unsent _ _ _ CA l ch Hl Hu) as (_ & id & ->). done. }
  destruct (calm_at n _ _ _ _ IA l ch CA Hlive) as (_ & _ & Hat). rewrite <- SA in Hat.
  destruct (net_window X Y σ τ fxy fyx (c_localId ch) _ (c_remoteId ch) H1 H2 Hat)
    as (cy & Hy & Ho & Hsum).
  { unfold abs_chan. cbn. case_cmp; done. }
  rewrite SB in Hy. destruct (chan_at_some n _ _ _ _ IB _ _ Hy) as (l' & ch' & Hi & [Hl' _] & -> & _).
  destruct (ci_flow _ _ (si_chan _ _ _ _ _ IB l' ch' Hl')) as (q & Hq & _ & Hw).
  exists l', ch', q, fxy, fyx. split_and!; try done.
  - unfold abs_chan in Ho. cbn in Ho. intros E. rewrite E in Ho.
    by destruct (bool_decide (c_direction ch = channelOutbound)).
  - unfold abs_chan in Hsum. cbn in Hsum. lia.
Qed.

(** C6. Credit is never lost or made up between two sessions: for every channel
    ready to write, in either direction, the window left, the bytes reserved by
    writers, the bytes in flight, the bytes buffered at the peer, the bytes its
    readers took but have not credited, and the credit in flight back add up to
    the channel's initial window, as long as nobody closes and no offered channel
    times out. *)
Theorem link_window_conservation n L l ch :
  link_reach n L → Z.of_nat n < 2 ^ 32 - 1 → c_maxRemotePayload ch ≠ 0 →
  (s_heap (g_sess (lk_a L)) !! l = Some ch → window_adds_up (lk_a L) (lk_b L) l ch) ∧
  (s_heap (g_sess (lk_b L)) !! l = Some ch → window_adds_up (lk_b L) (lk_a L) l ch).
Proof.
  intros Hr Hn Hm. destruct (link_reach_net n L Hr Hn) as (N & HN & Hl).
  pose proof (inv_steps N HN) as Hinv. split; intros Hh.
  - destruct L. by eapply window_left.
  - eapply window_left; [|by apply net_inv_swap|done..].
    by apply (link_net_swap n L).
Qed.

(** What the users of [B] read, what its buffers hold and what is in flight to it
    is what [A] sent, channel by channel; the channels [B] has not announced to
    [A] yet are left out. *)
Definition stream_in_order (A B : config) (read : chan_ptr → list byte) : Prop :=
  ∃ sent fab, w_out (s_enc (g_sess A)) = Message_Bytes <$> sent ∧ fab `suffix_of` sent ∧
    rd_data (s_dec (g_sess B)) = frames fab ∧
    ∀ l ch q, live (g_sess B) (g_threads B) l ch → buffer_repr (c_pending ch) q →
      read l ++ q ++ stream_to (c_localId ch) fab = stream_to (c_localId ch) sent.

Lemma stream_left n A B ra rb N :
  link_net n (mkLink A B ra rb) N → stream_in_order A B rb.
Proof.
  destruct N as [X Y fxy fyx]. intros (_ & HB & dn_a & dn_b & _ & [Hr _ _] & S1 & _). cbn in *.
  exists (dn_b ++ fxy), fxy. split_and!; [exact S1|by exists dn_b|apply HB|].
  intros l ch q Hl Hq. rewrite stream_to_app, app_assoc. by rewrite (Hr l ch q Hl Hq).
Qed.

(** C7. Channels are byte streams from end to end, as long as no user closes a
    channel or the session and no offered channel times out: on every channel
    whose opening the peer was told of, in both directions, the bytes the users
    of one side have read so far, then the bytes buffered there, then the data in
    flight, are exactly the data the other side sent on the channel, in order;
    nothing is lost, duplicated, reordered or delivered to another channel,
    however the channels' frames interleave. *)
Theorem link_streams_in_order n L :
  link_reach n L → Z.of_nat n < 2 ^ 32 - 1 →
  stream_in_order (lk_a L) (lk_b L) (lk_read_b L) ∧
  stream_in_order (lk_b L) (lk_a L) (lk_read_a L).
Proof.
  intros Hr Hn. destruct (link_reach_net n L Hr Hn) as (N & HN & Hl). split.
  - destruct L. by eapply stream_left.
  - eapply (stream_left n _ _ (lk_read_b L)). by apply (link_net_swap n L).
Qed.

(** ** A session of two *)

#[global] Instance polite_dec a : Decision (polite a).
Proof. destruct a; cbn; apply _. Defined.

(** Actions of the left and the right side, one after the other. *)
Fixpoint link_run (acts : list (bool * action)) (L : link) : option link :=
  match acts with
  | [] => Some L
  | (at_a, a) :: acts =>
      if bool_decide (polite a) && negb (waits_for_data a (if at_a : bool then lk_a L else lk_b L))
      then match link_exec at_a a L with
           | (Ret _, L') | (Block, L') => link_run acts L'
           | _ => None
           end
      else None
  end.

Lemma link_run_reach acts n L L' :
  link_reach n L → link_run acts L = Some L' → link_reach (n + length acts) L'.
Proof.
  revert n L. induction acts as [|[at_a a] acts IH]; intros n L Hr Hs; cbn in Hs.
  - simplify_eq. by rewrite Nat.add_0_r.
  - destruct (bool_decide (polite a)) eqn:Hp; [|done]. apply bool_decide_eq_true in Hp.
    destruct (waits_for_data _ _) eqn:Hw; [done|]. cbn [andb negb] in Hs.
    destruct (link_exec at_a a L) as [o L1] eqn:E. cbn [length]. rewrite Nat.add_succ_r.
    apply (IH (S n) L1); [|by destruct o]. eapply lr_step; [done|]. exists at_a, a, o.
    split_and!; try done. destruct o as [[]| | |]; auto; done.
Qed.

(** The left side opens a channel, the right side accepts it; five bytes are
    written, the right side reads two of them and credits the window; a third
    frame is still on its way. *)
Definition demo_link_acts : list (bool * action) :=
  [(true, AOpen); (true, AThread 0 None); (true, AThread 0 None); (false, ALoop); (false, AAccept true); (false, ALoop); (true, ALoop);
   (true, AThread 0 None); (true, AWrite 0 [x01; x02; x03; x04; x05]); (true, AThread 0 None);
   (true, AThread 0 None); (false, ALoop); (false, ARead 0 2); (false, AThread 0 None);
   (true, AWrite 0 [x06]); (true, AThread 0 None); (true, AThread 0 None)].

Definition demo_link : link :=
  default (link_init io_EOF io_EOF) (link_run demo_link_acts (link_init io_EOF io_EOF)).

Lemma demo_link_reach : link_reach 17 demo_link.
Proof.
  apply (link_run_reach demo_link_acts 0 (link_init io_EOF io_EOF)); [apply lr_init|].
  by vm_compute.
Qed.

Lemma link_refines_protocol_witness :
  ∃ N, rtc nstep net_init N ∧
    rd_data (s_dec (g_sess (lk_b demo_link))) = frames (n_xy N) ∧
    frames [DataMessage 0 1 [x06]] = frames (n_xy N).
Proof.
  destruct (link_refines_protocol 17 demo_link demo_link_reach ltac:(by vm_compute))
    as (N & HN & _ & _ & Hd & _).
  exists N. split; [exact HN|]. split; [exact Hd|]. etrans; [|exact Hd]. by vm_compute.
Defined.

Lemma link_never_fails_witness :
  running (g_loop (lk_a demo_link)) ∧ ∃ c, link_exec true ALoop demo_link = (Ret tt, c).
Proof.
  split; [exact (proj1 (link_never_fails 17 demo_link demo_link_reach ltac:(by vm_compute)))|].
  eexists. vm_compute. reflexivity.
Defined.

(** Two bytes are credited, three buffered, one is in flight. *)
Lemma link_window_conservation_witness :
  ∃ ch, s_heap (g_sess (lk_a demo_link)) !! 0%nat = Some ch ∧
    w_win (c_remoteWin ch) = channelWindowSize - 6 ∧
    window_adds_up (lk_a demo_link) (lk_b demo_link) 0 ch.
Proof.
  eexists. split; [vm_compute; reflexivity|]. split; [vm_compute; reflexivity|].
  apply (link_window_conservation 17 demo_link 0 _ demo_link_reach); by vm_compute.
Defined.

(** Two bytes are read, three buffered, one is in flight. *)
Lemma link_streams_in_order_witness :
  lk_read_b demo_link 0%nat = [x01; x02] ∧
  stream_in_order (lk_a demo_link) (lk_b demo_link) (lk_read_b demo_link).
Proof.
  split; [by vm_compute|].
  apply (link_streams_in_order 17 demo_link demo_link_reach). by vm_compute.
Defined.
