(* ===== verification/SessionLoop.v ===== *)
(** * The packet loop of a session

    [session.loop], on a session that opens no channels itself, ends for every
    input. What any loop leaves behind: an empty
    table, every channel closed, the transport closed, the error recorded. The
    small steps of System.v are shown to do what the sequential [onePacket] of
    Session.v does. *)
From S2P Require Import Prelude GoRuntime Frame Buffer Window ChanList.
From S2P Require Import MuxState Channel ChannelSpec Session SessionSpec System.
From S2P Require Import SystemInv SystemSafe.

(** ** Code that does not touch the receiving side of the transport *)

(** A projection of the state that a computation leaves alone. *)
Definition keeps {A B} (f : session → B) (m : MS A) : Prop := ∀ s, f (m s).2 = f s.

Section keeps.
Context {B : Type} (f : session → B).

Lemma keeps_ret {A} (a : A) : keeps f (mret a).
Proof. by intros s. Qed.

Lemma keeps_bind {A C} (m : MS A) (k : A → MS C) :
  keeps f m → (∀ a, keeps f (k a)) → keeps f (m ≫= k).
Proof.
  intros Hm Hk s. unfold mbind, M_bind. specialize (Hm s).
  destruct (m s) as [[a| | |] s']; cbn in *; try done. by rewrite Hk.
Qed.

Lemma keeps_deref l : keeps f (deref l).
Proof. intros s. unfold deref. by destruct (s_heap s !! l). Qed.

Lemma keeps_match_option {A C} (o : option C) (k : C → MS A) m :
  (∀ c, keeps f (k c)) → keeps f m →
  keeps f (match o with Some c => k c | None => m end).
Proof. by destruct o. Qed.
End keeps.

Section keeps_dec.
Abbreviation kd := (keeps s_dec).

Lemma keeps_assign l g : kd (assign l g).
Proof. done. Qed.

Lemma keeps_encode m : kd (encode m).
Proof. intros s. by rewrite encode_eq. Qed.

Lemma keeps_on_remoteWin {A} l (m : M window A) : kd (on_remoteWin l m).
Proof.
  apply keeps_bind; [apply keeps_deref|]. intros c s. unfold st. by destruct (m _).
Qed.

Lemma keeps_on_pending {A} l (m : M buffer A) : kd (on_pending l m).
Proof.
  apply keeps_bind; [apply keeps_deref|]. intros c s. unfold st. by destruct (m _).
Qed.

Lemma keeps_on_msg {A} l (m : gochan Message → outcome (A * gochan Message)) :
  kd (on_msg l m).
Proof.
  apply keeps_bind; [apply keeps_deref|]. intros c s. unfold st.
  by destruct (m _) as [[]| | |].
Qed.

Lemma keeps_chans_remove i : kd (chans_remove i).
Proof. done. Qed.

Lemma keeps_get : kd get_st.
Proof. done. Qed.
End keeps_dec.

Create HintDb keeps.
#[export] Hint Resolve keeps_ret keeps_deref keeps_assign keeps_encode keeps_on_remoteWin
  keeps_on_pending keeps_on_msg keeps_chans_remove keeps_get : keeps.

(** Walk through a computation. *)
Ltac keeps_tac :=
  repeat first
    [ solve [auto with keeps]
    | apply keeps_bind; [|intros]
    | match goal with
      | |- keeps _ (if ?b then _ else _) => destruct b
      | |- keeps _ (match ?x with _ => _ end) => destruct x
      end ].

Lemma handle_keeps_dec l msg : keeps s_dec (channel_handle l msg).
Proof.
  destruct msg; cbn [channel_handle]; unfold channel_handleData, channel_send,
    channel_close; keeps_tac.
Qed.

Lemma newChannel_keeps_dec dir : keeps s_dec (session_newChannel dir).
Proof. intros s. by rewrite newChannel_eq. Qed.

Lemma handleOpen_keeps_dec sender win maxp accepted :
  keeps s_dec (session_handleOpen sender win maxp accepted).
Proof.
  unfold session_handleOpen. apply keeps_bind.
  - intros s. rewrite handleOpen_begin_eq. by destruct (packet_size_ok maxp).
  - intros [e|l]; [keeps_tac|]. apply keeps_bind.
    + destruct accepted; [|keeps_tac]. apply keeps_bind; [|keeps_tac].
      intros s. unfold session_Accept. mred. by destruct (s_inbox s).
    + unfold session_handleOpen_end. intros _. destruct accepted; keeps_tac.
Qed.

Lemma dispatch_keeps_dec i msg : keeps s_dec (session_dispatch i msg).
Proof.
  intros s. rewrite dispatch_eq. destruct (chanList_getChan _ _); [|done].
  apply handle_keeps_dec.
Qed.

(** ** Termination *)

(** A packet handled without error took at least five bytes off the stream. *)
Lemma onePacket_progress accepted s s' :
  session_onePacket accepted s = (Ret None, s') →
  (length (rd_data (s_dec s')) + 5 ≤ length (rd_data (s_dec s)))%nat.
Proof.
  unfold session_onePacket. erewrite bind_eq by apply decode_eq.
  destruct (Decoder_Decode (s_dec s)) as [[m|e] d] eqn:Ed; [|done].
  apply Decode_sound in Ed as (Hd & _ & _). pose proof (Message_Bytes_length m) as Hlen.
  unfold len in Hlen. cbn [fst snd]. intros Hp.
  assert (s_dec s' = d) as ->; [|rewrite Hd, length_app; lia].
  destruct m; cbn [Message_Channel] in Hp; cbv iota in Hp; apply (f_equal snd) in Hp;
    cbn [snd] in Hp; rewrite <- Hp;
    first [exact (handleOpen_keeps_dec _ _ _ _ _) | exact (dispatch_keeps_dec _ _ _)].
Qed.

(** ** The sequential loop is a schedule of the small steps *)

(** Where the loop goroutine is after [onePacket] had this result; it waits
    only at a channel whose message queue is full. *)
Definition loop_point (r : outcome (option error) * session) (p : loop_pc) : Prop :=
  match r with
  | (Ret None, _) => p = LRun
  | (Ret (Some e), _) => p = LDrop e
  | (Block, s) => ∃ l m, p = LSend l m ∧
                    at_ptr s (λ ch, length (ch_buf (c_msg ch)) = chanSize) l
  | _ => False
  end.

Lemma loop_point_next err c :
  ∃ p, loop_point (Ret err, g_sess c) p ∧
    loop_next err c = ok (mkConfig (g_sess c) p (g_threads c) (g_handles c)).
Proof. destruct err; by eexists. Qed.

Lemma exec_accept_eq s l sender ts hs :
  s_inbox s = Some l →
  exec (AAccept true) (mkConfig s (LAccept l sender) ts hs)
  = ok (mkConfig (set_inbox None s) (LConfirm l sender) ts (l :: hs)).
Proof. intros Hl. cbn [exec]. by erewrite run_ret by by apply Accept_inbox_eq. Qed.

(** The last part of [handleOpen], as a step. *)
Lemma handleOpen_end_step s p l ch sender accepted ts hs :
  s_heap s !! l = Some ch →
  ∃ p', loop_point (session_handleOpen_end l sender accepted s) p' ∧
    run (session_handleOpen_end l sender accepted) (mkConfig s p ts hs) loop_next
    = ok (mkConfig (session_handleOpen_end l sender accepted s).2 p' ts hs).
Proof.
  intros Hl. unfold run. cbn [g_sess]. rewrite (handleOpen_end_eq _ _ _ _ _ Hl). cbv zeta.
  cbn [fst snd with_sess g_loop g_threads g_handles]. apply loop_point_next.
Qed.

(** [onePacket] on a message, as a step. *)
Lemma exec_packet_msg s0 m d ts hs :
  Decoder_Decode (s_dec s0) = (Ok m, d) →
  exec_packet (mkConfig s0 LRun ts hs) =
    (let c := mkConfig (set_dec d s0) LRun ts hs in
     match m with
     | OpenMessage s w k =>
         run (session_handleOpen_begin s w k) c (λ r c,
           match r with
           | inl err => loop_next err c
           | inr l => ok (with_loop (LAccept l s) c)
           end)
     | _ => exec_dispatch m c
     end).
Proof.
  intros Hd. unfold exec_packet. erewrite (run_ret session_decode) by apply decode_eq.
  cbn [g_sess with_sess]. rewrite Hd. by destruct m.
Qed.

(** No packet is early while no goroutine is inside [Open]. *)
Lemma alone_not_early a s p hs : early a (mkConfig s p [] hs) = false.
Proof.
  unfold early. cbn [g_loop g_sess g_threads]. destruct a, p; try done.
  destruct (Decoder_Decode _).1 as [[]|]; try done. by destruct (chanList_getChan _ _).
Qed.

Lemma scenario_alone a acts s p hs c :
  exec a (mkConfig s p [] hs) = ok c → scenario (a :: acts) (mkConfig s p [] hs) = scenario acts c.
Proof. intros He. cbn [scenario]. by rewrite alone_not_early, He. Qed.

(** [m] run from [s] is what some actions do that start at [LRun] in [s0]. *)
Definition scheduled (s0 s : session) (m : MS (option error)) (hs : list chan_ptr) : Prop :=
  ∃ acts hs' p, (length acts ≤ 3)%nat ∧
    scenario acts (mkConfig s0 LRun [] hs) = Some (mkConfig (m s).2 p [] hs') ∧
    loop_point (m s) p.

Lemma handleOpen_scheduled s0 hs sender win maxp accepted d :
  Decoder_Decode (s_dec s0) = (Ok (OpenMessage sender win maxp), d) →
  scheduled s0 (set_dec d s0) (session_handleOpen sender win maxp accepted) hs.
Proof.
  intros Hd. pose proof (exec_packet_msg s0 _ _ [] hs Hd) as Hex. cbv beta iota zeta in Hex.
  set (s := set_dec d s0) in *.
  pose proof (handleOpen_begin_eq sender win maxp s) as Hb.
  unfold scheduled, session_handleOpen. destruct (packet_size_ok maxp) eqn:Hp.
  2: { rewrite (bind_eq _ _ _ _ _ Hb). erewrite run_ret in Hex by exact Hb.
       destruct (loop_point_next (Encoder_Encode (OpenFailureMessage sender) (s_enc s)).1
         (mkConfig (set_enc (Encoder_Encode (OpenFailureMessage sender) (s_enc s)).2 s)
            LRun [] hs)) as (p & Hlp & Hn).
       exists [ALoop], hs, p. split; [cbn; lia|]. split; [|done].
       by erewrite (scenario_alone ALoop) by (etrans; [exact Hex|exact Hn]). }
  rewrite (bind_eq _ _ _ _ _ Hb). erewrite run_ret in Hex by exact Hb. clear Hb.
  cbn [with_sess with_loop g_sess g_loop g_threads g_handles] in Hex.
  set (l := s_fresh s) in *. set (s1 := added (offered_channel sender win maxp) s) in *.
  assert (∀ i, s_heap (set_inbox i s1) !! l
    = Some (set_localId (chanList_add (s_fresh s) (s_chans s)).1
              (offered_channel sender win maxp))) as Hl by (intros; apply heap_added).
  destruct accepted.
  - erewrite bind_eq; [|erewrite bind_eq; [reflexivity|by apply Accept_inbox_eq]].
    destruct (handleOpen_end_step (set_inbox None (set_inbox (Some l) s1)) (LConfirm l sender) l _
      sender true [] (l :: hs) (Hl None)) as (p & Hlp & Hst).
    exists [ALoop; AAccept true; ALoop], (l :: hs), p. split; [cbn; lia|]. split; [|done].
    erewrite scenario_alone by exact Hex.
    change (with_loop _ _) with (mkConfig (set_inbox (Some l) s1) (LAccept l sender) [] hs).
    erewrite scenario_alone by by apply exec_accept_eq.
    by erewrite scenario_alone by exact Hst.
  - erewrite bind_eq by reflexivity.
    destruct (handleOpen_end_step (set_inbox (Some l) s1) (LAccept l sender) l _
      sender false [] hs (Hl (Some l))) as (p & Hlp & Hst).
    exists [ALoop; ATimeout], hs, p. split; [cbn; lia|]. split; [|done].
    erewrite scenario_alone by exact Hex.
    change (with_loop _ _) with (mkConfig (set_inbox (Some l) s1) (LAccept l sender) [] hs).
    by erewrite scenario_alone by exact Hst.
Qed.

Lemma dispatch_scheduled n s hs m :
  sess_inv s n LRun [] hs → Z.of_nat n < 2 ^ 32 - 1 → message_wf m →
  ∃ p, exec_dispatch m (mkConfig s LRun [] hs)
       = ok (mkConfig (session_dispatch (Message_Channel m).1 m s).2 p [] hs) ∧
       loop_point (session_dispatch (Message_Channel m).1 m s) p.
Proof.
  intros Hinv Hn Hwf. unfold exec_dispatch. cbn [g_sess]. rewrite dispatch_eq.
  destruct (chanList_getChan _ _) as [l|] eqn:Eg; [|by eexists].
  eapply getChan_table in Eg; [|done..|by apply message_channel_u32].
  pose proof (handle_inv _ _ _ _ _ _ _ Hinv Hn Eg Hwf (λ _ _, eq_refl)) as Hh.
  destruct (channel_handle l m s) as [[err| | |] s']; try done.
  - destruct (loop_point_next err (mkConfig s' LRun [] hs)) as (p & Hp & Heq). by exists p.
  - eexists. split; [done|]. exists l, m. by destruct Hh.
Qed.

Lemma onePacket_scheduled n s hs accepted :
  sess_inv s n LRun [] hs → Z.of_nat n < 2 ^ 32 - 1 →
  scheduled s s (session_onePacket accepted) hs.
Proof.
  intros Hinv Hn. unfold scheduled, session_onePacket. rewrite (bind_eq _ _ _ _ _ (decode_eq s)).
  destruct (Decoder_Decode (s_dec s)) as [[m|e] d] eqn:Ed; cbn [fst snd].
  2: { exists [ALoop], hs, (LDrop e). split; [cbn; lia|]. split; [|done].
       erewrite scenario_alone; [done|]. cbn [exec exec_loop g_loop]. unfold exec_packet.
       erewrite run_ret by apply decode_eq. cbn [g_sess]. by rewrite Ed. }
  destruct (match m with OpenMessage _ _ _ => true | _ => false end) eqn:Em.
  { destruct m; try done. by apply handleOpen_scheduled. }
  pose proof (proj2 (proj2 (Decode_sound _ _ _ Ed))) as Hwf.
  apply (inv_frame s (set_dec d s)) in Hinv; [|done..].
  destruct (dispatch_scheduled _ _ _ _ Hinv Hn Hwf) as (p & He & Hp).
  pose proof (exec_packet_msg s _ _ [] hs Ed) as Hx.
  exists [ALoop], hs, p. split; [cbn; lia|].
  erewrite scenario_alone by (cbn [exec exec_loop g_loop]; rewrite Hx; by destruct m).
  by destruct m.
Qed.

(** ** The end of the loop *)

(** The heap after [close()] on each channel of [ls]. *)
Fixpoint close_heap (ls : list chan_ptr) (h : gmap chan_ptr channel)
    : gmap chan_ptr channel :=
  match ls with [] => h | l :: ls => close_heap ls (alter closed_channel l h) end.

Lemma close_heap_lookup ls h l :
  NoDup ls →
  close_heap ls h !! l = if decide (l ∈ ls) then closed_channel <$> h !! l else h !! l.
Proof.
  intros Hnd. revert h. induction Hnd as [|k ls Hk Hnd IH]; intros h; [done|].
  cbn [close_heap]. rewrite IH. destruct (decide (l = k)) as [->|Hne].
  - rewrite decide_False, decide_True by (done || by left). apply lookup_alter_eq.
  - rewrite lookup_alter_ne by done.
    destruct (decide (l ∈ ls)); [rewrite decide_True by by right|
      rewrite decide_False by by intros [?|?]%elem_of_cons]; done.
Qed.

(** The state [loop] leaves once [onePacket] failed with [err]. *)
Definition torn_down (err : error) (s : session) : session :=
  mkSession (s_enc s) (s_dec s) (S (s_tclosed s)) []
    (close_heap (omap id (s_chans s)) (s_heap s)) (s_fresh s) (s_inbox s) (Some err)
    (mkChan [true] 1 false).

Lemma close_all_eq ls s :
  NoDup ls → (∀ l, l ∈ ls → at_ptr s msg_open l) →
  close_all ls s = (Ret tt, set_heap (close_heap ls (s_heap s)) s).
Proof.
  intros Hnd. revert s. induction Hnd as [|l ls Hl Hnd IH]; intros s Hopen.
  { by destruct s. }
  destruct (Hopen l) as (ch & Hch & Ho); [by left|]. cbn [close_all close_heap].
  erewrite bind_eq by by apply close_eq. rewrite IH.
  - unfold put_ch, set_heap. cbn. f_equal. f_equal. f_equal. apply map_eq. intros k.
    destruct (decide (l = k)) as [<-|]; [by rewrite lookup_alter_eq, Hch, lookup_insert_eq|].
    by rewrite lookup_alter_ne, lookup_insert_ne.
  - intros k Hk. destruct (Hopen k) as (c & Hc & ?); [by right|]. exists c.
    rewrite heap_put_ch_ne; [done|]. by intros <-.
Qed.

(** The table of an invariant state can be closed. *)
Lemma table_closable s n p ts hs l :
  sess_inv s n p ts hs → l ∈ omap id (s_chans s) → at_ptr s msg_open l.
Proof.
  intros Hinv [i Hi]%dropAll_elem. destruct (si_table _ _ _ _ _ Hinv i l Hi) as (ch & ? & _ & ?).
  by exists ch.
Qed.

Lemma teardown_eq s n p ts hs err :
  sess_inv s n p ts hs → p ≠ LDone → session_teardown err s = (Ret tt, torn_down err s).
Proof.
  intros Hinv Hp. unfold session_teardown. erewrite bind_eq by reflexivity.
  unfold chanList_dropAll. erewrite bind_eq by reflexivity.
  erewrite bind_eq.
  2: { apply close_all_eq; [by eapply table_NoDup|]. intros l Hl. cbn.
       exact (table_closable _ _ _ _ _ l Hinv Hl). }
  erewrite bind_eq by reflexivity. unfold closeCh_send. erewrite bind_eq.
  2: { erewrite bind_eq by reflexivity. cbn [s_closeCh set_tclosed set_heap set_chans].
       rewrite (si_closeCh _ _ _ _ _ Hinv Hp). reflexivity. }
  done.
Qed.

Lemma loop_exit_eq err s :
  s_closeCh s = make_chan 1 →
  loop_exit err s =
    (Ret tt, set_err (Some err) (set_closeCh (mkChan [true] 1 false)
               (set_tclosed (S (s_tclosed s)) s))).
Proof.
  intros Hc. unfold loop_exit, closeCh_send. mred. by rewrite Hc.
Qed.

(** The small steps close the same channels. *)
Lemma drain_scheduled ls err n s ts hs :
  sess_inv s n (LDrain ls err) ts hs →
  scenario (replicate (length ls) ALoop) (mkConfig s (LDrain ls err) ts hs)
  = Some (mkConfig (set_heap (close_heap ls (s_heap s)) s) (LDrain [] err) ts hs).
Proof.
  revert n s. induction ls as [|l ls IH]; intros n s Hinv; [by destruct s|].
  pose proof (drain_safe _ _ _ _ _ _ _ Hinv) as [_ Hsafe].
  pose proof (si_loop _ _ _ _ _ Hinv) as [Hnd Hls].
  destruct (Hls l) as [(ch & Hl & Ho) _]; [by left|].
  cbn [length replicate scenario]. change (exec ALoop ?c) with (exec_loop c).
  assert (exec_loop (mkConfig s (LDrain (l :: ls) err) ts hs)
    = ok (mkConfig (put_ch l (closed_channel ch) s) (LDrain ls err) ts hs)) as Hex.
  { cbn [exec_loop g_loop]. by erewrite run_ret by by apply close_eq. }
  rewrite Hex in Hsafe |- *. cbn [ok]. rewrite (IH (S n)) by exact Hsafe.
  cbn [close_heap]. do 2 f_equal. unfold put_ch, set_heap. cbn. f_equal. f_equal.
  apply map_eq. intros k.
  destruct (decide (l = k)) as [<-|]; [by rewrite lookup_alter_eq, Hl, lookup_insert_eq|].
  by rewrite lookup_alter_ne, lookup_insert_ne.
Qed.

Lemma teardown_scheduled s n ts hs err :
  sess_inv s n (LDrop err) ts hs →
  scenario (replicate (2 + length (omap id (s_chans s))) ALoop)
    (mkConfig s (LDrop err) ts hs)
  = Some (mkConfig (torn_down err s) LDone ts hs).
Proof.
  intros Hinv. pose proof (drop_safe _ _ _ _ _ Hinv) as [_ Hsafe].
  assert (exec_loop (mkConfig s (LDrop err) ts hs)
    = ok (mkConfig (set_chans [] s) (LDrain (omap id (s_chans s)) err) ts hs)) as Hex by done.
  rewrite Hex in Hsafe. cbn [snd ok] in Hsafe.
  replace (2 + length _)%nat with (1 + (length (omap id (s_chans s)) + 1))%nat by lia.
  rewrite !replicate_add, !scenario_app. cbn [replicate scenario early g_loop].
  change (exec ALoop ?c) with (exec_loop c). rewrite Hex. cbn [ok].
  rewrite scenario_app, (drain_scheduled (omap id (s_chans s)) err (S n) (set_chans [] s) ts hs Hsafe).
  cbn [scenario early g_loop]. change (exec ALoop ?c) with (exec_loop c). cbn [exec_loop g_loop].
  by erewrite run_ret
    by (apply loop_exit_eq; exact (si_closeCh _ _ _ _ _ Hinv ltac:(done))).
Qed.

(** ** The whole loop *)

(** Every channel was opened by the peer, so none takes a response. *)
Definition all_inbound (s : session) : Prop :=
  ∀ l ch, s_heap s !! l = Some ch → c_direction ch = channelInbound.

Lemma inbound_put s l ch : all_inbound s → c_direction ch = channelInbound → all_inbound (put_ch l ch s).
Proof.
  intros Hs Hc k c. cbn. intros [[<- <-]|[_ Hk]]%lookup_insert_Some; [done|by eapply Hs].
Qed.

(** Handling a message ends, and no channel becomes outbound. *)
Lemma handle_inbound s n hs (i : nat) l msg :
  sess_inv s n LRun [] hs → all_inbound s → s_chans s !! i = Some (Some l) → message_wf msg →
  ∃ err s', channel_handle l msg s = (Ret err, s') ∧ all_inbound s'.
Proof.
  intros Hinv Hin Hi Hwf. destruct (si_table _ _ _ _ _ Hinv _ _ Hi) as (ch & Hl & _ & Hop).
  pose proof (si_chan _ _ _ _ _ Hinv _ _ Hl) as [Hw _ _ _ _]. pose proof (Hin l ch Hl) as Hd.
  destruct msg as [| | |id k|id k d|id|id]; cbn [message_wf] in Hwf; destruct_and?.
  - by eexists _, _.
  - rewrite (handle_confirm_eq _ _ _ _ _ _ _ Hl), decide_True by done. by eexists _, _.
  - rewrite (handle_failure_eq _ _ _ _ Hl), decide_True by done. by eexists _, _.
  - rewrite (handle_adjust_eq _ _ _ _ _ Hl) by done. cbv zeta.
    case_cmp; eexists _, _; split; try done. by apply inbound_put.
  - cbn [channel_handle]. rewrite (handleData_eq _ _ _ _ _ Hl).
    destruct (_ && _); eexists _, _; split; try done. by apply inbound_put.
  - rewrite (handle_eof_eq _ _ _ _ Hl). eexists _, _. split; [done|]. by apply inbound_put.
  - rewrite (handle_close_eq _ _ _ _ Hl Hop). eexists _, _. split; [done|].
    apply inbound_put; [|done]. by destruct (c_sentClose ch).
Qed.

Lemma handleOpen_end_inbound s l ch sender accepted :
  s_heap s !! l = Some ch → all_inbound s →
  ∃ err s', session_handleOpen_end l sender accepted s = (Ret err, s') ∧ all_inbound s'.
Proof.
  intros Hl Hin. rewrite (handleOpen_end_eq _ _ _ _ _ Hl). cbv zeta. eexists _, _.
  split; [done|]. by destruct accepted.
Qed.

Lemma handleOpen_inbound s sender win maxp accepted :
  all_inbound s → ∃ err s', session_handleOpen sender win maxp accepted s = (Ret err, s') ∧ all_inbound s'.
Proof.
  intros Hin. pose proof (handleOpen_begin_eq sender win maxp s) as Hb. unfold session_handleOpen.
  destruct (packet_size_ok maxp); rewrite (bind_eq _ _ _ _ _ Hb); [|by eexists _, _].
  set (s1 := added (offered_channel sender win maxp) s).
  assert (all_inbound s1) as Hin1.
  { intros l ch. destruct (decide (l = s_fresh s)) as [->|Hne].
    - unfold s1. rewrite heap_added. by intros [= <-].
    - unfold s1. rewrite added_heap_ne by done. apply Hin. }
  destruct accepted.
  - erewrite bind_eq; [|erewrite bind_eq; [reflexivity|by apply Accept_inbox_eq]].
    eapply handleOpen_end_inbound; [apply heap_added|done].
  - erewrite bind_eq by reflexivity. eapply handleOpen_end_inbound; [apply heap_added|done].
Qed.

Lemma onePacket_inbound s n hs accepted :
  sess_inv s n LRun [] hs → Z.of_nat n < 2 ^ 32 - 1 → all_inbound s →
  ∃ err s', session_onePacket accepted s = (Ret err, s') ∧ all_inbound s'.
Proof.
  intros Hinv Hn Hin. unfold session_onePacket. rewrite (bind_eq _ _ _ _ _ (decode_eq s)).
  destruct (Decoder_Decode (s_dec s)) as [[m|e] d] eqn:Ed; cbn [fst snd]; [|by eexists _, _].
  pose proof (proj2 (proj2 (Decode_sound _ _ _ Ed))) as Hwf.
  apply (inv_frame s (set_dec d s)) in Hinv; [|done..].
  assert (∃ err s', session_dispatch (Message_Channel m).1 m (set_dec d s) = (Ret err, s') ∧
    all_inbound s') as Hdis.
  { rewrite dispatch_eq. destruct (chanList_getChan _ _) as [l|] eqn:Eg; [|by eexists _, _].
    eapply getChan_table in Eg; [|done..|by apply message_channel_u32].
    by eapply handle_inbound. }
  destruct m; try exact Hdis. by apply handleOpen_inbound.
Qed.

(** The loop alone: it ends torn down, and some schedule of the small steps ends
    in the same state. *)
Lemma loop_scheduled fuel accepted i s n hs :
  sess_inv s n LRun [] hs → all_inbound s → (length (rd_data (s_dec s)) < fuel)%nat →
  Z.of_nat n + 3 * Z.of_nat fuel < 2 ^ 32 - 1 →
  ∃ acts hs' err s0,
    session_loop fuel accepted i s = (Ret tt, torn_down err s0) ∧
    scenario acts (mkConfig s LRun [] hs) = Some (mkConfig (torn_down err s0) LDone [] hs').
Proof.
  revert i s n hs. induction fuel as [|fuel IH]; intros i s n hs Hinv Hin Hlen Hn; [lia|].
  destruct (onePacket_scheduled n s hs (accepted i) Hinv ltac:(lia))
    as (acts & hs' & p & Hacts & Hsc & Hp).
  destruct (onePacket_inbound s n hs (accepted i) Hinv ltac:(lia) Hin) as (o & s1 & Eo & Hin1).
  pose proof (onePacket_progress (accepted i) s) as Hprog.
  cbn [session_loop]. rewrite (bind_eq _ _ _ _ _ Eo). rewrite Eo in *. cbn [snd] in Hsc.
  pose proof (scenario_inv acts n (mkConfig s LRun [] hs) _ Hinv Hsc ltac:(lia)) as Hinv1.
  unfold sys_inv in Hinv1. cbn [g_sess g_loop g_threads g_handles] in Hinv1.
  destruct o as [err|]; cbn [loop_point] in Hp; subst p.
  - rewrite (teardown_eq _ _ _ _ _ err Hinv1) by done.
    exists (acts ++ replicate (2 + length (omap id (s_chans s1))) ALoop), hs', err, s1.
    split; [done|]. rewrite scenario_app, Hsc. by apply (teardown_scheduled _ (n + length acts)).
  - destruct (IH (S i) s1 _ hs' Hinv1 Hin1) as (acts' & hs'' & err & s0 & Hloop & Hsc').
    + specialize (Hprog s1 eq_refl). lia.
    + lia.
    + exists (acts ++ acts'), hs'', err, s0. by rewrite scenario_app, Hsc.
Qed.

Lemma new_session_inv w r : sess_inv (new_session w r) 0 LRun [] [].
Proof. apply (initial_inv w r). Qed.

(** C10. The packet loop of a new session ends on every input, as long as this
    side opens no channel of its own: run on a stream of [k] bytes it returns
    after at most [k + 1] packets, whatever the peer sent and whichever open
    requests get accepted. It never waits for ever, and leaves the session torn
    down: table empty, error recorded, one token for [Accept]; what it did is one
    schedule of the small steps of System.v. *)
Theorem session_loop_ends w r accepted fuel :
  (length (rd_data r) < fuel)%nat → 3 * Z.of_nat fuel < 2 ^ 32 - 1 →
  ∃ acts hs s,
    session_loop fuel accepted 0 (new_session w r) = (Ret tt, s) ∧
    scenario acts (initial w r) = Some (mkConfig s LDone [] hs) ∧
    s_chans s = [] ∧ is_Some (s_err s) ∧ s_closeCh s = mkChan [true] 1 false.
Proof.
  intros Hlen Hn.
  destruct (loop_scheduled fuel accepted 0 _ 0 [] (new_session_inv w r)) as
    (acts & hs & err & s0 & Hl & Hsc); [by intros l ch|done|lia|].
  exists acts, hs, (torn_down err s0). by split_and!.
Qed.

Lemma session_loop_ends_witness :
  (length (rd_data (mkReader demo_input io_EOF)) < 60)%nat ∧
  ∃ acts hs s,
    session_loop 60 (λ _, true) 0 (new_session (mkWriter [] []) (mkReader demo_input io_EOF))
    = (Ret tt, s) ∧
    scenario acts (initial (mkWriter [] []) (mkReader demo_input io_EOF))
    = Some (mkConfig s LDone [] hs) ∧
    s_chans s = [] ∧ is_Some (s_err s) ∧ s_closeCh s = mkChan [true] 1 false.
Proof.
  split; [by apply Nat.ltb_lt; vm_compute|].
  apply session_loop_ends; [by apply Nat.ltb_lt; vm_compute|by vm_compute].
Defined.

(** C17. Once the loop fails, in any reachable configuration, its end closes
    every channel of the table and nothing else: readers see the end of the
    stream behind the bytes already received, waiting writers fail, waiting
    [Open]s get [net.ErrClosed], and no close message can be sent any more. *)
Theorem teardown_closes n c err :
  reach n c → Z.of_nat n < 2 ^ 32 - 1 → g_loop c = LDrop err →
  ∃ s', session_teardown err (g_sess c) = (Ret tt, s') ∧
    s_chans s' = [] ∧ s_err s' = Some err ∧ s_tclosed s' = S (s_tclosed (g_sess c)) ∧
    ∀ l ch, s_heap (g_sess c) !! l = Some ch →
      (¬ in_table (g_sess c) l ∧ s_heap s' !! l = Some ch) ∨
      (in_table (g_sess c) l ∧ ∃ ch', s_heap s' !! l = Some ch' ∧
        ch_closed (c_msg ch') = true ∧ c_sentClose ch' = true ∧
        w_closed (c_remoteWin ch') = true ∧ b_closed (c_pending ch') = true ∧
        ∀ q, buffer_repr (c_pending ch) q → buffer_repr (c_pending ch') q).
Proof.
  intros Hr Hn Hp. pose proof (reach_inv n c Hr Hn) as Hinv. unfold sys_inv in Hinv.
  exists (torn_down err (g_sess c)). split; [eapply teardown_eq; [done|by rewrite Hp]|].
  split_and!; [done..|]. intros l ch Hl. cbn [s_heap torn_down].
  rewrite close_heap_lookup by by eapply table_NoDup. rewrite Hl.
  destruct (decide (l ∈ omap id (s_chans (g_sess c)))) as [Hin|Hout].
  - right. split; [by apply dropAll_elem in Hin|]. eexists. split; [done|].
    split_and!; [done..|]. intros q. apply buffer_eof_repr.
  - left. split; [|done]. intros Hin. by apply Hout, dropAll_elem.
Qed.

Definition demo_failed : config := (exec ALoop (exec ALoop demo).2).2.

Lemma teardown_closes_witness :
  g_loop demo_failed = LDrop io_EOF ∧
  ∃ s', session_teardown io_EOF (g_sess demo_failed) = (Ret tt, s') ∧
    s_chans s' = [] ∧ s_err s' = Some io_EOF ∧
    s_tclosed s' = S (s_tclosed (g_sess demo_failed)).
Proof.
  assert (reach 10 demo_failed) as Hr.
  { apply (scenario_reach [ALoop; ALoop] 8 demo demo_failed demo_reach). by vm_compute. }
  assert (g_loop demo_failed = LDrop io_EOF) as Hp by by vm_compute.
  split; [exact Hp|].
  destruct (teardown_closes 10 demo_failed io_EOF Hr ltac:(by vm_compute) Hp)
    as (s' & H1 & H2 & H3 & H4 & _).
  exists s'. exact (conj H1 (conj H2 (conj H3 H4))).
Defined.
