(* ===== verification/Handshake.v ===== *)
(** * Opening a channel between two sessions

    One side runs [Open], the other side's loop handles the request, and the
    first side's loop handles the answer: the two halves of [session.go] put
    together over the bytes they exchange. *)
From S2P Require Import Prelude GoRuntime Frame Buffer Window ChanList.
From S2P Require Import MuxState Channel ChannelSpec Session SessionSpec System.
From S2P Require Import SystemInv SystemSafe.

(** ** Endpoints *)

(** A session whose loop is between packets, with room in its table, over a
    transport that works. *)
Record ready (s : session) : Prop := {
  rd_table : chanList_small (s_chans s);
  rd_writer : writer_ok (s_enc s);
}.

(** The next packet on the session's transport is [m]. *)
Definition feed (m : Message) (rest : list byte) (e : error) (s : session) : session :=
  set_dec (mkReader (Message_Bytes m ++ rest) e) s.

Lemma onePacket_next m rest e accepted s :
  message_wf m → s_dec s = mkReader (Message_Bytes m ++ rest) e →
  session_onePacket accepted s =
    (let s' := set_dec (mkReader rest e) s in
     match m with
     | OpenMessage sd w k => session_handleOpen sd w k accepted s'
     | _ => session_dispatch (Message_Channel m).1 m s'
     end).
Proof.
  intros Hwf Hd. unfold session_onePacket. rewrite (bind_eq _ _ _ _ _ (decode_eq _)).
  rewrite Hd, Decode_Bytes by done. by destruct m.
Qed.

Lemma onePacket_feed m rest e accepted s :
  message_wf m →
  session_onePacket accepted (feed m rest e s) =
    (let s' := set_dec (mkReader rest e) s in
     match m with
     | OpenMessage sd w k => session_handleOpen sd w k accepted s'
     | _ => session_dispatch (Message_Channel m).1 m s'
     end).
Proof. intros Hwf. by rewrite (onePacket_next m rest e). Qed.

(** The id a new channel gets, and where it is found. *)
Lemma add_id s :
  chanList_small (s_chans s) →
  let r := chanList_add (s_fresh s) (s_chans s) in
  is_u32 r.1 ∧ chanList_getChan r.1 (s_chans s) = None ∧ chanList_getChan r.1 r.2 = Some (s_fresh s).
Proof.
  intros Hs r. destruct (chanList_add_spec (s_fresh s) (s_chans s) Hs)
    as (i & Hadd & Hfree & Hi & _ & Hlk & Hlen). subst r. rewrite Hadd. cbn [fst snd].
  unfold chanList_small in Hs.
  assert (is_u32 (Z.of_nat i)) as Hu by (unfold is_u32, len in *; lia). split; [done|].
  split; [by rewrite getChan_lookup, Nat2Z.id by (done || lia)|].
  unfold chanList_getChan. rewrite Nat2Z.id, Hlk, decide_True by done.
  rewrite u32_small by (unfold is_u32; pose proof (len_nonneg (s_chans s)); lia).
  assert (is_Some ((chanList_add (s_fresh s) (s_chans s)).2 !! i)) as Hsome
    by (rewrite Hlk, decide_True by done; by eexists).
  apply lookup_lt_is_Some in Hsome. case_cmp; [done|unfold len in *; lia].
Qed.

(** ** The three steps *)

(** The id of the channel [s] adds next. *)
Definition next_id (s : session) : Z := (chanList_add (s_fresh s) (s_chans s)).1.

Definition open_request (s : session) : Message :=
  OpenMessage (next_id s) channelWindowSize channelMaxPacket.

Lemma open_sends s :
  ready s →
  session_Open_request s =
    (Ret (Ok (s_fresh s)), set_enc (emit [open_request s] (s_enc s)) (added opening_channel s)).
Proof. intros [_ Hw]. rewrite Open_request_eq. cbv zeta. by rewrite Encode_ok. Qed.

(** The accepting side: a channel for the peer's id, and the confirmation. *)
Definition accepted_channel (sender : Z) (s : session) : channel :=
  set_localId (next_id s) (offered_channel sender channelWindowSize channelMaxPacket).

Definition confirmation (sender : Z) (s : session) : Message :=
  OpenConfirmMessage sender (next_id s) channelWindowSize channelMaxPacket.

Lemma open_handled sender accepted s :
  ready s →
  session_handleOpen sender channelWindowSize channelMaxPacket accepted s =
    (Ret None,
     set_enc (emit [if accepted then confirmation sender s else OpenFailureMessage sender]
                (s_enc s))
       (set_inbox None (added (offered_channel sender channelWindowSize channelMaxPacket) s))).
Proof.
  intros [Ht Hw]. unfold session_handleOpen.
  pose proof (handleOpen_begin_eq sender channelWindowSize channelMaxPacket s) as Hb.
  replace (packet_size_ok channelMaxPacket) with true in Hb by done.
  rewrite (bind_eq _ _ _ _ _ Hb). clear Hb.
  set (s1 := added _ s).
  assert (∀ i, s_heap (set_inbox i s1) !! s_fresh s = Some (accepted_channel sender s)) as Hl
    by (intros; apply heap_added).
  destruct accepted.
  - erewrite bind_eq; [|erewrite bind_eq; [reflexivity|by apply Accept_inbox_eq]].
    rewrite (handleOpen_end_eq _ _ _ _ _ (Hl None)). cbv zeta.
    change (s_enc (set_inbox None (set_inbox (Some (s_fresh s)) s1))) with (s_enc s).
    by rewrite Encode_ok.
  - erewrite bind_eq by reflexivity. rewrite (handleOpen_end_eq _ _ _ _ _ (Hl _)). cbv zeta.
    change (s_enc (set_inbox (Some (s_fresh s)) s1)) with (s_enc s). by rewrite Encode_ok.
Qed.

(** The opening side's channel once the confirmation arrived and [Open] took it
    off the queue. *)
Definition opened_channel (sender : Z) (s : session) : channel :=
  set_remoteWin (mkWindow channelWindowSize 0 false)
    (set_maxRemotePayload channelMaxPacket
       (set_remoteId sender (set_localId (next_id s) opening_channel))).

(** ** Properties *)

(** C12. The opening handshake links two channels. From any two sessions over
    working transports, if one runs [Open], the other side's loop receives the
    request and [Accept] takes it in time, and the answer comes back, then
    [Open] returns its channel, and the two channels name each other, each may
    send exactly the other's receive window, in packets of at most the other's
    maximum, and each is found in its session's table under its id. *)
Theorem open_handshake sA sB restA restB eA eB :
  ready sA → ready sB →
  ∃ mO mC sA1 sB1 sA2 sA3 lA lB cA cB,
    session_Open_request sA = (Ret (Ok lA), sA1) ∧ s_enc sA1 = emit [mO] (s_enc sA) ∧
    session_onePacket true (feed mO restB eB sB) = (Ret None, sB1) ∧
    s_enc sB1 = emit [mC] (s_enc sB) ∧ s_dec sB1 = mkReader restB eB ∧
    session_onePacket true (feed mC restA eA sA1) = (Ret None, sA2) ∧
    session_Open_wait lA None sA2 = (Ret (Ok lA), sA3) ∧
    s_heap sA3 !! lA = Some cA ∧ s_heap sB1 !! lB = Some cB ∧
    chanList_getChan (c_localId cA) (s_chans sA3) = Some lA ∧
    chanList_getChan (c_localId cB) (s_chans sB1) = Some lB ∧
    c_remoteId cA = c_localId cB ∧ c_remoteId cB = c_localId cA ∧
    w_win (c_remoteWin cA) = c_myWindow cB ∧ w_win (c_remoteWin cB) = c_myWindow cA ∧
    c_maxRemotePayload cA = c_maxIncomingPayload cB ∧
    c_maxRemotePayload cB = c_maxIncomingPayload cA.
Proof.
  intros HA HB. destruct (add_id sA (rd_table _ HA)) as (Hua & _ & Hga).
  destruct (add_id sB (rd_table _ HB)) as (Hub & _ & Hgb).
  fold (next_id sA) in Hua, Hga. fold (next_id sB) in Hub, Hgb.
  assert (is_u32 channelWindowSize ∧ is_u32 channelMaxPacket) as [Huw Hum] by by vm_compute.
  set (sA1 := set_enc (emit [open_request sA] (s_enc sA)) (added opening_channel sA)).
  set (sB0 := set_dec (mkReader restB eB) sB).
  set (sB1 := set_enc (emit [confirmation (next_id sA) sB] (s_enc sB))
    (set_inbox None (added (offered_channel (next_id sA) channelWindowSize channelMaxPacket) sB0))).
  set (sA1' := set_dec (mkReader restA eA) sA1).
  set (cA := opened_channel (next_id sB) sA). set (mC := confirmation (next_id sA) sB).
  set (sA2 := put_ch (s_fresh sA) (set_msg (mkChan [mC] chanSize false) cA) sA1').
  exists (open_request sA), mC, sA1, sB1, sA2, (put_ch (s_fresh sA) cA sA1'),
    (s_fresh sA), (s_fresh sB), cA, (accepted_channel (next_id sA) sB).
  split; [by apply open_sends|]. split; [done|]. split; [|split; [done|split; [done|]]].
  { rewrite onePacket_feed by done. cbv beta iota zeta delta [open_request].
    rewrite open_handled; [reflexivity|]. by destruct HB; split. }
  assert (s_heap sA1' !! s_fresh sA = Some (set_localId (next_id sA) opening_channel)) as Hl
    by apply heap_added.
  split; [|split].
  - rewrite onePacket_feed by done. cbv beta iota zeta delta [mC confirmation].
    rewrite dispatch_eq. cbn [Message_Channel fst confirmation]. fold sA1'.
    change (s_chans sA1') with (chanList_add (s_fresh sA) (s_chans sA)).2.
    rewrite Hga, (handle_confirm_eq _ _ _ _ _ _ _ Hl). rewrite decide_False by done.
    reflexivity.
  - erewrite Open_wait_eq by apply heap_put_ch. cbn [c_msg set_msg ch_buf].
    unfold sA2. by rewrite put_ch_put_ch.
  - split; [apply heap_put_ch|]. split; [apply (heap_added _ sB0)|].
    by split_and!.
Qed.

(** A session with nothing open yet, and one with two channels already. *)
Definition demo_peer : session :=
  mkSession (mkWriter [] []) (mkReader [] io_EOF) 0 [Some 0%nat; Some 1%nat]
    {[ 0%nat := demo_channel; 1%nat := demo_channel ]} 2 None None (make_chan 1).

Lemma open_handshake_witness :
  ready (new_session (mkWriter [] []) (mkReader [] io_EOF)) ∧ ready demo_peer ∧
  ∃ mO sA1 lA, session_Open_request (new_session (mkWriter [] []) (mkReader [] io_EOF))
      = (Ret (Ok lA), sA1) ∧ s_enc sA1 = emit [mO] (mkWriter [] []).
Proof.
  assert (ready (new_session (mkWriter [] []) (mkReader [] io_EOF))) as HA
    by (split; [by vm_compute|by constructor]).
  assert (ready demo_peer) as HB by (split; [by vm_compute|by constructor]).
  split; [exact HA|]. split; [exact HB|].
  destruct (open_handshake _ _ [] [] io_EOF io_EOF HA HB)
    as (mO & mC & sA1 & sB1 & sA2 & sA3 & lA & lB & cA & cB & H1 & H2 & _).
  exists mO, sA1, lA. exact (conj H1 H2).
Defined.
