(* ===== verification/MuxHazards.v ===== *)
(** * Where the mux does not do what it says

    Behaviours of channel.go and session.go that their comments, or the use of
    the package, contradict; each is shown on the definitions that model the
    code. *)
From S2P Require Import Prelude GoRuntime Frame Buffer Window ChanList.
From S2P Require Import MuxState Channel ChannelSpec Session SessionSpec System.
From S2P Require Import SystemInv SystemSafe SessionLoop Handshake.

(** ** Writing after Close *)

(** [Close] does not stop [Write]: on a channel that was not closed yet,
    [Close] followed by [Write] of data the window covers sends the close frame
    and then the data frames, and [Write] reports success. *)
Theorem write_after_close_sends fuel l data c s :
  s_heap s !! l = Some c → c_sentClose c = false → c_sentEOF c = false →
  writer_ok (s_enc s) → window_wf (c_remoteWin c) → w_closed (c_remoteWin c) = false →
  minPacketLength ≤ c_maxRemotePayload c ≤ maxPacketLength →
  len data ≤ w_win (c_remoteWin c) → (length data < fuel)%nat →
  ∃ s' pieces,
    (_ ← channel_Close l; channel_Write fuel l data) s = (Ret (len data, None), s') ∧
    mjoin pieces = data ∧
    s_enc s' = emit (CloseMessage (c_remoteId c) ::
                 ((λ p, DataMessage (c_remoteId c) (len p) p) <$> pieces)) (s_enc s).
Proof.
  intros Hl Hc He Hok Hw Hopen Hsz Hlen Hfuel.
  unfold minPacketLength, maxPacketLength, window_wf, is_u32 in *.
  eexists _, (chunks (c_maxRemotePayload c) data). split; [|split].
  - erewrite bind_eq.
    2: { rewrite (Close_eq _ _ _ Hl), Hc. apply encode_ok_eq. done. }
    unfold channel_Write. mderef. cbn [c_sentEOF set_sentClose]. rewrite He.
    pose proof (len_nonneg data).
    erewrite Write_loop_spec; [|heap_tac|cbn; auto with qtalk|unfold window_wf, is_u32; done|
      done|cbn; lia|cbn; unfold is_u32; lia|unfold is_u32; lia|done].
    cbv zeta. cbn [c_remoteWin set_sentClose c_remoteId c_maxRemotePayload].
    replace (w_win (c_remoteWin c) <? len data) with false by lia. reflexivity.
  - apply chunks_spec. lia.
  - cbn [s_enc set_enc put_ch set_heap]. rewrite emit_app. cbn [app]. unfold data_frames.
    unfold window_part. rewrite Z.min_r, take_ge by (unfold len in *; lia). done.
Qed.

Lemma write_after_close_sends_witness :
  ∃ s' pieces,
    (_ ← channel_Close 0; channel_Write 5 0 [x68; x69]) demo_session = (Ret (2, None), s') ∧
    mjoin pieces = [x68; x69] ∧
    s_enc s' = emit (CloseMessage 7 :: ((λ p, DataMessage 7 (len p) p) <$> pieces)) (mkWriter [] []).
Proof.
  apply (write_after_close_sends 5 0 [x68; x69] demo_channel demo_session);
    [done|done|done|by constructor|by vm_compute|done|by vm_compute|by vm_compute|].
  apply Nat.ltb_lt. by vm_compute.
Defined.

(** C40. And the peer pays for it with its whole session: once its loop has
    handled the close frame (for a channel that is past [newChannel]), the data frame that follows names no channel, and
    [onePacket] fails, which tears every other channel down. *)
Theorem data_after_close_ends_session s n ts hs (i : nat) l d rest e acc acc' :
  sess_inv s n LRun ts hs → Z.of_nat n < 2 ^ 32 - 1 →
  s_chans s !! i = Some (Some l) → names ts !! l = None → is_u32 (len d) →
  ∃ s1 s2 err,
    session_onePacket acc
      (feed (CloseMessage (Z.of_nat i)) (Message_Bytes (DataMessage (Z.of_nat i) (len d) d) ++ rest) e s)
      = (Ret None, s1) ∧
    session_onePacket acc' s1 = (Ret (Some err), s2) ∧
    session_onePacket acc' (feed (CloseMessage (Z.of_nat i)) rest e s) =
      (Ret None, set_dec (mkReader rest e) s1).
Proof.
  intros Hinv Hn Hi Hnm Hd.
  pose proof (si_table _ _ _ _ _ Hinv _ _ Hi) as (ch & Hl & Hid & Hopen).
  unfold chan_id in Hid. rewrite Hnm in Hid. cbn in Hid.
  pose proof (si_small _ _ _ _ _ Hinv) as Hsm. pose proof (lookup_lt_Some _ _ _ Hi) as Hlt.
  assert (is_u32 (Z.of_nat i)) as Hu by (unfold is_u32, len in *; lia).
  assert (∀ r, chanList_getChan (Z.of_nat i) (s_chans (set_dec r s)) = Some l) as Hget.
  { intros r. cbn. rewrite getChan_lookup, Nat2Z.id, Hi by (unfold chanList_small; lia). done. }
  set (m := DataMessage (Z.of_nat i) (len d) d).
  pose proof (λ r, handle_close_eq l (Z.of_nat i) ch (set_dec r s) Hl Hopen) as Hh.
  eexists _, _, _. split; [|split].
  - rewrite onePacket_feed by done. cbv beta iota zeta. rewrite dispatch_eq.
    cbn [Message_Channel fst]. rewrite Hget. apply Hh.
  - erewrite (onePacket_next m rest e); [|done|by destruct (c_sentClose ch)].
    cbv beta iota zeta delta [m]. rewrite dispatch_eq. cbn [Message_Channel fst].
    match goal with |- context [chanList_getChan ?j ?cs] =>
      replace (chanList_getChan j cs) with (@None chan_ptr) end; [reflexivity|].
    cbn [s_chans set_dec put_ch set_heap set_chans]. rewrite Hid. symmetry.
    rewrite getChan_lookup; [|unfold chanList_small; rewrite chanList_remove_len;
      destruct (c_sentClose ch); cbn; lia|lia].
    rewrite chanList_remove_lookup; [|destruct (c_sentClose ch); cbn; unfold chanList_small; lia|lia].
    by rewrite decide_True.
  - rewrite onePacket_feed by done. cbv beta iota zeta. rewrite dispatch_eq.
    cbn [Message_Channel fst]. rewrite Hget, Hh. by destruct (c_sentClose ch).
Qed.

Lemma demo_inv :
  sess_inv (g_sess demo) 8 LRun (g_threads demo) (g_handles demo).
Proof.
  pose proof (reach_inv 8 demo demo_reach ltac:(by vm_compute)) as H. unfold sys_inv in H.
  replace (g_loop demo) with LRun in H by (by vm_compute). exact H.
Qed.

Lemma data_after_close_ends_session_witness :
  s_chans (g_sess demo) !! 0%nat = Some (Some 0%nat) ∧
  ∃ s1 s2 err,
    session_onePacket true
      (feed (CloseMessage 0) (Message_Bytes (DataMessage 0 1 [x2a]) ++ []) io_EOF (g_sess demo))
      = (Ret None, s1) ∧
    session_onePacket true s1 = (Ret (Some err), s2).
Proof.
  split; [by vm_compute|].
  destruct (data_after_close_ends_session (g_sess demo) 8 (g_threads demo) (g_handles demo)
    0 0 [x2a] [] io_EOF true true demo_inv) as (s1 & s2 & err & H1 & H2 & _);
    [by vm_compute..|].
  exists s1, s2, err. exact (conj H1 H2).
Defined.

(** ** A close frame that comes too early *)

(** Two goroutines have called [Open] and are back from [chans.add], the ids not
    written yet; the peer's bytes close channel 1 twice. *)
Definition two_opening : config :=
  default (initial (mkWriter [] []) (mkReader [] io_EOF))
    (scenario [AOpen; AOpen] (initial (mkWriter [] [])
       (mkReader (mjoin (Message_Bytes <$> [CloseMessage 1; CloseMessage 1])) io_EOF))).

(** [newChannel] enters the channel in the table before it writes its id, and
    nothing orders the two with the loop. A close frame that comes in between
    finds the channel in slot 1, closes its queue, and then clears slot 0, which
    is the channel's id so far: slot 1 keeps a closed channel, another channel
    is gone from the table, and the next close frame, or the end of the loop,
    panics with a close of a closed queue. *)
Theorem early_close_panics :
  reach 2 two_opening ∧ early ALoop two_opening = true ∧
  ∃ c, exec ALoop two_opening = (Ret tt, c) ∧
    s_chans (g_sess c) = [None; Some 1%nat] ∧
    (ch_closed ∘ c_msg <$> s_heap (g_sess c) !! 1%nat) = Some true ∧
    (exec ALoop c).1 = Panic "close of closed channel" ∧
    (session_teardown io_EOF (g_sess c)).1 = Panic "close of closed channel".
Proof.
  split; [|split; [by vm_compute|]].
  - apply (initial_scenario [AOpen; AOpen] (mkWriter [] [])
      (mkReader (mjoin (Message_Bytes <$> [CloseMessage 1; CloseMessage 1])) io_EOF)).
    by vm_compute.
  - eexists. split; [vm_compute; reflexivity|]. split_and!; by vm_compute.
Qed.

(** ** Open requests nobody accepts *)

(** An open request that is not accepted within the timeout costs a table
    slot for the rest of the session: the peer is told the open failed, so it
    frees its own channel, yet the channel made for it stays in the table under
    an id no one will ever close, and the next channel gets another id. *)
Theorem open_timeout_leaks_slot s sender maxp win :
  ready s → packet_size_ok maxp = true →
  ∃ s' id,
    session_handleOpen sender win maxp false s = (Ret None, s') ∧
    s_enc s' = emit [OpenFailureMessage sender] (s_enc s) ∧ s_inbox s' = None ∧
    chanList_getChan id (s_chans s) = None ∧
    chanList_getChan id (s_chans s') = Some (s_fresh s) ∧
    (∀ l, (chanList_add l (s_chans s')).1 ≠ id ∨ ¬ chanList_small (s_chans s')).
Proof.
  intros [Ht Hw] Hp. destruct (add_id s Ht) as (Hu & Hfree & Hget).
  set (id := (chanList_add (s_fresh s) (s_chans s)).1) in *.
  assert (session_handleOpen sender win maxp false s =
    (Ret None, set_enc (emit [OpenFailureMessage sender] (s_enc s))
       (set_inbox None (added (offered_channel sender win maxp) s)))) as Hrun.
  { unfold session_handleOpen. pose proof (handleOpen_begin_eq sender win maxp s) as Hb.
    rewrite Hp in Hb. rewrite (bind_eq _ _ _ _ _ Hb). erewrite bind_eq by reflexivity.
    rewrite (handleOpen_end_eq _ sender false _
      (set_inbox (Some (s_fresh s)) (added (offered_channel sender win maxp) s))
      (heap_added (offered_channel sender win maxp) s)). cbv zeta.
    change (s_enc (set_inbox _ (added _ s))) with (s_enc s). by rewrite Encode_ok. }
  eexists _, id. split; [exact Hrun|]. split_and!; [done..|exact Hget|].
  intros l. destruct (decide (chanList_small (chanList_add (s_fresh s) (s_chans s)).2)) as [Hs|Hs];
    [left|by right].
  intros Heq. destruct (chanList_add_spec l _ Hs) as (j & Hadd & Hj & _).
  cbn [s_chans set_enc set_inbox added entered set_chans] in Heq. rewrite Hadd in Heq. cbn [fst] in Heq.
  rewrite getChan_lookup in Hget by (done || apply Hu). rewrite <- Heq, Nat2Z.id in Hget.
  rewrite Hget in Hj. done.
Qed.

Lemma open_timeout_leaks_slot_witness :
  ready demo_peer ∧ packet_size_ok 32768 = true ∧
  ∃ s' id, session_handleOpen 4 1024 32768 false demo_peer = (Ret None, s') ∧
    chanList_getChan id (s_chans s') = Some 2%nat.
Proof.
  assert (ready demo_peer) as H by (split; [by vm_compute|by constructor]).
  split; [exact H|]. split; [reflexivity|].
  destruct (open_timeout_leaks_slot demo_peer 4 32768 1024 H eq_refl)
    as (s' & id & H1 & _ & _ & _ & H2 & _).
  exists s', id. exact (conj H1 H2).
Defined.

(** ** Accept after the session ended *)

(** Only one [Accept] ever learns that the session is over: in the state
    the end of the loop leaves, one call returns [io.EOF], and in the state it
    leaves neither case of the select of the next call can ever be taken. *)
Theorem one_accept_sees_the_end s err :
  s_inbox s = None →
  ∃ s', session_Accept false (torn_down err s) = (Ret (Err io_EOF), s') ∧
    session_Accept false s' = (Block, s') ∧ session_Accept true s' = (Block, s').
Proof.
  intros Hin. eexists. split; [reflexivity|]. split; [reflexivity|].
  unfold session_Accept. mred. by rewrite Hin.
Qed.

Lemma one_accept_sees_the_end_witness :
  s_inbox demo_peer = None ∧
  ∃ s', session_Accept false (torn_down io_EOF demo_peer) = (Ret (Err io_EOF), s') ∧
    session_Accept false s' = (Block, s') ∧ session_Accept true s' = (Block, s').
Proof. split; [reflexivity|]. by apply (one_accept_sees_the_end demo_peer io_EOF). Defined.

(** ** Writes of 4 GiB *)

(** What [min(ch.maxRemotePayload, len(data))] gives when [len(data)] is a
    positive multiple of [2^32]. *)
Lemma go_min_multiple a k : 0 ≤ a → go_min a (k * 2 ^ 32) = 0.
Proof.
  intros Ha. unfold go_min, u32. rewrite Z.mod_mul by lia. case_cmp; lia.
Qed.

Lemma reserve_nothing w :
  window_wf w → 0 < w_win w → w_closed w = false → window_reserve 0 w = (Ret (0, None), w).
Proof.
  intros Hw Hp Hc. rewrite window_reserve_spec by (done || unfold is_u32; lia).
  unfold window_wf, is_u32 in Hw. cmp_false. rewrite Z.min_r, Hc, Z.sub_0_r by lia.
  destruct w; cbn in *. by rewrite Hc.
Qed.

Lemma Write_loop_stuck fuel l data k n c s :
  s_heap s !! l = Some c → writer_ok (s_enc s) → window_wf (c_remoteWin c) →
  0 < w_win (c_remoteWin c) → w_closed (c_remoteWin c) = false →
  0 ≤ c_maxRemotePayload c → len data = k * 2 ^ 32 → 0 < k →
  channel_Write_loop fuel l data n s =
    (NoFuel, set_enc (emit (replicate fuel (DataMessage (c_remoteId c) 0 [])) (s_enc s)) s).
Proof.
  intros Hl Hok Hw Hp Hopen Hm Hlen Hk. revert n s Hl Hok.
  induction fuel as [|fuel IH]; intros n s Hl Hok.
  { cbn [channel_Write_loop replicate]. rewrite emit_nil. by destruct s. }
  cbn [channel_Write_loop]. rewrite Hlen. cmp_false. mderef.
  rewrite go_min_multiple by done.
  pose proof (on_remoteWin_eq l _ _ s _ _ Hl (reserve_nothing _ Hw Hp Hopen)) as Hres.
  rewrite put_ch_id in Hres by (rewrite Hl; f_equal; by destruct c).
  rewrite (bind_eq _ _ _ _ _ Hres). cbv beta iota.
  change (take (Z.to_nat 0) data) with (@nil byte). mderef.
  erewrite bind_eq by by apply encode_ok_eq. cbv beta iota.
  change (drop (length (@nil byte)) data) with data. rewrite IH; [|done|cbn; auto with qtalk].
  cbn [s_enc set_enc]. rewrite emit_app. by destruct s.
Qed.

(** A [Write] whose length is a positive multiple of [2^32] never ends
    and never sends a byte of its data: [min] cuts the length to 32 bits, so
    each turn reserves nothing, sends an empty data frame and starts over. *)
Theorem write_4GiB_never_ends fuel l data k c s :
  s_heap s !! l = Some c → c_sentEOF c = false → writer_ok (s_enc s) →
  window_wf (c_remoteWin c) → 0 < w_win (c_remoteWin c) →
  w_closed (c_remoteWin c) = false → 0 ≤ c_maxRemotePayload c →
  len data = k * 2 ^ 32 → 0 < k →
  channel_Write fuel l data s =
    (NoFuel, set_enc (emit (replicate fuel (DataMessage (c_remoteId c) 0 [])) (s_enc s)) s).
Proof.
  intros Hl He **. unfold channel_Write. mderef. rewrite He. by eapply Write_loop_stuck.
Qed.

Lemma write_4GiB_never_ends_witness :
  ∃ s', channel_Write 3 0 (replicate (Z.to_nat (2 ^ 32)) x00) demo_session = (NoFuel, s').
Proof.
  eexists. apply (write_4GiB_never_ends 3 0 _ 1 demo_channel demo_session);
    [reflexivity|reflexivity|by constructor|by vm_compute|reflexivity|reflexivity|by vm_compute| |lia].
  unfold len. rewrite length_replicate. lia.
Defined.

(** ** Open while the session ends *)

(** Channel [l] waits for an answer: allocated, its queue open and empty. *)
Definition waiting (l : chan_ptr) (s : session) : Prop :=
  (l < s_fresh s)%nat ∧ ∃ ch, s_heap s !! l = Some ch ∧
    ch_buf (c_msg ch) = [] ∧ ch_closed (c_msg ch) = false.

(** Once the loop is done, no code changes that. *)
Section waiting.
Context (l : chan_ptr).

Definition pres {A} (m : MS A) : Prop := ∀ s, waiting l s → waiting l (m s).2.

Lemma pres_ret {A} (a : A) : pres (mret a).
Proof. by intros s. Qed.

Lemma pres_bind {A C} (m : MS A) (k : A → MS C) :
  pres m → (∀ a, pres (k a)) → pres (m ≫= k).
Proof.
  intros Hm Hk s Hs. unfold mbind, M_bind. specialize (Hm s Hs).
  destruct (m s) as [[a| | |] s']; cbn in *; try done. by apply Hk.
Qed.

Lemma pres_deref k : pres (deref k).
Proof. intros s. unfold deref. by destruct (s_heap s !! k). Qed.

Lemma pres_assign k g : (∀ c, c_msg (g c) = c_msg c) → pres (assign k g).
Proof.
  intros Hg s (Hf & ch & Hl & Hb & Hc). split; [done|]. cbn.
  destruct (decide (k = l)) as [->|].
  - exists (g ch). by rewrite lookup_alter_eq, Hl, Hg.
  - exists ch. by rewrite lookup_alter_ne.
Qed.

Lemma pres_encode m : pres (encode m).
Proof. intros s. by rewrite encode_eq. Qed.

Lemma pres_on_remoteWin {A} k (m : M window A) : pres (on_remoteWin k m).
Proof.
  apply pres_bind; [apply pres_deref|]. intros c s. unfold st. destruct (m _).
  by apply (pres_assign k).
Qed.

Lemma pres_on_pending {A} k (m : M buffer A) : pres (on_pending k m).
Proof.
  apply pres_bind; [apply pres_deref|]. intros c s. unfold st. destruct (m _).
  by apply (pres_assign k).
Qed.

Lemma pres_newChannel_add dir : pres (session_newChannel_add dir).
Proof.
  intros s (Hf & ch & Hl & H). rewrite newChannel_add_eq. cbn [snd].
  split; [unfold entered; cbn; lia|]. exists ch. split; [|done].
  rewrite entered_heap_ne; [done|lia].
Qed.

Lemma pres_Accept b : pres (session_Accept b).
Proof.
  intros s Hs. unfold session_Accept. mred. destruct b; [by destruct (s_inbox s)|].
  by destruct (chan_recv _) as [[? ?]| | |].
Qed.

Lemma pres_Open_wait k done : pres (session_Open_wait k done).
Proof.
  intros s (Hf & ch & Hl & Hb & Hc). unfold session_Open_wait. destruct done; [by split; [|exists ch]|].
  destruct (s_heap s !! k) as [c|] eqn:Hk.
  - pose proof (Open_wait_eq k None c s Hk) as Hw. unfold session_Open_wait in Hw. rewrite Hw.
    destruct (decide (k = l)) as [->|Hne].
    + simplify_eq. rewrite Hb, Hc. split; [done|]. by eexists.
    + destruct (ch_buf (c_msg c));
        [destruct (ch_closed (c_msg c)); (split; [done|by exists ch])|].
      split; [done|]. exists ch. cbn [snd]. by rewrite heap_put_ch_ne.
  - unfold on_msg, mbind, M_bind, deref. rewrite Hk. by split; [|exists ch].
Qed.
End waiting.

Create HintDb pres.
#[export] Hint Resolve pres_ret pres_deref pres_encode pres_on_remoteWin pres_on_pending
  pres_newChannel_add pres_Accept pres_Open_wait : pres.
#[export] Hint Extern 2 (pres _ (assign _ _)) => (apply pres_assign; done) : pres.

Ltac pres_tac :=
  repeat first
    [ solve [auto with pres]
    | apply pres_bind; [|intros]
    | match goal with
      | |- pres _ (if ?b then _ else _) => destruct b
      | |- pres _ (match ?x with _ => _ end) => destruct x
      end ].

(** A session whose loop is done, with an [Open] left waiting. *)
Definition stranded (l : chan_ptr) (c : config) : Prop :=
  g_loop c = LDone ∧ waiting l (g_sess c).

Lemma run_stranded {A} l (m : MS A) c k :
  pres l m → stranded l c → (∀ a c', stranded l c' → stranded l (k a c').2) →
  stranded l (run m c k).2.
Proof.
  intros Hm [Hp Hs] Hk. unfold run. specialize (Hm _ Hs).
  destruct (m (g_sess c)) as [[a| | |] s']; try by split. by apply Hk.
Qed.

Lemma write_turn_stranded l k data n cont ret c :
  stranded l c → (∀ t c', stranded l c' → stranded l (cont t c')) →
  (∀ c', stranded l c' → stranded l (ret c')) →
  stranded l (write_turn k data n cont ret c).2.
Proof.
  intros Hc Hcont Hret. unfold write_turn. case_cmp; [by apply Hret|].
  apply run_stranded; [auto with pres|done|]. intros ch c1 Hc1.
  apply run_stranded; [auto with pres|done|]. intros _ c2 Hc2. by apply Hcont.
Qed.

Lemma exec_thread_stranded l i done c : stranded l c → stranded l (exec_thread i done c).2.
Proof.
  intros Hc. unfold exec_thread.
  destruct (_ !! i) as [[k id|k|k|k d n w|k d n sp|k out]|]; [..|done].
  - apply run_stranded; [pres_tac|done|]. by intros ? c' Hc'.
  - apply run_stranded; [unfold session_Open_send; pres_tac|done|]. by intros [] c' Hc'.
  - apply run_stranded; [auto with pres|done|]. by intros [] c' Hc'.
  - apply run_stranded; [auto with pres|done|]. by intros [? []] c' Hc'.
  - apply run_stranded; [pres_tac|done|]. intros [] c' Hc'; [done|].
    by apply write_turn_stranded.
  - apply run_stranded; [unfold channel_adjustWindow, channel_send; pres_tac|done|].
    by intros ? c' Hc'.
Qed.

Lemma exec_stranded l a c : stranded l c → stranded l (exec a c).2.
Proof.
  intros Hc. pose proof Hc as [Hp _]. destruct a; cbn [exec].
  - unfold exec_loop. by rewrite Hp.
  - by rewrite Hp.
  - apply run_stranded; [auto with pres|done|]. by intros [] c' Hc'.
  - apply run_stranded; [auto with pres|done|]. intros [] c' Hc'; [|done].
    destruct Hc' as [Hp' Hw]. by rewrite Hp'.
  - case_decide; [|done]. apply run_stranded; [unfold channel_Close, channel_send; pres_tac|done|].
    by intros ? c' Hc'.
  - case_decide; [|done].
    apply run_stranded; [unfold channel_CloseWrite, channel_send; pres_tac|done|].
    by intros ? c' Hc'.
  - case_decide; [|done]. apply run_stranded; [auto with pres|done|]. intros ch c' Hc'.
    destruct (c_sentEOF ch); [done|]. by apply write_turn_stranded.
  - case_decide; [|done]. apply run_stranded; [auto with pres|done|].
    intros r c' Hc'. by destruct (_ <? _).
  - apply run_stranded; [by intros s Hs|done|]. by intros ? c' Hc'.
  - by apply exec_thread_stranded.
Qed.

Lemma scenario_stranded l acts c c' :
  stranded l c → scenario acts c = Some c' → stranded l c'.
Proof.
  revert c. induction acts as [|a acts IH]; intros c Hc Hs; cbn in Hs; [by simplify_eq|].
  destruct (early a c); [done|]. pose proof (exec_stranded l a c Hc) as Hc1. destruct (exec a c) as [o c1].
  apply (IH c1); [done|]. by destruct o.
Qed.

(** An [Open] between the two last steps of the loop: [dropAll] has emptied the
    table, [t.Close] has not run. *)
Definition late_open : list action :=
  [ALoop; ALoop; AOpen; AThread 0 None; AThread 0 None; ALoop].

Definition hung : config :=
  default (initial (mkWriter [] []) (mkReader [] io_EOF))
    (scenario late_open (initial (mkWriter [] []) (mkReader [] io_EOF))).

(** An [Open] can wait for ever on a session that is gone: when the request
    is sent after [dropAll] took the channels to close and before the transport
    is closed, [Open] is in a state of a finished session (loop done, transport
    closed, error recorded) from which no sequence of steps ever lets its
    receive return. *)
Theorem open_during_shutdown_hangs :
  reach 6 hung ∧ g_loop hung = LDone ∧ s_tclosed (g_sess hung) = 1%nat ∧
  s_err (g_sess hung) = Some io_EOF ∧ g_threads hung = [TOpen 0] ∧
  ∀ acts c i, scenario acts hung = Some c → g_threads c !! i = Some (TOpen 0) →
    (exec (AThread i None) c).1 = Block.
Proof.
  split; [|split_and!; [by vm_compute..|]].
  - apply (initial_scenario late_open (mkWriter [] []) (mkReader [] io_EOF)). by vm_compute.
  - intros acts c i Hs Hi.
    assert (stranded 0 hung) as Hst.
    { split; [by vm_compute|]. split; [apply Nat.ltb_lt; by vm_compute|].
      eexists. split; [by vm_compute|by split; vm_compute]. }
    destruct (scenario_stranded 0 acts hung c Hst Hs) as (_ & _ & ch & Hl & Hb & Hc).
    cbn [exec]. unfold exec_thread. rewrite Hi. unfold run.
    by rewrite (Open_wait_eq 0 None ch _ Hl), Hb, Hc.
Qed.
