(* ===== verification/RespondMux.v ===== *)
(** * rpc/handler.go: the RPC call multiplexer

    [RespondMux] routes a selector to a handler. Muxes are Go pointers and can
    be registered in each other, so they live in a heap; [Match] follows them
    with fuel. [F] is the type of handler functions. *)
From Stdlib Require Import Ascii String.
From S2P Require Import Prelude GoRuntime.

Local Open Scope string_scope.

(** ** Package strings *)

Definition slash : Ascii.ascii := "/"%char.

(** [strings.ReplaceAll(s, ".", "/")]. *)
Fixpoint replace_dots (s : string) : string :=
  match s with
  | EmptyString => EmptyString
  | String c s => String (if Ascii.eqb c "." then slash else c) (replace_dots s)
  end.

(** What follows [p] in [s], if [s] begins with [p]. *)
Fixpoint CutPrefix (s p : string) {struct p} : option string :=
  match p, s with
  | EmptyString, _ => Some s
  | String a p, String b s => if Ascii.eqb a b then CutPrefix s p else None
  | String _ _, EmptyString => None
  end.

(** [strings.HasPrefix(s, p)]. *)
Definition HasPrefix (s p : string) : bool := bool_decide (is_Some (CutPrefix s p)).

(** [strings.TrimPrefix(s, p)]. *)
Definition TrimPrefix (s p : string) : string := default s (CutPrefix s p).

(** [s[len(s)-1] == '/'], for a string that is not empty. *)
Fixpoint ends_slash (s : string) : bool :=
  match s with
  | EmptyString => false
  | String c EmptyString => Ascii.eqb c slash
  | String _ s => ends_slash s
  end.

(** [cleanSelector(s)]. *)
Definition cleanSelector (s : string) : string :=
  match s with
  | EmptyString => "/"
  | String c _ => replace_dots (if Ascii.eqb c slash then s else "/" +:+ s)
  end.

(** ** sort.Search *)

(** The loop of [sort.Search] on [[i, j)]. *)
Fixpoint sort_Search_loop (fuel : nat) (f : nat → bool) (i j : nat) : nat :=
  match fuel with
  | O => i
  | S fuel =>
      if (i <? j)%nat then
        let h := ((i + j) / 2)%nat in
        if f h then sort_Search_loop fuel f i h else sort_Search_loop fuel f (S h) j
      else i
  end.

(** [sort.Search(n, f)]; the interval shrinks at every turn. *)
Definition sort_Search (n : nat) (f : nat → bool) : nat := sort_Search_loop n f 0 n.

Section mux.
Context {F : Type}.

Abbreviation mux_ptr := nat.

(** ** State *)

(** A [Handler]: a function, a mux (the implementation of [matcher]), or what
    [NotFoundHandler()] makes. *)
Inductive Handler :=
| HandlerFunc (f : F)
| SubMux (m : mux_ptr)
| NotFoundHandler.

(** [type muxEntry struct]; [None] is the nil handler of a zero entry. *)
Record muxEntry := mkEntry {
  e_h : option Handler;
  e_pattern : string;
}.

(** [type RespondMux struct]; a nil map and an empty one behave alike. *)
Record RespondMux := mkMux {
  m_m : gmap string muxEntry;
  m_es : list muxEntry;
}.

(** The muxes by address. *)
Abbreviation muxes := (gmap mux_ptr RespondMux).

Definition NewRespondMux : RespondMux := mkMux ∅ [].

(** ** Operations *)

Definition pattern_len (e : muxEntry) : nat := String.length (e_pattern e).

(** [copy(es[i+1:], es[i:])], the slices overlapping. *)
Definition copy_down (i : nat) (es : list muxEntry) : list muxEntry :=
  take (S i) es ++ take (length es - S i) (drop i es).

(** [appendSorted(es, e)]. *)
Definition appendSorted (es : list muxEntry) (e : muxEntry) : list muxEntry :=
  let n := length es in
  let i := sort_Search n (λ i, match es !! i with
                               | Some x => (pattern_len x <? pattern_len e)%nat
                               | None => true
                               end) in
  if (i =? n)%nat then es ++ [e]
  else <[i := e]> (copy_down i (es ++ [mkEntry None ""])).

(** [Handle(pattern, handler)] on the mux at [p]. *)
Definition Handle (p : mux_ptr) (pattern : string) (handler : option Handler)
    : M muxes unit := λ ms,
  match ms !! p with
  | None => (Panic "nil pointer dereference", ms)
  | Some m =>
      let pattern := cleanSelector pattern in
      let pattern :=
        match handler with
        | Some (SubMux _) => if ends_slash pattern then pattern else pattern +:+ "/"
        | _ => pattern
        end in
      match handler with
      | None => (Panic "rpc: nil handler", ms)
      | Some _ =>
          match m_m m !! pattern with
          | Some _ => (Panic ("rpc: multiple registrations for " +:+ pattern), ms)
          | None =>
              let e := mkEntry handler pattern in
              (Ret tt, <[p := mkMux (<[pattern := e]> (m_m m))
                               (if ends_slash pattern then appendSorted (m_es m) e
                                else m_es m)]> ms)
          end
      end
  end.

(** [Remove(selector)]. *)
Definition Remove (p : mux_ptr) (selector : string) : M muxes (option Handler) := λ ms,
  match ms !! p with
  | None => (Panic "nil pointer dereference", ms)
  | Some m =>
      let selector := cleanSelector selector in
      (Ret (m_m m !! selector ≫= e_h),
       <[p := mkMux (delete selector (m_m m)) (m_es m)]> ms)
  end.

(** The first entry of [es] whose pattern is a prefix. *)
Fixpoint first_prefix (selector : string) (es : list muxEntry) : option muxEntry :=
  match es with
  | [] => None
  | e :: es => if HasPrefix selector (e_pattern e) then Some e else first_prefix selector es
  end.

(** [Match(selector)]; [fuel] bounds the muxes followed. *)
Fixpoint Match (fuel : nat) (ms : muxes) (p : mux_ptr) (selector : string)
    : outcome (option Handler * string) :=
  match fuel with
  | O => NoFuel
  | S fuel =>
      match ms !! p with
      | None => Panic "nil pointer dereference"
      | Some m =>
          let selector := cleanSelector selector in
          match m_m m !! selector with
          | Some v => Ret (e_h v, e_pattern v)
          | None =>
              match first_prefix selector (m_es m) with
              | Some e =>
                  match e_h e with
                  | Some (SubMux q) => Match fuel ms q (TrimPrefix selector (e_pattern e))
                  | h => Ret (h, e_pattern e)
                  end
              | None => Ret (None, "")
              end
          end
      end
  end.

(** [Handler(c)], [selector] being [c.Selector]. *)
Definition mux_Handler (fuel : nat) (ms : muxes) (p : mux_ptr) (selector : string)
    : outcome (Handler * string) :=
  match Match fuel ms p selector with
  | Ret (Some h, pattern) => Ret (h, pattern)
  | Ret (None, _) => Ret (NotFoundHandler, "")
  | Block => Block
  | Panic e => Panic e
  | NoFuel => NoFuel
  end.

(** [RespondRPC(r, c)] of a mux: the handler that will run. A mux found under
    an exact pattern runs on the call's whole selector again. *)
Fixpoint mux_resolve (fuel : nat) (ms : muxes) (h : Handler) (selector : string)
    : outcome Handler :=
  match h with
  | SubMux p =>
      match fuel with
      | O => NoFuel
      | S fuel =>
          match mux_Handler (S fuel) ms p selector with
          | Ret (h, _) => mux_resolve fuel ms h selector
          | Block => Block
          | Panic e => Panic e
          | NoFuel => NoFuel
          end
      end
  | _ => Ret h
  end.
End mux.

Arguments Handler : clear implicits.
Arguments muxEntry : clear implicits.
Arguments RespondMux : clear implicits.
