(* ===== verification/RespondMuxSpec.v ===== *)
(** * What a RespondMux promises

    Canonical selectors, the order of the pattern slice, the routing rule
    ([routes]) and the proof that [Match] implements it on every heap of muxes
    built with [NewRespondMux] and [Handle]; then what [Remove] leaves. *)
From Stdlib Require Import Ascii String.
From S2P Require Import Prelude GoRuntime RespondMux.

Local Open Scope string_scope.

(** ** Strings *)

Lemma append_cons a p r : String a p +:+ r = String a (p +:+ r).
Proof. done. Qed.

Lemma CutPrefix_Some s p r : CutPrefix s p = Some r ↔ s = p +:+ r.
Proof.
  revert s. induction p as [|a p IH]; intros s; cbn [CutPrefix].
  { change ("" +:+ r) with r. split; congruence. }
  change (String a p +:+ r) with (String a (p +:+ r)).
  destruct s as [|b s]; [split; congruence|].
  destruct (Ascii.eqb_spec a b) as [->|Hne]; [rewrite IH|]; split; congruence.
Qed.

Lemma HasPrefix_true s p : HasPrefix s p = true ↔ ∃ r, s = p +:+ r.
Proof.
  unfold HasPrefix. rewrite bool_decide_eq_true. unfold is_Some.
  setoid_rewrite CutPrefix_Some. done.
Qed.

Lemma TrimPrefix_app p r : TrimPrefix (p +:+ r) p = r.
Proof. unfold TrimPrefix. by rewrite (proj2 (CutPrefix_Some _ _ r)). Qed.

Lemma length_append p r : String.length (p +:+ r) = (String.length p + String.length r)%nat.
Proof. induction p as [|a p IH]; [done|]. rewrite append_cons. cbn. by rewrite IH. Qed.

Lemma append_inj_length p p' r r' :
  String.length p = String.length p' → p +:+ r = p' +:+ r' → p = p' ∧ r = r'.
Proof.
  revert p'. induction p as [|c p IH]; intros [|c' p'] Hl; try done.
  injection Hl as Hl. rewrite !append_cons. intros [= -> H].
  by destruct (IH p' Hl H) as [-> ->].
Qed.

(** Two prefixes of one string that have the same length are equal. *)
Lemma HasPrefix_unique s p p' :
  HasPrefix s p = true → HasPrefix s p' = true → String.length p = String.length p' → p = p'.
Proof.
  intros (r & Hr)%HasPrefix_true (r' & Hr')%HasPrefix_true Hl.
  rewrite Hr in Hr'. by apply append_inj_length in Hr' as [-> _].
Qed.

Fixpoint no_dot (s : string) : bool :=
  match s with
  | EmptyString => true
  | String c s => negb (Ascii.eqb c ".") && no_dot s
  end.

(** A canonical selector: it starts with a slash and has no dot. *)
Definition canonical (s : string) : bool :=
  match s with
  | String c _ => Ascii.eqb c slash && no_dot s
  | EmptyString => false
  end.

Lemma no_dot_replace s : no_dot (replace_dots s) = true.
Proof.
  induction s as [|c s IH]; [done|]. cbn. rewrite IH, andb_true_r.
  destruct (Ascii.eqb_spec c "."); [done|]. by destruct (Ascii.eqb_spec c ".").
Qed.

Lemma replace_no_dot s : no_dot s = true → replace_dots s = s.
Proof.
  induction s as [|c s IH]; [done|]. cbn. rewrite andb_true_iff.
  destruct (Ascii.eqb_spec c "."); [by intros []|]. intros [_ H]. by rewrite IH.
Qed.

Lemma cleanSelector_canonical s : canonical (cleanSelector s) = true.
Proof.
  destruct s as [|c s]; [done|]. cbn [cleanSelector].
  destruct (Ascii.eqb_spec c slash) as [->|Hc].
  - cbn. apply no_dot_replace.
  - exact (no_dot_replace (String c s)).
Qed.

(** The pattern "/" is a prefix of every selector. *)
Lemma HasPrefix_root s : HasPrefix (cleanSelector s) "/" = true.
Proof.
  pose proof (cleanSelector_canonical s) as Hc.
  destruct (cleanSelector s) as [|c r]; [done|]. cbn in Hc. apply andb_prop in Hc as [Hc _].
  apply HasPrefix_true. exists r. by destruct (Ascii.eqb_spec c slash) as [->|].
Qed.

Lemma cleanSelector_id s : canonical s = true → cleanSelector s = s.
Proof.
  destruct s as [|c s]; [done|]. cbn [canonical cleanSelector]. rewrite andb_true_iff.
  intros [-> H]. by apply replace_no_dot.
Qed.

Lemma no_dot_slash s : no_dot s = true → no_dot (s +:+ "/") = true.
Proof.
  induction s as [|c s IH]; [done|]. rewrite append_cons. cbn. rewrite !andb_true_iff.
  intros [-> H]. by rewrite IH.
Qed.

Lemma canonical_slash s : canonical s = true → canonical (s +:+ "/") = true.
Proof.
  destruct s as [|c s]; [done|]. rewrite append_cons. unfold canonical.
  rewrite !andb_true_iff, <- append_cons. intros [-> H]. split; [done|]. by apply no_dot_slash.
Qed.

Lemma ends_slash_app s : ends_slash (s +:+ "/") = true.
Proof.
  induction s as [|c s IH]; [done|]. rewrite append_cons. cbn. rewrite IH.
  by destruct (s +:+ "/").
Qed.

(** ** sort.Search *)

Lemma sort_Search_loop_spec fuel f n i j :
  (∀ a b : nat, (a ≤ b < n)%nat → f a = true → f b = true) →
  (i ≤ j ≤ n)%nat → (j - i ≤ fuel)%nat →
  (∀ k, (k < i)%nat → f k = false) → (∀ k, (j ≤ k < n)%nat → f k = true) →
  let r := sort_Search_loop fuel f i j in
  (r ≤ n)%nat ∧ (∀ k, (k < r)%nat → f k = false) ∧ (∀ k, (r ≤ k < n)%nat → f k = true).
Proof.
  intros Hmono. revert i j. induction fuel as [|fuel IH]; intros i j Hij Hfuel Hlo Hhi;
    cbn [sort_Search_loop].
  { split_and!; [lia|done|]. intros k Hk. apply Hhi. lia. }
  destruct (Nat.ltb_spec i j) as [Hlt|Hge].
  2: { split_and!; [lia|done|]. intros k Hk. apply Hhi. lia. }
  assert (i ≤ (i + j) / 2 < j)%nat as Hh
    by (pose proof (Nat.div_mod (i + j) 2 ltac:(lia));
        pose proof (Nat.mod_upper_bound (i + j) 2 ltac:(lia)); lia).
  set (h := ((i + j) / 2)%nat) in *. destruct (f h) eqn:Ef.
  - apply IH; [lia|lia|done|]. intros k Hk. apply (Hmono h k); [lia|done].
  - apply IH; [lia|lia| |done]. intros k Hk. destruct (f k) eqn:Ek; [|done].
    rewrite (Hmono k h) in Ef; [done|lia|done].
Qed.

(** The smallest index where a monotone predicate holds. *)
Lemma sort_Search_spec n f :
  (∀ a b : nat, (a ≤ b < n)%nat → f a = true → f b = true) →
  let r := sort_Search n f in
  (r ≤ n)%nat ∧ (∀ k, (k < r)%nat → f k = false) ∧ (∀ k, (r ≤ k < n)%nat → f k = true).
Proof.
  intros Hmono. apply sort_Search_loop_spec; [done|lia|lia|..]; intros k Hk; lia.
Qed.

Local Close Scope string_scope.

Section spec.
Context {F : Type}.

Abbreviation Handler := (RespondMux.Handler F).
Abbreviation muxEntry := (RespondMux.muxEntry F).
Abbreviation RespondMux := (RespondMux.RespondMux F).
Abbreviation muxes := (gmap nat RespondMux).

(** ** The pattern slice *)

(** Sorted from longest to shortest pattern. *)
Definition sorted_desc (es : list muxEntry) : Prop :=
  ∀ (i j : nat) x y, (i ≤ j)%nat → es !! i = Some x → es !! j = Some y →
    (pattern_len y ≤ pattern_len x)%nat.

Lemma copy_down_insert i es (e z : muxEntry) :
  (i ≤ length es)%nat → <[i := e]> (copy_down i (es ++ [z])) = take i es ++ e :: drop i es.
Proof.
  intros Hi. unfold copy_down.
  assert (∃ x, take (S i) (es ++ [z]) = take i es ++ [x]) as [x Hx].
  { destruct (decide (i < length es)%nat) as [Hlt|].
    - destruct (lookup_lt_is_Some_2 es i Hlt) as [x Hx]. exists x.
      rewrite take_app_le by lia. by apply take_S_r.
    - exists z. rewrite take_ge, (take_ge es) by (rewrite ?length_app; simpl; lia). done. }
  rewrite Hx, drop_app_le by done.
  assert (take (length (es ++ [z]) - S i) (drop i es ++ [z]) = drop i es) as ->.
  { rewrite length_app. cbn [length]. rewrite take_app_le, take_ge;
      rewrite ?length_drop; try lia. done. }
  rewrite <- app_assoc, insert_app_r_alt by (rewrite length_take; lia).
  rewrite length_take, Nat.min_l, Nat.sub_diag by lia. done.
Qed.

(** The entry goes behind every pattern at least as long, before every shorter
    one. *)
Lemma appendSorted_split es e :
  sorted_desc es →
  ∃ i, (i ≤ length es)%nat ∧ appendSorted es e = take i es ++ e :: drop i es ∧
    (∀ x, x ∈ take i es → (pattern_len e ≤ pattern_len x)%nat) ∧
    (∀ x, x ∈ drop i es → (pattern_len x < pattern_len e)%nat).
Proof.
  intros Hs. unfold appendSorted.
  set (f := λ i, match es !! i with
                 | Some x => (pattern_len x <? pattern_len e)%nat | None => true end).
  destruct (sort_Search_spec (length es) f) as (Hr & Hlo & Hhi).
  { intros a b [Hab Hb] Ha. unfold f in *.
    destruct (lookup_lt_is_Some_2 es a) as [x Hx]; [lia|].
    destruct (lookup_lt_is_Some_2 es b Hb) as [y Hy]. rewrite Hx in Ha. rewrite Hy.
    pose proof (Hs a b x y Hab Hx Hy). apply Nat.ltb_lt in Ha. apply Nat.ltb_lt. lia. }
  set (r := sort_Search (length es) f) in *. exists r. split; [done|]. split.
  { destruct (Nat.eqb_spec r (length es)) as [->|]; [by rewrite take_ge, drop_ge by lia|].
    by apply copy_down_insert. }
  split.
  - intros x (k & Hk)%list_elem_of_lookup. apply lookup_take_Some in Hk as [Hk Hkr].
    specialize (Hlo k Hkr). unfold f in Hlo. rewrite Hk in Hlo. by apply Nat.ltb_ge in Hlo.
  - intros x (k & Hk)%list_elem_of_lookup. rewrite lookup_drop in Hk.
    pose proof (lookup_lt_Some _ _ _ Hk). specialize (Hhi (r + k)%nat ltac:(lia)).
    unfold f in Hhi. rewrite Hk in Hhi. by apply Nat.ltb_lt in Hhi.
Qed.

Lemma appendSorted_elem es e x :
  sorted_desc es → x ∈ appendSorted es e ↔ x = e ∨ x ∈ es.
Proof.
  intros Hs. destruct (appendSorted_split es e Hs) as (i & _ & -> & _).
  assert (x ∈ es ↔ x ∈ take i es ∨ x ∈ drop i es) as ->
    by (by rewrite <- elem_of_app, take_drop).
  rewrite elem_of_app, elem_of_cons. tauto.
Qed.

Lemma sorted_desc_app l k :
  sorted_desc l → sorted_desc k →
  (∀ x y, x ∈ l → y ∈ k → (pattern_len y ≤ pattern_len x)%nat) → sorted_desc (l ++ k).
Proof.
  intros Hl Hk Hlk i j x y Hij Hx Hy. rewrite lookup_app_Some in Hx, Hy.
  destruct Hx as [Hx|[Hi Hx]], Hy as [Hy|[Hj Hy]].
  - by apply (Hl i j).
  - apply Hlk; by eapply list_elem_of_lookup_2.
  - apply lookup_lt_Some in Hy. lia.
  - apply (Hk (i - length l) (j - length l))%nat; [lia|done|done].
Qed.

Lemma sorted_desc_take i es : sorted_desc es → sorted_desc (take i es).
Proof.
  intros Hs a b x y Hab Hx Hy. apply lookup_take_Some in Hx as [Hx _], Hy as [Hy _].
  by apply (Hs a b).
Qed.

Lemma sorted_desc_drop i es : sorted_desc es → sorted_desc (drop i es).
Proof.
  intros Hs a b x y Hab Hx Hy. rewrite lookup_drop in Hx, Hy. apply (Hs (i + a) (i + b))%nat;
    [lia|done|done].
Qed.

Lemma sorted_desc_single e : sorted_desc [e].
Proof. intros [|i] [|j] x y; simpl; try done. by intros _ [= <-] [= <-]. Qed.

Lemma appendSorted_sorted es e : sorted_desc es → sorted_desc (appendSorted es e).
Proof.
  intros Hs. destruct (appendSorted_split es e Hs) as (i & _ & -> & Hlo & Hhi).
  apply sorted_desc_app; [by apply sorted_desc_take| |].
  - apply (sorted_desc_app [e]); [apply sorted_desc_single|by apply sorted_desc_drop|].
    intros x y ->%list_elem_of_singleton Hy. specialize (Hhi y Hy). lia.
  - intros x y Hx [->|Hy]%elem_of_cons; [by apply Hlo|].
    specialize (Hlo x Hx). specialize (Hhi y Hy). lia.
Qed.

(** ** Well-formed muxes *)

(** A mux built by [Handle]: every entry is under its own canonical pattern
    with a handler; a sub-mux has a pattern that ends in a slash; the slice
    holds exactly the entries with such a pattern, longest first. *)
Record mux_wf (m : RespondMux) : Prop := {
  wf_entry : ∀ k e, m_m m !! k = Some e →
    e_pattern e = k ∧ is_Some (e_h e) ∧ canonical k = true;
  wf_sub : ∀ k e q, m_m m !! k = Some e → e_h e = Some (SubMux q) → ends_slash k = true;
  wf_es : ∀ e, e ∈ m_es m ↔ m_m m !! e_pattern e = Some e ∧ ends_slash (e_pattern e) = true;
  wf_sorted : sorted_desc (m_es m);
}.

Definition heap_wf (ms : muxes) : Prop := ∀ p m, ms !! p = Some m → mux_wf m.

Lemma NewRespondMux_wf : mux_wf NewRespondMux.
Proof.
  split; cbn; try done.
  intros e. rewrite lookup_empty. split; [by intros H%elem_of_nil|by intros []].
Qed.

(** The pattern [Handle] registers under. *)
Definition handle_pattern (pattern : string) (h : Handler) : string :=
  match h with
  | SubMux _ => if ends_slash (cleanSelector pattern) then cleanSelector pattern
                else cleanSelector pattern +:+ "/"
  | _ => cleanSelector pattern
  end.

Lemma handle_pattern_canonical pattern h : canonical (handle_pattern pattern h) = true.
Proof.
  pose proof (cleanSelector_canonical pattern). destruct h; cbn; try done.
  destruct (ends_slash _); [done|by apply canonical_slash].
Qed.

Lemma handle_pattern_sub pattern q : ends_slash (handle_pattern pattern (SubMux q)) = true.
Proof.
  cbn. destruct (ends_slash (cleanSelector pattern)) eqn:E; [done|apply ends_slash_app].
Qed.

(** The mux after a registration. *)
Definition registered (pat : string) (h : Handler) (m : RespondMux) : RespondMux :=
  let e := mkEntry (Some h) pat in
  mkMux (<[pat := e]> (m_m m)) (if ends_slash pat then appendSorted (m_es m) e else m_es m).

Lemma Handle_eq p pattern h ms m :
  ms !! p = Some m →
  Handle p pattern (Some h) ms =
    let pat := handle_pattern pattern h in
    match m_m m !! pat with
    | Some _ => (Panic ("rpc: multiple registrations for " +:+ pat), ms)
    | None => (Ret tt, <[p := registered pat h m]> ms)
    end.
Proof. intros Hp. unfold Handle. rewrite Hp. by destruct h. Qed.

Lemma registered_wf pattern h m :
  mux_wf m → m_m m !! handle_pattern pattern h = None →
  mux_wf (registered (handle_pattern pattern h) h m).
Proof.
  intros [He Hsub Hes Hs] Hnew. set (pat := handle_pattern pattern h) in *.
  pose proof (handle_pattern_canonical pattern h) as Hc. fold pat in Hc.
  split; cbn.
  - intros k e. rewrite lookup_insert_Some. intros [[<- <-]|[_ Hk]]; [|by apply He].
    by split_and!.
  - intros k e q. rewrite lookup_insert_Some. intros [[<- <-]|[_ Hk]].
    + cbn. intros [= ->]. apply handle_pattern_sub.
    + by apply Hsub.
  - intros e. rewrite lookup_insert_Some. destruct (ends_slash pat) eqn:Ep.
    + rewrite appendSorted_elem, Hes by done. split.
      * intros [->|[Hk Hse]]; [by split; [left|]|]. split; [|done]. right. split; [|done].
        intros Heq. congruence.
      * intros [[[Heq <-]|[Hne Hk]] Hse]; [by left|by right].
    + rewrite Hes. split.
      * intros [Hk Hse]. split; [|done]. right. split; [|done]. congruence.
      * intros [[[Heq <-]|[Hne Hk]] Hse]; [cbn in *; congruence|done].
  - destruct (ends_slash pat); [by apply appendSorted_sorted|done].
Qed.

(** The heaps of muxes a program that never calls [Remove] builds. *)
Inductive built : muxes → Prop :=
| built_empty : built ∅
| built_new ms p : built ms → ms !! p = None → built (<[p := NewRespondMux]> ms)
| built_handle ms ms' p pattern h :
    built ms → Handle p pattern h ms = (Ret tt, ms') → built ms'.

Lemma built_run ms p pattern h :
  built ms → (Handle p pattern h ms).1 = Ret tt → built (Handle p pattern h ms).2.
Proof.
  intros Hb Hr. eapply (built_handle ms _ p pattern h); [done|].
  by rewrite <- Hr, <- surjective_pairing.
Qed.

Lemma built_wf ms : built ms → heap_wf ms.
Proof.
  induction 1 as [|ms p Hb IH Hp|ms ms' p pattern h Hb IH Hh]; intros q m Hq.
  - by rewrite lookup_empty in Hq.
  - apply lookup_insert_Some in Hq as [[<- <-]|[_ Hq]]; [apply NewRespondMux_wf|by apply (IH q)].
  - destruct (ms !! p) as [mp|] eqn:Hp; [|unfold Handle in Hh; by rewrite Hp in Hh].
    destruct h as [h|]; [|unfold Handle in Hh; by rewrite Hp in Hh].
    rewrite (Handle_eq _ _ _ _ _ Hp) in Hh. cbv zeta in Hh.
    destruct (m_m mp !! _) eqn:En; [done|]. injection Hh as <-.
    apply lookup_insert_Some in Hq as [[<- <-]|[_ Hq]]; [|by apply (IH q)].
    apply registered_wf; [by apply (IH p)|done].
Qed.

(** ** The routing rule *)

(** [best m sel v]: [v] is registered under the longest pattern that ends in a
    slash and is a prefix of [sel]. *)
Definition candidate (m : RespondMux) (sel : string) (v : muxEntry) : Prop :=
  m_m m !! e_pattern v = Some v ∧ ends_slash (e_pattern v) = true ∧
  HasPrefix sel (e_pattern v) = true.

Definition best (m : RespondMux) (sel : string) (v : muxEntry) : Prop :=
  candidate m sel v ∧
  ∀ v', candidate m sel v' → (pattern_len v' ≤ pattern_len v)%nat.

(** Where a selector goes: to the handler of an exact pattern; else to the one
    of the longest prefix pattern, and if that is a mux, on to it with what is
    left of the selector; else nowhere. *)
Inductive routes (ms : muxes) : nat → string → option Handler * string → Prop :=
| route_exact p s m v :
    ms !! p = Some m → m_m m !! cleanSelector s = Some v →
    routes ms p s (e_h v, cleanSelector s)
| route_prefix p s m v h :
    ms !! p = Some m → m_m m !! cleanSelector s = None → best m (cleanSelector s) v →
    e_h v = Some h → (∀ q, h ≠ SubMux q) →
    routes ms p s (Some h, e_pattern v)
| route_sub p s m v q r :
    ms !! p = Some m → m_m m !! cleanSelector s = None → best m (cleanSelector s) v →
    e_h v = Some (SubMux q) →
    routes ms q (TrimPrefix (cleanSelector s) (e_pattern v)) r →
    routes ms p s r
| route_none p s m :
    ms !! p = Some m → m_m m !! cleanSelector s = None →
    (∀ v, ¬ candidate m (cleanSelector s) v) →
    routes ms p s (None, EmptyString).

Lemma first_prefix_Some sel (es : list muxEntry) e :
  first_prefix sel es = Some e →
  e ∈ es ∧ HasPrefix sel (e_pattern e) = true ∧
  (sorted_desc es → ∀ e', e' ∈ es → HasPrefix sel (e_pattern e') = true →
    (pattern_len e' ≤ pattern_len e)%nat).
Proof.
  induction es as [|x es IH]; [done|]. cbn. destruct (HasPrefix sel (e_pattern x)) eqn:Ex.
  - intros [= ->]. split_and!; [by left|done|]. intros Hs e' (k & Hk)%list_elem_of_lookup _.
    by apply (Hs 0%nat k); [lia| |].
  - intros (Hin & Hp & Hmax)%IH. split_and!; [by right|done|].
    intros Hs e' [->|Hin']%elem_of_cons Hp'; [congruence|]. apply Hmax; [|done|done].
    exact (sorted_desc_drop 1 _ Hs).
Qed.

Lemma first_prefix_None sel (es : list muxEntry) :
  first_prefix sel es = None → ∀ e, e ∈ es → HasPrefix sel (e_pattern e) = false.
Proof.
  induction es as [|x es IH]; [by intros _ e H%elem_of_nil|]. cbn.
  destruct (HasPrefix sel (e_pattern x)) eqn:Ex; [done|].
  intros H e [->|Hin]%elem_of_cons; [done|by apply IH].
Qed.

Lemma candidate_elem m sel v :
  mux_wf m → candidate m sel v ↔ v ∈ m_es m ∧ HasPrefix sel (e_pattern v) = true.
Proof. intros Hm. unfold candidate. rewrite (wf_es _ Hm). tauto. Qed.

(** The slice search finds the best candidate. *)
Lemma first_prefix_best m sel e :
  mux_wf m → first_prefix sel (m_es m) = Some e → best m sel e.
Proof.
  intros Hm (Hin & Hp & Hmax)%first_prefix_Some. split; [by apply candidate_elem|].
  intros v' [Hin' Hp']%candidate_elem; [|done]. by apply Hmax; [apply wf_sorted| |].
Qed.

Lemma best_first_prefix m sel v :
  mux_wf m → best m sel v → first_prefix sel (m_es m) = Some v.
Proof.
  intros Hm [Hc Hmax]. destruct (first_prefix sel (m_es m)) as [e|] eqn:E.
  - pose proof (first_prefix_best _ _ _ Hm E) as [He Hemax].
    specialize (Hmax e He). specialize (Hemax v Hc).
    destruct Hc as (Hv & _ & Hpv), He as (Hke & _ & Hpe).
    assert (e_pattern e = e_pattern v) as Heq
      by (eapply HasPrefix_unique; [done|done|unfold pattern_len in *; lia]).
    rewrite Heq, Hv in Hke. congruence.
  - apply candidate_elem in Hc as [Hin Hp]; [|done].
    by rewrite (first_prefix_None _ _ E v Hin) in Hp.
Qed.

Lemma no_candidate m sel :
  mux_wf m → first_prefix sel (m_es m) = None ↔ ∀ v, ¬ candidate m sel v.
Proof.
  intros Hm. split.
  - intros E v [Hin Hp]%candidate_elem; [|done]. by rewrite (first_prefix_None _ _ E v Hin) in Hp.
  - intros Hno. destruct (first_prefix sel (m_es m)) as [e|] eqn:E; [|done].
    destruct (Hno e). by apply (first_prefix_best _ _ _ Hm E).
Qed.

Lemma Match_routes fuel ms p s r :
  heap_wf ms → Match fuel ms p s = Ret r → routes ms p s r.
Proof.
  intros Hwf. revert p s. induction fuel as [|fuel IH]; intros p s; [done|]. cbn [Match].
  destruct (ms !! p) as [m|] eqn:Hp; [|done]. specialize (Hwf p m Hp).
  destruct (m_m m !! cleanSelector s) as [v|] eqn:Hv.
  { intros [= <-]. destruct (wf_entry _ Hwf _ _ Hv) as (-> & _). by eapply route_exact. }
  destruct (first_prefix _ _) as [e|] eqn:He.
  2: { intros [= <-]. eapply route_none; [done|done|]. by apply no_candidate. }
  pose proof (first_prefix_best _ _ _ Hwf He) as Hb.
  destruct (wf_entry _ Hwf _ _ (proj1 (proj1 Hb))) as (_ & [h Hh] & _). rewrite Hh.
  destruct h as [f|q|].
  - intros [= <-]. by eapply route_prefix.
  - intros Hr. eapply route_sub; [done|done|done|done|]. by apply IH.
  - intros [= <-]. by eapply route_prefix.
Qed.

Lemma routes_Match ms p s r :
  heap_wf ms → routes ms p s r → ∃ k, ∀ fuel, (k ≤ fuel)%nat → Match fuel ms p s = Ret r.
Proof.
  intros Hwf. induction 1 as [p s m v Hp Hv|p s m v h Hp Hn Hb Hh Hns|p s m v q r Hp Hn Hb Hh _
    [k IH]|p s m Hp Hn Hno].
  - exists 1%nat. intros [|fuel] Hk; [lia|]. cbn. rewrite Hp, Hv.
    by destruct (wf_entry _ (Hwf p m Hp) _ _ Hv) as (-> & _).
  - exists 1%nat. intros [|fuel] Hk; [lia|]. cbn.
    rewrite Hp, Hn, (best_first_prefix _ _ _ (Hwf p m Hp) Hb), Hh.
    destruct h as [f|q|]; [done|by destruct (Hns q)|done].
  - exists (S k). intros [|fuel] Hk; [lia|]. cbn.
    rewrite Hp, Hn, (best_first_prefix _ _ _ (Hwf p m Hp) Hb), Hh. apply IH. lia.
  - exists 1%nat. intros [|fuel] Hk; [lia|]. cbn. rewrite Hp, Hn.
    by rewrite (proj2 (no_candidate _ _ (Hwf p m Hp)) Hno).
Qed.

(** Muxes registered in each other without a cycle. *)
Definition ranked (ms : muxes) (rank : nat → nat) : Prop :=
  ∀ p m k e q, ms !! p = Some m → m_m m !! k = Some e → e_h e = Some (SubMux q) →
    is_Some (ms !! q) ∧ (rank q < rank p)%nat.

(** A test for it. *)
Definition ranked_check (ms : muxes) (rank : nat → nat) : bool :=
  forallb (λ pm : nat * RespondMux,
    forallb (λ ke : string * muxEntry,
      match e_h ke.2 with
      | Some (SubMux q) => bool_decide (is_Some (ms !! q)) && (rank q <? rank pm.1)%nat
      | _ => true
      end) (map_to_list (m_m pm.2))) (map_to_list ms).

Lemma ranked_check_sound ms rank : ranked_check ms rank = true → ranked ms rank.
Proof.
  unfold ranked_check. rewrite forallb_forall. intros H p m k e q Hp Hk He.
  specialize (H (p, m) (proj1 (list_elem_of_In _ _) (proj2 (elem_of_map_to_list _ _ _) Hp))).
  rewrite forallb_forall in H.
  specialize (H (k, e) (proj1 (list_elem_of_In _ _) (proj2 (elem_of_map_to_list _ _ _) Hk))).
  cbn in H. rewrite He in H. apply andb_true_iff in H as [H1 H2].
  split; [by apply bool_decide_eq_true in H1|by apply Nat.ltb_lt].
Qed.

Lemma Match_total fuel ms rank p s :
  heap_wf ms → ranked ms rank → is_Some (ms !! p) → (rank p < fuel)%nat →
  ∃ r, Match fuel ms p s = Ret r.
Proof.
  intros Hwf Hrank. revert p s. induction fuel as [|fuel IH]; intros p s [m Hp] Hfuel; [lia|].
  cbn. rewrite Hp. destruct (m_m m !! _); [by eexists|].
  destruct (first_prefix _ _) as [e|] eqn:He; [|by eexists].
  destruct (e_h e) as [[f|q|]|] eqn:Hh; try by eexists.
  destruct (Hrank p m _ e q Hp (proj1 (proj1 (first_prefix_best _ _ _ (Hwf p m Hp) He))) Hh)
    as [Hq Hlt].
  apply IH; [done|lia].
Qed.

(** ** What Remove leaves *)

(** A removal changes the answer for the removed selector only: the pattern
    slice still has the entry. *)
Lemma Remove_eq p sel (ms : muxes) m :
  ms !! p = Some m →
  Remove p sel ms =
    (Ret (m_m m !! cleanSelector sel ≫= e_h),
     <[p := mkMux (delete (cleanSelector sel) (m_m m)) (m_es m)]> ms).
Proof. intros Hp. unfold Remove. by rewrite Hp. Qed.

Lemma first_prefix_app sel (l k : list muxEntry) :
  first_prefix sel (l ++ k)
  = match first_prefix sel l with Some e => Some e | None => first_prefix sel k end.
Proof. induction l as [|x l IH]; [done|]. cbn. by destruct (HasPrefix _ _). Qed.

(** An entry as long as the one found goes behind it. *)
Lemma first_prefix_appendSorted sel (es : list muxEntry) e e' :
  sorted_desc es → first_prefix sel es = Some e → pattern_len e' = pattern_len e →
  first_prefix sel (appendSorted es e') = Some e.
Proof.
  intros Hs Hf Hl. destruct (appendSorted_split es e' Hs) as (i & _ & -> & Hlo & Hhi).
  rewrite <- (take_drop i es), first_prefix_app in Hf. rewrite first_prefix_app.
  destruct (first_prefix sel (take i es)) as [x|]; [done|].
  apply first_prefix_Some in Hf as (Hin & _ & _). specialize (Hhi e Hin). lia.
Qed.
End spec.

(** ** Properties *)

(** [cleanSelector] puts every selector in canonical form, a leading slash
    and no dots, and leaves canonical selectors as they are; so "foo.bar" and
    "/foo/bar" are one selector everywhere in the package. *)
Theorem cleanSelector_normalizes s :
  canonical (cleanSelector s) = true ∧ (canonical s = true → cleanSelector s = s) ∧
  cleanSelector (cleanSelector s) = cleanSelector s.
Proof.
  pose proof (cleanSelector_canonical s). split_and!; [done|apply cleanSelector_id|].
  by apply cleanSelector_id.
Qed.

(** C11. [Match] implements the routing rule: on any heap of muxes built with
    [NewRespondMux] and [Handle], it gives an answer if and only if the rule
    does, and the same one (an exact pattern first, else the longest registered
    prefix pattern, whose sub-mux goes on with the rest of the selector). *)
Theorem Match_implements_routes {F} (ms : gmap nat (RespondMux F)) p s r :
  built ms →
  ((∃ fuel, Match fuel ms p s = Ret r) ↔ routes ms p s r).
Proof.
  intros Hb%built_wf. split.
  - intros [fuel Hf]. by eapply Match_routes.
  - intros [k Hk]%routes_Match; [|done]. exists k. by apply Hk.
Qed.

(** A mux (at 0) with a handler for "a.", one for "a.b.", and a sub-mux (at 1)
    under "sub" that has "x" and a catch-all; functions are numbers. *)
Definition demo_muxes : gmap nat (RespondMux nat) :=
  let run m ms := (m ms).2 in
  run (Handle 0 "a."%string (Some (HandlerFunc 10%nat)))
    (run (Handle 0 "a.b."%string (Some (HandlerFunc 11%nat)))
      (run (Handle 0 "sub"%string (Some (SubMux 1)))
        (run (Handle 1 "x"%string (Some (HandlerFunc 20%nat)))
          (run (Handle 1 "/"%string (Some (HandlerFunc 21%nat)))
            (<[1%nat := NewRespondMux]> (<[0%nat := NewRespondMux]> ∅)))))).

Lemma demo_muxes_built : built demo_muxes.
Proof.
  unfold demo_muxes.
  repeat (apply built_run; [|vm_compute; reflexivity]).
  apply built_new; [|by vm_compute]. apply built_new; [|by vm_compute]. apply built_empty.
Qed.

Lemma Match_implements_routes_witness :
  built demo_muxes ∧
  routes demo_muxes 0 "a.b.c"%string (Some (HandlerFunc 11%nat), "/a/b/"%string) ∧
  routes demo_muxes 0 "sub.x"%string (Some (HandlerFunc 20%nat), "/x"%string).
Proof.
  split; [exact demo_muxes_built|]. split.
  - apply (Match_implements_routes demo_muxes 0 _ _ demo_muxes_built). exists 3%nat. by vm_compute.
  - apply (Match_implements_routes demo_muxes 0 _ _ demo_muxes_built). exists 3%nat. by vm_compute.
Defined.

(** C19. [Match] ends: when no mux is registered below itself it follows at most
    as many muxes as the depth of the registration, and always answers. *)
Theorem Match_terminates {F} (ms : gmap nat (RespondMux F)) rank p s :
  built ms → ranked ms rank → is_Some (ms !! p) →
  ∀ fuel, (rank p < fuel)%nat → ∃ r, Match fuel ms p s = Ret r ∧ routes ms p s r.
Proof.
  intros Hb%built_wf Hr Hp fuel Hf.
  destruct (Match_total fuel ms rank p s Hb Hr Hp Hf) as [r Hm].
  exists r. split; [done|]. by eapply Match_routes.
Qed.

Lemma demo_muxes_ranked : ranked demo_muxes (λ p, if (p =? 0)%nat then 1%nat else 0%nat).
Proof.
  apply ranked_check_sound. by vm_compute.
Qed.

Lemma Match_terminates_witness :
  ranked demo_muxes (λ p, if (p =? 0)%nat then 1%nat else 0%nat) ∧
  ∃ r, Match 2 demo_muxes 0 "sub.y"%string = Ret r ∧ routes demo_muxes 0 "sub.y"%string r.
Proof.
  split; [exact demo_muxes_ranked|].
  apply (Match_terminates demo_muxes _ 0 _ demo_muxes_built demo_muxes_ranked); [by eexists|].
  apply Nat.ltb_lt. by vm_compute.
Defined.

(** [Handle] registers exactly once: if the pattern is free it succeeds,
    every selector with that canonical form then gets the handler, the selectors
    of other exact patterns keep theirs, and a second registration of the pattern
    panics; if the pattern is taken it panics and
    changes nothing. *)
Theorem Handle_registers {F} (ms : gmap nat (RespondMux F)) p m pattern h :
  ms !! p = Some m →
  let pat := handle_pattern pattern h in
  (m_m m !! pat = None →
   ∃ ms', Handle p pattern (Some h) ms = (Ret tt, ms') ∧
     (∀ s fuel, cleanSelector s = pat → Match (S fuel) ms' p s = Ret (Some h, pat)) ∧
     (∀ s fuel v, m_m m !! cleanSelector s = Some v →
        Match (S fuel) ms' p s = Ret (e_h v, e_pattern v)) ∧
     ∃ msg, Handle p pattern (Some h) ms' = (Panic msg, ms')) ∧
  (is_Some (m_m m !! pat) → ∃ msg, Handle p pattern (Some h) ms = (Panic msg, ms)).
Proof.
  intros Hp pat. pose proof (Handle_eq p pattern h ms m Hp) as Hh. cbv zeta in Hh. fold pat in Hh.
  split.
  - intros Hn. rewrite Hn in Hh. eexists. split; [exact Hh|].
    set (m' := registered pat h m).
    assert (m_m m' !! pat = Some (mkEntry (Some h) pat)) as Hm'
      by (unfold m'; cbn; apply lookup_insert_eq).
    split_and!.
    + intros s fuel Hs. cbn. by rewrite lookup_insert_eq, Hs, Hm'.
    + intros s fuel v Hv. cbn. rewrite lookup_insert_eq. unfold m'. cbn.
      rewrite lookup_insert_ne, Hv; [done|congruence].
    + pose proof (Handle_eq p pattern h (<[p := m']> ms) m' (lookup_insert_eq _ _ _)) as H2.
      cbv zeta in H2. fold pat in H2. rewrite Hm' in H2. by eexists.
  - intros [v Hv]. rewrite Hv in Hh. by eexists.
Qed.

Lemma Handle_registers_witness :
  ∃ ms', Handle 1 "y.z"%string (Some (HandlerFunc 22%nat)) demo_muxes = (Ret tt, ms') ∧
    Match 1 ms' 1 "/y/z"%string = Ret (Some (HandlerFunc 22%nat), "/y/z"%string).
Proof.
  destruct (demo_muxes !! 1%nat) as [m|] eqn:Hm; [|vm_compute in Hm; discriminate Hm].
  destruct (Handle_registers demo_muxes 1 m "y.z" (HandlerFunc 22%nat) Hm) as [H _].
  destruct H as (ms' & H1 & H2 & _); [vm_compute in Hm; by injection Hm as <-|].
  exists ms'. split; [exact H1|]. by apply (H2 "/y/z"%string 0%nat).
Defined.

(** [Remove] does not stop the routing of a prefix pattern: selectors that
    reached a handler through a pattern ending in a slash still reach it after
    the pattern was removed, and even after another handler was registered under
    the same pattern. Only the pattern itself, as a selector, is forgotten. *)
Theorem Remove_keeps_routing {F} (ms : gmap nat (RespondMux F)) p m s e f pattern f' fuel :
  heap_wf ms → ms !! p = Some m → m_m m !! cleanSelector s = None →
  first_prefix (cleanSelector s) (m_es m) = Some e → e_h e = Some (HandlerFunc f) →
  cleanSelector pattern = e_pattern e →
  Match (S fuel) ms p s = Ret (Some (HandlerFunc f), e_pattern e) ∧
  ∃ ms1 ms2,
    Remove p pattern ms = (Ret (Some (HandlerFunc f)), ms1) ∧
    Match (S fuel) ms1 p s = Ret (Some (HandlerFunc f), e_pattern e) ∧
    Handle p pattern (Some (HandlerFunc f')) ms1 = (Ret tt, ms2) ∧
    Match (S fuel) ms2 p s = Ret (Some (HandlerFunc f), e_pattern e) ∧
    Match (S fuel) ms2 p pattern = Ret (Some (HandlerFunc f'), e_pattern e).
Proof.
  intros Hwf Hp Hn Hf Hh Hpat. pose proof (Hwf p m Hp) as Hm.
  destruct (first_prefix_best _ _ _ Hm Hf) as [(Hk & Hse & _) _].
  split; [cbn; by rewrite Hp, Hn, Hf, Hh|].
  pose proof (Remove_eq p pattern ms m Hp) as Hr. rewrite Hpat, Hk in Hr. cbn [mbind option_bind] in Hr.
  rewrite Hh in Hr.
  set (m1 := mkMux (delete (e_pattern e) (m_m m)) (m_es m)) in *.
  pose proof (Handle_eq p pattern (HandlerFunc f') (<[p := m1]> ms) m1 (lookup_insert_eq _ _ _)) as H1.
  cbn [handle_pattern] in H1. cbv zeta in H1. rewrite Hpat in H1. cbn [m_m m1] in H1.
  rewrite lookup_delete_eq, insert_insert_eq in H1.
  assert (m_m m !! cleanSelector s = None → cleanSelector s ≠ e_pattern e) as Hne
    by (intros ? Heq; congruence).
  eexists _, _. split; [exact Hr|]. split; [|split; [exact H1|split]].
  - cbn. rewrite lookup_insert_eq. cbn. rewrite lookup_delete_ne, Hn, Hf, Hh by (intros ?; by apply Hne).
    done.
  - cbn. rewrite lookup_insert_eq. cbn [m_m m_es registered m1].
    rewrite lookup_insert_ne, lookup_delete_ne, Hn by (intros ?; by apply Hne).
    rewrite Hse, (first_prefix_appendSorted _ _ e); [by rewrite Hh|apply Hm|done|done].
  - cbn. rewrite lookup_insert_eq. cbn [m_m m_es registered m1].
    by rewrite Hpat, lookup_insert_eq.
Qed.

Lemma Remove_keeps_routing_witness :
  ∃ ms1 ms2,
    Remove 0 "a."%string demo_muxes = (Ret (Some (HandlerFunc 10%nat)), ms1) ∧
    Match 1 ms1 0 "a.x"%string = Ret (Some (HandlerFunc 10%nat), "/a/"%string) ∧
    Handle 0 "a."%string (Some (HandlerFunc 99%nat)) ms1 = (Ret tt, ms2) ∧
    Match 1 ms2 0 "a.x"%string = Ret (Some (HandlerFunc 10%nat), "/a/"%string).
Proof.
  destruct (demo_muxes !! 0%nat) as [m|] eqn:Hm; [|vm_compute in Hm; discriminate Hm].
  destruct (Remove_keeps_routing demo_muxes 0 m "a.x" (mkEntry (Some (HandlerFunc 10%nat)) "/a/"%string)
    10%nat "a." 99%nat 0 (built_wf _ demo_muxes_built) Hm)
    as (_ & ms1 & ms2 & H1 & H2 & H3 & H4 & _);
    [vm_compute in Hm; by injection Hm as <-..|].
  exists ms1, ms2. exact (conj H1 (conj H2 (conj H3 H4))).
Defined.

(** A sub-mux reached by its exact pattern is not given the rest of the
    selector: the call runs on the sub-mux with the whole selector again, so the
    prefix is matched twice. *)
Theorem submux_exact_untrimmed {F} (ms : gmap nat (RespondMux F)) p q m v s fuel :
  ms !! p = Some m → m_m m !! cleanSelector s = Some v → e_h v = Some (SubMux q) →
  mux_resolve (S fuel) ms (SubMux p) s = mux_resolve fuel ms (SubMux q) s.
Proof.
  intros Hp Hv Hh. cbn [mux_resolve mux_Handler Match]. unfold mux_Handler. cbn [Match].
  by rewrite Hp, Hv, Hh.
Qed.

(** The sub-mux at 1 of a mux at 0 under "s", with a root handler and one for
    "s.": calling "s." runs the latter. *)
Definition demo_sub : gmap nat (RespondMux nat) :=
  let run m ms := (m ms).2 in
  run (Handle 0 "s"%string (Some (SubMux 1)))
    (run (Handle 1 "s."%string (Some (HandlerFunc 5%nat)))
      (run (Handle 1 "/"%string (Some (HandlerFunc 6%nat)))
        (<[1%nat := NewRespondMux]> (<[0%nat := NewRespondMux]> ∅)))).

Lemma submux_exact_untrimmed_witness :
  mux_resolve 3 demo_sub (SubMux 0) "s."%string = Ret (HandlerFunc 5%nat) ∧
  mux_resolve 3 demo_sub (SubMux 1) (TrimPrefix "/s/" "/s/") = Ret (HandlerFunc 6%nat).
Proof.
  split; [|by vm_compute].
  destruct (demo_sub !! 0%nat) as [m|] eqn:Hm; [|vm_compute in Hm; discriminate Hm].
  rewrite (submux_exact_untrimmed demo_sub 0 1 m (mkEntry (Some (SubMux 1)) "/s/"%string) "s." 2 Hm);
    [by vm_compute|vm_compute in Hm; by injection Hm as <-|done].
Defined.
