(* ===== verification/FrameCodec.v ===== *)
(** * rpc/frame.go over an abstract codec

    The RPC layer sends Go values. Which bytes a value becomes is the business
    of a [codec.Codec] (encoding/json behind codec/json.go), code that is not
    part of the repository: the class [Codec] has its two functions and
    [CodecLaws] the documented behaviour the RPC layer relies on. *)
From S2P Require Import Prelude GoRuntime.

(** ** Values *)

(** What the RPC layer puts in an [interface{}]: nil, an error, its two header
    structs, or a value of the application. *)
Inductive any (V : Type) :=
| VNil
| VErr (e : error)
| VCallHeader (Selector : string)
| VResponseHeader (Error : option string) (Continue : bool)
| Val (v : V).
Arguments VNil {_}.
Arguments VErr {_} _.
Arguments VCallHeader {_} _.
Arguments VResponseHeader {_} _ _.
Arguments Val {_} _.

(** The pointer an application value is decoded into: a nil [interface{}], a
    [[]byte] to throw away, or a variable of the application. *)
Inductive target (T : Type) :=
| TNil
| TBytes
| TVar (t : T).
Arguments TNil {_}.
Arguments TBytes {_}.
Arguments TVar {_} _.

(** ** The codec interface *)

(** [codec.Codec]: [Encoder(w).Encode(v)] into a fresh buffer, and
    [Decoder(r).Decode(p)] from a buffer, for a pointer to a [Call], to a
    [ResponseHeader], or to anything else. *)
Class Codec (V T : Type) := {
  codec_Encode : any V → result (list byte);
  codec_Decode_call : list byte → result string;
  codec_Decode_response : list byte → result (option string * bool);
  codec_Decode : target T → list byte → result (any V);
}.

(** A value that a variable of type [t] can hold. *)
Class Fits (V T : Type) := fits : T → V → Prop.

(** What the RPC layer relies on: what was encoded is decoded again, headers by
    their own types and application values into variables that can hold them. *)
Class CodecLaws (V T : Type) `{Codec V T, Fits V T} : Prop := {
  law_call : ∀ sel b, codec_Encode (VCallHeader sel) = Ok b →
    codec_Decode_call b = Ok sel;
  law_response : ∀ e c b, codec_Encode (VResponseHeader e c) = Ok b →
    codec_Decode_response b = Ok (e, c);
  law_val : ∀ t v b, fits t v → codec_Encode (Val v) = Ok b →
    codec_Decode (TVar t) b = Ok (Val v);
}.

(** The codec encodes the value, in less than 4 GiB. *)
Definition sendable {V T} `{Codec V T} (v : any V) : Prop :=
  ∃ b, codec_Encode v = Ok b ∧ len b < 2 ^ 32.

(** ** Frames *)

Section frame.
Context {V T : Type} `{Codec V T}.

(** [frameEncoder.Encode(v)]: a four-byte length and the encoding, in one
    [Write]. *)
Definition frameEncoder_Encode (v : any V) (w : writer) : option error * writer :=
  match codec_Encode v with
  | Err e => (Some e, w)
  | Ok b =>
      let prefix := PutUint32 (u32 (len b)) in
      io_Write (prefix ++ b) w
  end.

(** [frameDecoder.Decode(v)], [dec] being the embedded decoder for [v]. *)
Definition frameDecoder_Decode {A} (dec : list byte → result A) (r : reader)
    : result A * reader :=
  match io_ReadFull 4 r with
  | (Err e, r1) => (Err e, r1)
  | (Ok prefix, r1) =>
      let size := Uint32 prefix in
      match io_ReadFull size r1 with
      | (Err e, r2) => (Err e, r2)
      | (Ok buf, r2) => (dec buf, r2)
      end
  end.

(** The bytes of a frame. *)
Definition frame (b : list byte) : list byte := PutUint32 (u32 (len b)) ++ b.

Lemma frameEncoder_Encode_eq v b w :
  codec_Encode v = Ok b → frameEncoder_Encode v w = io_Write (frame b) w.
Proof. intros Hv. unfold frameEncoder_Encode. by rewrite Hv. Qed.

Lemma frameDecoder_Decode_frame {A} (dec : list byte → result A) b rest e :
  len b < 2 ^ 32 →
  frameDecoder_Decode dec (mkReader (frame b ++ rest) e) = (dec b, mkReader rest e).
Proof.
  intros Hb. pose proof (len_nonneg b). unfold frameDecoder_Decode, frame.
  rewrite u32_small by (unfold is_u32; lia). rewrite <- app_assoc, io_ReadFull_app by done.
  rewrite <- (app_nil_r (PutUint32 (len b))), Uint32_PutUint32 by (unfold is_u32; lia).
  by rewrite io_ReadFull_app.
Qed.

(** A stream that ends inside a frame. *)
Lemma frameDecoder_Decode_cut {A} (dec : list byte → result A) b k :
  len b < 2 ^ 32 → (k < length (frame b))%nat →
  frameDecoder_Decode dec (mkReader (take k (frame b)) io_EOF)
  = (Err (if (k =? 0)%nat || (k =? 4)%nat then io_EOF else io_ErrUnexpectedEOF),
     mkReader [] io_EOF).
Proof.
  intros Hb Hk. pose proof (len_nonneg b). unfold frameDecoder_Decode, frame in *.
  rewrite u32_small in * by (unfold is_u32; lia).
  rewrite length_app, length_PutUint32 in Hk.
  destruct (Nat.ltb_spec k 4) as [Hlt|Hge].
  - rewrite take_app_le by (rewrite length_PutUint32; lia).
    rewrite io_ReadFull_short by (cbn [rd_data]; rewrite len_take; unfold len; rewrite length_PutUint32; lia).
    cbn [rd_data rd_err].
    destruct k as [|[|[|[|k]]]]; [done..|lia].
  - rewrite take_app_ge, length_PutUint32 by (rewrite length_PutUint32; lia).
    rewrite io_ReadFull_app by done.
    rewrite <- (app_nil_r (PutUint32 (len b))), Uint32_PutUint32 by (unfold is_u32; lia).
    rewrite io_ReadFull_short by (cbn [rd_data]; rewrite len_take; unfold len; lia).
    cbn [rd_data rd_err]. destruct (Nat.eqb_spec k 4) as [->|Hne].
    { done. }
    assert (take (k - 4) b ≠ []) as Hnn.
    { intros Hnil%(f_equal len). rewrite len_take, len_nil in Hnil. unfold len in *. lia. }
    destruct (take (k - 4) b); [done|]. destruct (Nat.eqb_spec k 0); [lia|done].
Qed.
End frame.

(** ** A codec *)

(** Tagged byte strings: a codec with the laws above. *)
#[global] Instance tagged_codec : Codec (list byte) unit := {|
  codec_Encode v :=
    match v with
    | VNil => Ok [x00]
    | VErr _ => Ok [x01]
    | VCallHeader s => Ok (x02 :: String.list_byte_of_string s)
    | VResponseHeader None c => Ok [x03; if c : bool then x01 else x00]
    | VResponseHeader (Some s) c =>
        Ok (x04 :: (if c : bool then x01 else x00) :: String.list_byte_of_string s)
    | Val v => Ok (x05 :: v)
    end;
  codec_Decode_call b :=
    match b with
    | x02 :: s => Ok (String.string_of_list_byte s)
    | _ => Err (errorString "not a call")
    end;
  codec_Decode_response b :=
    match b with
    | [x03; c] => Ok (None, bool_decide (c = x01))
    | x04 :: c :: s => Ok (Some (String.string_of_list_byte s), bool_decide (c = x01))
    | _ => Err (errorString "not a response")
    end;
  codec_Decode t b :=
    match t, b with
    | TVar _, x05 :: v => Ok (Val v)
    | TVar _, [x00] => Ok VNil
    | TBytes, _ => Ok VNil
    | _, _ => Err (errorString "cannot decode")
    end;
|}.

#[global] Instance tagged_fits : Fits (list byte) unit := λ _ _, True.

#[global] Instance tagged_laws : CodecLaws (list byte) unit.
Proof.
  split; cbn.
  - intros sel b [= <-]. by rewrite String.string_of_list_byte_of_string.
  - intros [e|] c b [= <-]; destruct c; by rewrite ?String.string_of_list_byte_of_string.
  - by intros _ v b _ [= <-].
Qed.

(** ** Properties *)

(** Framing is transparent: values a codec encodes in less than 4 GiB,
    sent one frame each, are decoded one by one from the concatenated stream,
    each by whatever decoder is used for it, and nothing of the stream is lost or
    taken twice. *)
Theorem frames_roundtrip {V T A} `{Codec V T} (vds : list (any V * (list byte → result A))) e :
  Forall (λ vd, sendable vd.1) vds →
  let w := foldl (λ w vd, (frameEncoder_Encode vd.1 w).2) (mkWriter [] []) vds in
  ∀ n v dec, vds !! n = Some (v, dec) → ∃ b,
    codec_Encode v = Ok b ∧
    frameDecoder_Decode dec (mkReader (mjoin (drop n (w_out w))) e)
    = (dec b, mkReader (mjoin (drop (S n) (w_out w))) e).
Proof.
  intros Hall. cbv zeta.
  assert (∀ out, ∃ bs, Forall2 (λ vd b, codec_Encode vd.1 = Ok b ∧ len b < 2 ^ 32) vds bs ∧
    foldl (λ w vd, (frameEncoder_Encode vd.1 w).2) (mkWriter out []) vds
    = mkWriter (out ++ (frame <$> bs)) []) as Hk.
  { clear e. induction Hall as [|[v dec] vds (b & Hb & Hl) Hall IH]; intros out.
    - exists []. by rewrite app_nil_r.
    - cbn [foldl fst]. rewrite (frameEncoder_Encode_eq _ _ _ Hb). cbn [io_Write w_script snd w_out].
      destruct (IH (out ++ [frame b])) as (bs & Hbs & ->). exists (b :: bs).
      split; [by constructor|]. by rewrite <- app_assoc. }
  destruct (Hk []) as (bs & Hbs & ->). cbn [w_out app]. intros n v dec Hn.
  destruct (Forall2_lookup_l _ _ _ _ _ Hbs Hn) as (b & Hb & Hv & Hl).
  exists b. split; [done|].
  assert ((frame <$> bs) !! n = Some (frame b)) as Hf by by rewrite list_lookup_fmap, Hb.
  rewrite (drop_S _ _ _ Hf). cbn [mjoin list_join]. by apply frameDecoder_Decode_frame.
Qed.

Definition demo_frames : list (any (list byte) * (list byte → result (any (list byte)))) :=
  [(VNil, codec_Decode (TVar tt)); (Val [x07; x08], codec_Decode (TVar tt))].

Lemma frames_roundtrip_witness :
  Forall (λ vd, sendable vd.1) demo_frames ∧
  frameDecoder_Decode (codec_Decode (TVar tt)) (mkReader (frame [x05; x07; x08] ++ []) io_EOF)
  = (Ok (Val [x07; x08]), mkReader [] io_EOF).
Proof.
  assert (Forall (λ vd, sendable vd.1) demo_frames) as H.
  { repeat constructor; (eexists; split; [reflexivity|by vm_compute]). }
  split; [exact H|].
  destruct (frames_roundtrip _ io_EOF H 1%nat _ _ eq_refl) as (b & H1 & H2).
  injection H1 as <-. exact H2.
Defined.

(** A frame cut short by the end of the stream is never decoded: the error
    is [io.ErrUnexpectedEOF], except when the stream ends before the frame or
    exactly between its length and its contents, which looks like a clean
    [io.EOF]. *)
Theorem truncated_rpc_frame {A} (dec : list byte → result A) b k :
  len b < 2 ^ 32 → (k < length (frame b))%nat →
  (frameDecoder_Decode dec (mkReader (take k (frame b)) io_EOF)).1
  = Err (if (k =? 0)%nat || (k =? 4)%nat then io_EOF else io_ErrUnexpectedEOF).
Proof. intros Hb Hk. by rewrite frameDecoder_Decode_cut. Qed.

Lemma truncated_rpc_frame_witness :
  (frameDecoder_Decode codec_Decode_call (mkReader (take 6 (frame [x02; x41; x42])) io_EOF)).1
  = Err io_ErrUnexpectedEOF.
Proof.
  exact (truncated_rpc_frame codec_Decode_call [x02; x41; x42] 6 eq_refl
    (proj1 (Nat.ltb_lt 6 (length (frame [x02; x41; x42]))) eq_refl)).
Defined.
