(* ===== verification/ChannelView.v ===== *)
(** * What a channel of a session looks like from its two sides

    A [chan_view] is what matters of a channel to the code that reads and writes
    it and to the peer: the bytes it holds, its two windows, whether it was closed.
    Every operation of mux/channel.go that the RPC layer uses, and every message
    the loop gives a channel, is a change of its view and some messages sent. *)
From S2P Require Import Prelude GoRuntime Frame Buffer Window ChanList.
From S2P Require Import MuxState Channel ChannelSpec Refine.

(** ** Views *)

Record chan_view := mkView {
  v_local : Z;
  v_remote : Z;
  v_packet : Z;
  v_queue : list byte;
  v_win : Z;
  v_mine : Z;
  v_sent : bool;
  v_closed : bool;
}.

(** [v_sent]: a close message went out; [v_closed]: the peer's came. *)
Record view_of (c : channel) (v : chan_view) : Prop := {
  vo_pending : buffer_repr (c_pending c) (v_queue v);
  vo_eof : b_closed (c_pending c) = v_closed v;
  vo_local : c_localId c = v_local v;
  vo_remote : c_remoteId c = v_remote v;
  vo_packet : c_maxRemotePayload c = v_packet v;
  vo_packet_ok : 0 < v_packet v < 2 ^ 32;
  vo_sent : c_sentClose c = v_sent v;
  vo_sentEOF : c_sentEOF c = false;
  vo_msg : ch_closed (c_msg c) = v_closed v;
  vo_window : window_wf (c_remoteWin c);
  vo_win : v_closed v = false →
    w_closed (c_remoteWin c) = false ∧ w_win (c_remoteWin c) = v_win v;
  vo_mine : c_myWindow c = v_mine v;
  vo_mine_ok : 0 ≤ v_mine v ∧ v_mine v + len (v_queue v) < 2 ^ 32;
  vo_max : c_maxIncomingPayload c = channelMaxPacket;
}.

Definition views (s : session) (l : chan_ptr) (v : chan_view) : Prop :=
  writer_ok (s_enc s) ∧ ∃ c, s_heap s !! l = Some c ∧ view_of c v.

(** From [s] to [s'] nothing happened to the channels other than [l]. *)
Definition others (l : chan_ptr) (s s' : session) : Prop :=
  ∀ l', l' ≠ l → s_heap s' !! l' = s_heap s !! l'.

Lemma others_refl l s : others l s s.
Proof. done. Qed.

Lemma others_trans l s s1 s2 : others l s s1 → others l s1 s2 → others l s s2.
Proof. intros H1 H2 l' Hl. by rewrite H2, H1. Qed.

Lemma others_put l c s s' : s_heap s' = s_heap s → others l s (put_ch l c s').
Proof. intros Hs l' Hl. by rewrite heap_put_ch_ne, Hs. Qed.

#[export] Hint Resolve others_refl others_put : qtalk.

(** From [s] to [s'], the messages [ms] were written and nothing read or allocated,
    and the table and the channels other than [l] are as they were. *)
Record sends (l : chan_ptr) (s s' : session) (ms : list Message) : Prop := {
  sn_enc : s_enc s' = emit ms (s_enc s);
  sn_chans : s_chans s' = s_chans s;
  sn_dec : s_dec s' = s_dec s;
  sn_fresh : s_fresh s' = s_fresh s;
  sn_others : others l s s';
}.

Lemma sends_nil l s : sends l s s [].
Proof. split; [by rewrite emit_nil|done..]. Qed.

Lemma sends_trans l s s1 s2 ms1 ms2 :
  sends l s s1 ms1 → sends l s1 s2 ms2 → sends l s s2 (ms1 ++ ms2).
Proof.
  intros [He Hc Hd Hf Ho] [He2 Hc2 Hd2 Hf2 Ho2].
  split; [by rewrite He2, He, emit_app|by rewrite Hc2|by rewrite Hd2|by rewrite Hf2|by eapply others_trans].
Qed.

(** *** Changes of a view *)

Definition v_take (k : nat) (v : chan_view) : chan_view :=
  mkView (v_local v) (v_remote v) (v_packet v) (drop k (v_queue v)) (v_win v)
    (v_mine v + len (take k (v_queue v))) (v_sent v) (v_closed v).

Definition v_spend (n : Z) (v : chan_view) : chan_view :=
  mkView (v_local v) (v_remote v) (v_packet v) (v_queue v) (v_win v - n) (v_mine v) (v_sent v)
    (v_closed v).

Definition v_hangup (v : chan_view) : chan_view :=
  mkView (v_local v) (v_remote v) (v_packet v) (v_queue v) (v_win v) (v_mine v) true (v_closed v).

Definition v_got (d : list byte) (v : chan_view) : chan_view :=
  mkView (v_local v) (v_remote v) (v_packet v) (v_queue v ++ d) (v_win v) (v_mine v - len d)
    (v_sent v) (v_closed v).

Definition v_end (v : chan_view) : chan_view :=
  mkView (v_local v) (v_remote v) (v_packet v) (v_queue v) (v_win v) (v_mine v) true true.

Lemma v_take_0 v : v_take 0 v = v.
Proof. destruct v. unfold v_take. cbn [v_local v_remote v_packet v_queue v_win v_mine v_sent v_closed]. by rewrite drop_0, take_0, len_nil, Z.add_0_r. Qed.

Lemma v_take_take j k v : v_take j (v_take k v) = v_take (k + j) v.
Proof.
  unfold v_take. cbn. rewrite drop_drop. f_equal. rewrite <- Z.add_assoc. f_equal.
  rewrite <- len_app. f_equal. rewrite <- (take_drop k (take (k + j) (v_queue v))).
  by rewrite take_take, Nat.min_l, skipn_firstn_comm, Nat.add_sub_swap, Nat.sub_diag by lia.
Qed.

(** ** Reading *)

(** What the peer is told when [k] bytes were read. *)
Definition adjusts (v : chan_view) (k : nat) : list Message :=
  if v_sent v || (k =? 0)%nat then [] else [WindowAdjustMessage (v_remote v) (Z.of_nat k)].

Lemma view_Read s l v n :
  views s l v → v_queue v ≠ [] → n ≠ 0%nat →
  ∃ s', channel_Read l n s = (Ret (take n (v_queue v), None), s') ∧ views s' l (v_take n v) ∧
    sends l s s' (adjusts v (length (take n (v_queue v)))).
Proof.
  intros (Hok & c & Hl & Hv) Hne Hn.
  destruct (Read_some_eq l n c _ s Hl (vo_pending _ _ Hv) Hne Hn) as (b' & Hr & Hc & ->).
  cbv zeta. rewrite (vo_sent _ _ Hv), Encode_ok by done. cbn [fst snd].
  rewrite decide_False by done. set (out := take n (v_queue v)).
  pose proof (vo_mine_ok _ _ Hv) as [Hm0 Hm].
  assert (len (v_queue v) = len out + len (drop n (v_queue v))) as Hsum
    by (unfold out; rewrite <- len_app, take_drop; done).
  pose proof (len_nonneg out). pose proof (len_nonneg (drop n (v_queue v))).
  assert (length out ≠ 0%nat) as Hout.
  { unfold out. rewrite length_take. destruct (v_queue v); [done|cbn [length]; lia]. }
  rewrite (u32_small (len out)), (vo_mine _ _ Hv), u32_small by (unfold is_u32; lia).
  set (c1 := set_myWindow _ _).
  assert (view_of c1 (v_take n v)) as Hv1.
  { destruct Hv. unfold c1. split; cbn; try done; [by rewrite Hc|fold out; lia]. }
  unfold adjusts. rewrite (proj2 (Nat.eqb_neq _ _) Hout), orb_false_r.
  destruct (v_sent v); eexists; (split; [done|]).
  - split; [|split; [by rewrite emit_nil|done|done|done|by apply others_put]]. split; [done|]. exists c1. split; [apply heap_put_ch|done].
  - split; [|split; [by rewrite (vo_remote _ _ Hv)|done|done|done|by apply others_put]]. split; [by apply emit_ok|].
    exists c1. split; [|done]. apply heap_put_ch.
Qed.

Lemma view_Read_end s l v n :
  views s l v → v_queue v = [] → v_closed v = true → n ≠ 0%nat →
  ∃ s', channel_Read l n s = (Ret ([], Some io_EOF), s') ∧ views s' l v ∧ sends l s s' [].
Proof.
  intros (Hok & c & Hl & Hv) Hq Hcl Hn.
  destruct (pending_Read_eq l n c _ s Hl (vo_pending _ _ Hv)) as (b' & Hr & Hb & Hc).
  rewrite Hq, (vo_eof _ _ Hv), Hcl in Hr. unfold queue_read in Hr.
  rewrite (proj2 (Nat.eqb_neq n 0) Hn) in Hr.
  eexists. split; [unfold channel_Read; by rewrite (bind_eq _ _ _ _ _ Hr)|].
  split; [|split; [by rewrite emit_nil|done|done|done|by apply others_put]]. split; [done|].
  exists (set_pending b' c). split; [apply heap_put_ch|].
  rewrite Hq, drop_nil in Hb. destruct Hv. split; cbn; try done; [by rewrite Hq|congruence].
Qed.

(** ** Writing and closing *)

(** What a message in flight does for the channel [k] it is addressed to, packets
    being at most [m] bytes: it carries data or gives window back. *)
Inductive piece (k m : Z) : Message → Prop :=
| piece_data p : 0 < len p ≤ m → piece k m (data_frame k p)
| piece_adjust n : 0 ≤ n < 2 ^ 32 → piece k m (WindowAdjustMessage k n).

(** The window the messages give back. *)
Definition msg_credit (m : Message) : Z := match m with WindowAdjustMessage _ n => n | _ => 0 end.

Definition total_credit (ms : list Message) : Z := foldr Z.add 0 (msg_credit <$> ms).

Lemma total_credit_app ms ms' : total_credit (ms ++ ms') = total_credit ms + total_credit ms'.
Proof. induction ms as [|m ms IH]; [done|]. unfold total_credit in *. cbn in *. lia. Qed.

Lemma total_credit_nonneg k m ms : Forall (piece k m) ms → 0 ≤ total_credit ms.
Proof. induction 1 as [|x ms [p Hp|n Hn] _ IH]; unfold total_credit in *; cbn in *; lia. Qed.

Lemma stream_data k ps : stream_to k (data_frame k <$> ps) = mjoin ps.
Proof.
  induction ps as [|p ps IH]; [done|]. unfold stream_to in *. cbn [fmap list_fmap data_frame data_of].
  rewrite decide_True by done. change (mjoin (p :: ps)) with (p ++ mjoin ps). by rewrite <- IH.
Qed.

Lemma total_credit_data k ps : total_credit (data_frame k <$> ps) = 0.
Proof. induction ps as [|p ps IH]; [done|]. unfold total_credit in *. cbn in *. lia. Qed.

Lemma view_Write s l v d fuel :
  views s l v → v_closed v = false → len d ≤ v_win v → (length d < fuel)%nat →
  ∃ s' ms, channel_Write fuel l d s = (Ret (len d, None), s') ∧ views s' l (v_spend (len d) v) ∧
    sends l s s' ms ∧ Forall (piece (v_remote v) (v_packet v)) ms ∧ stream_to (v_remote v) ms = d ∧
    total_credit ms = 0.
Proof.
  intros (Hok & c & Hl & Hv) Hcl Hd Hf.
  destruct (vo_win _ _ Hv Hcl) as [Hwc Hw]. pose proof (vo_packet_ok _ _ Hv) as Hm.
  pose proof (vo_window _ _ Hv) as Hwf. pose proof (len_nonneg d).
  assert (window_part (w_win (c_remoteWin c)) d = d) as Hpart.
  { unfold window_part. rewrite Z.min_r by lia. by rewrite take_ge by (unfold len; lia). }
  exists (put_ch l (wrote_channel (len d) false c)
    (set_enc (emit (data_frames (v_remote v) (v_packet v) d) (s_enc s)) s)).
  exists (data_frames (v_remote v) (v_packet v) d). split_and!.
  - unfold channel_Write. rewrite (bind_eq _ _ _ _ _ (deref_eq _ _ _ Hl)), (vo_sentEOF _ _ Hv).
    unfold window_wf, is_u32 in Hwf.
    rewrite (Write_loop_spec _ _ _ _ _ _ Hl Hok (vo_window _ _ Hv) Hwc)
      by (rewrite ?(vo_packet _ _ Hv); unfold is_u32; lia || done).
    cbv zeta. rewrite Hpart, (vo_remote _ _ Hv), (vo_packet _ _ Hv).
    destruct (Z.ltb_spec (w_win (c_remoteWin c)) (len d)); [lia|]. done.
  - split; [by apply emit_ok|]. eexists. split; [apply heap_put_ch|].
    unfold window_wf, is_u32 in Hwf. destruct Hv. split; cbn; try done; [|intros; split; [done|lia]].
    unfold window_wf, is_u32. cbn. lia.
  - split; [done|done|done|done|by apply others_put].
  - unfold data_frames. apply Forall_fmap. destruct (chunks_spec (v_packet v) d) as [_ Hp]; [lia|].
    eapply Forall_impl; [exact Hp|]. intros p ?. by apply piece_data.
  - unfold data_frames. rewrite stream_data. apply chunks_spec. lia.
  - apply total_credit_data.
Qed.

Lemma view_Close s l v :
  views s l v →
  ∃ s', channel_Close l s = (Ret (if v_sent v then Some io_EOF else None), s') ∧
    views s' l (v_hangup v) ∧ sends l s s' (if v_sent v then [] else [CloseMessage (v_remote v)]).
Proof.
  intros (Hok & c & Hl & Hv). rewrite (Close_eq _ _ _ Hl), (vo_sent _ _ Hv).
  destruct (v_sent v) eqn:Es.
  - exists s. split; [done|]. split; [|apply sends_nil]. split; [done|]. exists c. split; [done|].
    destruct Hv. split; cbn; try done. congruence.
  - rewrite encode_ok_eq by done. eexists. split; [done|]. split.
    + split; [by apply emit_ok|]. eexists. split; [apply heap_put_ch|]. by destruct Hv.
    + split; [by rewrite (vo_remote _ _ Hv)|done|done|done|by apply others_put].
Qed.

(** ** Messages the loop gives the channel *)

Lemma view_data s l v id d :
  views s l v → v_closed v = false → 0 < len d ≤ channelMaxPacket → len d ≤ v_mine v →
  ∃ s', channel_handle l (data_frame id d) s = (Ret None, s') ∧ views s' l (v_got d v) ∧ sends l s s' [].
Proof.
  intros (Hok & c & Hl & Hv) Hcl Hd Hm. pose proof (vo_mine_ok _ _ Hv) as [Hm0 Hm1].
  pose proof (len_nonneg (v_queue v)).
  unfold data_frame. cbn [channel_handle]. rewrite (handleData_eq _ _ _ _ _ Hl).
  rewrite (u32_small (len d)), Z.eqb_refl, (vo_max _ _ Hv), (vo_mine _ _ Hv) by (unfold is_u32; lia).
  destruct (Z.leb_spec (len d) channelMaxPacket); [|lia].
  destruct (Z.leb_spec (len d) (v_mine v)); [|lia]. cbn [andb].
  rewrite u32_small by (unfold is_u32; lia).
  eexists. split; [done|]. split; [|split; [by rewrite emit_nil|done|done|done|by apply others_put]].
  split; [done|]. eexists. split; [apply heap_put_ch|].
  destruct Hv. split; cbn; try done; [by apply buffer_write_repr|]. rewrite len_app. lia.
Qed.

Lemma view_adjust s l v id n :
  views s l v → v_closed v = false → 0 ≤ n → v_win v + n < 2 ^ 32 →
  ∃ s', channel_handle l (WindowAdjustMessage id n) s = (Ret None, s') ∧
    views s' l (v_spend (- n) v) ∧ sends l s s' [].
Proof.
  intros (Hok & c & Hl & Hv) Hcl Hn Hw. destruct (vo_win _ _ Hv Hcl) as [Hwc Hwin].
  pose proof (vo_window _ _ Hv) as Hwf. unfold window_wf, is_u32 in Hwf.
  rewrite (handle_adjust_eq _ _ _ _ _ Hl) by (done || (unfold window_wf, is_u32; lia)).
  cbv zeta. destruct (Z.ltb_spec (w_win (c_remoteWin c) + n) (2 ^ 32)); [|lia].
  eexists. split; [done|]. split; [|split; [by rewrite emit_nil|done|done|done|by apply others_put]].
  split; [done|]. eexists. split; [apply heap_put_ch|].
  destruct Hv. split; cbn; try done; [unfold window_wf, is_u32; cbn; lia|intros; split; [done|lia]].
Qed.

Lemma view_close s l v id :
  views s l v → v_closed v = false →
  ∃ s', channel_handle l (CloseMessage id) s = (Ret None, s') ∧ views s' l (v_end v) ∧
    s_enc s' = emit (if v_sent v then [] else [CloseMessage (v_remote v)]) (s_enc s) ∧
    s_chans s' = chanList_remove (v_local v) (s_chans s) ∧ s_dec s' = s_dec s ∧ s_fresh s' = s_fresh s ∧ others l s s'.
Proof.
  intros (Hok & c & Hl & Hv) Hcl.
  rewrite (handle_close_eq _ _ _ _ Hl) by (by rewrite (vo_msg _ _ Hv)).
  rewrite (vo_sent _ _ Hv), Encode_ok, (vo_remote _ _ Hv), (vo_local _ _ Hv) by done.
  eexists. split; [done|]. split; [|split_and!; [by destruct (v_sent v); rewrite ?emit_nil|by destruct (v_sent v)..|]].
  2: { apply others_put. by destruct (v_sent v). }
  split; [destruct (v_sent v); [done|by apply emit_ok]|].
  eexists. split; [apply heap_put_ch|]. destruct Hv. split; cbn; try done. by apply buffer_eof_repr.
Qed.

(** ** Window given back *)

(** [ms] gives at most [n] bytes of window back, and nothing else. *)
Record gives_back (v : chan_view) (n : Z) (ms : list Message) : Prop := {
  gb_pieces : Forall (piece (v_remote v) (v_packet v)) ms;
  gb_stream : stream_to (v_remote v) ms = [];
  gb_credits : total_credit ms ≤ n;
  gb_sent : v_sent v = true → ms = [];
}.

Lemma gives_nil v n : 0 ≤ n → gives_back v n [].
Proof. intros Hn. by split. Qed.

Lemma gives_app v n n' ms ms' k :
  gives_back v n ms → gives_back (v_take k v) n' ms' → gives_back v (n + n') (ms ++ ms').
Proof.
  intros [Hp Hs Hc Ht] [Hp' Hs' Hc' Ht']. cbn in *. split.
  - by apply Forall_app.
  - by rewrite stream_to_app, Hs, Hs'.
  - rewrite total_credit_app. lia.
  - intros Hv. by rewrite (Ht Hv), (Ht' Hv).
Qed.

Lemma gives_adjusts v k : Z.of_nat k < 2 ^ 32 → gives_back v (Z.of_nat k) (adjusts v k).
Proof.
  intros Hk. unfold adjusts. destruct (v_sent v) eqn:Es; [apply gives_nil; lia|].
  destruct (Nat.eqb_spec k 0); [apply gives_nil; lia|]. cbn [orb]. split.
  - apply Forall_singleton. apply piece_adjust. lia.
  - done.
  - unfold total_credit. cbn. lia.
  - congruence.
Qed.
