(* ===== verification/ChannelStream.v ===== *)
(** * Frames of the RPC layer over a channel of a session

    Rpc.v runs calls over channel ends, a reader and a writer. Here the frames
    of rpc/frame.go go through the channels of mux/channel.go: [Write] cuts them
    into data messages, the peer's loop buffers those, and the decoder's
    [io.ReadFull] puts them together from what [Read] returns, giving the window
    back on the way. *)
From S2P Require Import Prelude GoRuntime Frame Buffer Window ChanList.
From S2P Require Import MuxState Channel ChannelSpec Session SessionSpec.
From S2P Require Import Handshake FrameCodec Refine ChannelView.

(** ** io.ReadFull over a Read method *)

(** The loop of [io.ReadAtLeast]. *)
Fixpoint ReadAtLeast_loop {S} (fuel : nat) (read : nat → M S (list byte * option error))
    (n : nat) (got : list byte) : M S (list byte * option error) :=
  match fuel with
  | O => nofuel_st
  | Datatypes.S fuel =>
      if (n <=? length got)%nat then mret (got, None)
      else
        r ← read (n - length got)%nat;
        let '(p, err) := r in
        match err with
        | Some e => mret (got ++ p, Some e)
        | None => ReadAtLeast_loop fuel read n (got ++ p)
        end
  end.

(** [io.ReadFull(r, buf)], [n] being [len(buf)]; every read gives a byte. *)
Definition ReadFull {S} (read : nat → M S (list byte * option error)) (n : nat)
    : M S (result (list byte)) :=
  r ← ReadAtLeast_loop (Datatypes.S n) read n [];
  let '(got, err) := r in
  if (n <=? length got)%nat then mret (Ok got)
  else
    match got, err with
    | _ :: _, Some io_EOF => mret (Err io_ErrUnexpectedEOF)
    | _, Some e => mret (Err e)
    | _, None => mret (Ok got)
    end.

Section frames.
Context {V T : Type} `{Codec V T}.

(** [frameEncoder.Encode(v)] on a channel. *)
Definition channel_Encode (fuel : nat) (l : chan_ptr) (v : any V) : MS (option error) :=
  match codec_Encode v with
  | Err e => mret (Some e)
  | Ok b =>
      let prefix := PutUint32 (u32 (len b)) in
      r ← channel_Write fuel l (prefix ++ b);
      mret r.2
  end.

(** [frameDecoder.Decode(v)] on a channel. *)
Definition channel_Decode {A} (dec : list byte → result A) (l : chan_ptr) : MS (result A) :=
  prefix ← ReadFull (channel_Read l) 4;
  match prefix with
  | Err e => mret (Err e)
  | Ok prefix =>
      let size := Uint32 prefix in
      buf ← ReadFull (channel_Read l) (Z.to_nat size);
      match buf with
      | Err e => mret (Err e)
      | Ok buf => mret (dec buf)
      end
  end.

(** Encode in turn, decode as often as there are decoders. *)
Fixpoint encode_all (fuel : nat) (l : chan_ptr) (vs : list (any V)) : MS (option error) :=
  match vs with
  | [] => mret None
  | v :: vs =>
      err ← channel_Encode fuel l v;
      match err with Some e => mret (Some e) | None => encode_all fuel l vs end
  end.

Fixpoint decode_all {A} (decs : list (list byte → result A)) (l : chan_ptr) : MS (list (result A)) :=
  match decs with
  | [] => mret []
  | dec :: decs => v ← channel_Decode dec l; vs ← decode_all decs l; mret (v :: vs)
  end.
End frames.

(** ** io.ReadFull on a channel *)

Lemma ReadAtLeast_enough s l v n got fuel :
  views s l v → (n - length got ≤ length (v_queue v))%nat → (n - length got < fuel)%nat →
  (length got ≤ n)%nat →
  ∃ s' ms, ReadAtLeast_loop fuel (channel_Read l) n got s
      = (Ret (got ++ take (n - length got) (v_queue v), None), s') ∧
    views s' l (v_take (n - length got) v) ∧ sends l s s' ms ∧
    gives_back v (Z.of_nat (n - length got)) ms.
Proof.
  intros Hv Hlen Hf Hgot. destruct fuel as [|fuel]; [lia|]. cbn [ReadAtLeast_loop].
  destruct (Nat.leb_spec n (length got)) as [Hle|Hgt].
  { replace (n - length got)%nat with 0%nat by lia. exists s, []. rewrite v_take_0, take_0, app_nil_r.
    split_and!; [done..|apply sends_nil|by apply gives_nil]. }
  set (k := (n - length got)%nat) in *.
  destruct (view_Read s l v k) as (s1 & Hr & Hv1 & Hs1);
    [done|intros Hq; rewrite Hq in Hlen; cbn in Hlen; lia|lia|].
  rewrite (bind_eq _ _ _ _ _ Hr). cbv iota beta.
  assert (length (take k (v_queue v)) = k) as Hk by (rewrite length_take; lia).
  exists s1, (adjusts v k). rewrite Hk in Hs1. split_and!; [|done|done|].
  - destruct fuel as [|fuel]; [lia|]. cbn [ReadAtLeast_loop]. rewrite length_app, Hk.
    destruct (Nat.leb_spec n (length got + k)); [done|lia].
  - apply gives_adjusts. destruct Hv as (_ & c & _ & Hc). pose proof (vo_mine_ok _ _ Hc). unfold len in *. lia.
Qed.

(** The channel was closed and has too little. *)
Lemma ReadAtLeast_short s l v n fuel :
  views s l v → v_closed v = true → (length (v_queue v) < n)%nat → (n < fuel)%nat →
  ∃ s' ms, ReadAtLeast_loop fuel (channel_Read l) n [] s = (Ret (v_queue v, Some io_EOF), s') ∧
    views s' l (v_take (length (v_queue v)) v) ∧ sends l s s' ms ∧ gives_back v (len (v_queue v)) ms.
Proof.
  intros Hv Hcl Hlen Hf. destruct fuel as [|fuel]; [lia|]. cbn [ReadAtLeast_loop length].
  destruct (Nat.leb_spec n 0) as [|_]; [lia|]. rewrite Nat.sub_0_r.
  destruct (decide (v_queue v = [])) as [Hq|Hq].
  { destruct (view_Read_end s l v n) as (s1 & Hr & Hv1 & Hs1); [done..|lia|].
    exists s1, []. rewrite (bind_eq _ _ _ _ _ Hr), Hq. cbn [length]. rewrite v_take_0.
    split_and!; [done..|by apply gives_nil]. }
  destruct (view_Read s l v n) as (s1 & Hr & Hv1 & Hs1); [done..|lia|].
  rewrite (bind_eq _ _ _ _ _ Hr). cbv iota beta. rewrite take_ge in * by lia. cbn [app].
  assert (v_take n v = v_take (length (v_queue v)) v) as Ht.
  { unfold v_take. by rewrite !drop_ge, !take_ge by lia. }
  rewrite Ht in Hv1. assert (v_queue (v_take (length (v_queue v)) v) = []) as Hq1
    by (cbn; by rewrite drop_all).
  destruct fuel as [|fuel]; [destruct (v_queue v); [done|cbn in Hlen; lia]|]. cbn [ReadAtLeast_loop].
  destruct (Nat.leb_spec n (length (v_queue v))) as [|_]; [lia|].
  destruct (view_Read_end s1 l _ (n - length (v_queue v)) Hv1 Hq1 Hcl) as (s2 & Hr2 & Hv2 & Hs2); [lia|].
  exists s2, (adjusts v (length (v_queue v))).
  rewrite (bind_eq _ _ _ _ _ Hr2). cbv iota beta. rewrite app_nil_r.
  split_and!; [done|done| |].
  - rewrite <- (app_nil_r (adjusts _ _)). eapply sends_trans; [exact Hs1|exact Hs2].
  - apply gives_adjusts. destruct Hv as (_ & c & _ & Hc). pose proof (vo_mine_ok _ _ Hc).
    unfold len in *. lia.
Qed.

(** [io.ReadFull] on a channel gets what it would get from a reader over the bytes
    the channel holds, if these suffice or the channel is closed. *)
Lemma view_ReadFull s l v n e :
  views s l v → (n ≤ length (v_queue v))%nat ∨ v_closed v = true → (v_closed v = true → e = io_EOF) →
  ∃ s' ms r k, io_ReadFull (Z.of_nat n) (mkReader (v_queue v) e) = (r, mkReader (drop k (v_queue v)) e) ∧
    ReadFull (channel_Read l) n s = (Ret r, s') ∧ views s' l (v_take k v) ∧ (k ≤ length (v_queue v))%nat ∧
    sends l s s' ms ∧ gives_back v (Z.of_nat k) ms.
Proof.
  intros Hv Hq He. unfold ReadFull, io_ReadFull. cbn [rd_data rd_err].
  destruct (decide (n ≤ length (v_queue v))%nat) as [Hle|Hgt].
  - destruct (ReadAtLeast_enough s l v n [] (S n) Hv) as (s' & ms & Hr & Hv' & Hs & Hg); [cbn; lia..|].
    cbn [length app] in *. rewrite Nat.sub_0_r in *.
    exists s', ms, (Ok (take n (v_queue v))), n. rewrite (bind_eq _ _ _ _ _ Hr). cbv iota beta.
    destruct (Z.leb_spec (Z.of_nat n) (len (v_queue v))); [|unfold len in *; lia].
    rewrite Nat2Z.id, length_take, Nat.min_l, Nat.leb_refl by lia. split_and!; done.
  - destruct Hq as [|Hcl]; [done|]. rewrite (He Hcl).
    destruct (ReadAtLeast_short s l v n (S n) Hv Hcl) as (s' & ms & Hr & Hv' & Hs & Hg); [lia..|].
    exists s', ms, (Err (match v_queue v with [] => io_EOF | _ => io_ErrUnexpectedEOF end)),
      (length (v_queue v)). rewrite (bind_eq _ _ _ _ _ Hr). cbv iota beta.
    destruct (Z.leb_spec (Z.of_nat n) (len (v_queue v))); [unfold len in *; lia|].
    destruct (Nat.leb_spec n (length (v_queue v))); [lia|]. rewrite drop_all.
    split_and!; [by destruct (v_queue v)|by destruct (v_queue v)|done..].
Qed.

(** ** Frames *)

(** The decoder on a channel does what it does over the bytes the channel holds. *)
Lemma view_Decode {A} (dec : list byte → result A) s l v e :
  views s l v → (∃ b rest, v_queue v = frame b ++ rest ∧ len b < 2 ^ 32) ∨ v_closed v = true →
  (v_closed v = true → e = io_EOF) →
  ∃ s' ms r k, frameDecoder_Decode dec (mkReader (v_queue v) e) = (r, mkReader (drop k (v_queue v)) e) ∧
    channel_Decode dec l s = (Ret r, s') ∧ views s' l (v_take k v) ∧ (k ≤ length (v_queue v))%nat ∧
    sends l s s' ms ∧ gives_back v (Z.of_nat k) ms.
Proof.
  intros Hv Hq He. unfold frameDecoder_Decode, channel_Decode.
  destruct (view_ReadFull s l v 4 e Hv) as (s1 & ms1 & r1 & k1 & H1 & H2 & Hv1 & Hk1 & Hs1 & Hg1); [|done|].
  { destruct Hq as [(b & rest & -> & _)|]; [left|by right].
    unfold frame. rewrite !length_app, length_PutUint32. lia. }
  change 4 with (Z.of_nat 4). rewrite H1, (bind_eq _ _ _ _ _ H2).
  destruct r1 as [prefix|err].
  2: { by exists s1, ms1, (Err err), k1. }
  pose proof (Uint32_range prefix) as Hsz. unfold is_u32 in Hsz.
  destruct (view_ReadFull s1 l (v_take k1 v) (Z.to_nat (Uint32 prefix)) e Hv1)
    as (s2 & ms2 & r2 & k2 & H3 & H4 & Hv2 & Hk2 & Hs2 & Hg2); [|done|].
  { destruct Hq as [(b & rest & Hq & Hb)|]; [left|by right]. cbn [v_queue v_take].
    pose proof (len_nonneg b).
    rewrite Hq in H1. unfold frame in H1. rewrite u32_small in H1 by (unfold is_u32; lia).
    rewrite <- app_assoc in H1. change (Z.of_nat 4) with 4 in H1. rewrite io_ReadFull_app in H1 by done.
    assert (drop k1 (v_queue v) = b ++ rest) as ->.
    { rewrite Hq. unfold frame. rewrite u32_small, <- app_assoc by (unfold is_u32; lia). congruence. }
    assert (prefix = PutUint32 (len b)) as -> by congruence.
    rewrite <- (app_nil_r (PutUint32 (len b))), Uint32_PutUint32 by (unfold is_u32; lia).
    rewrite length_app. unfold len. lia. }
  rewrite Z2Nat.id in H3 by lia. cbn [v_queue v_take] in H3, Hk2. rewrite H3, (bind_eq _ _ _ _ _ H4), drop_drop.
  rewrite v_take_take in Hv2. rewrite length_drop in Hk2.
  exists s2, (ms1 ++ ms2), (match r2 with Ok b => dec b | Err err => Err err end), (k1 + k2)%nat.
  split_and!; [by destruct r2|by destruct r2|done|lia|by eapply sends_trans|].
  rewrite Nat2Z.inj_add. by eapply gives_app.
Qed.

Section codec.
Context {V T : Type} `{Codec V T}.

Lemma view_Encode s l v (x : any V) b fuel :
  views s l v → v_closed v = false → codec_Encode x = Ok b → len (frame b) ≤ v_win v →
  (length (frame b) < fuel)%nat →
  ∃ s' ms, channel_Encode fuel l x s = (Ret None, s') ∧ views s' l (v_spend (len (frame b)) v) ∧
    sends l s s' ms ∧ Forall (piece (v_remote v) (v_packet v)) ms ∧
    stream_to (v_remote v) ms = frame b ∧ total_credit ms = 0.
Proof.
  intros Hv Hcl Hx Hw Hf. destruct (view_Write s l v _ fuel Hv Hcl Hw Hf) as (s' & ms & Hr & Hrest).
  exists s', ms. split; [|done]. unfold channel_Encode. rewrite Hx. fold (frame b).
  by rewrite (bind_eq _ _ _ _ _ Hr).
Qed.
End codec.

(** ** The transport and the loop *)

(** The loop runs until it has handled everything that arrived; offered channels
    are accepted in time. *)
Fixpoint drain (fuel : nat) : MS (option error) :=
  match fuel with
  | O => nofuel_st
  | S fuel =>
      s ← get_st;
      match rd_data (s_dec s) with
      | [] => mret None
      | _ =>
          err ← session_onePacket true;
          match err with Some e => mret (Some e) | None => drain fuel end
      end
  end.

(** The bytes [a] has written arrive at [b]. *)
Definition transmit (a b : session) : session * session :=
  (set_enc (mkWriter [] (w_script (s_enc a))) a,
   set_dec (mkReader (rd_data (s_dec b) ++ mjoin (w_out (s_enc a))) (rd_err (s_dec b))) b).

(** They arrive, and the loop handles them. *)
Definition drain_all : MS (option error) := λ s, drain (S (length (rd_data (s_dec s)))) s.

Definition deliver_to_b : M (session * session) (option error) :=
  _ ← modify_st (λ s, transmit s.1 s.2); on_snd drain_all.

Definition deliver_to_a : M (session * session) (option error) :=
  _ ← modify_st (λ s, ((transmit s.2 s.1).2, (transmit s.2 s.1).1)); on_fst drain_all.

(** One message for a channel. *)
Lemma drain_message m rest e s s' fuel :
  message_wf m → (Message_Channel m).2 = true → s_dec s = mkReader (Message_Bytes m ++ rest) e →
  session_dispatch (Message_Channel m).1 m (set_dec (mkReader rest e) s) = (Ret None, s') →
  drain (S fuel) s = drain fuel s'.
Proof.
  intros Hwf Hch Hd Hs. cbn [drain]. unfold mbind at 1, M_bind at 1. cbn [get_st]. rewrite Hd. cbn [rd_data].
  assert (session_onePacket true s = (Ret None, s')) as Hone.
  { rewrite (onePacket_next m rest e) by done. cbv zeta. by destruct m. }
  destruct (Message_Bytes m ++ rest) eqn:Eb.
  - by destruct m.
  - by rewrite (bind_eq _ _ _ _ _ Hone).
Qed.

Lemma views_set_dec r s l v : views s l v → views (set_dec r s) l v.
Proof. done. Qed.

Lemma piece_wf k m x : is_u32 k → m ≤ channelMaxPacket → piece k m x → message_wf x.
Proof.
  intros Hk Hm [p Hp|n Hn]; [|done]. unfold data_frame. cbn [message_wf].
  assert (channelMaxPacket < 2 ^ 32) by by vm_compute.
  split_and!; [done|unfold is_u32; lia|done].
Qed.

(** The view once the pieces arrived. *)
Definition v_arrived (ms : list Message) (v : chan_view) : chan_view :=
  v_got (stream_to (v_local v) ms) (v_spend (- total_credit ms) v).

Lemma v_arrived_nil v : v_arrived [] v = v.
Proof.
  destruct v. unfold v_arrived, v_got, v_spend, total_credit. cbn.
  rewrite app_nil_r. f_equal; [lia|]. change (len (@nil byte)) with 0. lia.
Qed.

Lemma v_arrived_cons x ms v : v_arrived ms (v_arrived [x] v) = v_arrived (x :: ms) v.
Proof.
  unfold v_arrived, v_got, v_spend, total_credit, stream_to. cbn [v_local v_remote v_packet v_queue v_win v_mine
    v_sent v_closed fmap list_fmap foldr].
  change (mjoin (data_of (v_local v) x :: ?y)) with (data_of (v_local v) x ++ mjoin y).
  change (mjoin [data_of (v_local v) x]) with (data_of (v_local v) x ++ []).
  rewrite app_nil_r, app_assoc, len_app. f_equal; lia.
Qed.

Lemma dispatch_piece s l v m x rest e :
  views s l v → v_closed v = false → chanList_getChan (v_local v) (s_chans s) = Some l →
  piece (v_local v) m x → m ≤ channelMaxPacket → len (stream_to (v_local v) [x]) ≤ v_mine v →
  v_win v + total_credit [x] < 2 ^ 32 →
  ∃ s', session_dispatch (Message_Channel x).1 x (set_dec (mkReader rest e) s) = (Ret None, s') ∧
    views s' l (v_arrived [x] v) ∧ sends l (set_dec (mkReader rest e) s) s' [].
Proof.
  intros Hv Hcl Hl Hx Hm Hlen Hw. rewrite dispatch_eq.
  destruct Hx as [p Hp|n Hn]; cbn [Message_Channel fst data_frame s_chans set_dec]; rewrite Hl.
  - unfold stream_to in Hlen. cbn in Hlen. rewrite decide_True, app_nil_r in Hlen by done.
    destruct (view_data (set_dec (mkReader rest e) s) l v (v_local v) p) as (s' & Hr & Hv' & Hs'); [done..|lia|done|].
    exists s'. split; [exact Hr|]. split; [|done]. unfold v_arrived, stream_to, total_credit. cbn.
    rewrite decide_True, app_nil_r by done. destruct v. unfold v_spend, v_got in *. cbn in *. by rewrite Z.sub_0_r.
  - unfold total_credit in Hw. cbn in Hw.
    destruct (view_adjust (set_dec (mkReader rest e) s) l v (v_local v) n) as (s' & Hr & Hv' & Hs'); [done..|lia|lia|].
    exists s'. split; [exact Hr|]. split; [|done]. unfold v_arrived, stream_to, total_credit. cbn.
    destruct v. unfold v_spend, v_got in *. cbn in *. rewrite app_nil_r, Z.add_0_r.
    by replace (v_mine - len []) with v_mine by (change (len (@nil byte)) with 0; lia).
Qed.

Lemma drain_pieces ms s l v m rest e fuel :
  views s l v → v_closed v = false → chanList_getChan (v_local v) (s_chans s) = Some l →
  is_u32 (v_local v) → Forall (piece (v_local v) m) ms → m ≤ channelMaxPacket →
  len (stream_to (v_local v) ms) ≤ v_mine v → v_win v + total_credit ms < 2 ^ 32 →
  s_dec s = mkReader (frames ms ++ rest) e → (length (frames ms ++ rest) < fuel)%nat →
  ∃ s' fuel', drain fuel s = drain fuel' s' ∧ views s' l (v_arrived ms v) ∧ s_enc s' = s_enc s ∧
    s_chans s' = s_chans s ∧ s_dec s' = mkReader rest e ∧ (length rest < fuel')%nat ∧ others l s s'.
Proof.
  intros Hv Hcl Hl Hu Hms Hm. revert s v Hv Hcl Hl Hu Hms fuel.
  induction ms as [|x ms IH]; intros s v Hv Hcl Hl Hu Hms fuel Hlen Hw Hd Hf.
  { exists s, fuel. by rewrite v_arrived_nil. }
  apply Forall_cons in Hms as [Hx Hms].
  change (frames (x :: ms)) with (Message_Bytes x ++ frames ms) in *.
  rewrite <- app_assoc in Hd, Hf.
  assert (stream_to (v_local v) (x :: ms) = stream_to (v_local v) [x] ++ stream_to (v_local v) ms) as Hst
    by apply (stream_to_app _ [x] ms).
  rewrite Hst, len_app in Hlen. change (x :: ms) with ([x] ++ ms) in Hw. rewrite total_credit_app in Hw.
  pose proof (len_nonneg (stream_to (v_local v) [x])).
  pose proof (len_nonneg (stream_to (v_local v) ms)).
  pose proof (total_credit_nonneg _ _ _ Hms).
  destruct (dispatch_piece s l v m x (frames ms ++ rest) e) as (s1 & Hr & Hv1 & [He1 Hc1 Hd1 _ Ho1]);
    [done..|lia|lia|].
  destruct fuel as [|fuel]; [lia|].
  assert (message_wf x) as Hwf by by eapply piece_wf.
  rewrite (drain_message x (frames ms ++ rest) e s s1 fuel Hwf) by (done || by destruct Hx).
  assert (1 ≤ length (Message_Bytes x))%nat as Hx1 by (destruct x; cbn; lia).
  rewrite length_app in Hf. rewrite emit_nil in He1. cbn in He1, Hc1, Hd1.
  assert (v_mine (v_arrived [x] v) = v_mine v - len (stream_to (v_local v) [x])) as Hmine by done.
  assert (v_win (v_arrived [x] v) = v_win v + total_credit [x]) as Hwin by (cbn; lia).
  destruct (IH s1 (v_arrived [x] v) Hv1 Hcl) with (fuel := fuel) as (s2 & fuel' & Hr2 & Hv2 & He2 & Hc2 & Hd2 & Hf2 & Ho2);
    [by rewrite Hc1|done|done|rewrite Hmine; cbn [v_local v_arrived v_got v_spend]; lia|rewrite Hwin; lia|done|lia|].
  exists s2, fuel'. rewrite v_arrived_cons in Hv2. split_and!; [done|done|by rewrite He2|by rewrite Hc2|done|done|].
  exact (others_trans _ _ _ _ Ho1 Ho2).
Qed.

(** Everything the peer sent arrives. *)
Lemma drain_all_pieces ms s l v m e :
  views s l v → v_closed v = false → chanList_getChan (v_local v) (s_chans s) = Some l →
  is_u32 (v_local v) → Forall (piece (v_local v) m) ms → m ≤ channelMaxPacket →
  len (stream_to (v_local v) ms) ≤ v_mine v → v_win v + total_credit ms < 2 ^ 32 →
  s_dec s = mkReader (frames ms) e →
  ∃ s', drain_all s = (Ret None, s') ∧ views s' l (v_arrived ms v) ∧ s_enc s' = s_enc s ∧
    s_chans s' = s_chans s ∧ s_dec s' = mkReader [] e ∧ others l s s'.
Proof.
  intros Hv Hcl Hl Hu Hms Hm Hlen Hw Hd. unfold drain_all.
  rewrite <- (app_nil_r (frames ms)) in Hd.
  destruct (drain_pieces ms s l v m [] e (S (length (rd_data (s_dec s)))))
    as (s' & fuel & Hr & Hv' & He & Hc & Hd' & Hf & Ho); [done..|rewrite Hd; cbn [rd_data]; lia|].
  exists s'. rewrite Hr. destruct fuel as [|fuel]; [cbn in Hf; lia|]. cbn [drain].
  unfold mbind at 1, M_bind at 1. cbn [get_st]. by rewrite Hd'.
Qed.

(** And then a close message: the channel is closed and leaves the table, and is
    answered unless it had sent one itself. *)
Lemma drain_all_close ms s l v m e :
  views s l v → v_closed v = false → chanList_getChan (v_local v) (s_chans s) = Some l →
  is_u32 (v_local v) → Forall (piece (v_local v) m) ms → m ≤ channelMaxPacket →
  len (stream_to (v_local v) ms) ≤ v_mine v → v_win v + total_credit ms < 2 ^ 32 →
  s_dec s = mkReader (frames (ms ++ [CloseMessage (v_local v)])) e →
  ∃ s', drain_all s = (Ret None, s') ∧ views s' l (v_end (v_arrived ms v)) ∧
    s_enc s' = emit (if v_sent v then [] else [CloseMessage (v_remote v)]) (s_enc s) ∧
    s_chans s' = chanList_remove (v_local v) (s_chans s) ∧ s_dec s' = mkReader [] e ∧ others l s s'.
Proof.
  intros Hv Hcl Hl Hu Hms Hm Hlen Hw Hd. unfold drain_all.
  assert (frames (ms ++ [CloseMessage (v_local v)])
    = frames ms ++ Message_Bytes (CloseMessage (v_local v)) ++ []) as Hfr
    by by rewrite frames_app.
  rewrite Hfr in Hd.
  destruct (drain_pieces ms s l v m (Message_Bytes (CloseMessage (v_local v)) ++ []) e
    (S (length (rd_data (s_dec s)))))
    as (s1 & fuel & Hr & Hv1 & He & Hc & Hd1 & Hf & Ho); [done..|rewrite Hd; cbn [rd_data]; lia|].
  rewrite Hr. destruct fuel as [|fuel]; [lia|].
  destruct (view_close (set_dec (mkReader [] e) s1) l (v_arrived ms v) (v_local v))
    as (s2 & Hr2 & Hv2 & He2 & Hc2 & Hd2 & _ & Ho2); [done..|].
  exists s2. rewrite (drain_message (CloseMessage (v_local v)) [] e s1 s2) by
    (done || (rewrite dispatch_eq; cbn [Message_Channel fst s_chans set_dec]; by rewrite Hc, Hl)).
  destruct fuel as [|fuel]; [cbn in Hf; lia|]. cbn [drain].
  unfold mbind at 1, M_bind at 1. cbn [get_st]. rewrite Hd2. cbn [s_dec set_dec rd_data].
  split_and!; [done|done|by rewrite He2; cbn [s_enc set_dec]; rewrite He|by rewrite Hc2; cbn [s_chans set_dec]; rewrite Hc|done|].
  exact (others_trans _ _ _ _ Ho Ho2).
Qed.

(** ** A stream of values *)

Section values.
Context {V T : Type} `{Codec V T}.

Lemma view_encode_all s l v (xs : list (any V)) bs fuel :
  views s l v → v_closed v = false → Forall2 (λ x b, codec_Encode x = Ok b) xs bs →
  len (mjoin (frame <$> bs)) ≤ v_win v → (length (mjoin (frame <$> bs)) < fuel)%nat →
  ∃ s' ms, encode_all fuel l xs s = (Ret None, s') ∧ sends l s s' ms ∧
    Forall (piece (v_remote v) (v_packet v)) ms ∧ stream_to (v_remote v) ms = mjoin (frame <$> bs) ∧
    total_credit ms = 0.
Proof.
  intros Hv Hcl Hbs. revert s v Hv Hcl. induction Hbs as [|x b xs bs Hx Hbs IH]; intros s v Hv Hcl Hw Hf.
  { exists s, []. split_and!; [done|apply sends_nil|done..]. }
  change (mjoin (frame <$> b :: bs)) with (frame b ++ mjoin (frame <$> bs)) in *.
  rewrite len_app in Hw. rewrite length_app in Hf. pose proof (len_nonneg (mjoin (frame <$> bs))).
  destruct (view_Encode s l v x b fuel Hv Hcl Hx) as (s1 & ms1 & Hr1 & Hv1 & Hs1 & Hp1 & Hq1 & Hc1); [lia..|].
  destruct (IH s1 _ Hv1 Hcl) as (s2 & ms2 & Hr2 & Hs2 & Hp2 & Hq2 & Hc2); [cbn [v_win v_spend]; lia|lia|].
  exists s2, (ms1 ++ ms2). split_and!.
  - cbn [encode_all]. by rewrite (bind_eq _ _ _ _ _ Hr1).
  - by eapply sends_trans.
  - by apply Forall_app.
  - rewrite stream_to_app. cbn [v_remote v_spend] in Hq2. by rewrite Hq1, Hq2.
  - by rewrite total_credit_app, Hc1, Hc2.
Qed.

Lemma view_decode_all {A} (decs : list (list byte → result A)) s l v bs :
  views s l v → v_closed v = false → v_queue v = mjoin (frame <$> bs) →
  Forall (λ b, len b < 2 ^ 32) bs → length decs = length bs →
  ∃ s', decode_all decs l s = (Ret (zip_with (λ dec b, dec b) decs bs), s') ∧
    views s' l (v_take (length (v_queue v)) v).
Proof.
  intros Hv Hcl Hq Hbs. revert s v decs Hv Hcl Hq.
  induction Hbs as [|b bs Hb Hbs IH]; intros s v [|dec decs] Hv Hcl Hq Hl; try done.
  { exists s. rewrite Hq. cbn [length fmap list_fmap mjoin list_join]. by rewrite v_take_0. }
  change (mjoin (frame <$> b :: bs)) with (frame b ++ mjoin (frame <$> bs)) in Hq.
  destruct (view_Decode dec s l v io_EOF Hv) as (s1 & ms & r & k & H1 & H2 & Hv1 & Hk & _);
    [left; by exists b, (mjoin (frame <$> bs))|done|].
  rewrite Hq, frameDecoder_Decode_frame in H1 by done.
  assert (drop k (v_queue v) = mjoin (frame <$> bs)) as Hd by (rewrite Hq; congruence).
  assert (r = dec b) as -> by congruence.
  destruct (IH s1 _ decs Hv1 Hcl) as (s2 & Hr2 & Hv2); [by cbn|by injection Hl|].
  exists s2. split.
  - cbn [decode_all zip_with]. rewrite (bind_eq _ _ _ _ _ H2). by rewrite (bind_eq _ _ _ _ _ Hr2).
  - cbn [v_queue v_take] in Hv2. rewrite v_take_take, length_drop in Hv2.
    by replace (k + (length (v_queue v) - k))%nat with (length (v_queue v)) in Hv2 by lia.
Qed.
End values.

(** ** Properties *)

(** Values of the RPC layer over the channels of two sessions. If the sender's
    window covers their frames and the receiver's channel is empty and has room for
    them, the values encoded in turn on the one, cut into data messages of whatever
    packet size the peers agreed on, are taken in by the peer's loop and decoded in
    turn from its channel, each from exactly the bytes it was encoded to, and
    reading leaves the channel with the window it had. *)
Theorem values_over_channels {V T A} `{Codec V T} sa la va sb lb vb q (vs : list (any V)) bs
    (decs : list (list byte → result A)) fuel :
  views sa la va → v_closed va = false → views sb lb vb → v_closed vb = false → v_queue vb = [] →
  v_remote va = v_local vb → v_packet va ≤ channelMaxPacket → is_u32 (v_local vb) →
  chanList_getChan (v_local vb) (s_chans sb) = Some lb →
  w_out (s_enc sa) = [] → rd_data (s_dec sb) = [] →
  Forall2 (λ v b, codec_Encode v = Ok b) vs bs → Forall (λ b, len b < 2 ^ 32) bs →
  length decs = length vs → q = mjoin (frame <$> bs) → len q ≤ v_win va → len q ≤ v_mine vb →
  (length q < fuel)%nat →
  ∃ sa' sb' sb'',
    encode_all fuel la vs sa = (Ret None, sa') ∧
    drain_all (transmit sa' sb).2 = (Ret None, sb') ∧
    decode_all decs lb sb' = (Ret (zip_with (λ dec b, dec b) decs bs), sb'') ∧
    views sb'' lb vb.
Proof.
  intros Ha Hca Hb Hcb Hq0 Hlink Hpk Hu Hget Hout Hin Hvs Hbs Hdecs -> Hw HW Hf.
  destruct (view_encode_all sa la va vs bs fuel Ha Hca Hvs Hw Hf) as (sa' & ms & H1 & Hs & Hp & Hst & Hc).
  rewrite Hlink in Hp, Hst.
  assert (v_win vb < 2 ^ 32) as Hwb.
  { destruct Hb as (_ & c & _ & Hc'). destruct (vo_win _ _ Hc' Hcb) as [_ <-].
    pose proof (vo_window _ _ Hc') as Hwf. unfold window_wf, is_u32 in Hwf. lia. }
  destruct (drain_all_pieces ms (transmit sa' sb).2 lb vb (v_packet va) (rd_err (s_dec sb)))
    as (sb' & H2 & Hb' & _); [done..|by rewrite Hst|lia| |].
  { cbn [transmit snd s_dec set_dec]. rewrite Hin, (sn_enc _ _ _ _ Hs). cbn [w_out emit]. by rewrite Hout. }
  destruct (view_decode_all decs sb' lb (v_arrived ms vb) bs Hb') as (sb'' & H3 & Hb'');
    [done|cbn; by rewrite Hq0, Hst|done|by rewrite Hdecs; eapply Forall2_length|].
  exists sa', sb', sb''. split_and!; [done..|].
  assert (v_take (length (v_queue (v_arrived ms vb))) (v_arrived ms vb) = vb) as <-; [|done].
  unfold v_arrived, v_take. cbn. rewrite drop_all, firstn_all, Hst, Hc, Hq0. cbn [app].
  destruct vb. cbn in *. subst. f_equal; lia.
Qed.

(** A session with one channel, towards the peer's channel of the same id, that may
    send 100 bytes in packets of three and receive 64. *)
Definition stream_channel : channel :=
  set_remoteWin (mkWindow 100 0 false)
    (mkChannel 0 0 channelMaxPacket 3 channelOutbound (make_chan chanSize) false newWindow
       newBuffer 64 false).

Definition stream_session : session :=
  mkSession (mkWriter [] []) (mkReader [] io_EOF) 0 [Some 0%nat] {[ 0%nat := stream_channel ]} 1
    None None (make_chan 1).

Definition stream_view : chan_view := mkView 0 0 3 [] 100 64 false false.

Lemma values_over_channels_witness :
  ∃ sa' sb' sb'',
    encode_all (V := list byte) (T := unit) 99 0 [VNil; Val [x07]] stream_session = (Ret None, sa') ∧
    drain_all (transmit sa' stream_session).2 = (Ret None, sb') ∧
    decode_all [codec_Decode (TVar tt); codec_Decode (TVar tt)] 0 sb'
    = (Ret [Ok VNil; Ok (Val [x07])], sb'').
Proof.
  assert (views stream_session 0 stream_view) as Hv.
  { split; [by constructor|]. exists stream_channel. split; [done|].
    split; try done; try by vm_compute. apply newBuffer_repr. }
  destruct (values_over_channels (V := list byte) (T := unit) stream_session 0 stream_view
    stream_session 0 stream_view (mjoin (frame <$> [[x00]; [x05; x07]])) [VNil; Val [x07]]
    [[x00]; [x05; x07]] [codec_Decode (TVar tt); codec_Decode (TVar tt)] 99)
    as (sa' & sb' & sb'' & H1 & H2 & H3 & _).
  1-11: done.
  - by repeat constructor.
  - by repeat constructor.
  - done.
  - done.
  - by apply Z.leb_le.
  - by apply Z.leb_le.
  - by apply Nat.ltb_lt.
  - exists sa', sb', sb''. split; [exact H1|]. split; [exact H2|exact H3].
Defined.
