(* ===== verification/Rpc.v ===== *)
(** * rpc: responder, server and client

    rpc.go, server.go and client.go over one channel. A channel end is what the
    package uses of [mux.Channel]: the bytes still to be read, the writes made,
    the calls of [Close]. A read that gets to the end of what has arrived waits,
    unless the stream has ended. The client writes its whole request before it reads,
    so its [call] is cut between the two, where the server runs. *)
From S2P Require Import Prelude GoRuntime FrameCodec RespondMux.

(** ** Channel ends *)

Record chan_end := mkEnd {
  ce_in : reader;
  ce_out : writer;
  ce_closes : nat;
}.

(** The end of the data of a reader whose stream has not ended: more may arrive,
    and no read returns this. *)
Definition io_Pending : error := errorString "io: nothing has arrived yet".

(** The next frame has not arrived in full, and may still arrive. *)
Definition frame_waits (r : reader) : bool :=
  bool_decide (rd_err r = io_Pending) &&
  match io_ReadFull 4 r with
  | (Err _, _) => true
  | (Ok prefix, r1) =>
      match io_ReadFull (Uint32 prefix) r1 with (Err _, _) => true | (Ok _, _) => false end
  end.

Lemma frame_waits_ended r : rd_err r ≠ io_Pending → frame_waits r = false.
Proof. intros He. unfold frame_waits. by rewrite bool_decide_false. Qed.

Lemma frame_waits_frame b rest e : len b < 2 ^ 32 → frame_waits (mkReader (frame b ++ rest) e) = false.
Proof.
  intros Hb. pose proof (len_nonneg b). unfold frame_waits, frame.
  rewrite u32_small by (unfold is_u32; lia). rewrite <- app_assoc, io_ReadFull_app by done.
  rewrite <- (app_nil_r (PutUint32 (len b))), Uint32_PutUint32 by (unfold is_u32; lia).
  rewrite io_ReadFull_app by done. by rewrite andb_false_r.
Qed.

(** [ch.Close()], over a working transport: [io.EOF] after the first call. *)
Definition chan_Close : M chan_end (option error) := λ c,
  (Ret (if (ce_closes c =? 0)%nat then None else Some io_EOF),
   mkEnd (ce_in c) (ce_out c) (S (ce_closes c))).

(** ** The responding side *)

(** What [*responder] keeps besides the channel; [r_Error] and [r_Continue] are
    the fields of [header]. *)
Record srv := mkSrv {
  sv_ch : chan_end;
  r_responded : bool;
  r_Error : option string;
  r_Continue : bool;
}.

Definition new_responder (ch : chan_end) : srv := mkSrv ch false None false.

Definition set_sv_ch ch s := mkSrv ch (r_responded s) (r_Error s) (r_Continue s).

Section rpc.
Context {V T : Type} `{Codec V T}.

Definition end_Encode (v : any V) : M chan_end (option error) := λ c,
  let '(e, w) := frameEncoder_Encode v (ce_out c) in
  (Ret e, mkEnd (ce_in c) w (ce_closes c)).

Definition end_Decode {A} (dec : list byte → result A) : M chan_end (result A) := λ c,
  if frame_waits (ce_in c) then (Block, c)
  else
    let '(v, r) := frameDecoder_Decode dec (ce_in c) in
    (Ret v, mkEnd r (ce_out c) (ce_closes c)).

Definition on_ch {A} (m : M chan_end A) : M srv A := λ s,
  let '(o, ch) := m (sv_ch s) in (o, set_sv_ch ch s).

(** [Call.Receive(v)]; nil discards into a [[]byte]. *)
Definition Call_Receive (t : target T) : M srv (result (any V)) :=
  on_ch (end_Decode (codec_Decode (match t with TNil => TBytes | _ => t end))).

(** [responder.Send(v)]. *)
Definition responder_Send (v : any V) : M srv (option error) := on_ch (end_Encode v).

(** The loop [for _, v := range values]. *)
Fixpoint send_values (values : list (any V)) : M srv (option error) :=
  match values with
  | [] => mret None
  | v :: values =>
      err ← responder_Send v;
      match err with Some e => mret (Some e) | None => send_values values end
  end.

(** A single error becomes [values = [nil]] and an error for the header. *)
Definition split_error (values : list (any V)) : list (any V) * option error :=
  match values with [VErr e] => ([VNil], Some e) | _ => (values, None) end.

(** [r.responded = true; r.header.Continue = continue_]. *)
Definition set_responded (continue_ : bool) (s : srv) : srv :=
  mkSrv (sv_ch s) true (r_Error s) continue_.

(** [if e != nil { r.header.Error = &errStr }]. *)
Definition set_header_error (e : option error) (s : srv) : srv :=
  match e with
  | Some e => mkSrv (sv_ch s) (r_responded s) (Some (Error_text e)) (r_Continue s)
  | None => s
  end.

(** [respond(values, continue_)]. *)
Definition responder_respond (values : list (any V)) (continue_ : bool)
    : M srv (option error) :=
  _ ← modify_st (set_responded continue_);
  let '(values, e) := split_error values in
  _ ← modify_st (set_header_error e);
  s ← get_st;
  err ← responder_Send (VResponseHeader (r_Error s) (r_Continue s));
  match err with
  | Some e => mret (Some e)
  | None =>
      err ← send_values (match values with [] => [VNil] | _ => values end);
      match err with
      | Some e => mret (Some e)
      | None => if continue_ then mret None else on_ch chan_Close
      end
  end.

(** [Return(v...)] and [Continue(v...)]. *)
Definition responder_Return (v : list (any V)) : M srv (option error) :=
  responder_respond v false.

Definition responder_Continue (v : list (any V)) : M srv (option error) :=
  responder_respond v true.

(** A handler function: run on the call's selector, it receives and responds
    through the server state. *)
Definition handler_func : Type := string → M srv unit.

(** [NotFoundHandler()]. *)
Definition run_not_found (selector : string) : M srv unit :=
  _ ← responder_Return [VErr (errorString ("not found: " +:+ selector))]; mret tt.

(** [hn.RespondRPC(resp, &call)]. *)
Definition RespondRPC (fuel : nat) (ms : gmap nat (RespondMux handler_func))
    (hn : Handler handler_func) (selector : string) : M srv unit :=
  match mux_resolve fuel ms hn selector with
  | Ret (HandlerFunc f) => f selector
  | Ret NotFoundHandler => run_not_found selector
  | Ret (SubMux _) => nofuel_st
  | Block => block_st
  | Panic e => panic_st e
  | NoFuel => nofuel_st
  end.

(** [Server.respond(hn, sess, ch, ctx)]. *)
Definition Server_respond (fuel : nat) (ms : gmap nat (RespondMux handler_func))
    (hn : Handler handler_func) : M srv unit :=
  call ← on_ch (end_Decode codec_Decode_call);
  match call with
  | Ok sel =>
      _ ← RespondRPC fuel ms hn (cleanSelector sel);
      s ← get_st;
      _ ← (if r_responded s then mret None else responder_Return []);
      s ← get_st;
      if r_Continue s then mret tt else _ ← on_ch chan_Close; mret tt
  | Err _ => mret tt
  end.

(** The loop of [Server.Respond]: one goroutine per accepted channel. [accepts]
    is what [sess.Accept] returns, call after call. The result is the channels
    being responded to. *)
Fixpoint Server_Respond_loop (accepts : list (result chan_end)) (spawned : list chan_end)
    : outcome unit * list chan_end :=
  match accepts with
  | [] => (Block, spawned)
  | Ok ch :: accepts => Server_Respond_loop accepts (spawned ++ [ch])
  | Err e :: _ => (if decide (e = io_EOF) then Ret tt else Panic (Error_text e), spawned)
  end.

(** [Server.Respond(sess, ctx)], with whether the session was closed: [defer]
    runs when the function returns and when it panics. *)
Definition Server_Respond (codec_nil : bool) (accepts : list (result chan_end))
    : outcome unit * list chan_end * bool :=
  if codec_nil then (Panic "rpc.Respond: nil codec", [], true)
  else
    let '(o, spawned) := Server_Respond_loop accepts [] in
    (o, spawned, match o with Ret _ | Panic _ => true | _ => false end).

(** The handler of a server: an empty mux when there is none. *)
Definition Server_handler (h : option (Handler handler_func)) (p : nat)
    : M (gmap nat (RespondMux handler_func)) (Handler handler_func) := λ ms,
  match h with
  | Some h => (Ret h, ms)
  | None => (Ret (SubMux p), <[p := NewRespondMux]> ms)
  end.

(** [Server.ServeMux(l)]: a session is responded to in its own goroutine. The
    state is the listener's and the sessions being responded to. *)
Fixpoint Server_ServeMux {L Sess} (fuel : nat) (Accept : M L (result Sess))
    : M (L * list Sess) error :=
  match fuel with
  | O => nofuel_st
  | Datatypes.S fuel =>
      r ← on_fst Accept;
      match r with
      | Err e => mret e
      | Ok sess =>
          _ ← modify_st (λ s, (s.1, s.2 ++ [sess]));
          Server_ServeMux fuel Accept
      end
  end.

(** ** The calling side *)

(** The [args any] of [Call]: a value, or a [chan interface{}] and the values
    it delivers until it is closed. *)
Inductive call_args :=
| ArgValue (v : any V)
| ArgChan (vs : list (any V)).

(** Encode in turn; an error closes the channel. *)
Fixpoint encode_args (vs : list (any V)) : M chan_end (option error) :=
  match vs with
  | [] => mret None
  | v :: vs =>
      err ← end_Encode v;
      match err with
      | Some e => _ ← chan_Close; mret (Some e)
      | None => encode_args vs
      end
  end.

(** [call], the request. *)
Definition call_request (selector : string) (args : call_args) : M chan_end (option error) :=
  err ← end_Encode (VCallHeader selector);
  match err with
  | Some e => _ ← chan_Close; mret (Some e)
  | None =>
      match args with
      | ArgChan vs => encode_args vs
      | ArgValue v => encode_args [v]
      end
  end.

(** [type Response struct], and the values the reply pointers got. *)
Record Response := mkResponse {
  resp_Error : option string;
  resp_Continue : bool;
  resp_replies : list (any V);
}.

(** The errors [call] returns: a local one, or [RemoteError]. *)
Inductive call_error :=
| LocalError (e : error)
| RemoteError (text : string).

(** [resp.Reply == nil]. *)
Definition reply_nil (replies : list (target T)) : bool :=
  match replies with [] | [TNil] => true | _ => false end.

(** [for _, r := range replies]. *)
Fixpoint decode_replies (replies : list (target T)) (got : list (any V))
    : M chan_end (list (any V) * option error) :=
  match replies with
  | [] => mret (got, None)
  | t :: replies =>
      v ← end_Decode (codec_Decode t);
      match v with
      | Err e => mret (got, Some e)
      | Ok v => decode_replies replies (got ++ [v])
      end
  end.

(** [call], the response; [defer ch.Close()] runs when the header did not ask
    to continue. *)
Definition call_response (replies : list (target T))
    : M chan_end (option Response * option call_error) :=
  header ← end_Decode codec_Decode_response;
  match header with
  | Ok (error, continue) =>
      r ← match error with
          | Some text =>
              mret (Some (mkResponse error continue []), Some (RemoteError text))
          | None =>
              if reply_nil replies then
                _ ← end_Decode (codec_Decode TBytes);
                mret (Some (mkResponse error continue []), None)
              else
                r ← decode_replies replies [];
                let '(got, err) := r in
                mret (Some (mkResponse error continue got), LocalError <$> err)
          end;
      _ ← (if continue : bool then mret None else chan_Close);
      mret r
  | Err e => _ ← chan_Close; mret (None, Some (LocalError e))
  end.

(** [Response.Send(v)] and [Response.Receive(v)], for calls that continue. *)
Definition Response_Send (v : any V) : M chan_end (option error) := end_Encode v.

Definition Response_Receive (t : target T) : M chan_end (result (any V)) :=
  end_Decode (codec_Decode t).

(** Where the goroutine of [Call] closes the channel of a cancelled call, if it
    does before the call is over: a close in the middle of the request is as one
    before it, since the writes of a channel end do not depend on it. *)
Inductive cancel_point := BeforeRequest | BeforeResponse | AfterResponse | NotClosed.

#[global] Instance cancel_point_eq_dec : EqDecision cancel_point.
Proof. solve_decision. Defined.

Definition cancel_at (here p : cancel_point) : M chan_end unit :=
  if decide (p = here) then _ ← chan_Close; mret tt else mret tt.

(** [call(ctx, ch, cd, selector, args, replies...)]; [env] is what has happened to
    the channel by the time [call] reads the response: what has arrived, and whether
    its stream has ended. [call] waits ([Block]) if that is not enough to go on. *)
Definition call (env : chan_end → chan_end) (p : cancel_point) (selector : string)
    (args : call_args) (replies : list (target T))
    : M chan_end (option Response * option call_error) :=
  _ ← cancel_at BeforeRequest p;
  err ← call_request selector args;
  match err with
  | Some e => mret (None, Some (LocalError e))
  | None =>
      _ ← cancel_at BeforeResponse p;
      _ ← modify_st env;
      call_response replies
  end.

(** [Client.Call] once the channel is open: [ctx_err] is [ctx.Err()] at the end
    of the call. *)
Definition Client_Call_on (env : chan_end → chan_end) (p : cancel_point) (ctx_err : option error)
    (selector : string) (args : call_args) (replies : list (target T))
    : M chan_end (option Response * option call_error) :=
  r ← call env p selector args replies;
  _ ← cancel_at AfterResponse p;
  mret (match ctx_err with Some e => (r.1, Some (LocalError e)) | None => r end).

(** [Client.Call], [open] being what [Session.Open] returned; the channel after
    it, if there is one. *)
Definition Client_Call (open : result chan_end) (env : chan_end → chan_end) (p : cancel_point)
    (ctx_err : option error) (selector : string) (args : call_args) (replies : list (target T))
    : outcome (option Response * option call_error) * option chan_end :=
  match open with
  | Err e => (Ret (None, Some (LocalError e)), None)
  | Ok ch =>
      let '(o, ch) := Client_Call_on env p ctx_err selector args replies ch in (o, Some ch)
  end.
End rpc.

Arguments call_args : clear implicits.
Arguments Response : clear implicits.
Arguments handler_func : clear implicits.
