(* ===== verification/Fn.v ===== *)
(** * fn: calling Go functions by reflection, and handlers made of them

    call.go and handler.go. mapstructure is a third-party package: the class
    [Mapstructure] stands for its [Decode]. The stack that [identifyPanic] looks
    through is what [runtime.Callers] found, the class [Stack]. What the
    functions themselves do is [FuncBodies]; a panic in them is [Panic]. *)
From Stdlib Require Import Floats.SpecFloat Ascii String.
From S2P Require Import Prelude GoRuntime GoReflect FrameCodec RespondMux Rpc.

Local Open Scope string_scope.
Local Open Scope Z_scope.

(** [mapstructure.Decode(input, p)], [p] pointing to a variable of type [t]
    that holds [old]: the variable's new value. *)
Class Mapstructure := mapstructure_Decode : iface → rtype → value → result value.

(** [runtime.Callers(3, pc[:])], and [runtime.FuncForPC(pc)] with the name of
    the function and the [FileLine] of the counter. *)
Class Stack := {
  runtime_Callers : list Z;
  runtime_FuncForPC : Z → option (string * (string * Z));
}.

(** ** identifyPanic *)

(** The [%x] verb, for an unsigned number of 64 bits. *)
Fixpoint hex_digits (fuel : nat) (z : Z) (acc : string) : string :=
  match fuel with
  | O => acc
  | S fuel =>
      let d := z mod 16 in
      let c := char_of_Z (if d <? 10 then 48 + d else 87 + d) in
      let acc := Strings.String.String c acc in
      if z / 16 =? 0 then acc else hex_digits fuel (z / 16) acc
  end.

(** The loop over the counters: the first function outside package runtime,
    or the last one seen. *)
Fixpoint identify_loop `{Stack} (pcs : list Z) (name file : string) (line : Z)
    : string * string * Z :=
  match pcs with
  | [] => (name, file, line)
  | pc :: pcs =>
      match runtime_FuncForPC pc with
      | None => identify_loop pcs name file line
      | Some (name, (file, line)) =>
          if HasPrefix name "runtime." then identify_loop pcs name file line
          else (name, file, line)
      end
  end.

(** [identifyPanic()]. *)
Definition identifyPanic `{Stack} : string :=
  let pc := take 16 runtime_Callers in
  let '(name, file, line) := identify_loop pc "" "" 0 in
  if negb (name =? "")%string then name +:+ ":" +:+ pretty line
  else if negb (file =? "")%string then file +:+ ":" +:+ pretty line
  else "pc:[" +:+ String.concat " " ((λ z, hex_digits 16 z "") <$>
         (pc ++ replicate (16 - length pc) 0)%list) +:+ "]".

(** ** Arguments *)

Section args.
Context `{GT : GoTypes} `{FloatConv} `{MS : Mapstructure}.

(** The loops of [ensureType], from element [i]. *)
Fixpoint fill_array (fuel : nat) (v nv : Value) (i : nat) : outcome Value :=
  match fuel with
  | O => Ret nv
  | S fuel =>
      e ← Value_Index v i;
      vv ← (match e with Some e => Ret (ValueOf (Value_Interface e)) | None => Ret None end);
      ne ← Value_Index nv i;
      et ← Value_Type ne;
      c ← Convert vv et;
      nv ← Value_SetIndex nv i c;
      fill_array fuel v nv (S i)
  end.

Fixpoint fill_slice (fuel : nat) (v nv : Value) (i : nat) : outcome Value :=
  match fuel with
  | O => Ret nv
  | S fuel =>
      e ← Value_Index v i;
      vv ← (match e with Some e => Ret (ValueOf (Value_Interface e)) | None => Ret None end);
      nt ← Value_Type nv;
      c ← Convert vv (Elem nt);
      nv ← Append nv c;
      fill_slice fuel v nv (S i)
  end.

(** [ensureType(v, t)]. *)
Definition ensureType (h : heap) (v : Value) (t : rtype) : outcome Value :=
  vt ← Value_Type v;
  nv ← (if bool_decide (Kind vt = KSlice) && bool_decide (Elem vt ≠ t) then
          n ← Value_Len h v;
          match Kind t with
          | KArray => fill_array n v (Some (t, zero t)) 0
          | KSlice => fill_slice n v (Some (t, VSlice (Some []))) 0
          | _ => Panic "unable to convert slice to non-array, non-slice type"
          end
        else Ret v);
  if bool_decide (vt = t) then Ret nv else Convert nv t.

(** Decoding the elements of [rv] into those of [nv], from element [i]. *)
Fixpoint decode_elems (fuel : nat) (rv nv : Value) (i : nat) : outcome (result Value) :=
  match fuel with
  | O => Ret (Ok nv)
  | S fuel =>
      ne ← Value_Index nv i;
      et ← Value_Type ne;
      e ← Value_Index rv i;
      match mapstructure_Decode (match e with Some e => Value_Interface e | None => None end)
              et (zero et) with
      | Err e => Ret (Err (errorString ("fn: mapstructure: " +:+ Error_text e)))
      | Ok x =>
          nv ← Value_SetIndex nv i (Some (et, x));
          decode_elems fuel rv nv (S i)
      end
  end.

(** The body of the loop of [ArgsTo], for a parameter of type [t]. *)
Definition arg_to (h : heap) (t : rtype) (param : iface) : outcome (result Value) :=
  match Kind t with
  | KStruct =>
      match mapstructure_Decode param t (zero t) with
      | Err e => Ret (Err (errorString ("fn: mapstructure: " +:+ Error_text e)))
      | Ok x => v ← ensureType h (Some (t, x)) t; Ret (Ok v)
      end
  | KSlice =>
      let rv := ValueOf param in
      if bool_decide (Kind (Elem t) = KStruct) then
        n ← Value_Len h rv;
        decode_elems n rv (Some (t, VSlice (Some (replicate n (zero (Elem t)))))) 0
      else Ret (Ok rv)
  | k =>
      param ←
        (if bool_decide (k = KInt) then
           match param with
           | None => Panic nil_dereference
           | Some (pt, x) =>
               if bool_decide (Kind pt = KFloat64) then
                 match pt, x with
                 | TBasic BFloat64, VFloat f => Ret (Some (TInt, VInt (float_to_int64 f)))
                 | _, _ => Panic ("interface conversion: interface {} is " +:+ type_String pt
                                  +:+ ", not float64")
                 end
               else Ret param
           end
         else Ret param);
      v ← ensureType h (ValueOf param) t;
      Ret (Ok v)
  end.

Fixpoint ArgsTo_loop (h : heap) (ins : list rtype) (args : list iface)
    : outcome (result (list Value)) :=
  match ins, args with
  | t :: ins, param :: args =>
      v ← arg_to h t param;
      match v with
      | Err e => Ret (Err e)
      | Ok v =>
          vs ← ArgsTo_loop h ins args;
          match vs with
          | Err e => Ret (Err e)
          | Ok vs => Ret (Ok (v :: vs))
          end
      end
  | _, _ => Ret (Ok [])
  end.

(** [ArgsTo(fntyp, args)]. *)
Definition ArgsTo (h : heap) (fntyp : rtype) (args : list iface)
    : outcome (result (list Value)) :=
  ins ← In_types fntyp;
  if bool_decide (length args = length ins) then ArgsTo_loop h ins args
  else Ret (Err (errorString ("fn: expected " +:+ pretty (length ins) +:+ " params, got "
                              +:+ pretty (length args)))).

(** ** Results *)

(** [r.Interface()]. *)
Definition Interface_of (r : Value) : outcome iface :=
  match r with
  | Some r => Ret (Value_Interface r)
  | None => ValueError "Interface" None
  end.

Fixpoint interfaces (ret : list Value) : outcome (list iface) :=
  match ret with
  | [] => Ret []
  | r :: ret => x ← Interface_of r; xs ← interfaces ret; Ret (x :: xs)
  end.

(** [ParseReturn(ret)]. *)
Definition ParseReturn (ret : list Value) : outcome (result (list iface)) :=
  match last ret with
  | None => Ret (Ok [])
  | Some last =>
      lt ← Value_Type last;
      if Implements lt TError then
        isnil ← IsNil last;
        if isnil : bool then out ← interfaces (take (length ret - 1) ret); Ret (Ok out)
        else
          x ← Interface_of last;
          match x with
          | Some x => Ret (Err (as_error x))
          | None => Panic nil_dereference
          end
      else out ← interfaces ret; Ret (Ok out)
  end.
End args.

(** ** Call *)

(** A deferred function that recovers: [f] is what it does with the panic. *)
Definition recovering {S A} (f : string → M S A) (m : M S A) : M S A := λ s,
  match m s with
  | (Panic p, s') => f p s'
  | r => r
  end.

Section call.
Context `{GT : GoTypes} `{FloatConv} `{MS : Mapstructure} `{ST : Stack}.
Context {S : Type} `{FB : FuncBodies S}.

Definition panic_error (p : string) : error :=
  errorString ("panic: " +:+ p +:+ " [" +:+ identifyPanic +:+ "]").

(** [Call(fn, args)]. *)
Definition Call (h : heap) (fn : iface) (args : list iface) : M S (result (list iface)) :=
  recovering (λ p, mret (Err (panic_error p)))
    (let fnval := ValueOf fn in
     fntyp ← lift (Value_Type fnval);
     fnParams ← lift (ArgsTo h fntyp args);
     match fnParams with
     | Err e => mret (Err e)
     | Ok fnParams =>
         fnReturn ← Value_Call fnval fnParams;
         lift (ParseReturn fnReturn)
     end).
End call.

(** ** Handlers *)

Section handlers.
Context `{GT : GoTypes} `{FloatConv} `{MS : Mapstructure} `{ST : Stack}.
Context `{CD : Codec (rtype * value) rtype} `{FB : FuncBodies srv}.

(** Where the [Call] with a selector is, and the responder; the function value
    of a method of a receiver. *)
Class Objects := {
  call_at : string → nat;
  responder_at : nat;
  bound_method : rtype * value → string → nat;
}.
Context `{OB : Objects}.

Abbreviation V := (rtype * value)%type.

(** An [any] as what the RPC layer sends. *)
Definition to_any (x : iface) : any V :=
  match x with
  | None => VNil
  | Some x => if Implements x.1 TError then VErr (as_error x) else Val x
  end.

(** The elements of the [[]any] variable a value was received into. *)
Definition as_args (v : any V) : list iface :=
  match v with
  | Val (_, VSlice (Some l)) => (λ x, match x with VIface x => x | _ => None end) <$> l
  | _ => []
  end.

Definition callRef : rtype := TPtr (TNamed "rpc.Call").

Definition call_value (selector : string) : V := (callRef, VPtr (Some (call_at selector))).

(** [fromFunc(fn)]: the handler, unless making it panics. *)
Definition fromFunc (h : heap) (fn : Value) : outcome (handler_func) :=
  fntyp ← Value_Type fn;
  ins ← In_types fntyp;
  let expectsCallParam :=
    match last ins with Some t => bool_decide (t = callRef) | None => false end in
  Ret (λ selector,
    recovering (λ p, _ ← responder_Return [VErr (panic_error p)]; mret tt)
      (params ← Call_Receive (TVar (TSlice TAny));
       match params with
       | Err e => _ ← responder_Return [VErr (errorString ("fn: args: " +:+ Error_text e))]; mret tt
       | Ok params =>
           let params := as_args params in
           let params := if expectsCallParam then (params ++ [Some (call_value selector)])%list
                         else params in
           ret ← Call h fn params;
           match ret with
           | Err e => _ ← responder_Return [VErr e]; mret tt
           | Ok ret => _ ← responder_Return (to_any <$> ret); mret tt
           end
       end)).

Definition handlerFuncType : rtype := TNamed "rpc.HandlerFunc".

(** A function of the handler signature, run as a handler. *)
Definition run_handler (f : nat) : handler_func := λ selector,
  _ ← func_body f [VIface (Some (TPtr (TNamed "rpc.responder"), VPtr (Some responder_at)));
                   VPtr (Some (call_at selector))];
  mret tt.

(** The handler for a method of [rcvr] with signature [sig]. *)
Definition method_handler (h : heap) (rcvr : V) (name : string) (sig : rtype)
    : outcome handler_func :=
  let m := bound_method rcvr name in
  if bool_decide (underlying sig = underlying handlerFuncType) then Ret (run_handler m)
  else fromFunc h (Some (sig, VFunc (Some m))).

(** The loop over the methods of [t]. *)
Fixpoint register_methods (h : heap) (rcvr : V) (p : nat) (ms : list (string * rtype))
    : M (gmap nat (RespondMux handler_func)) unit :=
  match ms with
  | [] => mret tt
  | (name, sig) :: ms =>
      f ← lift (method_handler h rcvr name sig);
      _ ← Handle p name (Some (HandlerFunc f));
      register_methods h rcvr p ms
  end.

(** [rpc.Handler]: the interface with method [RespondRPC]. *)
Definition handler_method : string * rtype :=
  ("RespondRPC", TFunc [TNamed "rpc.Responder"; callRef] [] false).

(** [fromMethods(rcvr, t)]: the address of the new mux. *)
Definition fromMethods (h : heap) (rcvr : V) (t : rtype)
    : M (gmap nat (RespondMux handler_func)) nat :=
  _ ← lift (Convert (ValueOf (Some rcvr)) t);
  ms ← get_st;
  let p := fresh (dom ms) in
  _ ← put_st (<[p := NewRespondMux]> ms);
  _ ← register_methods h rcvr p (methods_of t);
  _ ← (if bool_decide (handler_method ∈ methods_of rcvr.1) then
         Handle p "/" (Some (HandlerFunc (run_handler (bound_method rcvr handler_method.1))))
       else mret tt);
  mret p.

(** [HandlerFrom[T](v)], [t] being [T]. *)
Definition HandlerFrom (h : heap) (t : rtype) (v : iface)
    : M (gmap nat (RespondMux handler_func)) (Handler handler_func) :=
  vt ← lift (Value_Type (ValueOf v));
  rt ← (match Kind vt, v with
        | KPtr, Some (_, VPtr None) => lift (Value_Type None)
        | KPtr, _ => mret (Elem vt)
        | _, _ => mret vt
        end);
  match Kind rt, v with
  | KFunc, _ => f ← lift (fromFunc h (ValueOf v)); mret (HandlerFunc f)
  | KStruct, Some v => p ← fromMethods h v t; mret (SubMux p)
  | _, _ => panic_st "must be func or struct"
  end.
End handlers.
