(* ===== verification/FnSpec.v ===== *)
(** * fn: what calls by reflection guarantee

    A function called through [Call] only sees arguments of its own types, a
    panic becomes an error, and JSON-like arguments arrive as what they stand
    for. *)
From Stdlib Require Import Floats.SpecFloat Ascii String.
From S2P Require Import Prelude GoRuntime GoReflect GoReflectSpec Fn.

Local Open Scope Z_scope.

(** What [mapstructure.Decode] documents: it fills the variable in, so the
    variable keeps its type. *)
Class MapstructureLaws `{GT : GoTypes} `{MS : Mapstructure} : Prop :=
  decode_typed : ∀ param t old new,
    has_type t old → mapstructure_Decode param t old = Ok new → has_type t new.

Ltac mbind_step :=
  match goal with
  | |- context [mbind ?k ?m] =>
      let E := fresh "E" in
      unfold mbind at 1, outcome_bind at 1; destruct m as [?| | |] eqn:E; try done
  end.

Section args.
Context `{GT : GoTypes} `{HL : !GoTypesLaws} `{FloatConv} `{MS : Mapstructure}.
Context `{ML : !MapstructureLaws}.

Lemma iface_value_ok x : iface_ok x → Value_ok x.
Proof. destruct x as [[t v]|]; [|done]. by intros [_ Hv]. Qed.

Lemma Convert_ok v t r :
  Value_ok v → Convert v t = Ret r → ∃ y, r = Some (t, y) ∧ has_type t y.
Proof. destruct v as [[s x]|]; [|done]. intros Hx. by apply Convert_typed. Qed.

(** The element of a typed value, unwrapped. *)
Lemma unwrap_ok e :
  (∀ x, e = Some x → value_ok x) →
  Value_ok (match e with Some e => ValueOf (Value_Interface e) | None => None end).
Proof. intros He. destruct e as [e|]; [|done]. by apply iface_value_ok, Value_Interface_ok, He. Qed.

Lemma fill_array_typed fuel v t c i r :
  Value_ok v → has_type t c → fill_array fuel v (Some (t, c)) i = Ret r →
  ∃ c', r = Some (t, c') ∧ has_type t c'.
Proof.
  intros Hv. revert c i. induction fuel as [|fuel IH]; intros c i Hc; cbn [fill_array].
  { intros [= <-]. by eexists. }
  unfold mbind, outcome_bind.
  destruct (Value_Index v i) as [e| | |] eqn:He; try done.
  destruct (Value_Index_typed _ _ _ Hv He) as (x & -> & Hx).
  destruct (Value_Index (Some (t, c)) i) as [ne| | |]; try done.
  destruct (Value_Type ne) as [et| | |]; try done.
  destruct (Convert _ et) as [cv| | |] eqn:Hcv; try done.
  apply Convert_ok in Hcv as (y & -> & Hy).
  2: { apply (unwrap_ok (Some x)). by intros ? [= <-]. }
  destruct (Value_SetIndex _ i _) as [nv| | |] eqn:Hs; try done.
  apply (Value_SetIndex_typed _ t) in Hs as (c' & -> & Hc'); [by apply IH|done..|by eexists].
Qed.

Lemma fill_slice_typed fuel v t l i r :
  Value_ok v → has_type t (VSlice l) → fill_slice fuel v (Some (t, VSlice l)) i = Ret r →
  ∃ c', r = Some (t, c') ∧ has_type t c'.
Proof.
  intros Hv. revert l i. induction fuel as [|fuel IH]; intros l i Hc; cbn [fill_slice].
  { intros [= <-]. by eexists. }
  unfold mbind, outcome_bind.
  destruct (Value_Index v i) as [e| | |] eqn:He; try done.
  destruct (Value_Index_typed _ _ _ Hv He) as (x & -> & Hx). cbn [Value_Type].
  destruct (Convert _ (Elem t)) as [cv| | |] eqn:Hcv; try done.
  apply Convert_ok in Hcv as (y & -> & Hy).
  2: { apply (unwrap_ok (Some x)). by intros ? [= <-]. }
  destruct (Append _ _) as [nv| | |] eqn:Hs; try done.
  apply Append_typed in Hs as (l' & -> & Hl'); [by apply IH|done..].
Qed.

Lemma Kind_slice t : Kind t = KSlice → underlying t = TSlice (Elem t).
Proof. unfold Kind, Elem. by destruct (underlying t) as [[]| | | | | | | |]. Qed.

(** [ensureType] gives a value of the type asked for. *)
Lemma ensureType_typed h v t r :
  Value_ok v → ensureType h v t = Ret r → ∃ y, r = Some (t, y) ∧ has_type t y.
Proof.
  intros Hv. destruct v as [[vt x]|]; [|done]. unfold ensureType, mbind, outcome_bind.
  cbn [Value_Type].
  destruct (bool_decide _ && bool_decide _).
  - destruct (Value_Len h _) as [n| | |]; try done.
    assert (Hfin : ∀ nv, (∃ c, nv = Some (t, c) ∧ has_type t c) →
      (if bool_decide (vt = t) then Ret nv else Convert nv t) = Ret r →
      ∃ y, r = Some (t, y) ∧ has_type t y).
    { intros nv (c & -> & Hc). case_bool_decide; [intros [= <-]; by eexists|].
      by apply Convert_ok. }
    destruct (Kind t) eqn:Hk; try done.
    + destruct (fill_slice _ _ _ _) as [nv| | |] eqn:Hf; try done. apply Hfin.
      eapply fill_slice_typed; [exact Hv| |exact Hf].
      apply has_type_underlying. rewrite Kind_slice by done. by constructor.
    + destruct (fill_array _ _ _ _) as [nv| | |] eqn:Hf; try done. apply Hfin.
      eapply fill_array_typed; [exact Hv| |exact Hf]. apply zero_typed.
  - case_bool_decide as Ht; [|by apply Convert_ok]. subst. intros [= <-]. by eexists.
Qed.

(** ** ArgsTo *)

Lemma decode_elems_typed fuel rv t c i r :
  Value_ok rv → has_type t c → decode_elems fuel rv (Some (t, c)) i = Ret (Ok r) →
  ∃ c', r = Some (t, c') ∧ has_type t c'.
Proof.
  intros Hrv. revert c i. induction fuel as [|fuel IH]; intros c i Hc; cbn [decode_elems].
  { intros [= <-]. by eexists. }
  unfold mbind, outcome_bind.
  destruct (Value_Index (Some (t, c)) i) as [ne| | |]; try done.
  destruct (Value_Type ne) as [et| | |]; try done.
  destruct (Value_Index rv i) as [e| | |]; try done.
  destruct (mapstructure_Decode _ et (zero et)) as [x|] eqn:Hd; try done.
  destruct (Value_SetIndex _ i _) as [nv| | |] eqn:Hs; try done.
  apply (Value_SetIndex_typed _ t) in Hs as (c' & -> & Hc'); [by apply IH|done| |by eexists].
  eapply decode_typed; [|exact Hd]. apply zero_typed.
Qed.

(** A parameter whose argument is passed as it is: a slice, unless its elements are
    structs. *)
Definition passed_as_is (t : rtype) : bool :=
  bool_decide (Kind t = KSlice ∧ Kind (Elem t) ≠ KStruct).

(** What [ArgsTo] makes of an argument for a parameter of type [t]. *)
Definition param_ok (t : rtype) (param : iface) (v : Value) : Prop :=
  if passed_as_is t then v = param else ∃ y, v = Some (t, y) ∧ has_type t y.

Lemma param_ok_typed t param v :
  Kind t ≠ KSlice ∨ Kind (Elem t) = KStruct →
  (∃ y, v = Some (t, y) ∧ has_type t y) → param_ok t param v.
Proof. intros Hk Hy. unfold param_ok, passed_as_is. rewrite bool_decide_false; [done|]. intros [? ?]. by destruct Hk. Qed.

Lemma ensured_ok h t p param v :
  Kind t ≠ KSlice → Value_ok p →
  (v ← ensureType h p t; Ret (Ok v)) = Ret (Ok v) → param_ok t param v.
Proof.
  intros Hk Hp. unfold mbind, outcome_bind.
  destruct (ensureType h p t) as [w| | |] eqn:He; try done. intros [= <-].
  apply param_ok_typed; [by left|]. by eapply ensureType_typed.
Qed.

Lemma arg_to_typed h t param v :
  iface_ok param → arg_to h t param = Ret (Ok v) → param_ok t param v.
Proof.
  intros Hp. pose proof (iface_value_ok _ Hp) as Hv. unfold arg_to.
  destruct (Kind t) eqn:Hk.
  all: try (cbn [mbind outcome_bind]; rewrite bool_decide_false by done; cbn [mbind outcome_bind];
    apply ensured_ok; [by rewrite Hk|done]).
  - rewrite bool_decide_true by done. unfold mbind at 1, outcome_bind at 1.
    destruct param as [[pt x]|]; [|done]. case_bool_decide.
    + destruct pt as [[]| | | | | | | |]; try done. destruct x; try done.
      apply ensured_ok; [by rewrite Hk|]. constructor. apply float_to_int64_range.
    + apply ensured_ok; [by rewrite Hk|done].
  - case_bool_decide as Hs.
    + unfold mbind, outcome_bind. destruct (Value_Len h _) as [n| | |]; try done. intros Hd.
      apply param_ok_typed; [by right|].
      eapply decode_elems_typed; [exact Hv| |exact Hd].
      apply has_type_underlying. rewrite Kind_slice by done. constructor.
      apply Forall_replicate, zero_typed.
    + unfold param_ok, passed_as_is. rewrite bool_decide_true by done. by intros [= <-].
  - destruct (mapstructure_Decode param t (zero t)) as [x|] eqn:Hd; [|done].
    apply ensured_ok; [by rewrite Hk|]. eapply decode_typed; [|exact Hd]. apply zero_typed.
Qed.

Lemma ArgsTo_loop_typed h ins args vs :
  length args = length ins → Forall iface_ok args → ArgsTo_loop h ins args = Ret (Ok vs) →
  Forall3 param_ok ins args vs.
Proof.
  revert args vs. induction ins as [|t ins IH]; intros [|x args] vs Hlen Hok; try done.
  { intros [= <-]. constructor. }
  inversion Hok; subst. cbn [ArgsTo_loop]. unfold mbind, outcome_bind.
  destruct (arg_to h t x) as [[v|]| | |] eqn:Ha; try done.
  destruct (ArgsTo_loop h ins args) as [[ws|]| | |] eqn:Hl; try done.
  intros [= <-]. constructor; [by eapply arg_to_typed|]. apply IH; [by injection Hlen|done..].
Qed.

Lemma param_ok_value t x v : iface_ok x → param_ok t x v → Value_ok v.
Proof.
  unfold param_ok. destruct (passed_as_is t).
  - intros Hx ->. by apply iface_value_ok.
  - by intros _ (y & -> & Hy).
Qed.

(** Nothing passed as it is: what [ArgsTo] gives are values of the parameters. *)
Lemma Forall3_params_typed ins args vs :
  Forall3 param_ok ins args vs → Forall (λ t, passed_as_is t = false) ins →
  ∃ ps, vs = zip_with (λ t p, Some (t, p)) ins ps ∧ Forall2 has_type ins ps.
Proof.
  induction 1 as [|t x v ins args vs Hp _ IH]; [by exists []|].
  intros [Ht (ps & -> & Hps)%IH]%Forall_cons. unfold param_ok in Hp. rewrite Ht in Hp.
  destruct Hp as (y & -> & Hy). exists (y :: ps). by repeat constructor.
Qed.

Lemma Forall3_params_ok ins args vs :
  Forall iface_ok args → Forall3 param_ok ins args vs → Forall Value_ok vs.
Proof.
  intros Hok H3. induction H3 as [|t x v ins args vs Hp _ IH]; [done|].
  inversion Hok; subst. constructor; [by eapply param_ok_value|by apply IH].
Qed.
End args.

(** ** The call itself *)

(** A variadic function's last parameter is a slice. *)
Definition func_wf (ins : list rtype) (variadic : bool) : Prop :=
  if variadic then ∃ ins' e, ins = ins' ++ [TSlice e] else True.

(** ** Settling: a value or a panic, never a wait *)

Definition settles {A} (o : outcome A) : Prop :=
  match o with Ret _ | Panic _ => True | _ => False end.

Lemma settles_bind {A B} (m : outcome A) (k : A → outcome B) :
  settles m → (∀ a, settles (k a)) → settles (m ≫= k).
Proof. intros Hm Hk. destruct m; try done. apply Hk. Qed.

Create HintDb settle.

(** Follow binds and cases. *)
Ltac settle :=
  repeat first
    [ progress eauto 2 with settle
    | progress intros
    | apply settles_bind
    | exact I
    | progress cbn beta iota zeta
    | case_match ].

Section settle.
Context `{GT : GoTypes} `{FloatConv} `{MS : Mapstructure}.

Lemma settles_if {A} (b : bool) (m k : outcome A) :
  settles m → settles k → settles (if b then m else k).
Proof. by destruct b. Qed.

Lemma settles_ValueError {A} m v : settles (ValueError (A := A) m v).
Proof. done. Qed.
Hint Resolve settles_ValueError : settle.

Lemma settles_Type v : settles (Value_Type v).
Proof. unfold Value_Type. settle. Qed.
Hint Resolve settles_Type : settle.

Lemma settles_Len h v : settles (Value_Len h v).
Proof. unfold Value_Len. settle. Qed.
Hint Resolve settles_Len : settle.

Lemma settles_Index v i : settles (Value_Index v i).
Proof. unfold Value_Index. settle. Qed.
Hint Resolve settles_Index : settle.

Lemma settles_assignTo c x t : settles (assignTo c x t).
Proof. unfold assignTo. settle. Qed.
Hint Resolve settles_assignTo : settle.

Lemma settles_SetIndex v i x : settles (Value_SetIndex v i x).
Proof. unfold Value_SetIndex. settle. Qed.
Hint Resolve settles_SetIndex : settle.

Lemma settles_Append v x : settles (Append v x).
Proof. unfold Append. settle. Qed.
Hint Resolve settles_Append : settle.

Lemma settles_Convert v t : settles (Convert v t).
Proof.
  unfold Convert. destruct v as [[src x]|]; [|done].
  set (direct := if bool_decide _ then _ else _).
  assert (Hd : settles direct).
  { unfold direct. apply settles_if; [done|]. destruct src, t; by apply settles_if. }
  clearbody direct. repeat case_match; done.
Qed.
Hint Resolve settles_Convert : settle.

Lemma settles_fill_array fuel v nv i : settles (fill_array fuel v nv i).
Proof. revert nv i. induction fuel; intros nv i; cbn [fill_array]; settle. Qed.

Lemma settles_fill_slice fuel v nv i : settles (fill_slice fuel v nv i).
Proof. revert nv i. induction fuel; intros nv i; cbn [fill_slice]; settle. Qed.
Hint Resolve settles_fill_array settles_fill_slice : settle.

Lemma settles_ensureType h v t : settles (ensureType h v t).
Proof. unfold ensureType. settle. Qed.
Hint Resolve settles_ensureType : settle.

Lemma settles_decode_elems fuel rv nv i : settles (decode_elems fuel rv nv i).
Proof. revert nv i. induction fuel; intros nv i; cbn [decode_elems]; settle. Qed.
Hint Resolve settles_decode_elems : settle.

Lemma settles_arg_to h t x : settles (arg_to h t x).
Proof. unfold arg_to. settle. Qed.
Hint Resolve settles_arg_to : settle.

Lemma settles_ArgsTo h t args : settles (ArgsTo h t args).
Proof.
  unfold ArgsTo. apply settles_bind; [unfold In_types; by destruct (underlying t)|].
  intros ins. case_bool_decide; [|done].
  clear. revert args. induction ins as [|t ins IH]; intros [|x args]; cbn [ArgsTo_loop]; settle.
Qed.

Lemma settles_prepare_call ins b args : settles (prepare_call ins b args).
Proof.
  assert (∀ ins args, settles (call_params ins args)) as Hc.
  { clear. intros ins. induction ins as [|t ins IH]; intros [|[x|] args]; cbn [call_params]; settle. }
  assert (∀ e args, settles (variadic_params e args)) as Hv.
  { clear. intros e args. induction args as [|[x|] args IH]; cbn [variadic_params]; settle. }
  unfold prepare_call. settle.
Qed.

Lemma settles_ParseReturn rs : settles (ParseReturn rs).
Proof.
  assert (∀ r, settles (Interface_of r)) as Hi by (intros [r|]; done).
  assert (∀ rs, settles (interfaces rs)) as Hx.
  { intros l. induction l as [|r l IH]; cbn [interfaces]; settle. }
  assert (∀ v, settles (IsNil v)) as Hn by (intros [[t []]|]; done).
  unfold ParseReturn. settle.
Qed.
End settle.

Section prepare.
Context `{GT : GoTypes} `{HL : !GoTypesLaws}.

Lemma call_params_typed ins args ps :
  Forall Value_ok args → Forall is_Some args → length args = length ins →
  call_params ins args = Ret ps → Forall2 has_type ins ps.
Proof.
  revert args ps. induction ins as [|t ins IH]; intros [|[x|] args] ps Hok Hs Hlen; try done.
  { by intros [= <-]. }
  2: { inversion Hs as [|? ? [? ?]]; done. }
  inversion Hok; inversion Hs; subst. cbn [call_params]. unfold mbind, outcome_bind.
  destruct (assignTo _ x t) as [y| | |] eqn:Ha; try done.
  destruct (call_params ins args) as [ys| | |] eqn:Hc; try done. intros [= <-].
  constructor; [by eapply assignTo_typed|]. apply (IH args); [done..|by injection Hlen|done].
Qed.

Lemma variadic_params_typed e args ps :
  Forall Value_ok args → variadic_params e args = Ret ps → Forall (has_type e) ps.
Proof.
  intros Hok. revert ps. induction Hok as [|[x|] args Hx _ IH]; intros ps; cbn [variadic_params];
    [by intros [= <-]| |by intros [= <-]].
  unfold mbind, outcome_bind. destruct (assignTo _ x e) as [y| | |] eqn:Ha; try done.
  destruct (variadic_params e args) as [ys| | |]; try done. intros [= <-].
  constructor; [by eapply assignTo_typed|by apply IH].
Qed.

(** The parameters that reach the function have its types. *)
Lemma prepare_call_typed ins b args ps :
  func_wf ins b → Forall Value_ok args → prepare_call ins b args = Ret ps →
  Forall2 has_type ins ps.
Proof.
  intros Hwf Hok. unfold prepare_call. case_cmp; [done|].
  destruct (negb b && _) eqn:Hb; [done|].
  match goal with |- context [existsb ?p args] => destruct (existsb p args) eqn:Hn end; [done|].
  assert (Hs : Forall is_Some args).
  { apply Forall_forall. intros [x|] Hx; [by eexists|]. exfalso.
    apply not_true_iff_false in Hn. apply Hn, existsb_exists. exists None.
    split; [by apply list_elem_of_In|done]. }
  unfold mbind, outcome_bind.
  destruct (call_params _ _) as [ys| | |] eqn:Hc; try done.
  apply call_params_typed in Hc; [|by apply Forall_take|by apply Forall_take|].
  2: { rewrite !length_take. destruct b; lia. }
  destruct b.
  - destruct Hwf as (ins' & e & ->). rewrite last_snoc.
    rewrite length_app in Hc |- *. cbn [length] in Hc |- *.
    replace (length ins' + 1 - 1)%nat with (length ins') in * by lia.
    destruct (variadic_params _ _) as [zs| | |] eqn:Hv; try done. intros [= <-].
    rewrite take_app_length in Hc. apply Forall2_app; [done|]. repeat constructor.
    eapply variadic_params_typed; [|exact Hv]. by apply Forall_drop.
  - intros [= <-]. by rewrite take_ge in Hc by lia.
Qed.
End prepare.

Section call.
Context `{GT : GoTypes} `{HL : !GoTypesLaws} `{FloatConv} `{MS : Mapstructure} `{ST : Stack}.
Context {S : Type} `{FB : FuncBodies S}.

(** What is left of [Call] once the parameters are there. *)
Definition call_body (f : nat) (outs : list rtype) (ps : list value) : M S (result (list iface)) :=
  recovering (λ p, mret (Err (panic_error p)))
    (rs ← func_body f ps;
     lift (ParseReturn (zip_with (λ t r, Some (t, r)) outs rs))).

(** [Call] on a function, with its panics made explicit. *)
Lemma Call_eq h ft ins outs b f args s :
  underlying ft = TFunc ins outs b →
  Call h (Some (ft, VFunc (Some f))) args s =
    match ArgsTo h ft args with
    | Ret (Ok vs) =>
        match prepare_call ins b vs with
        | Ret ps => call_body f outs ps s
        | Panic p => (Ret (Err (panic_error p)), s)
        | Block => (Block, s)
        | NoFuel => (NoFuel, s)
        end
    | Ret (Err e) => (Ret (Err e), s)
    | Panic p => (Ret (Err (panic_error p)), s)
    | Block => (Block, s)
    | NoFuel => (NoFuel, s)
    end.
Proof.
  intros Hu. unfold Call, call_body, recovering, ValueOf. cbn [Value_Type].
  unfold mbind, M_bind, lift. destruct (ArgsTo h ft args) as [[vs|e]| | |]; try done.
  unfold Value_Call. rewrite Hu. unfold mbind, M_bind, lift.
  destruct (prepare_call ins b vs) as [ps| | |]; try done.
  by destruct (func_body f ps s) as [[]].
Qed.

Lemma ArgsTo_typed h ft ins outs b args vs `{ML : !MapstructureLaws} :
  underlying ft = TFunc ins outs b → Forall iface_ok args → ArgsTo h ft args = Ret (Ok vs) →
  Forall3 param_ok ins args vs.
Proof.
  intros Hu Hok. unfold ArgsTo, In_types. rewrite Hu. cbn [mbind outcome_bind].
  case_bool_decide; [|done]. by apply ArgsTo_loop_typed.
Qed.

(** Given the arguments of [ArgsTo], [reflect] refuses the call, or the function
    runs on parameters of its types. *)
Lemma Call_cases h ft ins outs b f args vs s :
  underlying ft = TFunc ins outs b → func_wf ins b → Forall Value_ok vs →
  ArgsTo h ft args = Ret (Ok vs) →
  (∃ p, prepare_call ins b vs = Panic p ∧
     Call h (Some (ft, VFunc (Some f))) args s = (Ret (Err (panic_error p)), s)) ∨
  (∃ ps, Forall2 has_type ins ps ∧
     Call h (Some (ft, VFunc (Some f))) args s = call_body f outs ps s).
Proof.
  intros Hu Hwf Hok Ha. rewrite (Call_eq _ _ _ _ _ _ _ _ Hu), Ha.
  pose proof (settles_prepare_call ins b vs) as Hset.
  destruct (prepare_call ins b vs) as [ps| |p|] eqn:Hp; try done; [right|by left; eexists].
  exists ps. split; [by eapply prepare_call_typed|done].
Qed.
End call.
