(* ===== verification/RpcSpec.v ===== *)
(** * What a remote call does

    The client's request, the server's answer and the client's reading of it,
    put together over the bytes they exchange, for any codec that obeys
    [CodecLaws]. *)
From S2P Require Import Prelude GoRuntime FrameCodec RespondMux RespondMuxSpec Rpc.

Section spec.
Context {V T : Type} `{CodecLaws V T}.

(** ** Sending and receiving frames *)

(** A channel end that has sent the frames of [bs], over a transport that
    accepts every write. *)
Definition sent_end (r : reader) (bs : list (list byte)) (n : nat) : chan_end :=
  mkEnd r (mkWriter (frame <$> bs) []) n.

(** The encoding of a value that has one. *)
Definition encodes (v : any V) (b : list byte) : Prop :=
  codec_Encode v = Ok b ∧ len b < 2 ^ 32.

Lemma end_Encode_eq v b r bs n :
  encodes v b → end_Encode v (sent_end r bs n) = (Ret None, sent_end r (bs ++ [b]) n).
Proof.
  intros [Hv _]. unfold end_Encode, sent_end. cbn [ce_out ce_in ce_closes].
  rewrite (frameEncoder_Encode_eq _ _ _ Hv). cbn. by rewrite fmap_app.
Qed.

Lemma end_Decode_eq {A} (dec : list byte → result A) b rest e w n :
  len b < 2 ^ 32 →
  end_Decode dec (mkEnd (mkReader (frame b ++ rest) e) w n)
  = (Ret (dec b), mkEnd (mkReader rest e) w n).
Proof.
  intros Hb. unfold end_Decode. cbn [ce_in].
  by rewrite frame_waits_frame, frameDecoder_Decode_frame.
Qed.

Lemma on_ch_eq {A} (m : M chan_end A) s a ch :
  m (sv_ch s) = (Ret a, ch) → on_ch m s = (Ret a, set_sv_ch ch s).
Proof. intros Hm. unfold on_ch. by rewrite Hm. Qed.

Lemma send_values_eq vs bs r out n resp err c :
  Forall2 encodes vs bs →
  send_values vs (mkSrv (sent_end r out n) resp err c)
  = (Ret None, mkSrv (sent_end r (out ++ bs) n) resp err c).
Proof.
  intros Hall. revert out. induction Hall as [|v b vs bs Hv Hall IH]; intros out; cbn [send_values].
  { by rewrite app_nil_r. }
  erewrite bind_ret; [|eapply on_ch_eq; by apply end_Encode_eq].
  unfold set_sv_ch. cbn [r_responded r_Error r_Continue]. rewrite IH, <- app_assoc. done.
Qed.

(** ** respond *)

(** The header's error and the values [respond] sends for what it was given. *)
Definition respond_error (values : list (any V)) : option string :=
  match values with [VErr e] => Some (Error_text e) | _ => None end.

Definition respond_values (values : list (any V)) : list (any V) :=
  match values with [] | [VErr _] => [VNil] | _ => values end.

(** The first response of a call: a header, then the values; the channel is
    closed unless the call continues. *)
Lemma respond_eq values continue_ hb bs r out n :
  encodes (VResponseHeader (respond_error values) continue_) hb →
  Forall2 encodes (respond_values values) bs →
  responder_respond values continue_ (new_responder (sent_end r out n)) =
    (Ret (if continue_ then None else if (n =? 0)%nat then None else Some io_EOF),
     mkSrv (sent_end r (out ++ hb :: bs) (if continue_ then n else S n)) true
       (respond_error values) continue_).
Proof.
  intros Hh Hbs. unfold responder_respond. erewrite bind_ret by reflexivity.
  rewrite (surjective_pairing (split_error values)). erewrite bind_ret by reflexivity.
  assert (set_header_error (split_error values).2 (set_responded continue_
    (new_responder (sent_end r out n)))
    = mkSrv (sent_end r out n) true (respond_error values) continue_) as ->
    by (by destruct values as [|[|e|sl|er c|v] [|v2 values]]).
  erewrite bind_ret by reflexivity. cbn [r_Error r_Continue].
  erewrite bind_ret; [|eapply on_ch_eq; by apply end_Encode_eq].
  unfold set_sv_ch. cbn [r_responded r_Error r_Continue].
  assert (match (split_error values).1 with [] => [VNil] | _ => (split_error values).1 end
    = respond_values values) as -> by (by destruct values as [|[|e|sl|er c|v] [|v2 values]]).
  rewrite (bind_ret _ _ _ _ _ (send_values_eq _ _ _ _ _ _ _ _ Hbs)).
  rewrite <- app_assoc. by destruct continue_.
Qed.

(** ** The request *)

(** An unused channel end, which nothing has arrived on; the other end of a writer's channel; an end that
    now has the bytes of [w] to read. *)
Definition fresh_end : chan_end := mkEnd (mkReader [] io_Pending) (mkWriter [] []) 0.

Definition peer_of (w : writer) (e : error) : chan_end :=
  mkEnd (mkReader (mjoin (w_out w)) e) (mkWriter [] []) 0.

Definition hears (w : writer) (e : error) (c : chan_end) : chan_end :=
  mkEnd (mkReader (mjoin (w_out w)) e) (ce_out c) (ce_closes c).

Lemma encode_args_eq vs bs r out n :
  Forall2 encodes vs bs →
  encode_args vs (sent_end r out n) = (Ret None, sent_end r (out ++ bs) n).
Proof.
  intros Hall. revert out. induction Hall as [|v b vs bs Hv Hall IH]; intros out; cbn [encode_args].
  { by rewrite app_nil_r. }
  erewrite bind_ret; [|by apply end_Encode_eq]. rewrite IH, <- app_assoc. done.
Qed.

Definition args_values (args : call_args V) : list (any V) :=
  match args with ArgValue v => [v] | ArgChan vs => vs end.

Lemma call_request_eq sel args hb abs :
  encodes (VCallHeader sel) hb → Forall2 encodes (args_values args) abs →
  call_request sel args fresh_end = (Ret None, sent_end (mkReader [] io_Pending) (hb :: abs) 0).
Proof.
  intros Hh Ha. unfold call_request.
  change fresh_end with (sent_end (mkReader [] io_Pending) [] 0).
  rewrite (bind_ret _ _ _ _ _ (end_Encode_eq _ _ _ [] _ Hh)).
  destruct args as [v|vs]; by rewrite (encode_args_eq _ _ _ _ _ Ha).
Qed.

(** ** The server *)

(** The state once the channel was closed again behind the handler. *)
Definition after_handler (s : srv) : srv :=
  if r_Continue s then s
  else set_sv_ch (mkEnd (ce_in (sv_ch s)) (ce_out (sv_ch s)) (S (ce_closes (sv_ch s)))) s.

Lemma Server_respond_eq fuel ms hn sel hb rest e w n s1 :
  encodes (VCallHeader sel) hb →
  RespondRPC fuel ms hn (cleanSelector sel) (new_responder (mkEnd (mkReader rest e) w n))
    = (Ret tt, s1) →
  Server_respond fuel ms hn (new_responder (mkEnd (mkReader (frame hb ++ rest) e) w n)) =
    if r_responded s1 then (Ret tt, after_handler s1)
    else match responder_Return [] s1 with
         | (Ret _, s2) => (Ret tt, after_handler s2)
         | (Block, s2) => (Block, s2)
         | (Panic m, s2) => (Panic m, s2)
         | (NoFuel, s2) => (NoFuel, s2)
         end.
Proof.
  intros [Hh Hl] Hrun. unfold Server_respond.
  erewrite bind_ret; [|eapply on_ch_eq; by apply end_Decode_eq].
  rewrite (law_call _ _ Hh). cbn [set_sv_ch new_responder r_responded r_Error r_Continue].
  rewrite (bind_ret _ _ _ _ _ Hrun). erewrite bind_ret by reflexivity.
  unfold after_handler. destruct (r_responded s1).
  - erewrite bind_ret by reflexivity. erewrite bind_ret by reflexivity.
    by destruct (r_Continue s1).
  - unfold mbind at 1, M_bind at 1. destruct (responder_Return [] s1) as [[er| | |] s2]; try done.
    erewrite bind_ret by reflexivity. by destruct (r_Continue s2).
Qed.

(** The server waits where its handler does. *)
Lemma Server_respond_waits fuel ms hn sel hb rest e w n s1 :
  encodes (VCallHeader sel) hb →
  RespondRPC fuel ms hn (cleanSelector sel) (new_responder (mkEnd (mkReader rest e) w n))
    = (Block, s1) →
  Server_respond fuel ms hn (new_responder (mkEnd (mkReader (frame hb ++ rest) e) w n)) = (Block, s1).
Proof.
  intros [Hh Hl] Hrun. unfold Server_respond.
  erewrite bind_ret; [|eapply on_ch_eq; by apply end_Decode_eq].
  rewrite (law_call _ _ Hh). by apply bind_block.
Qed.

(** The handler for a Go function: it receives the argument into a variable of
    type [t] and returns what the function gives. *)
Definition unary_handler (t : T) (g : V → list (any V)) : handler_func := λ _,
  r ← Call_Receive (TVar t);
  match r with
  | Ok (Val v) => _ ← responder_Return (g v); mret tt
  | Ok _ => _ ← responder_Return []; mret tt
  | Err e => _ ← responder_Return [VErr e]; mret tt
  end.

Lemma unary_handler_eq t g sel v vb rest e n hb bs :
  encodes (Val v) vb → fits t v →
  encodes (VResponseHeader (respond_error (g v)) false) hb →
  Forall2 encodes (respond_values (g v)) bs →
  unary_handler t g sel (new_responder (mkEnd (mkReader (frame vb ++ rest) e) (mkWriter [] []) n))
  = (Ret tt, mkSrv (sent_end (mkReader rest e) (hb :: bs) (S n)) true (respond_error (g v)) false).
Proof.
  intros [Hv Hl] Hfit Hh Hbs. unfold unary_handler, Call_Receive.
  erewrite bind_ret; [|eapply on_ch_eq; by apply end_Decode_eq].
  rewrite (law_val _ _ _ Hfit Hv). cbn [set_sv_ch new_responder r_responded r_Error r_Continue].
  erewrite bind_ret; [|apply (respond_eq _ _ _ _ (mkReader rest e) [] n Hh Hbs)]. done.
Qed.

(** ** The response *)

Lemma decode_replies_eq us rs bs rest e w n got :
  Forall2 fits us rs → Forall2 encodes (Val <$> rs) bs →
  decode_replies (TVar <$> us) got
    (mkEnd (mkReader (mjoin (frame <$> bs) ++ rest) e) w n)
  = (Ret (got ++ (Val <$> rs), None), mkEnd (mkReader rest e) w n).
Proof.
  intros Hf. revert bs got. induction Hf as [|u r us rs Hu Hf IH]; intros bs got Hbs.
  - apply Forall2_nil_inv_l in Hbs as ->. cbn. by rewrite app_nil_r.
  - apply Forall2_cons_inv_l in Hbs as (b & bs' & [Hv Hl] & Hbs & ->).
    cbn [fmap list_fmap decode_replies mjoin list_join]. rewrite <- app_assoc.
    erewrite bind_ret; [|by apply end_Decode_eq]. rewrite (law_val _ _ _ Hu Hv).
    etransitivity; [by apply IH|]. by rewrite <- app_assoc.
Qed.

Lemma reply_nil_vars (us : list T) : us ≠ [] → reply_nil (TVar <$> us) = false.
Proof. by destruct us as [|u [|]]. Qed.

(** A header without an error and the values of a response are read in full. *)
Lemma call_response_eq us rs hb bs e w n :
  encodes (VResponseHeader None false) hb → Forall2 encodes (Val <$> rs) bs →
  Forall2 fits us rs → rs ≠ [] →
  call_response (TVar <$> us) (mkEnd (mkReader (mjoin (frame <$> hb :: bs)) e) w n)
  = (Ret (Some (mkResponse None false (Val <$> rs)), None), mkEnd (mkReader [] e) w (S n)).
Proof.
  intros [Hhb Hhl] Hbs Hus Hrs. unfold call_response. cbn [fmap list_fmap mjoin list_join].
  erewrite bind_ret; [|by apply end_Decode_eq]. rewrite (law_response _ _ _ Hhb).
  rewrite reply_nil_vars by (intros ->; by apply Forall2_nil_inv_l in Hus).
  rewrite <- (app_nil_r (mjoin _)).
  erewrite bind_ret.
  2: { erewrite bind_ret; [|by apply decode_replies_eq]. cbn [app]. reflexivity. }
  erewrite bind_ret by reflexivity. reflexivity.
Qed.

Lemma peer_of_sent r bs n e :
  peer_of (ce_out (sent_end r bs n)) e
  = mkEnd (mkReader (mjoin (frame <$> bs)) e) (mkWriter [] []) 0.
Proof. done. Qed.

(** [handles f a ans]: given the argument [a], the handler [f] answers [ans]
    and closes the channel. *)
Definition handles (f : handler_func) (a : any V) (ans : list (any V)) : Prop :=
  ∀ sel ab rest e n hb bs,
    encodes a ab → encodes (VResponseHeader (respond_error ans) false) hb →
    Forall2 encodes (respond_values ans) bs →
    f sel (new_responder (mkEnd (mkReader (frame ab ++ rest) e) (mkWriter [] []) n))
    = (Ret tt, mkSrv (sent_end (mkReader rest e) (hb :: bs) (S n)) true (respond_error ans) false).

Lemma unary_handles t g a : fits t a → handles (unary_handler t g) (Val a) (g a).
Proof. intros Hfit sel ab rest e n hb bs Ha Hh Hbs. by apply unary_handler_eq. Qed.

(** The whole of a call to such a handler: what each side does. *)
Lemma handled_call_eq fuel ms hn sel f a ans e :
  mux_resolve fuel ms hn (cleanSelector sel) = Ret (HandlerFunc f) → handles f a ans →
  sendable (VCallHeader sel) → sendable a →
  sendable (VResponseHeader (respond_error ans) false) → Forall sendable (respond_values ans) →
  ∃ c1 hb bs s1,
    call_request sel (ArgValue a) fresh_end = (Ret None, c1) ∧ ce_closes c1 = 0%nat ∧
    encodes (VResponseHeader (respond_error ans) false) hb ∧
    Forall2 encodes (respond_values ans) bs ∧
    Server_respond fuel ms hn (new_responder (peer_of (ce_out c1) e)) = (Ret tt, s1) ∧
    ce_closes (sv_ch s1) = 2%nat ∧
    ce_out (sv_ch s1) = mkWriter (frame <$> hb :: bs) [].
Proof.
  intros Hres Hf [cb Hc] [ab Ha] [hb Hh] Hvs.
  assert (∃ bs, Forall2 encodes (respond_values ans) bs) as [bs Hbs].
  { clear -Hvs. induction Hvs as [|v vs [b Hb] _ [bs IH]]; [by exists []|].
    exists (b :: bs). by constructor. }
  eexists _, hb, bs, _. split_and!; [apply call_request_eq; [exact Hc|]| |done|done| | |].
  - cbn. constructor; [exact Ha|constructor].
  - done.
  - rewrite peer_of_sent. cbn [fmap list_fmap mjoin list_join].
    erewrite Server_respond_eq; [|exact Hc|].
    2: { unfold RespondRPC. rewrite Hres. by apply (Hf _ _ _ _ _ _ _ Ha Hh Hbs). }
    reflexivity.
  - done.
  - done.
Qed.

(** The three steps of a call and how it ends: the client's result, one close
    of its channel, at least one of the server's. *)
Definition call_ends (fuel : nat) ms hn sel a e e' us
    (r : option (Response V) * option call_error) : Prop :=
  ∃ c1 s1 c2,
    call_request sel (ArgValue a) fresh_end = (Ret None, c1) ∧
    Server_respond fuel ms hn (new_responder (peer_of (ce_out c1) e)) = (Ret tt, s1) ∧
    call_response us (hears (ce_out (sv_ch s1)) e' c1) = (Ret r, c2) ∧
    ce_closes c2 = 1%nat ∧ (0 < ce_closes (sv_ch s1))%nat.

Lemma handled_call_returns fuel ms hn sel f a rs us e e' :
  mux_resolve fuel ms hn (cleanSelector sel) = Ret (HandlerFunc f) →
  handles f a (Val <$> rs) → rs ≠ [] → Forall2 fits us rs →
  sendable (VCallHeader sel) → sendable a → sendable (VResponseHeader None false) →
  Forall (λ r, sendable (Val r)) rs →
  call_ends fuel ms hn sel a e e' (TVar <$> us) (Some (mkResponse None false (Val <$> rs)), None).
Proof.
  intros Hres Hf Hrs Hus Hc Ha Hh Hvs.
  assert (respond_error (Val <$> rs : list (any V)) = None
    ∧ respond_values (Val <$> rs : list (any V)) = Val <$> rs) as [He Hv] by (by destruct rs as [|r [|]]).
  destruct (handled_call_eq fuel ms hn sel f a (Val <$> rs) e Hres Hf Hc Ha)
    as (c1 & hb & bs & s1 & Hreq & Hn & [Hhb Hhl] & Hbs & Hsrv & Hcl & Hout).
  { by rewrite He. }
  { rewrite Hv. by apply Forall_fmap. }
  rewrite He in Hhb. rewrite Hv in Hbs.
  exists c1, s1. eexists. split; [exact Hreq|]. split; [exact Hsrv|].
  split; [|split; [|lia]].
  - unfold hears. rewrite Hout, Hn. by apply call_response_eq.
  - done.
Qed.

Lemma handled_call_fails fuel ms hn sel f a err us e e' :
  mux_resolve fuel ms hn (cleanSelector sel) = Ret (HandlerFunc f) → handles f a [VErr err] →
  sendable (VCallHeader sel) → sendable a →
  sendable (VResponseHeader (Some (Error_text err)) false) → sendable VNil →
  call_ends fuel ms hn sel a e e' us
    (Some (mkResponse (Some (Error_text err)) false []), Some (RemoteError (Error_text err))).
Proof.
  intros Hres Hf Hc Ha Hh Hnil.
  destruct (handled_call_eq fuel ms hn sel f a [VErr err] e Hres Hf Hc Ha)
    as (c1 & hb & bs & s1 & Hreq & Hn & [Hhb Hhl] & _ & Hsrv & Hcl & Hout); [done| |].
  { by repeat constructor. }
  cbn [respond_error] in Hhb.
  exists c1, s1. eexists. split; [exact Hreq|]. split; [exact Hsrv|].
  split; [|split; [|lia]].
  - unfold call_response, hears. rewrite Hout, Hn. cbn [w_out fmap list_fmap mjoin list_join].
    erewrite bind_ret; [|by apply end_Decode_eq]. rewrite (law_response _ _ _ Hhb).
    erewrite bind_ret by reflexivity. erewrite bind_ret by reflexivity. reflexivity.
  - done.
Qed.
End spec.

(** ** Properties *)

(** A remote call of a function returns what the function returns: for
    every codec that decodes what it encodes, if the selector resolves to the
    function and its argument and results fit the variables, then the client's
    request, the server's response to it and the client's reading of that
    response end without error, the reply variables hold the function's results
    in order, and both sides have closed the channel. *)
Theorem remote_call_returns {V T} `{CodecLaws V T} fuel ms hn sel t a g rs us e e' :
  mux_resolve fuel ms hn (cleanSelector sel) = Ret (HandlerFunc (unary_handler t g)) →
  fits t a → g a = Val <$> rs → rs ≠ [] → Forall2 fits us rs →
  sendable (VCallHeader sel) → sendable (Val a) → sendable (VResponseHeader None false) →
  Forall (λ r, sendable (Val r)) rs →
  ∃ c1 s1 c2,
    call_request sel (ArgValue (Val a)) fresh_end = (Ret None, c1) ∧
    Server_respond fuel ms hn (new_responder (peer_of (ce_out c1) e)) = (Ret tt, s1) ∧
    call_response (TVar <$> us) (hears (ce_out (sv_ch s1)) e' c1)
      = (Ret (Some (mkResponse None false (Val <$> rs)), None), c2) ∧
    ce_closes c2 = 1%nat ∧ (0 < ce_closes (sv_ch s1))%nat.
Proof.
  intros Hres Hfit Hg Hrs Hus Hc Ha Hh Hvs.
  apply (handled_call_returns fuel ms hn sel (unary_handler t g)); try done.
  rewrite <- Hg. by apply unary_handles.
Qed.

(** A mux with one function, which appends its argument to itself. *)
Definition demo_handlers : gmap nat (RespondMux (handler_func)) :=
  (Handle 0 "twice"%string
     (Some (HandlerFunc (unary_handler (V := list byte) tt (λ v, [Val (v ++ v)]))))
     {[ 0%nat := NewRespondMux ]}).2.

Lemma remote_call_returns_witness :
  ∃ c1 s1 c2,
    call_request "twice" (ArgValue (Val [x2a])) fresh_end = (Ret None, c1) ∧
    Server_respond 1 demo_handlers (SubMux 0) (new_responder (peer_of (ce_out c1) io_EOF))
      = (Ret tt, s1) ∧
    call_response [TVar tt] (hears (ce_out (sv_ch s1)) io_EOF c1)
      = (Ret (Some (mkResponse None false [Val [x2a; x2a]]), None), c2).
Proof.
  destruct (remote_call_returns (V := list byte) (T := unit) 1 demo_handlers (SubMux 0) "twice" tt
    [x2a] (λ v, [Val (v ++ v)]) [[x2a; x2a]] [tt] io_EOF io_EOF)
    as (c1 & s1 & c2 & H1 & H2 & H3 & _);
    [reflexivity|exact I|reflexivity|discriminate|by repeat constructor
    |by eexists|by eexists|by eexists|by repeat constructor; eexists|].
  exists c1, s1, c2. exact (conj H1 (conj H2 H3)).
Defined.

(** An error the function returns reaches the caller as a [RemoteError]
    with the error's text, in a response whose header has that text, and both
    sides have closed the channel. *)
Theorem remote_call_fails {V T} `{CodecLaws V T} fuel ms hn sel t a g err us e e' :
  mux_resolve fuel ms hn (cleanSelector sel) = Ret (HandlerFunc (unary_handler t g)) →
  fits t a → g a = [VErr err] →
  sendable (VCallHeader sel) → sendable (Val a) →
  sendable (VResponseHeader (Some (Error_text err)) false) → sendable VNil →
  ∃ c1 s1 c2,
    call_request sel (ArgValue (Val a)) fresh_end = (Ret None, c1) ∧
    Server_respond fuel ms hn (new_responder (peer_of (ce_out c1) e)) = (Ret tt, s1) ∧
    call_response us (hears (ce_out (sv_ch s1)) e' c1)
      = (Ret (Some (mkResponse (Some (Error_text err)) false []),
              Some (RemoteError (Error_text err))), c2) ∧
    ce_closes c2 = 1%nat ∧ (0 < ce_closes (sv_ch s1))%nat.
Proof.
  intros Hres Hfit Hg Hc Ha Hh Hnil.
  apply (handled_call_fails fuel ms hn sel (unary_handler t g)); try done.
  rewrite <- Hg. by apply unary_handles.
Qed.

Definition demo_failing : gmap nat (RespondMux (handler_func)) :=
  (Handle 0 "fail"%string
     (Some (HandlerFunc (unary_handler (V := list byte) tt (λ v, [VErr (errorString "no")]))))
     {[ 0%nat := NewRespondMux ]}).2.

Lemma remote_call_fails_witness :
  ∃ c1 s1 c2,
    call_request "fail" (ArgValue (Val [x2a])) fresh_end = (Ret None, c1) ∧
    Server_respond 1 demo_failing (SubMux 0) (new_responder (peer_of (ce_out c1) io_EOF))
      = (Ret tt, s1) ∧
    call_response [TVar tt] (hears (ce_out (sv_ch s1)) io_EOF c1)
      = (Ret (Some (mkResponse (Some "no"%string) false []), Some (RemoteError "no")), c2).
Proof.
  destruct (remote_call_fails (V := list byte) (T := unit) 1 demo_failing (SubMux 0) "fail" tt
    [x2a] (λ v, [VErr (errorString "no")]) (errorString "no") [TVar tt] io_EOF io_EOF)
    as (c1 & s1 & c2 & H1 & H2 & H3 & _);
    [reflexivity|exact I|reflexivity|by eexists|by eexists|by eexists|by eexists|].
  exists c1, s1, c2. exact (conj H1 (conj H2 H3)).
Defined.

(** A call of a selector nothing is registered for fails cleanly: the
    caller gets the remote error "not found: " with the canonical selector. *)
Theorem remote_call_not_found {V T} `{CodecLaws V T} fuel ms p sel args abs pat us e e' :
  Match (S fuel) ms p (cleanSelector sel) = Ret (None, pat) →
  sendable (VCallHeader sel) → Forall2 encodes (args_values args) abs →
  let text := ("not found: " +:+ cleanSelector sel)%string in
  sendable (VResponseHeader (Some text) false) → sendable VNil →
  ∃ c1 s1 c2,
    call_request sel args fresh_end = (Ret None, c1) ∧
    Server_respond (S fuel) ms (SubMux p) (new_responder (peer_of (ce_out c1) e)) = (Ret tt, s1) ∧
    call_response us (hears (ce_out (sv_ch s1)) e' c1)
      = (Ret (Some (mkResponse (Some text) false []), Some (RemoteError text)), c2) ∧
    ce_closes c2 = 1%nat ∧ (0 < ce_closes (sv_ch s1))%nat.
Proof.
  intros Hm [cb Hc] Hargs text [hb Hh] [nb Hn].
  eexists _, _, _. split; [by apply call_request_eq|]. split; [|split].
  - rewrite peer_of_sent. cbn [fmap list_fmap mjoin list_join].
    erewrite Server_respond_eq; [|exact Hc|].
    2: { unfold RespondRPC. cbn [mux_resolve]. unfold mux_Handler. rewrite Hm.
         assert (∀ k, mux_resolve k ms NotFoundHandler (cleanSelector sel) = Ret NotFoundHandler)
           as -> by (by intros []).
         unfold run_not_found, responder_Return.
         change (mkWriter [] []) with (mkWriter (frame <$> []) []).
         erewrite bind_ret; [reflexivity|].
         apply (respond_eq [VErr (errorString text)] false hb [nb] _ []); [exact Hh|].
         constructor; [exact Hn|constructor]. }
    reflexivity.
  - unfold call_response, hears. destruct Hh as [Hh Hl]. cbn.
    erewrite bind_ret; [|by apply end_Decode_eq]. rewrite (law_response _ _ _ Hh).
    erewrite bind_ret by reflexivity. erewrite bind_ret by reflexivity. reflexivity.
  - split; [done|]. cbn. lia.
Qed.

Lemma remote_call_not_found_witness :
  ∃ c1 s1 c2,
    call_request "a.b" (ArgValue (Val [x2a])) fresh_end = (Ret None, c1) ∧
    Server_respond 1 demo_handlers (SubMux 0) (new_responder (peer_of (ce_out c1) io_EOF))
      = (Ret tt, s1) ∧
    call_response [] (hears (ce_out (sv_ch s1)) io_EOF c1)
      = (Ret (Some (mkResponse (Some "not found: /a/b"%string) false []),
              Some (RemoteError "not found: /a/b")), c2).
Proof.
  destruct (remote_call_not_found (V := list byte) (T := unit) 0 demo_handlers 0 "a.b"
    (ArgValue (Val [x2a])) [[x05; x2a]] ""%string [] io_EOF io_EOF)
    as (c1 & s1 & c2 & H1 & H2 & H3 & _);
    [reflexivity|by eexists|by repeat constructor|by eexists|by eexists|].
  exists c1, s1, c2. exact (conj H1 (conj H2 H3)).
Defined.

(** The server always answers: whatever a handler function does with the
    call, if it returns without having responded, the server sends a header
    without error and a nil value and closes the channel; a handler that
    continued keeps the channel open. *)
Theorem server_always_responds {V T} `{CodecLaws V T} fuel ms hn sel (f : handler_func) hb nb
    ab rest e s1 :
  mux_resolve fuel ms hn (cleanSelector sel) = Ret (HandlerFunc f) →
  encodes (VCallHeader sel) ab → encodes (VResponseHeader None false) hb → encodes VNil nb →
  f (cleanSelector sel) (new_responder (mkEnd (mkReader rest e) (mkWriter [] []) 0)) = (Ret tt, s1) →
  (∀ r out n, s1 = new_responder (sent_end r out n) →
     ∃ s2, Server_respond fuel ms hn
         (new_responder (mkEnd (mkReader (frame ab ++ rest) e) (mkWriter [] []) 0)) = (Ret tt, s2) ∧
       ce_out (sv_ch s2) = mkWriter (frame <$> out ++ [hb; nb]) [] ∧
       (0 < ce_closes (sv_ch s2))%nat ∧ r_responded s2 = true) ∧
  (r_responded s1 = true → r_Continue s1 = true →
     Server_respond fuel ms hn
       (new_responder (mkEnd (mkReader (frame ab ++ rest) e) (mkWriter [] []) 0)) = (Ret tt, s1)).
Proof.
  intros Hres Hc Hh Hn Hf.
  assert (RespondRPC fuel ms hn (cleanSelector sel)
    (new_responder (mkEnd (mkReader rest e) (mkWriter [] []) 0)) = (Ret tt, s1)) as Hrun
    by (unfold RespondRPC; by rewrite Hres).
  pose proof (Server_respond_eq fuel ms hn sel ab rest e _ 0 s1 Hc Hrun) as Hsrv.
  split.
  - intros r out n ->. cbn [new_responder r_responded] in Hsrv. unfold responder_Return in Hsrv.
    rewrite (respond_eq [] false hb [nb] r out n Hh) in Hsrv
      by (cbn; by constructor; [|constructor]).
    eexists. split; [exact Hsrv|]. split_and!; [done|cbn; lia|done].
  - intros Hr Hcont. rewrite Hr in Hsrv. rewrite Hsrv. unfold after_handler. by rewrite Hcont.
Qed.

Definition demo_silent : gmap nat (RespondMux (handler_func)) :=
  (Handle 0 "nop"%string
     (Some (HandlerFunc (λ _, _ ← Call_Receive (V := list byte) (T := unit) TNil; mret tt)))
     {[ 0%nat := NewRespondMux ]}).2.

Lemma server_always_responds_witness :
  ∃ s2, Server_respond (V := list byte) (T := unit) 1 demo_silent (SubMux 0)
      (new_responder (mkEnd (mkReader (frame (x02 :: String.list_byte_of_string "nop")
         ++ frame [x05; x2a]) io_EOF) (mkWriter [] []) 0)) = (Ret tt, s2) ∧
    ce_out (sv_ch s2) = mkWriter (frame <$> [] ++ [[x03; x00]; [x00]]) [].
Proof.
  destruct (server_always_responds (V := list byte) (T := unit) 1 demo_silent (SubMux 0) "nop"
    (λ _, _ ← Call_Receive TNil; mret tt) [x03; x00] [x00]
    (x02 :: String.list_byte_of_string "nop") (frame [x05; x2a]) io_EOF
    (new_responder (sent_end (mkReader [] io_EOF) [] 0))) as [Hs _];
    [reflexivity|by split|by split|by split|reflexivity|].
  destruct (Hs _ _ _ eq_refl) as (s2 & H1 & H2 & _). exists s2. exact (conj H1 H2).
Defined.

(** A handler that takes its argument, continues with the results [g] and then
    streams [ws]. *)
Definition stream_handler {V T} `{Codec V T} (t : T) (g ws : V → list V) : handler_func := λ _,
  r ← Call_Receive (TVar t);
  match r with
  | Ok (Val v) =>
      _ ← responder_Continue (Val <$> g v);
      _ ← send_values (Val <$> ws v); mret tt
  | _ => mret tt
  end.

Lemma receive_each_eq {V T} `{CodecLaws V T} (us : list T) (ws : list V) bs e w n :
  Forall2 fits us ws → Forall2 encodes (Val <$> ws) bs →
  mapM Response_Receive (TVar <$> us) (mkEnd (mkReader (mjoin (frame <$> bs)) e) w n)
  = (Ret (Ok ∘ Val <$> ws), mkEnd (mkReader [] e) w n).
Proof.
  intros Hf. revert bs. induction Hf as [|u r us rs Hu Hf IH]; intros bs Hbs.
  - by apply Forall2_nil_inv_l in Hbs as ->.
  - apply Forall2_cons_inv_l in Hbs as (b & bs' & [Hv Hl] & Hbs & ->).
    cbn [fmap list_fmap mapM mjoin list_join].
    erewrite bind_ret; [|by apply end_Decode_eq]. rewrite (law_val _ _ _ Hu Hv).
    erewrite bind_ret; [|by apply IH]. done.
Qed.

Lemma sendable_all {V T} `{Codec V T} (vs : list V) :
  Forall (λ v, sendable (Val v)) vs → ∃ bs, Forall2 encodes (Val <$> vs) bs.
Proof.
  induction 1 as [|v vs [b Hb] _ [bs IH]]; [by exists []|].
  exists (b :: bs). by constructor.
Qed.

(** C20. A continued call streams: the caller gets the results, in a response
    whose channel neither side closes, and then, with [Response.Receive], every
    value the handler sent after it, in order and without remainder. *)
Theorem continued_call_streams {V T} `{CodecLaws V T} fuel ms hn sel t a g ws rs us us' e e' :
  mux_resolve fuel ms hn (cleanSelector sel) = Ret (HandlerFunc (stream_handler t g ws)) →
  fits t a → g a = rs → rs ≠ [] → Forall2 fits us rs → Forall2 fits us' (ws a) →
  sendable (VCallHeader sel) → sendable (Val a) → sendable (VResponseHeader None true) →
  Forall (λ r, sendable (Val r)) rs → Forall (λ r, sendable (Val r)) (ws a) →
  ∃ c1 s1 c2 c3,
    call_request sel (ArgValue (Val a)) fresh_end = (Ret None, c1) ∧
    Server_respond fuel ms hn (new_responder (peer_of (ce_out c1) e)) = (Ret tt, s1) ∧
    call_response (TVar <$> us) (hears (ce_out (sv_ch s1)) e' c1)
      = (Ret (Some (mkResponse None true (Val <$> rs)), None), c2) ∧
    mapM Response_Receive (TVar <$> us') c2 = (Ret (Ok ∘ Val <$> ws a), c3) ∧
    rd_data (ce_in c3) = [] ∧ ce_closes c3 = 0%nat ∧ ce_closes (sv_ch s1) = 0%nat.
Proof.
  intros Hres Hfit Hg Hrs Hus Hus' [cb Hc] [ab [Ha Hal]] [hb Hh] Hvs Hws.
  destruct (sendable_all _ Hvs) as [bs Hbs]. destruct (sendable_all _ Hws) as [wbs Hwbs].
  assert (respond_error (Val <$> rs) = None ∧ respond_values (Val <$> rs) = Val <$> rs) as [He Hv]
    by (by destruct rs as [|r [|]]).
  exists (sent_end (mkReader [] io_Pending) [cb; ab] 0).
  exists (mkSrv (sent_end (mkReader [] e) (hb :: bs ++ wbs) 0) true None true).
  eexists _, _. split_and!.
  - apply call_request_eq; [done|]. by repeat constructor.
  - rewrite peer_of_sent. cbn [fmap list_fmap mjoin list_join].
    erewrite Server_respond_eq; [|exact Hc|].
    2: { unfold RespondRPC. rewrite Hres. unfold stream_handler, Call_Receive.
      erewrite bind_ret; [|eapply on_ch_eq; by apply end_Decode_eq].
      rewrite (law_val _ _ _ Hfit Ha), Hg. cbn [set_sv_ch new_responder r_responded r_Error r_Continue].
      erewrite bind_ret.
      2: { apply (respond_eq _ true hb bs (mkReader [] e) [] 0); by rewrite ?He, ?Hv. }
      erewrite bind_ret; [|by apply send_values_eq]. reflexivity. }
    cbn [r_responded after_handler r_Continue]. by rewrite He.
  - unfold call_response, hears. cbn [w_out ce_out sv_ch sent_end fmap list_fmap mjoin list_join].
    erewrite bind_ret; [|apply end_Decode_eq; by destruct Hh].
    rewrite (law_response _ _ _ (proj1 Hh)).
    rewrite reply_nil_vars by (intros ->; by apply Forall2_nil_inv_l in Hus).
    rewrite fmap_app, join_app.
    erewrite bind_ret.
    2: { erewrite bind_ret; [|by apply decode_replies_eq]. cbn [app]. reflexivity. }
    erewrite bind_ret by reflexivity. reflexivity.
  - by apply receive_each_eq.
  - done.
  - done.
  - done.
Qed.

Definition demo_stream : gmap nat (RespondMux (handler_func)) :=
  (Handle 0 "count"%string
     (Some (HandlerFunc (stream_handler (V := list byte) tt (λ v, [v]) (λ v, [v ++ v; []]))))
     {[ 0%nat := NewRespondMux ]}).2.

Lemma continued_call_streams_witness :
  ∃ c1 s1 c2 c3,
    call_request "count" (ArgValue (Val [x2a])) fresh_end = (Ret None, c1) ∧
    Server_respond 1 demo_stream (SubMux 0) (new_responder (peer_of (ce_out c1) io_EOF))
      = (Ret tt, s1) ∧
    call_response [TVar tt] (hears (ce_out (sv_ch s1)) io_EOF c1)
      = (Ret (Some (mkResponse None true [Val [x2a]]), None), c2) ∧
    mapM Response_Receive [TVar tt; TVar tt] c2 = (Ret [Ok (Val [x2a; x2a]); Ok (Val [])], c3).
Proof.
  destruct (continued_call_streams (V := list byte) (T := unit) 1 demo_stream (SubMux 0) "count" tt
    [x2a] (λ v, [v]) (λ v, [v ++ v; []]) [[x2a]] [tt] [tt; tt] io_EOF io_EOF)
    as (c1 & s1 & c2 & c3 & H1 & H2 & H3 & H4 & _);
    [reflexivity|exact I|reflexivity|discriminate|by repeat constructor|by repeat constructor
    |by eexists|by eexists|by eexists|by repeat constructor; eexists|by repeat constructor; eexists|].
  exists c1, s1, c2, c3. exact (conj H1 (conj H2 (conj H3 H4))).
Defined.

(** A call whose header cannot be read leaves its channel open: the server
    returns without a response and without closing the channel, so a caller that
    waits for the response is never told. *)
Theorem bad_call_header_leaks {V T} `{Codec V T} fuel ms hn (ch : chan_end) e r' :
  frame_waits (ce_in ch) = false →
  frameDecoder_Decode codec_Decode_call (ce_in ch) = (Err e, r') →
  Server_respond fuel ms hn (new_responder ch)
  = (Ret tt, new_responder (mkEnd r' (ce_out ch) (ce_closes ch))).
Proof.
  intros Hw Hd. unfold Server_respond, on_ch, end_Decode, mbind, M_bind. cbn [new_responder sv_ch].
  by rewrite Hw, Hd.
Qed.

Lemma bad_call_header_leaks_witness :
  Server_respond (V := list byte) (T := unit) 1 demo_silent (SubMux 0)
    (new_responder (peer_of (mkWriter [frame [x7b]] []) io_EOF))
  = (Ret tt, new_responder (mkEnd (mkReader [] io_EOF) (mkWriter [] []) 0)).
Proof.
  by apply (bad_call_header_leaks (V := list byte) (T := unit) 1 demo_silent (SubMux 0)
    (peer_of (mkWriter [frame [x7b]] []) io_EOF) (errorString "not a call")).
Defined.
