(* ===== verification/RpcProgram.v ===== *)
(** * What the RPC layer does to a channel, as programs

    [mux.Channel] is an interface: rpc.go, server.go and client.go run over the
    channels of any session. A [prog] is such code cut down to what it asks of its
    channel and of the responder's header; [run_end] runs it over the channel ends
    of Rpc.v, and gives the definitions of Rpc.v again. ChannelRpc.v runs the same
    programs over the channels of mux/channel.go. *)
From S2P Require Import Prelude GoRuntime FrameCodec RespondMux Rpc RpcSpec.

(** ** Programs *)

(** The fields of a [responder] that are not its channel. *)
Record resp_header := mkHeader {
  h_responded : bool;
  h_Error : option string;
  h_Continue : bool;
}.

Definition no_header : resp_header := mkHeader false None false.

Inductive prog (V A : Type) : Type :=
| PDone (o : outcome A)
| PEncode (v : any V) (k : option error → prog V A)
| PDecode (B : Type) (dec : list byte → result B) (k : result B → prog V A)
| PClose (k : option error → prog V A)
| PGet (k : resp_header → prog V A)
| PUpdate (f : resp_header → resp_header) (k : prog V A).
Arguments PDone {_ _} _.
Arguments PEncode {_ _} _ _.
Arguments PDecode {_ _ _} _ _.
Arguments PClose {_ _} _.
Arguments PGet {_ _} _.
Arguments PUpdate {_ _} _ _.

Fixpoint prog_bind {V A B} (k : A → prog V B) (p : prog V A) : prog V B :=
  match p with
  | PDone (Ret a) => k a
  | PDone Block => PDone Block
  | PDone (Panic e) => PDone (Panic e)
  | PDone NoFuel => PDone NoFuel
  | PEncode v k' => PEncode v (λ r, prog_bind k (k' r))
  | PDecode dec k' => PDecode dec (λ r, prog_bind k (k' r))
  | PClose k' => PClose (λ r, prog_bind k (k' r))
  | PGet k' => PGet (λ h, prog_bind k (k' h))
  | PUpdate f p => PUpdate f (prog_bind k p)
  end.

#[global] Instance prog_ret {V} : MRet (prog V) := λ A a, PDone (Ret a).
#[global] Instance prog_mbind {V} : MBind (prog V) := λ A B k p, prog_bind k p.

Definition do_Encode {V} (v : any V) : prog V (option error) := PEncode v mret.
Definition do_Decode {V B} (dec : list byte → result B) : prog V (result B) := PDecode dec mret.
Definition do_Close {V} : prog V (option error) := PClose mret.
Definition do_get {V} : prog V resp_header := PGet mret.
Definition do_update {V} (f : resp_header → resp_header) : prog V unit := PUpdate f (mret tt).

(** ** Running over a channel end *)

Definition header_of (s : srv) : resp_header := mkHeader (r_responded s) (r_Error s) (r_Continue s).

Definition set_header (h : resp_header) (s : srv) : srv :=
  mkSrv (sv_ch s) (h_responded h) (h_Error h) (h_Continue h).

Lemma header_set h s : header_of (set_header h s) = h.
Proof. by destruct h. Qed.

Section run.
Context {V T : Type} `{Codec V T}.

Fixpoint run_end {A} (p : prog V A) : M srv A :=
  match p with
  | PDone o => λ s, (o, s)
  | PEncode v k => r ← responder_Send v; run_end (k r)
  | PDecode dec k => r ← on_ch (end_Decode dec); run_end (k r)
  | PClose k => r ← on_ch chan_Close; run_end (k r)
  | PGet k => s ← get_st; run_end (k (header_of s))
  | PUpdate f k => _ ← modify_st (λ s, set_header (f (header_of s)) s); run_end k
  end.

Lemma bind_ext {S A B} (m : M S A) (k k' : A → M S B) s :
  (∀ a s', k a s' = k' a s') → (m ≫= k) s = (m ≫= k') s.
Proof. intros Hk. unfold mbind, M_bind. by destruct (m s) as [[a| | |] s']. Qed.

Lemma bind_assoc {S A B C} (m : M S A) (k : A → M S B) (k' : B → M S C) s :
  ((m ≫= k) ≫= k') s = (m ≫= λ a, k a ≫= k') s.
Proof. unfold mbind, M_bind. by destruct (m s) as [[a| | |] s']. Qed.

Lemma run_bind {A B} (p : prog V A) (k : A → prog V B) s :
  run_end (p ≫= k) s = (run_end p ≫= λ a, run_end (k a)) s.
Proof.
  revert s. induction p as [o|v p IH|? dec p IH|p IH|p IH|f p IH]; intros s;
    [by destruct o|..]; cbn [run_end]; rewrite bind_assoc; apply bind_ext; intros ? s';
    first [apply IH|apply (IH _ s')].
Qed.

Lemma run_bind_ret {A B} (p : prog V A) (k : A → prog V B) s a s' :
  run_end p s = (Ret a, s') → run_end (p ≫= k) s = run_end (k a) s'.
Proof. intros Hp. rewrite run_bind. by rewrite (bind_ret _ _ _ _ _ Hp). Qed.

(** ** The calling side *)

(** [call], the request. *)
Fixpoint p_encode_args (vs : list (any V)) : prog V (option error) :=
  match vs with
  | [] => mret None
  | v :: vs =>
      err ← do_Encode v;
      match err with
      | Some e => _ ← do_Close; mret (Some e)
      | None => p_encode_args vs
      end
  end.

Definition p_call_request (selector : string) (args : call_args V) : prog V (option error) :=
  err ← do_Encode (VCallHeader selector);
  match err with
  | Some e => _ ← do_Close; mret (Some e)
  | None =>
      match args with
      | ArgChan vs => p_encode_args vs
      | ArgValue v => p_encode_args [v]
      end
  end.

(** [call], the response. *)
Fixpoint p_decode_replies (replies : list (target T)) (got : list (any V))
    : prog V (list (any V) * option error) :=
  match replies with
  | [] => mret (got, None)
  | t :: replies =>
      v ← do_Decode (codec_Decode t);
      match v with
      | Err e => mret (got, Some e)
      | Ok v => p_decode_replies replies (got ++ [v])
      end
  end.

Definition p_call_response (replies : list (target T))
    : prog V (option (Response V) * option call_error) :=
  header ← do_Decode codec_Decode_response;
  match header with
  | Ok (error, continue) =>
      r ← match error with
          | Some text =>
              mret (Some (mkResponse error continue []), Some (RemoteError text))
          | None =>
              if reply_nil replies then
                _ ← do_Decode (codec_Decode TBytes);
                mret (Some (mkResponse error continue []), None)
              else
                r ← p_decode_replies replies [];
                let '(got, err) := r in
                mret (Some (mkResponse error continue got), LocalError <$> err)
          end;
      _ ← (if continue : bool then mret None else do_Close);
      mret r
  | Err e => _ ← do_Close; mret (None, Some (LocalError e))
  end.

(** ** The responding side *)

Fixpoint p_send_values (values : list (any V)) : prog V (option error) :=
  match values with
  | [] => mret None
  | v :: values =>
      err ← do_Encode v;
      match err with Some e => mret (Some e) | None => p_send_values values end
  end.

(** [respond(values, continue_)]. *)
Definition p_respond (values : list (any V)) (continue_ : bool) : prog V (option error) :=
  _ ← do_update (λ h, mkHeader true (h_Error h) continue_);
  let '(values, e) := split_error values in
  _ ← do_update (λ h, match e with
                      | Some e => mkHeader (h_responded h) (Some (Error_text e)) (h_Continue h)
                      | None => h
                      end);
  h ← do_get;
  err ← do_Encode (VResponseHeader (h_Error h) (h_Continue h));
  match err with
  | Some e => mret (Some e)
  | None =>
      err ← p_send_values (match values with [] => [VNil] | _ => values end);
      match err with
      | Some e => mret (Some e)
      | None => if continue_ then mret None else do_Close
      end
  end.

(** [hn.RespondRPC(resp, &call)]. *)
Definition p_RespondRPC (fuel : nat) (ms : gmap nat (RespondMux (string → prog V unit)))
    (hn : Handler (string → prog V unit)) (selector : string) : prog V unit :=
  match mux_resolve fuel ms hn selector with
  | Ret (HandlerFunc f) => f selector
  | Ret NotFoundHandler =>
      _ ← p_respond [VErr (errorString ("not found: " +:+ selector))] false; mret tt
  | Ret (SubMux _) => PDone NoFuel
  | Block => PDone Block
  | Panic e => PDone (Panic e)
  | NoFuel => PDone NoFuel
  end.

(** [Server.respond(hn, sess, ch, ctx)]. *)
Definition p_Server_respond (fuel : nat) (ms : gmap nat (RespondMux (string → prog V unit)))
    (hn : Handler (string → prog V unit)) : prog V unit :=
  call ← do_Decode codec_Decode_call;
  match call with
  | Ok sel =>
      _ ← p_RespondRPC fuel ms hn (cleanSelector sel);
      h ← do_get;
      _ ← (if h_responded h then mret None else p_respond [] false);
      h ← do_get;
      if h_Continue h then mret tt else _ ← do_Close; mret tt
  | Err _ => mret tt
  end.

(** ** The same code *)

Lemma on_ch_bind {A B} (m : M chan_end A) (k : A → M chan_end B) s :
  on_ch (m ≫= k) s = (on_ch m ≫= λ a, on_ch (k a)) s.
Proof.
  unfold on_ch, mbind, M_bind. destruct (m (sv_ch s)) as [[a| | |] c]; [|done..].
  cbn [set_sv_ch sv_ch]. by destruct (k a c).
Qed.

Lemma on_ch_ret {A} (a : A) s : on_ch (mret a) s = (Ret a, s).
Proof. by destruct s. Qed.

Lemma bind_modify {S A} (f : S → S) (k : unit → M S A) s : (modify_st f ≫= k) s = k tt (f s).
Proof. done. Qed.

Lemma bind_get {S A} (k : S → M S A) s : (get_st ≫= k) s = k s s.
Proof. done. Qed.

(** One operation, then the rest. *)
Lemma run_then_at {A B} (p : prog V A) (m : M srv A) (k : A → prog V B) (k' : A → M srv B) s :
  run_end p s = m s → (∀ a s', m s = (Ret a, s') → run_end (k a) s' = k' a s') →
  run_end (p ≫= k) s = (m ≫= k') s.
Proof.
  intros Hp Hk. rewrite run_bind. unfold mbind, M_bind. rewrite Hp.
  destruct (m s) as [[a| | |] s1]; [by apply Hk|done..].
Qed.

Lemma run_then {A B} (p : prog V A) (m : M srv A) (k : A → prog V B) (k' : A → M srv B) s :
  (∀ s, run_end p s = m s) → (∀ a s, run_end (k a) s = k' a s) →
  run_end (p ≫= k) s = (m ≫= k') s.
Proof. intros Hp Hk. apply run_then_at; auto. Qed.

Lemma run_step {A B} (p : prog V A) (m : M chan_end A) (k : A → prog V B) (k' : A → M chan_end B) s :
  (∀ s, run_end p s = on_ch m s) → (∀ a s, run_end (k a) s = on_ch (k' a) s) →
  run_end (p ≫= k) s = on_ch (m ≫= k') s.
Proof. intros Hp Hk. rewrite on_ch_bind. by apply run_then. Qed.

Lemma run_Encode v s : run_end (do_Encode v) s = on_ch (end_Encode v) s.
Proof. cbn. unfold responder_Send. mred. by destruct (on_ch (end_Encode v) s) as [[]]. Qed.

Lemma run_Decode {B} (dec : list byte → result B) s :
  run_end (do_Decode dec) s = on_ch (end_Decode dec) s.
Proof. cbn. mred. by destruct (on_ch (end_Decode dec) s) as [[]]. Qed.

Lemma run_Close s : run_end do_Close s = on_ch chan_Close s.
Proof. cbn. mred. by destruct (on_ch chan_Close s) as [[]]. Qed.

Lemma run_get {B} (k : resp_header → prog V B) s :
  run_end (do_get ≫= k) s = run_end (k (header_of s)) s.
Proof. done. Qed.

Lemma run_mret {A} (a : A) s : run_end (mret a) s = on_ch (mret a) s.
Proof. by rewrite on_ch_ret. Qed.

(** [call] sends the request of Rpc.v. *)
Lemma run_encode_args vs s : run_end (p_encode_args vs) s = on_ch (encode_args vs) s.
Proof.
  revert s. induction vs as [|v vs IH]; intros s; [apply run_mret|].
  apply run_step; [apply run_Encode|]. intros [e|] s'; [|apply IH].
  apply run_step; [apply run_Close|]. intros. apply run_mret.
Qed.

Lemma run_call_request sel args s :
  run_end (p_call_request sel args) s = on_ch (call_request sel args) s.
Proof.
  apply run_step; [apply run_Encode|]. intros [e|] s'.
  - apply run_step; [apply run_Close|]. intros. apply run_mret.
  - destruct args; apply run_encode_args.
Qed.

(** [call] reads the response of Rpc.v. *)
Lemma run_decode_replies us got s :
  run_end (p_decode_replies us got) s = on_ch (decode_replies us got) s.
Proof.
  revert got s. induction us as [|u us IH]; intros got s; [apply run_mret|].
  apply run_step; [apply run_Decode|]. intros [v|e] s'; [apply IH|apply run_mret].
Qed.

Lemma run_call_response us s :
  run_end (p_call_response us) s = on_ch (call_response us) s.
Proof.
  apply run_step; [apply run_Decode|]. intros [[text continue]|e] s'.
  - apply run_step.
    + intros s2. destruct text; [apply run_mret|]. destruct (reply_nil us).
      * apply run_step; [apply run_Decode|]. intros. apply run_mret.
      * apply run_step; [apply run_decode_replies|]. intros [got err] s3. apply run_mret.
    + intros r s2. apply run_step.
      * intros. destruct continue; [apply run_mret|apply run_Close].
      * intros. apply run_mret.
  - apply run_step; [apply run_Close|]. intros. apply run_mret.
Qed.

(** The server's part, over the state of the responder. *)
Lemma run_send_values vs s : run_end (p_send_values vs) s = send_values vs s.
Proof.
  revert s. induction vs as [|v vs IH]; intros s; [done|].
  apply run_then; [apply run_Encode|]. intros [e|] s'; [done|apply IH].
Qed.

(** The frames of [respond], once its header is set. *)
Lemma run_respond_frames hd vals (c : bool) s :
  run_end (err ← do_Encode hd;
           match err with
           | Some e => mret (Some e)
           | None =>
               err ← p_send_values vals;
               match err with
               | Some e => mret (Some e)
               | None => if c then mret None else do_Close
               end
           end) s
  = (err ← responder_Send hd;
     match err with
     | Some e => mret (Some e)
     | None =>
         err ← send_values vals;
         match err with
         | Some e => mret (Some e)
         | None => if c then mret None else on_ch chan_Close
         end
     end) s.
Proof.
  apply run_then; [apply run_Encode|]. intros [e|] s1; [done|].
  apply run_then; [apply run_send_values|]. intros [e|] s2; [done|].
  destruct c; [done|apply run_Close].
Qed.

Lemma run_respond vs c s : run_end (p_respond vs c) s = responder_respond vs c s.
Proof.
  unfold p_respond, responder_respond. destruct (split_error vs) as [vals [e|]];
    exact (run_respond_frames _ _ _ _).
Qed.

(** What a mux of programs resolves to, as a handler of Rpc.v. *)
Lemma run_RespondRPC fuel ms hn sel h s :
  mux_resolve fuel ms hn sel = Ret (HandlerFunc h) →
  run_end (p_RespondRPC fuel ms hn sel) s = run_end (h sel) s.
Proof. intros Hm. unfold p_RespondRPC. by rewrite Hm. Qed.

(** A server over programs is the server of Rpc.v, for the selector it gets. *)
Lemma run_Server_respond fuel ms hn fuel' ms' hn' s :
  (∀ sel s1, on_ch (end_Decode codec_Decode_call) s = (Ret (Ok sel), s1) →
    run_end (p_RespondRPC fuel ms hn (cleanSelector sel)) s1
    = RespondRPC fuel' ms' hn' (cleanSelector sel) s1) →
  run_end (p_Server_respond fuel ms hn) s = Server_respond fuel' ms' hn' s.
Proof.
  intros Hroute. apply run_then_at; [apply run_Decode|]. intros [sel|e] s1 Hd; [|done].
  apply run_then_at; [by apply Hroute|]. intros [] s2 _.
  rewrite run_get, bind_get. apply run_then.
  - intros s3. cbn [h_responded header_of]. destruct (r_responded s2); [done|apply run_respond].
  - intros e s3. rewrite run_get, bind_get. cbn [h_Continue header_of]. destruct (r_Continue s3); [done|].
    apply run_then; [apply run_Close|done].
Qed.
End run.
