(* ===== verification/ChannelRpc.v ===== *)
(** * The RPC layer over the channels of a session

    The programs of RpcProgram.v run over a channel of mux/channel.go:
    [run_session]. What they do there is what they do over a channel end of Rpc.v
    with the same bytes to read, as long as the windows suffice; what they send are
    data messages that carry the same bytes, window given back, and a close
    message. *)
From S2P Require Import Prelude GoRuntime Frame Buffer Window ChanList.
From S2P Require Import MuxState Channel ChannelSpec FrameCodec Refine.
From S2P Require Import ChannelView ChannelStream RespondMux Rpc RpcSpec RpcProgram.

Section rpc.
Context {V T : Type} `{Codec V T}.

(** Run a program on the channel [l]; the responder's header is a state of its
    own. *)
Fixpoint run_session {A} (fuel : nat) (l : chan_ptr) (p : prog V A) : M (session * resp_header) A :=
  match p with
  | PDone o => λ s, (o, s)
  | PEncode v k => r ← on_fst (channel_Encode fuel l v); run_session fuel l (k r)
  | PDecode dec k => r ← on_fst (channel_Decode dec l); run_session fuel l (k r)
  | PClose k => r ← on_fst (channel_Close l); run_session fuel l (k r)
  | PGet k => s ← get_st; run_session fuel l (k s.2)
  | PUpdate f k => _ ← modify_st (λ s, (s.1, f s.2)); run_session fuel l k
  end.

(** ** Runs that do not wait *)

(** The bytes written to a channel end. *)
Definition end_sent (e : chan_end) : list byte := mjoin (w_out (ce_out e)).

(** The run of [p] from [s] encodes what it sends, at most [lim] bytes in all and
    none after it closed its channel, and reads frames that are there, unless the
    channel is [closed] and has an end. *)
Fixpoint smooth {A} (lim : Z) (closed : bool) (p : prog V A) (s : srv) : Prop :=
  match p with
  | PDone _ => True
  | PEncode v k =>
      (∃ b, codec_Encode v = Ok b ∧ len (end_sent (sv_ch s)) + len (frame b) ≤ lim) ∧
      closed = false ∧ ce_closes (sv_ch s) = 0%nat ∧
      ∀ r s', responder_Send v s = (Ret r, s') → smooth lim closed (k r) s'
  | PDecode dec k =>
      ((∃ b rest, rd_data (ce_in (sv_ch s)) = frame b ++ rest ∧ len b < 2 ^ 32) ∨ closed = true) ∧
      ∀ r s', on_ch (end_Decode dec) s = (Ret r, s') → smooth lim closed (k r) s'
  | PClose k => ∀ r s', on_ch chan_Close s = (Ret r, s') → smooth lim closed (k r) s'
  | PGet k => smooth lim closed (k (header_of s)) s
  | PUpdate f k => smooth lim closed k (set_header (f (header_of s)) s)
  end.

Lemma smooth_bind {A B} lim closed (p : prog V A) (k : A → prog V B) s :
  smooth lim closed p s →
  (∀ a s', run_end p s = (Ret a, s') → smooth lim closed (k a) s') →
  smooth lim closed (p ≫= k) s.
Proof.
  revert s. induction p as [o|v p IH|? dec p IH|p IH|p IH|f p IH]; intros s Hp Hk; cbn [smooth] in Hp.
  - destruct o; [by apply Hk|done..].
  - destruct Hp as (Hb & Hc & Hn & Hp). split_and!; [done..|]. intros r s' Hr. apply IH; [by apply Hp|].
    intros a s2 Ha. apply Hk. cbn [run_end]. by rewrite (bind_ret _ _ _ _ _ Hr).
  - destruct Hp as (Hb & Hp). split_and!; [done..|]. intros r s' Hr. apply IH; [by apply Hp|].
    intros a s2 Ha. apply Hk. cbn [run_end]. by rewrite (bind_ret _ _ _ _ _ Hr).
  - intros r s' Hr. apply IH; [by apply Hp|].
    intros a s2 Ha. apply Hk. cbn [run_end]. by rewrite (bind_ret _ _ _ _ _ Hr).
  - apply IH; done.
  - apply IH; done.
Qed.

(** ** The channel and the channel end *)

Section run.
Context (l : chan_ptr) (v0 : chan_view) (out0 : list byte) (s0 : session).

(** The view of the channel that goes with a channel end. *)
Definition end_view (e : chan_end) : chan_view :=
  mkView (v_local v0) (v_remote v0) (v_packet v0) (rd_data (ce_in e))
    (v_win v0 + len out0 - len (end_sent e))
    (v_mine v0 + len (v_queue v0) - len (rd_data (ce_in e)))
    (negb (ce_closes e =? 0)%nat) (v_closed v0).

(** The close message the channel sent, if it did since [s0]. *)
Definition hung_up (e : chan_end) : list Message :=
  if v_sent v0 || (ce_closes e =? 0)%nat then [] else [CloseMessage (v_remote v0)].

(** The channel is like [e]; since [s0] it has sent [pre], and maybe a close. *)
Record agrees (s : session) (e : chan_end) (pre : list Message) : Prop := {
  ag_view : views s l (end_view e);
  ag_sends : sends l s0 s (pre ++ hung_up e);
  ag_script : w_script (ce_out e) = [];
  ag_err : v_closed v0 = true → rd_err (ce_in e) = io_EOF;
  ag_pieces : Forall (piece (v_remote v0) (v_packet v0)) pre;
  ag_stream : out0 ++ stream_to (v_remote v0) pre = end_sent e;
  ag_credit : total_credit pre + len (rd_data (ce_in e)) ≤ len (v_queue v0);
  ag_quiet : v_sent v0 = true → pre = [] ∧ ce_closes e ≠ 0%nat;
}.

Lemma agrees_Encode s e pre (x : any V) b fuel :
  agrees s e pre → codec_Encode x = Ok b → len (end_sent e) + len (frame b) ≤ v_win v0 + len out0 →
  v_closed v0 = false → ce_closes e = 0%nat → (length (frame b) < fuel)%nat →
  ∃ s' e' pre', end_Encode x e = (Ret None, e') ∧ channel_Encode fuel l x s = (Ret None, s') ∧
    agrees s' e' pre'.
Proof.
  intros [Hv Hs Hsc He Hp Hst Hc Hq] Hx Hw Hcl Hn Hf.
  destruct (view_Encode s l _ x b fuel Hv Hcl Hx) as (s' & ms & Hr & Hv' & Hs' & Hp' & Hst' & Hc');
    [cbn [v_win end_view]; lia|done|]. cbn [v_remote v_packet end_view] in Hp', Hst'.
  exists s', (mkEnd (ce_in e) (mkWriter (w_out (ce_out e) ++ [frame b]) []) (ce_closes e)), (pre ++ ms).
  assert (end_sent (mkEnd (ce_in e) (mkWriter (w_out (ce_out e) ++ [frame b]) []) (ce_closes e))
    = end_sent e ++ frame b) as Hsent.
  { unfold end_sent. cbn [ce_out w_out]. rewrite join_app. change (mjoin [frame b]) with (frame b ++ []).
    by rewrite app_nil_r. }
  assert (end_view (mkEnd (ce_in e) (mkWriter (w_out (ce_out e) ++ [frame b]) []) (ce_closes e))
    = v_spend (len (frame b)) (end_view e)) as Hview.
  { unfold end_view, v_spend. rewrite Hsent, len_app.
    cbn [v_local v_remote v_packet v_queue v_win v_mine v_sent v_closed ce_in ce_closes]. f_equal. lia. }
  split; [|split; [done|]].
  - unfold end_Encode. rewrite (frameEncoder_Encode_eq _ _ _ Hx). unfold io_Write. by rewrite Hsc.
  - unfold hung_up in Hs. rewrite Hn, orb_true_r, app_nil_r in Hs. split; try done.
    + by rewrite Hview.
    + unfold hung_up. cbn [ce_closes]. rewrite Hn, orb_true_r, app_nil_r. by eapply sends_trans.
    + by apply Forall_app.
    + by rewrite stream_to_app, Hst', app_assoc, Hst, Hsent.
    + cbn [ce_in]. rewrite total_credit_app, Hc'. lia.
    + intros Ht. by destruct (Hq Ht) as [_ ?].
Qed.

Lemma agrees_Decode {A} (dec : list byte → result A) s e pre :
  agrees s e pre →
  (∃ b rest, rd_data (ce_in e) = frame b ++ rest ∧ len b < 2 ^ 32) ∨ v_closed v0 = true →
  ∃ s' r e' pre', end_Decode dec e = (Ret r, e') ∧ channel_Decode dec l s = (Ret r, s') ∧
    agrees s' e' pre'.
Proof.
  intros [Hv Hs Hsc He Hp Hst Hc Hq] Hav.
  destruct (view_Decode dec s l _ (rd_err (ce_in e)) Hv Hav He)
    as (s' & ms & r & k & Hr1 & Hr2 & Hv' & Hk & Hs' & [Gp Gs Gc Gt]).
  cbn [v_remote v_packet v_sent v_queue end_view] in *.
  exists s', r, (mkEnd (mkReader (drop k (rd_data (ce_in e))) (rd_err (ce_in e))) (ce_out e) (ce_closes e)),
    (pre ++ ms).
  split; [|split; [done|]].
  { assert (frame_waits (ce_in e) = false) as Hwait.
    { destruct Hav as [(b & rest & Hd & Hb)|Ht]; [|apply frame_waits_ended; by rewrite He].
      destruct (ce_in e) as [q err]. cbn [rd_data] in Hd. subst q. by apply frame_waits_frame. }
    unfold end_Decode. rewrite Hwait. destruct (ce_in e) as [q err]. cbn [rd_data rd_err] in *.
    by rewrite Hr1. }
  split; cbn [ce_in ce_out ce_closes rd_data rd_err]; try done.
  - assert (end_view (mkEnd (mkReader (drop k (rd_data (ce_in e))) (rd_err (ce_in e))) (ce_out e) (ce_closes e))
      = v_take k (end_view e)) as ->; [|done].
    unfold end_view, v_take. cbn [v_local v_remote v_packet v_queue v_win v_mine v_sent v_closed ce_in
      ce_closes rd_data]. f_equal. rewrite <- (take_drop k (rd_data (ce_in e))) at 2. rewrite len_app. lia.
  - unfold hung_up in *. cbn [ce_closes]. destruct (ce_closes e =? 0)%nat eqn:En.
    + rewrite orb_true_r, app_nil_r in *. by eapply sends_trans.
    + rewrite (Gt eq_refl), !app_nil_r in *. rewrite <- (app_nil_r (pre ++ _)). by eapply sends_trans.
  - by apply Forall_app.
  - by rewrite stream_to_app, Gs, app_nil_r.
  - rewrite total_credit_app. rewrite <- (take_drop k (rd_data (ce_in e))), len_app in Hc.
    assert (len (take k (rd_data (ce_in e))) = Z.of_nat k) by (unfold len; rewrite length_take; lia). lia.
  - intros Ht. destruct (Hq Ht) as [-> Hn]. split; [|done]. apply Gt.
    by rewrite (proj2 (Nat.eqb_neq _ _) Hn).
Qed.

Lemma agrees_Close s e pre :
  agrees s e pre →
  ∃ s' r e', chan_Close e = (Ret r, e') ∧ channel_Close l s = (Ret r, s') ∧ agrees s' e' pre.
Proof.
  intros [Hv Hs Hsc He Hp Hst Hc Hq].
  destruct (view_Close s l _ Hv) as (s' & Hr & Hv' & Hs'). cbn [v_sent v_remote end_view] in *.
  exists s', (if (ce_closes e =? 0)%nat then None else Some io_EOF),
    (mkEnd (ce_in e) (ce_out e) (S (ce_closes e))).
  split; [done|]. split; [by destruct (ce_closes e =? 0)%nat|].
  split; cbn [ce_in ce_out ce_closes]; try done.
  - unfold hung_up in *. cbn [ce_closes Nat.eqb]. rewrite orb_false_r.
    destruct (ce_closes e =? 0)%nat eqn:En; cbn [negb] in Hs'.
    + rewrite orb_true_r, app_nil_r in Hs. destruct (v_sent v0) eqn:E0.
      * apply Nat.eqb_eq in En. by destruct (Hq eq_refl) as [_ ?].
      * by eapply sends_trans.
    + rewrite orb_false_r in Hs. rewrite <- (app_nil_r (pre ++ _)). by eapply sends_trans.
  - intros Ht. by destruct (Hq Ht) as [-> _].
Qed.

(** A smooth run on the channel end is a run on the channel. *)
Lemma run_agrees {A} lim fuel (p : prog V A) s σ pre a σ' :
  agrees s (sv_ch σ) pre → smooth lim (v_closed v0) p σ → lim ≤ v_win v0 + len out0 →
  lim < Z.of_nat fuel → run_end p σ = (Ret a, σ') →
  ∃ s' pre', run_session fuel l p (s, header_of σ) = (Ret a, (s', header_of σ')) ∧
    agrees s' (sv_ch σ') pre'.
Proof.
  intros Ha Hsm Hlim Hf. revert s σ pre Ha Hsm.
  induction p as [o|v p IH|? dec p IH|p IH|p IH|f p IH]; intros s σ pre Ha Hsm Hrun;
    cbn [smooth run_end run_session] in *.
  - injection Hrun as -> ->. by exists s, pre.
  - destruct Hsm as ((b & Hb & Hl) & Hcl & Hn & Hsm).
    assert (length (frame b) < fuel)%nat
      by (pose proof (len_nonneg (end_sent (sv_ch σ))); unfold len in *; lia).
    destruct (agrees_Encode s _ pre v b fuel Ha Hb) as (s1 & e1 & pre1 & H1 & H2 & Ha1); [lia|done..|].
    assert (responder_Send v σ = (Ret None, set_sv_ch e1 σ)) as Hs by (unfold responder_Send; by apply on_ch_eq).
    rewrite (bind_ret _ _ _ _ _ Hs) in Hrun.
    destruct (IH None s1 (set_sv_ch e1 σ) pre1 Ha1) as (s2 & pre2 & Hr & Ha2); [by apply Hsm|done|].
    exists s2, pre2. split; [|done]. erewrite bind_ret; [|by apply on_fst_eq]. done.
  - destruct Hsm as (Hav & Hsm).
    destruct (agrees_Decode dec s _ pre Ha Hav) as (s1 & r & e1 & pre1 & H1 & H2 & Ha1).
    assert (on_ch (end_Decode dec) σ = (Ret r, set_sv_ch e1 σ)) as Hs by by apply on_ch_eq.
    rewrite (bind_ret _ _ _ _ _ Hs) in Hrun.
    destruct (IH r s1 (set_sv_ch e1 σ) pre1 Ha1) as (s2 & pre2 & Hr & Ha2); [by apply Hsm|done|].
    exists s2, pre2. split; [|done]. erewrite bind_ret; [|by apply on_fst_eq]. done.
  - destruct (agrees_Close s _ pre Ha) as (s1 & r & e1 & H1 & H2 & Ha1).
    assert (on_ch chan_Close σ = (Ret r, set_sv_ch e1 σ)) as Hs by by apply on_ch_eq.
    rewrite (bind_ret _ _ _ _ _ Hs) in Hrun.
    destruct (IH r s1 (set_sv_ch e1 σ) pre Ha1) as (s2 & pre2 & Hr & Ha2); [by apply Hsm|done|].
    exists s2, pre2. split; [|done]. erewrite bind_ret; [|by apply on_fst_eq]. done.
  - exact (IH (header_of σ) s σ pre Ha Hsm Hrun).
  - destruct (IH s (set_header (f (header_of σ)) σ) pre Ha Hsm Hrun) as (s2 & pre2 & Hr & Ha2).
    exists s2, pre2. split; [|done]. rewrite header_set in Hr. exact Hr.
Qed.
End run.

(** A channel and a channel end with the same bytes, before anything was done. *)
Lemma agrees_start s l v e :
  views s l v → rd_data (ce_in e) = v_queue v → negb (ce_closes e =? 0)%nat = v_sent v →
  w_script (ce_out e) = [] → (v_closed v = true → rd_err (ce_in e) = io_EOF) →
  agrees l v (end_sent e) s s e [].
Proof.
  intros Hv Hq Hn Hw He. split; try done.
  - assert (end_view v (end_sent e) e = v) as ->; [|done]. destruct v. unfold end_view. cbn in *.
    rewrite Hq, Hn. f_equal; lia.
  - unfold hung_up. rewrite <- Hn. destruct (ce_closes e =? 0)%nat; [|apply sends_nil].
    rewrite orb_true_r. apply sends_nil.
  - cbn. by rewrite app_nil_r.
  - rewrite Hq. unfold total_credit. cbn. lia.
  - rewrite <- Hn. destruct (Nat.eqb_spec (ce_closes e) 0); [done|]. by split.
Qed.
End rpc.

(** ** The programs of a call run smoothly *)

Section smooth.
Context {V T : Type} `{CodecLaws V T}.

(** A channel end that has sent the frames [out], and a responder. *)
Definition sending (r : reader) (out : list (list byte)) (h : resp_header) : srv :=
  mkSrv (sent_end r out 0) (h_responded h) (h_Error h) (h_Continue h).

Lemma end_sent_eq r out n : end_sent (sent_end r out n) = mjoin (frame <$> out).
Proof. done. Qed.

Lemma smooth_Encode {A} lim (x : any V) b (k : option error → prog V A) r out h :
  encodes x b → len (mjoin (frame <$> out ++ [b])) ≤ lim →
  smooth lim false (k None) (sending r (out ++ [b]) h) →
  smooth lim false (do_Encode x ≫= k) (sending r out h).
Proof.
  intros Hb Hl Hk. change (smooth lim false (PEncode x k) (sending r out h)). cbn [smooth].
  split_and!; [|done..|].
  - exists b. split; [by destruct Hb|]. unfold sending. cbn [sv_ch]. rewrite end_sent_eq.
    rewrite fmap_app, join_app, len_app in Hl. change (mjoin (frame <$> [b])) with (frame b ++ []) in Hl.
    by rewrite app_nil_r in Hl.
  - intros e s' Hs. unfold responder_Send in Hs.
    rewrite (on_ch_eq _ (sending r out h) None (sent_end r (out ++ [b]) 0)) in Hs by (by apply end_Encode_eq).
    by injection Hs as <- <-.
Qed.

Lemma smooth_Decode {A B} lim closed (dec : list byte → result B) (k : result B → prog V A) b rest e w n h :
  len b < 2 ^ 32 →
  smooth lim closed (k (dec b)) (set_header h (new_responder (mkEnd (mkReader rest e) w n))) →
  smooth lim closed (do_Decode dec ≫= k)
    (set_header h (new_responder (mkEnd (mkReader (frame b ++ rest) e) w n))).
Proof.
  intros Hb Hk. cbn. split; [left; by exists b, rest|]. intros r s' Hs.
  rewrite (on_ch_eq _ _ (dec b) (mkEnd (mkReader rest e) w n)) in Hs by (by apply end_Decode_eq).
  by injection Hs as <- <-.
Qed.

Lemma smooth_encode_args lim vs bs r out h :
  Forall2 encodes vs bs → len (mjoin (frame <$> out ++ bs)) ≤ lim →
  smooth lim false (p_encode_args vs) (sending r out h).
Proof.
  intros Hbs. revert out. induction Hbs as [|x b vs bs Hx Hbs IH]; intros out Hl; [done|].
  replace (out ++ b :: bs) with ((out ++ [b]) ++ bs) in Hl by by rewrite <- app_assoc.
  pose proof (len_nonneg (mjoin (frame <$> bs))) as Hpos.
  apply (smooth_Encode lim x b); [done| |by apply IH].
  rewrite fmap_app, join_app, len_app in Hl. lia.
Qed.

Lemma smooth_call_request lim sel args hb abs :
  encodes (VCallHeader sel) hb → Forall2 encodes (args_values args) abs →
  len (mjoin (frame <$> hb :: abs)) ≤ lim →
  smooth lim false (p_call_request sel args) (new_responder fresh_end).
Proof.
  intros Hh Ha Hl. change (new_responder fresh_end) with (sending (mkReader [] io_Pending) [] no_header).
  pose proof (len_nonneg (mjoin (frame <$> abs))) as Hpos.
  apply (smooth_Encode lim _ hb); [done| |].
  - change (mjoin (frame <$> hb :: abs)) with (frame hb ++ mjoin (frame <$> abs)) in Hl.
    rewrite len_app in Hl. change (mjoin (frame <$> [] ++ [hb])) with (frame hb ++ []). rewrite app_nil_r. lia.
  - destruct args; by apply (smooth_encode_args lim _ abs _ [hb]).
Qed.

Lemma smooth_send_values lim vs bs r out h :
  Forall2 encodes vs bs → len (mjoin (frame <$> out ++ bs)) ≤ lim →
  smooth lim false (p_send_values vs) (sending r out h).
Proof.
  intros Hbs. revert out. induction Hbs as [|x b vs bs Hx Hbs IH]; intros out Hl; [done|].
  replace (out ++ b :: bs) with ((out ++ [b]) ++ bs) in Hl by by rewrite <- app_assoc.
  pose proof (len_nonneg (mjoin (frame <$> bs))) as Hpos.
  apply (smooth_Encode lim x b); [done| |by apply IH].
  rewrite fmap_app, join_app, len_app in Hl. lia.
Qed.

Lemma smooth_respond lim vs hb bs r c :
  encodes (VResponseHeader (respond_error vs) c) hb → Forall2 encodes (respond_values vs) bs →
  len (mjoin (frame <$> hb :: bs)) ≤ lim →
  smooth lim false (p_respond vs c) (new_responder (mkEnd r (mkWriter [] []) 0)).
Proof.
  intros Hh Hbs Hl. pose proof (len_nonneg (mjoin (frame <$> bs))) as Hpos.
  change (mjoin (frame <$> hb :: bs)) with (frame hb ++ mjoin (frame <$> bs)) in Hl. rewrite len_app in Hl.
  assert (∃ vals, match (split_error vs).1 with [] => [VNil] | _ => (split_error vs).1 end = vals ∧
    Forall2 encodes vals bs) as (vals & Hvals & Hbs').
  { exists (respond_values vs). split; [|done]. by destruct vs as [|[|e|sl|er cc|v] [|v2 values]]. }
  assert (smooth lim false
    (h ← do_get; err ← do_Encode (VResponseHeader (h_Error h) (h_Continue h));
     match err with
     | Some e => mret (Some e)
     | None =>
         err ← p_send_values vals;
         match err with Some e => mret (Some e) | None => if c then mret None else do_Close end
     end) (sending r [] (mkHeader true (respond_error vs) c))) as Hsm.
  { apply (smooth_Encode lim _ hb); [done| |].
    - change (mjoin (frame <$> [] ++ [hb])) with (frame hb ++ []). rewrite app_nil_r. lia.
    - apply smooth_bind.
      + apply (smooth_send_values lim vals bs); [done|].
        change (mjoin (frame <$> ([] ++ [hb]) ++ bs)) with (frame hb ++ mjoin (frame <$> bs)).
        rewrite len_app. lia.
      + intros [e|] s' _; [done|]. by destruct c. }
  unfold p_respond. rewrite <- Hvals in Hsm. clear Hvals.
  assert (respond_error vs = Error_text <$> (split_error vs).2) as Herr
    by (by destruct vs as [|[|e|sl|er cc|v] [|v2 values]]).
  rewrite Herr in Hsm. destruct (split_error vs) as [vals' [e|]]; exact Hsm.
Qed.

(** The server's part, if the handler's is smooth and answers. *)
Lemma smooth_Server_respond lim fuel ms hn sel cb rest e h :
  encodes (VCallHeader sel) cb → mux_resolve fuel ms hn (cleanSelector sel) = Ret (HandlerFunc h) →
  smooth lim false (h (cleanSelector sel)) (new_responder (mkEnd (mkReader rest e) (mkWriter [] []) 0)) →
  (∀ s', run_end (h (cleanSelector sel)) (new_responder (mkEnd (mkReader rest e) (mkWriter [] []) 0))
     = (Ret tt, s') → r_responded s' = true) →
  smooth lim false (p_Server_respond fuel ms hn)
    (new_responder (mkEnd (mkReader (frame cb ++ rest) e) (mkWriter [] []) 0)).
Proof.
  intros [Hc Hl] Hm Hs Hr. apply (smooth_Decode _ _ _ _ _ _ _ _ _ no_header Hl).
  rewrite (law_call _ _ Hc). unfold p_RespondRPC. rewrite Hm.
  apply smooth_bind; [exact Hs|]. intros [] s' Hrun. apply Hr in Hrun.
  change (smooth lim false (_ ← (if r_responded s' then mret None else p_respond [] false);
    h ← do_get; if h_Continue h then mret tt else _ ← do_Close; mret tt) s').
  rewrite Hrun. cbn. by destruct (r_Continue s').
Qed.

(** A program that only reads and closes runs smoothly to the end of its stream. *)
Fixpoint reads_only {A} (p : prog V A) : Prop :=
  match p with
  | PDone _ => True
  | PEncode _ _ => False
  | PDecode _ k => ∀ r, reads_only (k r)
  | PClose k => ∀ r, reads_only (k r)
  | PGet k => ∀ h, reads_only (k h)
  | PUpdate _ k => reads_only k
  end.

Lemma reads_only_bind {A B} (p : prog V A) (k : A → prog V B) :
  reads_only p → (∀ a, reads_only (k a)) → reads_only (p ≫= k).
Proof.
  intros Hp Hk. revert Hp.
  induction p as [o|v p IH|? dec p IH|p IH|p IH|f p IH]; intros Hp; [destruct o; [apply Hk|done..]|done|..].
  - intros r. apply IH, Hp.
  - intros r. apply IH, Hp.
  - intros h. apply IH, Hp.
  - apply IH, Hp.
Qed.

Lemma reads_only_smooth {A} lim (p : prog V A) s : reads_only p → smooth lim true p s.
Proof.
  revert s. induction p as [o|v p IH|? dec p IH|p IH|p IH|f p IH]; intros s Hp; [done|done|..].
  - split; [by right|]. intros r s' _. apply IH, Hp.
  - intros r s' _. apply IH, Hp.
  - apply IH, Hp.
  - apply IH, Hp.
Qed.

Lemma call_response_reads (us : list (target T)) : reads_only (p_call_response us).
Proof.
  apply reads_only_bind; [done|]. intros [[text continue]|e]; [|done].
  apply reads_only_bind.
  - destruct text; [done|]. destruct (reply_nil us); [done|].
    apply reads_only_bind; [|by intros []]. generalize (@nil (any V)) as got.
    induction us as [|u us IH]; intros got; [done|]. intros [v|e]; [apply IH|done].
  - intros r. by destruct continue.
Qed.
End smooth.
