(* ===== verification/ChannelCall.v ===== *)
(** * A call between two sessions

    Two sessions joined by a transport, a client on the one and a server on the
    other: [remote_Call] opens a channel, sends the request over it, lets the server
    answer on the channel it accepted, reads the response, and lets the loops handle
    what arrives in between. It is one schedule of what Client.Call and
    Server.Respond do together; System.v and Link.v have the other interleavings of
    the sessions. *)
From S2P Require Import Prelude GoRuntime Frame Buffer Window ChanList.
From S2P Require Import MuxState Channel ChannelSpec Session SessionSpec.
From S2P Require Import Handshake Refine FrameCodec ChannelView ChannelStream.
From S2P Require Import RespondMux RespondMuxSpec Rpc RpcSpec RpcProgram ChannelRpc.

(** ** The call *)

(** A session whose loop failed carries nothing any more. *)
Definition going_on {S} (m : M S (option error)) : M S unit :=
  err ← m; match err with None => mret tt | Some _ => block_st end.

(** [Open] on the first session, and [Accept] on the second, which gets the channel
    its loop makes for the request: the two channels. *)
Definition open_channels : M (session * session) (result (chan_ptr * chan_ptr)) :=
  r ← on_fst session_Open_request;
  match r with
  | Err e => mret (Err e)
  | Ok la =>
      lb ← on_snd (λ b, (Ret (s_fresh b), b));
      _ ← going_on deliver_to_b;
      _ ← going_on deliver_to_a;
      r ← on_fst (session_Open_wait la None);
      match r with Err e => mret (Err e) | Ok la => mret (Ok (la, lb)) end
  end.

Section call.
Context {V T : Type} `{Codec V T}.

(** A program on a channel, with a responder of its own. *)
Definition on_channel {A} (fuel : nat) (l : chan_ptr) (p : prog V A) : MS A := λ s,
  let '(o, s') := run_session fuel l p (s, no_header) in (o, s'.1).

(** [call] on the channel [la] against [Server.respond] on the channel [lb]. *)
Definition call_on (fuel mux_fuel : nat) (ms : gmap nat (RespondMux (string → prog V unit)))
    (hn : Handler (string → prog V unit)) (la lb : chan_ptr) (selector : string)
    (args : call_args V) (replies : list (target T))
    : M (session * session) (option (Response V) * option call_error) :=
  err ← on_fst (on_channel fuel la (p_call_request selector args));
  match err with
  | Some e => mret (None, Some (LocalError e))
  | None =>
      _ ← going_on deliver_to_b;
      _ ← on_snd (on_channel fuel lb (p_Server_respond mux_fuel ms hn));
      _ ← going_on deliver_to_a;
      r ← on_fst (on_channel fuel la (p_call_response replies));
      _ ← going_on deliver_to_b;
      mret r
  end.

(** [Client.Call] against [Server.Respond]. *)
Definition remote_Call (fuel mux_fuel : nat) (ms : gmap nat (RespondMux (string → prog V unit)))
    (hn : Handler (string → prog V unit)) (selector : string) (args : call_args V)
    (replies : list (target T))
    : M (session * session) (option (Response V) * option call_error) :=
  r ← open_channels;
  match r with
  | Err e => mret (None, Some (LocalError e))
  | Ok (la, lb) => call_on fuel mux_fuel ms hn la lb selector args replies
  end.

(** The handler of a Go function, as a program. *)
Definition p_unary (t : T) (g : V → list (any V)) : string → prog V unit := λ _,
  r ← do_Decode (codec_Decode (TVar t));
  match r with
  | Ok (Val v) => _ ← p_respond (g v) false; mret tt
  | Ok _ => _ ← p_respond [] false; mret tt
  | Err e => _ ← p_respond [VErr e] false; mret tt
  end.

Lemma run_unary t g sel s : run_end (p_unary t g sel) s = unary_handler t g sel s.
Proof.
  apply run_then; [intros; apply run_Decode|].
  intros [[]|] s1; (apply run_then; [intros; apply run_respond|done]).
Qed.
End call.

(** ** Opening *)

(** Nothing on the way. *)
Definition quiet (s : session) : Prop := w_out (s_enc s) = [] ∧ rd_data (s_dec s) = [].

(** A channel nothing was sent over yet. *)
Definition fresh_view (x y : Z) : chan_view :=
  mkView x y channelMaxPacket [] channelWindowSize channelWindowSize false false.

Lemma drain_all_one s s' :
  session_onePacket true s = (Ret None, s') → rd_data (s_dec s) ≠ [] → rd_data (s_dec s') = [] →
  drain_all s = (Ret None, s').
Proof.
  intros H1 Hd Hd'. unfold drain_all. cbn [drain]. unfold mbind at 1, M_bind at 1. cbn [get_st].
  destruct (rd_data (s_dec s)) as [|b d]; [done|]. rewrite (bind_eq _ _ _ _ _ H1). cbn [length drain].
  unfold mbind at 1, M_bind at 1. cbn [get_st]. by rewrite Hd'.
Qed.

Lemma deliver_to_b_eq a b b' :
  drain_all (transmit a b).2 = (Ret None, b') →
  going_on deliver_to_b (a, b) = (Ret tt, ((transmit a b).1, b')).
Proof.
  intros Hd. assert (deliver_to_b (a, b) = (Ret None, ((transmit a b).1, b'))) as Hx
    by exact (on_snd_eq _ _ _ _ _ Hd).
  unfold going_on. by rewrite (bind_ret _ _ _ _ _ Hx).
Qed.

Lemma deliver_to_a_eq a b a' :
  drain_all (transmit b a).2 = (Ret None, a') →
  going_on deliver_to_a (a, b) = (Ret tt, (a', (transmit b a).1)).
Proof.
  intros Hd. assert (deliver_to_a (a, b) = (Ret None, (a', (transmit b a).1))) as Hx
    by exact (on_fst_eq _ _ _ _ _ Hd).
  unfold going_on. by rewrite (bind_ret _ _ _ _ _ Hx).
Qed.

Lemma transmit_one m a b :
  w_out (s_enc a) = [Message_Bytes m] → rd_data (s_dec b) = [] →
  (transmit a b).2 = feed m [] (rd_err (s_dec b)) b.
Proof. intros Ha Hb. unfold transmit, feed. cbn [snd]. by rewrite Ha, Hb. Qed.

Lemma removed_id id c : chanList_getChan id (chanList_remove id c) = None.
Proof.
  unfold chanList_getChan. rewrite chanList_remove_len. case_cmp; [|done].
  unfold chanList_remove. cmp_true. destruct (decide (Z.to_nat id < length c)%nat).
  - by rewrite list_lookup_insert_eq.
  - rewrite lookup_ge_None_2; [done|]. rewrite length_insert. lia.
Qed.

(** Two linked channels, each in its session's table, and nothing on the way. *)
Record linked (a b : session) (la lb : chan_ptr) (va vb : chan_view) : Prop := {
  lk_va : views a la va;
  lk_vb : views b lb vb;
  lk_ga : chanList_getChan (v_local va) (s_chans a) = Some la;
  lk_gb : chanList_getChan (v_local vb) (s_chans b) = Some lb;
  lk_ab : v_remote va = v_local vb;
  lk_ba : v_remote vb = v_local va;
  lk_ua : is_u32 (v_local va);
  lk_ub : is_u32 (v_local vb);
  lk_qa : quiet a;
  lk_qb : quiet b;
}.

(** A new channel leaves the others as they were. *)
Lemma others_added c s : others (s_fresh s) s (added c s).
Proof. intros l Hl. cbn. by rewrite lookup_insert_ne by done. Qed.

Lemma open_channels_eq a b :
  ready a → ready b → quiet a → quiet b →
  ∃ a' b', open_channels (a, b) = (Ret (Ok (s_fresh a, s_fresh b)), (a', b')) ∧
    linked a' b' (s_fresh a) (s_fresh b) (fresh_view (next_id a) (next_id b))
      (fresh_view (next_id b) (next_id a)) ∧
    s_chans a' = (chanList_add (s_fresh a) (s_chans a)).2 ∧
    s_chans b' = (chanList_add (s_fresh b) (s_chans b)).2 ∧
    others (s_fresh a) a a' ∧ others (s_fresh b) b b'.
Proof.
  intros HA HB [Hwa Hra] [Hwb Hrb].
  destruct (add_id a (rd_table _ HA)) as (Hua & _ & Hga). destruct (add_id b (rd_table _ HB)) as (Hub & _ & Hgb).
  fold (next_id a) in Hua, Hga. fold (next_id b) in Hub, Hgb.
  assert (is_u32 channelWindowSize ∧ is_u32 channelMaxPacket) as [Huw Hum] by by vm_compute.
  set (a1 := set_enc (emit [open_request a] (s_enc a)) (added opening_channel a)).
  unfold open_channels. erewrite bind_ret; [|apply on_fst_eq; by apply open_sends].
  cbv iota beta. fold a1. erewrite bind_ret; [|by apply on_snd_eq].
  set (a1' := (transmit a1 b).1).
  set (b0 := set_dec (mkReader [] (rd_err (s_dec b))) b).
  set (b1 := set_enc (emit [confirmation (next_id a) b] (s_enc b))
    (set_inbox None (added (offered_channel (next_id a) channelWindowSize channelMaxPacket) b0))).
  assert (drain_all (transmit a1 b).2 = (Ret None, b1)) as H1.
  { rewrite (transmit_one (open_request a)) by (done || (cbn; by rewrite Hwa)).
    apply drain_all_one; [|by destruct (open_request a)|done].
    rewrite onePacket_feed by done. cbv beta iota zeta delta [open_request].
    rewrite open_handled; [reflexivity|]. by destruct HB; split. }
  rewrite (bind_ret _ _ _ _ _ (deliver_to_b_eq _ _ _ H1)). fold a1'.
  set (b1' := (transmit b1 a1').1).
  set (a2 := set_dec (mkReader [] (rd_err (s_dec a))) a1').
  set (cA := opened_channel (next_id b) a). set (mC := confirmation (next_id a) b).
  set (a3 := put_ch (s_fresh a) (set_msg (mkChan [mC] chanSize false) cA) a2).
  assert (s_heap a2 !! s_fresh a = Some (set_localId (next_id a) opening_channel)) as Hl by apply heap_added.
  assert (drain_all (transmit b1 a1').2 = (Ret None, a3)) as H2.
  { rewrite (transmit_one mC) by (done || (cbn; by rewrite Hwb)).
    apply drain_all_one; [|by destruct mC|done].
    rewrite onePacket_feed by done. cbv beta iota zeta delta [mC confirmation].
    rewrite dispatch_eq. cbn [Message_Channel fst confirmation].
    change (s_dec a1') with (s_dec a). fold a2.
    change (s_chans a2) with (chanList_add (s_fresh a) (s_chans a)).2.
    rewrite Hga, (handle_confirm_eq _ _ _ _ _ _ _ Hl). rewrite decide_False by done. reflexivity. }
  rewrite (bind_ret _ _ _ _ _ (deliver_to_a_eq _ _ _ H2)). fold b1'.
  assert (session_Open_wait (s_fresh a) None a3 = (Ret (Ok (s_fresh a)), put_ch (s_fresh a) cA a2)) as H3.
  { unfold a3. erewrite Open_wait_eq by apply heap_put_ch. cbn [c_msg set_msg ch_buf].
    by rewrite put_ch_put_ch. }
  erewrite bind_ret; [|apply on_fst_eq; exact H3]. cbv iota beta.
  eexists _, _. split; [reflexivity|].
  split; [|split_and!; [done|done| |exact (others_added _ b0)]].
  2: { exact (others_trans _ _ _ _ (others_added opening_channel a) (others_put _ _ a2 a2 eq_refl)). }
  destruct HA as [HtA HwA]. destruct HB as [HtB HwB].
  split; try done.
  - split; [cbn; by apply Forall_drop|]. eexists. split; [apply heap_put_ch|].
    split; try done; try by vm_compute. apply newBuffer_repr.
  - split; [cbn; by apply Forall_drop|]. eexists. split; [apply (heap_added _ b0)|].
    split; try done; try by vm_compute. apply newBuffer_repr.
Qed.

(** ** One side's run, and the way to the other side *)

Section sides.
Context {V T : Type} `{CodecLaws V T}.

Lemma run_on_channel {A} lim fuel (p : prog V A) a l v e x σ :
  views a l v → rd_data (ce_in e) = v_queue v → negb (ce_closes e =? 0)%nat = v_sent v →
  w_script (ce_out e) = [] → (v_closed v = true → rd_err (ce_in e) = io_EOF) →
  smooth lim (v_closed v) p (new_responder e) → lim ≤ v_win v + len (end_sent e) → lim < Z.of_nat fuel →
  run_end p (new_responder e) = (Ret x, σ) →
  ∃ a' pre, on_channel fuel l p a = (Ret x, a') ∧
    agrees l v (end_sent e) a a' (sv_ch σ) pre.
Proof.
  intros Hv Hq Hn Hw He Hs Hl Hf Hr.
  destruct (run_agrees l v (end_sent e) a lim fuel p a (new_responder e) [] x σ)
    as (a' & pre & Hrun & Ha); [by apply agrees_start|done..|].
  exists a', pre. split; [|done]. unfold on_channel.
  change no_header with (header_of (new_responder e)). by rewrite Hrun.
Qed.

(** What a session wrote since it was quiet is what the other one gets. *)
Lemma transmit_frames l a a' b ms :
  quiet a → quiet b → sends l a a' ms →
  s_dec (transmit a' b).2 = mkReader (frames ms) (rd_err (s_dec b)).
Proof. intros [Ha _] [_ Hb] Hs. cbn. by rewrite Hb, (sn_enc _ _ _ _ Hs); cbn; rewrite Ha. Qed.

Lemma transmit_quiet l a a' b ms : quiet a → sends l a a' ms → quiet (transmit a' b).1.
Proof. intros [_ Ha] Hs. split; [done|]. cbn. by rewrite (sn_dec _ _ _ _ Hs). Qed.

Lemma views_transmit a b l v : views a l v → views (transmit a b).1 l v.
Proof. intros [Hw Hv]. by split. Qed.

(** ** The whole call *)

(** The server over the request, on a channel end. *)
Lemma server_answers mux_fuel ms hn sel h a ans cb ab hb bs e :
  mux_resolve mux_fuel ms hn (cleanSelector sel) = Ret (HandlerFunc h) →
  handles (λ sel, run_end (h sel)) a ans → encodes (VCallHeader sel) cb → encodes a ab →
  encodes (VResponseHeader (respond_error ans) false) hb → Forall2 encodes (respond_values ans) bs →
  run_end (p_Server_respond mux_fuel ms hn)
    (new_responder (mkEnd (mkReader (mjoin (frame <$> [cb; ab])) e) (mkWriter [] []) 0))
  = (Ret tt, after_handler (mkSrv (sent_end (mkReader [] e) (hb :: bs) 1) true (respond_error ans) false)).
Proof.
  intros Hm Hf Hcb Hab Hhb Hbs. cbn [fmap list_fmap mjoin list_join].
  rewrite (run_Server_respond _ _ _ 0 ∅ (HandlerFunc (λ sel, run_end (h sel)))).
  - erewrite Server_respond_eq; [|exact Hcb|]; [|unfold RespondRPC; cbn [mux_resolve]; by apply Hf].
    done.
  - intros sel' s1 Hd. erewrite on_ch_eq in Hd by (apply end_Decode_eq; apply Hcb).
    rewrite (law_call _ _ (proj1 Hcb)) in Hd. assert (sel' = sel) as -> by congruence.
    by rewrite (run_RespondRPC _ _ _ _ _ _ Hm).
Qed.

(** Both sides after the request: the server's channel holds [q]. *)
Definition waiting_view (x y : Z) (q : list byte) : chan_view :=
  mkView x y channelMaxPacket [] (channelWindowSize - len q) channelWindowSize false false.

Definition asked_view (y x : Z) (q : list byte) : chan_view :=
  mkView y x channelMaxPacket q channelWindowSize (channelWindowSize - len q) false false.

Lemma request_linked sA sB la lb x y fuel sel a cb ab lim :
  linked sA sB la lb (fresh_view x y) (fresh_view y x) →
  encodes (VCallHeader sel) cb → encodes a ab →
  len (mjoin (frame <$> [cb; ab])) ≤ lim → lim ≤ channelWindowSize → lim < Z.of_nat fuel →
  ∃ sA1 sB1,
    on_channel fuel la (p_call_request sel (ArgValue a)) sA = (Ret None, sA1) ∧
    drain_all (transmit sA1 sB).2 = (Ret None, sB1) ∧
    linked (transmit sA1 sB).1 sB1 la lb (waiting_view x y (mjoin (frame <$> [cb; ab])))
      (asked_view y x (mjoin (frame <$> [cb; ab]))) ∧
    s_chans (transmit sA1 sB).1 = s_chans sA ∧ s_chans sB1 = s_chans sB ∧
    others la sA (transmit sA1 sB).1 ∧ others lb sB sB1.
Proof.
  intros [Hva Hvb Hga Hgb _ _ Hua Hub Hqa Hqb] Hcb Hab Hreq Hlim Hfuel. cbn [v_local v_remote fresh_view] in *.
  assert (Forall2 encodes (args_values (ArgValue a)) [ab]) as Hargs by (constructor; [exact Hab|constructor]).
  set (q := mjoin (frame <$> [cb; ab])) in *.
  set (σ := set_sv_ch (sent_end (mkReader [] io_Pending) [cb; ab] 0) (new_responder fresh_end)).
  assert (run_end (p_call_request sel (ArgValue a)) (new_responder fresh_end) = (Ret None, σ)) as Hrun
    by (rewrite run_call_request; apply on_ch_eq; by apply call_request_eq).
  destruct (run_on_channel lim fuel (p_call_request sel (ArgValue a)) sA la (fresh_view x y) fresh_end None σ)
    as (sA1 & pre & Hr1 & A1); [done..|by apply (smooth_call_request lim sel (ArgValue a) cb [ab])|change (len (end_sent fresh_end)) with 0; cbn [v_win fresh_view]; lia|done|exact Hrun|].
  destruct A1 as [Av As _ _ Ap Ast Ac _]. cbn [v_local v_remote v_packet v_queue fresh_view] in *.
  change (end_sent fresh_end) with (@nil byte) in *. cbn [app] in Ast.
  unfold hung_up in As. cbn [sv_ch σ set_sv_ch sent_end ce_closes Nat.eqb] in As. rewrite orb_true_r, app_nil_r in As.
  change (len (rd_data (ce_in (sv_ch σ)))) with 0 in Ac. change (end_sent (sv_ch σ)) with q in Ast.
  pose proof (total_credit_nonneg _ _ _ Ap) as Hc0. change (len (@nil byte)) with 0 in Ac.
  assert (len q ≤ channelWindowSize) as Hq by lia.
  destruct (drain_all_pieces pre (transmit sA1 sB).2 lb (fresh_view y x) channelMaxPacket (rd_err (s_dec sB)))
    as (sB1 & Hd & Bv & Be & Bc & Bd & Bo); [done|done|done|done|done|done| | |by eapply (transmit_frames _ sA)|].
  { cbn [v_local v_mine fresh_view]. by rewrite Ast. }
  { cbn [v_win fresh_view]. replace (total_credit pre) with 0 by lia. by vm_compute. }
  assert (v_arrived pre (fresh_view y x) = asked_view y x q) as Ev.
  { unfold v_arrived, v_got, v_spend, asked_view. cbn [v_local v_remote v_packet v_queue v_win v_mine v_sent
      v_closed fresh_view app]. rewrite Ast. f_equal. lia. }
  rewrite Ev in Bv.
  assert (end_view (fresh_view x y) [] (sv_ch σ) = waiting_view x y q) as Ew.
  { unfold end_view, waiting_view. cbn [v_local v_remote v_packet v_queue v_win v_mine v_closed fresh_view].
    change (end_sent (sv_ch σ)) with q. change (rd_data (ce_in (sv_ch σ))) with (@nil byte).
    change (len (@nil byte)) with 0. f_equal; lia. }
  rewrite Ew in Av.
  exists sA1, sB1. split; [exact Hr1|]. split; [exact Hd|]. split; [|split; [by apply As|split; [exact Bc|split; [by apply As|exact Bo]]]].
  split; cbn [v_local v_remote waiting_view asked_view]; try done.
  - cbn [transmit fst s_chans set_enc]. by rewrite (sn_chans _ _ _ _ As).
  - by rewrite Bc.
  - by eapply (transmit_quiet _ sA _ _ pre).
  - split; [rewrite Be; by apply Hqb|by rewrite Bd].
Qed.

(** Both sides after the response: the client's channel holds [q] and is closed, the
    server's has sent its close message. *)
Definition answered_view (x y : Z) (w : Z) (q : list byte) : chan_view :=
  mkView x y channelMaxPacket q w (channelWindowSize - len q) true true.

Lemma response_linked sA sB la lb x y fuel (p : prog V unit) lim req e σ bs :
  linked sA sB la lb (waiting_view x y req) (asked_view y x req) → len req ≤ channelWindowSize →
  run_end p (new_responder (mkEnd (mkReader req e) (mkWriter [] []) 0)) = (Ret tt, σ) →
  smooth lim false p (new_responder (mkEnd (mkReader req e) (mkWriter [] []) 0)) →
  w_out (ce_out (sv_ch σ)) = frame <$> bs → ce_closes (sv_ch σ) ≠ 0%nat →
  len (mjoin (frame <$> bs)) ≤ lim → lim ≤ channelWindowSize → lim < Z.of_nat fuel →
  ∃ sB1 sA1 w vb,
    on_channel fuel lb p sB = (Ret tt, sB1) ∧
    drain_all (transmit sB1 sA).2 = (Ret None, sA1) ∧
    views sA1 la (answered_view x y w (mjoin (frame <$> bs))) ∧
    s_enc sA1 = emit [CloseMessage y] (s_enc sA) ∧ rd_data (s_dec sA1) = [] ∧
    s_chans sA1 = chanList_remove x (s_chans sA) ∧
    quiet (transmit sB1 sA).1 ∧ s_chans (transmit sB1 sA).1 = s_chans sB ∧
    views (transmit sB1 sA).1 lb vb ∧ v_local vb = y ∧ v_sent vb = true ∧ v_closed vb = false ∧
    others la sA sA1 ∧ others lb sB (transmit sB1 sA).1.
Proof.
  intros [Hva Hvb Hga Hgb _ _ Hua Hub Hqa Hqb] Hreq Hrun Hsm Hout Hcl Hresp Hlim Hfuel.
  cbn [v_local v_remote waiting_view asked_view] in *.
  destruct (run_on_channel lim fuel p sB lb (asked_view y x req) (mkEnd (mkReader req e) (mkWriter [] []) 0) tt σ)
    as (sB1 & pre & Hr1 & B1); [done..| |done|done|].
  { change (end_sent (mkEnd (mkReader req e) (mkWriter [] []) 0)) with (@nil byte).
    change (len (@nil byte)) with 0. cbn [v_win asked_view]. lia. }
  destruct B1 as [Bv Bs _ _ Bp Bst Bc _]. cbn [v_local v_remote v_packet v_queue asked_view] in *.
  change (end_sent (mkEnd (mkReader req e) (mkWriter [] []) 0)) with (@nil byte) in *. cbn [app] in Bst.
  unfold hung_up in Bs. cbn [v_sent v_remote asked_view orb] in Bs.
  rewrite (proj2 (Nat.eqb_neq _ _) Hcl) in Bs. cbn [orb] in Bs.
  unfold end_sent in Bst. rewrite Hout in Bst. set (q := mjoin (frame <$> bs)) in *.
  pose proof (total_credit_nonneg _ _ _ Bp) as Hc0. pose proof (len_nonneg (rd_data (ce_in (sv_ch σ)))).
  destruct (drain_all_close pre (transmit sB1 sA).2 la (waiting_view x y req) channelMaxPacket (rd_err (s_dec sA)))
    as (sA1 & Hd & Av & Ae & Ac & Ad & Ao); [done|done|done|done|done|done| | |by eapply (transmit_frames _ sB)|].
  { cbn [v_local v_mine waiting_view]. rewrite Bst. lia. }
  { cbn [v_win waiting_view]. assert (channelWindowSize < 2 ^ 32) by by vm_compute. lia. }
  eexists sB1, sA1, _, _. split; [exact Hr1|]. split; [exact Hd|]. split.
  { assert (v_end (v_arrived pre (waiting_view x y req))
      = answered_view x y (channelWindowSize - len req - - total_credit pre) q) as <-; [|exact Av].
    unfold v_end, v_arrived, v_got, v_spend, answered_view. cbn [v_local v_remote v_packet v_queue v_win v_mine
      v_sent v_closed waiting_view app]. by rewrite Bst. }
  split; [exact Ae|]. split; [by rewrite Ad|]. split; [exact Ac|]. split; [by eapply (transmit_quiet _ sB _ _ _ Hqb Bs)|].
  split; [by apply Bs|]. split; [apply views_transmit; exact Bv|]. split; [done|].
  split; [|split; [done|split; [exact Ao|by apply Bs]]].
  cbn [v_sent end_view]. by rewrite (proj2 (Nat.eqb_neq _ _) Hcl).
Qed.

(** What the client is told when the handler answers [ans]: results that fit its
    reply variables, or an error. *)
Inductive answered (us : list T) : list (any V) → option (Response V) * option call_error → Prop :=
| answered_values rs : rs ≠ [] → Forall2 fits us rs →
    answered us (Val <$> rs) (Some (mkResponse None false (Val <$> rs)), None)
| answered_error err :
    answered us [VErr err]
      (Some (mkResponse (Some (Error_text err)) false []), Some (RemoteError (Error_text err))).

Lemma answered_response us ans r hb bs e w n :
  answered us ans r → encodes (VResponseHeader (respond_error ans) false) hb →
  Forall2 encodes (respond_values ans) bs →
  ∃ q, call_response (TVar <$> us) (mkEnd (mkReader (mjoin (frame <$> hb :: bs)) e) w n)
    = (Ret r, mkEnd (mkReader q e) w (S n)) ∧ (length q < length (mjoin (frame <$> hb :: bs)))%nat.
Proof.
  intros Hans Hhb Hbs. assert (0 < length (frame hb))%nat as Hpos
    by (unfold frame; rewrite length_app, length_PutUint32; lia).
  change (mjoin (frame <$> hb :: bs)) with (frame hb ++ mjoin (frame <$> bs)). rewrite length_app.
  destruct Hans as [rs Hrs Hus|err]; eexists; (split; [|rewrite <- Nat.add_0_l at 1; apply Nat.add_lt_le_mono; [exact Hpos|]]).
  - apply call_response_eq; [| |done|done]; by destruct rs as [|v [|]].
  - cbn. lia.
  - unfold call_response. destruct Hhb as [Hhb Hl].
    erewrite bind_ret; [|by apply end_Decode_eq]. rewrite (law_response _ _ _ Hhb).
    erewrite bind_ret by reflexivity. erewrite bind_ret by reflexivity. reflexivity.
  - done.
Qed.

Lemma smooth_decode_replies lim us rs bs got e w n h :
  Forall2 encodes (Val <$> rs) bs → Forall2 fits us rs →
  smooth lim false (p_decode_replies (TVar <$> us) got)
    (set_header h (new_responder (mkEnd (mkReader (mjoin (frame <$> bs)) e) w n))).
Proof.
  intros Hbs Hus. revert bs got Hbs. induction Hus as [|u r us rs Hu Hus IH]; intros bs got Hbs; [done|].
  apply Forall2_cons_inv_l in Hbs as (b & bs' & [Hb Hl] & Hbs & ->).
  apply (smooth_Decode _ _ _ _ _ _ _ _ _ _ Hl). rewrite (law_val _ _ _ Hu Hb). by apply IH.
Qed.

Lemma smooth_call_response lim us ans r hb bs e w n :
  answered us ans r → encodes (VResponseHeader (respond_error ans) false) hb →
  Forall2 encodes (respond_values ans) bs →
  smooth lim false (p_call_response (TVar <$> us))
    (new_responder (mkEnd (mkReader (mjoin (frame <$> hb :: bs)) e) w n)).
Proof.
  intros Hans [Hhb Hl] Hbs. apply (smooth_Decode _ _ _ _ _ _ _ _ _ no_header Hl).
  rewrite (law_response _ _ _ Hhb). destruct Hans as [rs Hrs Hus|err]; [|done].
  assert (respond_error (Val <$> rs : list (any V)) = None ∧ respond_values (Val <$> rs : list (any V)) = Val <$> rs) as [-> Hv]
    by (by destruct rs as [|v [|]]).
  rewrite Hv in Hbs.
  rewrite reply_nil_vars by (intros ->; by apply Forall2_nil_inv_l in Hus).
  apply smooth_bind; [|done]. apply smooth_bind; [by eapply smooth_decode_replies|].
  by intros [got err] s' _.
Qed.

Lemma finish_linked sA0 sA sB la lb x y w fuel us ans r hb bs vb :
  views sA la (answered_view x y w (mjoin (frame <$> hb :: bs))) → rd_data (s_dec sA) = [] →
  quiet sA0 → s_enc sA = emit [CloseMessage y] (s_enc sA0) → quiet sB →
  views sB lb vb → v_local vb = y → v_sent vb = true → v_closed vb = false →
  chanList_getChan y (s_chans sB) = Some lb → is_u32 y →
  encodes (VResponseHeader (respond_error ans) false) hb → Forall2 encodes (respond_values ans) bs →
  answered us ans r →
  ∃ sA1 sB1,
    on_channel fuel la (p_call_response (TVar <$> us)) sA = (Ret r, sA1) ∧
    drain_all (transmit sA1 sB).2 = (Ret None, sB1) ∧
    quiet (transmit sA1 sB).1 ∧ quiet sB1 ∧
    s_chans (transmit sA1 sB).1 = s_chans sA ∧ s_chans sB1 = chanList_remove y (s_chans sB) ∧
    others la sA (transmit sA1 sB).1 ∧ others lb sB sB1.
Proof.
  intros Hva HdA [HoA _] HeA [HoB HdB] Hvb <- Hsent Hcl Hgb Hub Hhb Hbs Hans.
  set (q := mjoin (frame <$> hb :: bs)) in *.
  set (e := mkEnd (mkReader q io_EOF) (mkWriter [] []) 1).
  destruct (answered_response us ans r hb bs io_EOF (mkWriter [] []) 1 Hans Hhb Hbs) as (q2 & He2 & _).
  set (σ := set_sv_ch (mkEnd (mkReader q2 io_EOF) (mkWriter [] []) 2) (new_responder e)).
  assert (run_end (p_call_response (TVar <$> us)) (new_responder e) = (Ret r, σ)) as Hrun
    by (rewrite run_call_response; by apply on_ch_eq).
  destruct (run_on_channel (Z.min w (-1)) fuel (p_call_response (TVar <$> us)) sA la
    (answered_view x (v_local vb) w q) e r σ Hva) as (sA1 & pre & Hr & A1);
    [done..|by apply reads_only_smooth, call_response_reads| |lia|exact Hrun|].
  { change (len (end_sent e)) with 0. cbn [v_win answered_view]. lia. }
  destruct A1 as [_ As _ _ _ _ _ Aq]. destruct (Aq eq_refl) as [-> _].
  change (hung_up _ _) with (@nil Message) in As. destruct As as [Ae Ac Ad _ Ao]. rewrite emit_nil in Ae.
  destruct (drain_all_close [] (transmit sA1 sB).2 lb vb channelMaxPacket (rd_err (s_dec sB)))
    as (sB1 & Hd & _ & Be & Bc & Bd & Bo); [done..| | | |].
  { change (len (stream_to (v_local vb) [])) with 0. destruct Hvb as (_ & c & _ & Hc).
    pose proof (vo_mine_ok _ _ Hc). lia. }
  { change (total_credit []) with 0. destruct Hvb as (_ & c & _ & Hc). destruct (vo_win _ _ Hc Hcl) as [_ <-].
    pose proof (vo_window _ _ Hc) as Hwf. unfold window_wf, is_u32 in Hwf. lia. }
  { cbn. by rewrite HdB, Ae, HeA; cbn; rewrite HoA. }
  rewrite Hsent in Be. exists sA1, sB1. split; [exact Hr|]. split; [exact Hd|].
  split; [split; [done|cbn; by rewrite Ad]|]. split; [split; [by rewrite Be; cbn; rewrite app_nil_r|by rewrite Bd]|].
  by split.
Qed.

(** The whole call on two linked channels. *)
Lemma call_linked sA sB la lb x y fuel mux_fuel ms hn sel h a ans r us cb ab hb bs lim :
  linked sA sB la lb (fresh_view x y) (fresh_view y x) →
  mux_resolve mux_fuel ms hn (cleanSelector sel) = Ret (HandlerFunc h) →
  handles (λ sel, run_end (h sel)) a ans → answered us ans r →
  smooth lim false (h (cleanSelector sel))
    (new_responder (mkEnd (mkReader (frame ab ++ []) io_EOF) (mkWriter [] []) 0)) →
  encodes (VCallHeader sel) cb → encodes a ab →
  encodes (VResponseHeader (respond_error ans) false) hb → Forall2 encodes (respond_values ans) bs →
  len (mjoin (frame <$> [cb; ab])) + len (mjoin (frame <$> hb :: bs)) ≤ lim →
  lim ≤ channelWindowSize → lim < Z.of_nat fuel →
  ∃ sA' sB',
    call_on fuel mux_fuel ms hn la lb sel (ArgValue a) (TVar <$> us) (sA, sB)
      = (Ret r, (sA', sB')) ∧
    quiet sA' ∧ quiet sB' ∧
    s_chans sA' = chanList_remove x (s_chans sA) ∧ s_chans sB' = chanList_remove y (s_chans sB) ∧
    others la sA sA' ∧ others lb sB sB'.
Proof.
  intros HL Hm Hf Hans Hsm Hcb Hab Hhb Hbs Hlen Hlim Hfuel.
  pose proof (len_nonneg (mjoin (frame <$> [cb; ab]))). pose proof (len_nonneg (mjoin (frame <$> hb :: bs))).
  destruct (request_linked sA sB la lb x y fuel sel a cb ab lim HL Hcb Hab)
    as (sA1 & sB1 & K1 & K2 & HL1 & Hca & Hcb' & Oa1 & Ob1); [lia..|].
  set (σ := after_handler (mkSrv (sent_end (mkReader [] io_EOF) (hb :: bs) 1) true (respond_error ans) false)).
  assert (run_end (p_Server_respond mux_fuel ms hn)
    (new_responder (mkEnd (mkReader (mjoin (frame <$> [cb; ab])) io_EOF) (mkWriter [] []) 0)) = (Ret tt, σ)) as Hsrv
    by by apply (server_answers mux_fuel ms hn sel h a _ cb ab hb bs).
  destruct (response_linked (transmit sA1 sB).1 sB1 la lb x y fuel (p_Server_respond mux_fuel ms hn) lim
    (mjoin (frame <$> [cb; ab])) io_EOF σ (hb :: bs))
    as (sB2 & sA2 & w & vb & K3 & K4 & Hva & Hea & Hda & Hta & Hqb & Htb & Hvb & Hlb & Hsb & Hclb & Oa2 & Ob2);
    [done|lia|done| |done|done|lia..|].
  { cbn [fmap list_fmap mjoin list_join]. eapply smooth_Server_respond; [done|done|exact Hsm|].
    intros s' Hs'. rewrite (Hf _ ab [] io_EOF 0%nat hb bs) in Hs' by done. by injection Hs' as <-. }
  destruct HL as [_ _ _ Hgb _ _ _ Hub _ _]. cbn [v_local fresh_view] in Hgb, Hub.
  destruct (finish_linked (transmit sA1 sB).1 sA2 (transmit sB2 (transmit sA1 sB).1).1 la lb x y w fuel us ans r hb bs vb)
    as (sA3 & sB3 & K5 & K6 & Qa & Qb & Ta & Tb & Oa3 & Ob3); try done.
  { by destruct HL1. }
  { by rewrite Htb, Hcb'. }
  exists (transmit sA3 (transmit sB2 (transmit sA1 sB).1).1).1, sB3. split.
  - unfold call_on. rewrite (bind_ret _ _ _ _ _ (on_fst_eq _ _ sB _ _ K1)).
    rewrite (bind_ret _ _ _ _ _ (deliver_to_b_eq _ _ _ K2)).
    rewrite (bind_ret _ _ _ _ _ (on_snd_eq _ (transmit sA1 sB).1 _ _ _ K3)).
    rewrite (bind_ret _ _ _ _ _ (deliver_to_a_eq _ _ _ K4)).
    rewrite (bind_ret _ _ _ _ _ (on_fst_eq _ _ (transmit sB2 (transmit sA1 sB).1).1 _ _ K5)).
    by rewrite (bind_ret _ _ _ _ _ (deliver_to_b_eq _ _ _ K6)).
  - split_and!; [done|done|by rewrite Ta, Hta, Hca|by rewrite Tb, Htb, Hcb'|..].
    + exact (others_trans _ _ _ _ Oa1 (others_trans _ _ _ _ Oa2 Oa3)).
    + exact (others_trans _ _ _ _ Ob1 (others_trans _ _ _ _ Ob2 Ob3)).
Qed.

(** The handler of a Go function runs smoothly. *)
Lemma smooth_unary lim t g sel v vb hb bs e :
  encodes (Val v) vb → fits t v →
  encodes (VResponseHeader (respond_error (g v)) false) hb → Forall2 encodes (respond_values (g v)) bs →
  len (mjoin (frame <$> hb :: bs)) ≤ lim →
  smooth lim false (p_unary t g sel)
    (new_responder (mkEnd (mkReader (frame vb ++ []) e) (mkWriter [] []) 0)).
Proof.
  intros [Hv Hl] Hfit Hh Hbs Hlen. apply (smooth_Decode _ _ _ _ _ _ _ _ _ no_header Hl).
  rewrite (law_val _ _ _ Hfit Hv). apply smooth_bind; [|done].
  by apply (smooth_respond lim (g v) hb bs).
Qed.
End sides.

(** ** Properties *)

(** A remote call of a function over two sessions. Take any two sessions with
    nothing on the way and room in their tables, and a server whose mux resolves the
    selector to the function. [Open] and [Accept], the request through the client's
    channel, the server's loop and buffer, the handler's answer the same way back and
    the close messages of both sides: every loop goes on, nothing waits, the client
    gets the function's results in its reply variables, or the text of the function's
    error, and afterwards nothing is on the way and the channel is gone from both
    tables. Every other channel of both sessions, its buffer, its windows and its
    state, is as it was. *)
Theorem call_over_sessions {V T} `{CodecLaws V T} sA sB fuel mux_fuel ms hn sel t g a r us cb ab hb bs :
  ready sA → ready sB → quiet sA → quiet sB →
  mux_resolve mux_fuel ms hn (cleanSelector sel) = Ret (HandlerFunc (p_unary t g)) →
  fits t a → answered us (g a) r →
  encodes (VCallHeader sel) cb → encodes (Val a) ab →
  encodes (VResponseHeader (respond_error (g a)) false) hb → Forall2 encodes (respond_values (g a)) bs →
  let size := len (mjoin (frame <$> [cb; ab])) + len (mjoin (frame <$> hb :: bs)) in
  size ≤ channelWindowSize → size < Z.of_nat fuel →
  ∃ sA' sB',
    remote_Call fuel mux_fuel ms hn sel (ArgValue (Val a)) (TVar <$> us) (sA, sB) = (Ret r, (sA', sB')) ∧
    quiet sA' ∧ quiet sB' ∧
    chanList_getChan (next_id sA) (s_chans sA') = None ∧
    chanList_getChan (next_id sB) (s_chans sB') = None ∧
    others (s_fresh sA) sA sA' ∧ others (s_fresh sB) sB sB'.
Proof.
  intros HA HB QA QB Hm Hfit Hans Hcb Hab Hhb Hbs size Hlim Hfuel.
  destruct (open_channels_eq sA sB HA HB QA QB) as (sA1 & sB1 & H2 & HL & Ta & Tb & Oa & Ob).
  destruct (call_linked sA1 sB1 _ _ _ _ fuel mux_fuel ms hn sel (p_unary t g) (Val a) (g a) r us cb ab hb bs size HL)
    as (sA' & sB' & H3 & Q3 & Q4 & T3 & T4 & Oa' & Ob'); try done.
  - intros s' ab' rest e n hb' bs' ? ? ?. rewrite run_unary. by apply unary_handles.
  - eapply (smooth_unary size t g _ a ab hb bs); try done.
    pose proof (len_nonneg (mjoin (frame <$> [cb; ab]))). unfold size. lia.
  - exists sA', sB'. split.
    + unfold remote_Call. by rewrite (bind_ret _ _ _ _ _ H2).
    + split_and!; [done|done|rewrite T3, Ta; apply removed_id|rewrite T4, Tb; apply removed_id|..];
        by eapply others_trans.
Qed.

(** C26. A session's channel is a channel end. A program of the RPC layer that runs
    smoothly over a channel end - it sends what can be encoded, no more than the
    window, nothing after its close, and reads frames that are there - does on a
    channel of a session that holds the same bytes what it does there, with the same
    result: the channel ends up like the channel end, and the messages it sent, in
    packets of at most the peer's size, carry exactly the bytes written, give back no
    more window than bytes were read, and end with a close message if and only if the
    program closed. *)
Theorem session_runs_refine {V T A} `{Codec V T} lim fuel l v (p : prog V A) s q err x σ :
  views s l v → v_queue v = q → v_sent v = false → (v_closed v = true → err = io_EOF) →
  smooth lim (v_closed v) p (new_responder (mkEnd (mkReader q err) (mkWriter [] []) 0)) →
  lim ≤ v_win v → lim < Z.of_nat fuel →
  run_end p (new_responder (mkEnd (mkReader q err) (mkWriter [] []) 0)) = (Ret x, σ) →
  let e := sv_ch σ in
  ∃ s' ms,
    on_channel fuel l p s = (Ret x, s') ∧ views s' l (end_view v [] e) ∧
    sends l s s' (ms ++ if (ce_closes e =? 0)%nat then [] else [CloseMessage (v_remote v)]) ∧
    Forall (piece (v_remote v) (v_packet v)) ms ∧ stream_to (v_remote v) ms = end_sent e ∧
    total_credit ms + len (rd_data (ce_in e)) ≤ len q.
Proof.
  intros Hv <- Hs He Hsm Hl Hf Hr e.
  destruct (run_on_channel lim fuel p s l v (mkEnd (mkReader (v_queue v) err) (mkWriter [] []) 0) x σ Hv)
    as (s' & ms & Hrun & [Av As _ _ Ap Ast Ac _]); try done.
  { change (len (end_sent _)) with 0. lia. }
  unfold hung_up in As. rewrite Hs in As. exists s', ms. done.
Qed.

(** A server with one function, which appends its argument to itself. *)
Definition twice_server : gmap nat (RespondMux (string → prog (list byte) unit)) :=
  (Handle 0 "twice"%string (Some (HandlerFunc (p_unary (T := unit) tt (λ v, [Val (v ++ v)]))))
     {[ 0%nat := NewRespondMux ]}).2.

(** [rpctest.NewPair]: the sessions of a client and of a server, over two pipes; an
    [io.Pipe] gives its reader the writer's bytes, as [transmit] does. *)
Definition NewPair : session * session :=
  (new_session (mkWriter [] []) (mkReader [] io_EOF), new_session (mkWriter [] []) (mkReader [] io_EOF)).

Example twice_called :
  (remote_Call (T := unit) 60 1 twice_server (SubMux 0) "twice" (ArgValue (Val [x2a])) [TVar tt]
     NewPair).1
  = Ret (Some (mkResponse None false [Val [x2a; x2a]]), None).
Proof. by vm_compute. Qed.

(** The same server without the function. *)
Example nothing_called :
  (remote_Call (V := list byte) (T := unit) 60 1 {[ 0%nat := NewRespondMux ]} (SubMux 0) "twice"
     (ArgValue (Val [x2a])) [TVar tt] NewPair).1
  = Ret (Some (mkResponse (Some "not found: /twice"%string) false []), Some (RemoteError "not found: /twice")).
Proof. by vm_compute. Qed.

Lemma session_runs_refine_witness :
  ∃ s' ms,
    on_channel (V := list byte) (T := unit) 60 0 (p_call_request "a" (ArgValue (Val [x07]))) stream_session
      = (Ret None, s') ∧
    sends 0 stream_session s' ms ∧ stream_to 0 ms = mjoin (frame <$> [[x02; x61]; [x05; x07]]).
Proof.
  destruct (session_runs_refine (V := list byte) (T := unit) 50 60 0 stream_view
    (p_call_request "a" (ArgValue (Val [x07]))) stream_session [] io_Pending None
    (new_responder (sent_end (mkReader [] io_Pending) [[x02; x61]; [x05; x07]] 0)))
    as (s' & ms & Hr & _ & Hs & _ & Hst & _).
  - split; [by constructor|]. exists stream_channel. split; [done|].
    split; try done; try by vm_compute. apply newBuffer_repr.
  - done.
  - done.
  - done.
  - apply (smooth_call_request 50 "a" (ArgValue (Val [x07])) [x02; x61] [[x05; x07]]);
      [done|by repeat constructor|by apply Z.leb_le].
  - by apply Z.leb_le.
  - by apply Z.ltb_lt.
  - reflexivity.
  - exists s', ms. split; [exact Hr|]. split; [|exact Hst].
    by rewrite app_nil_r in Hs.
Defined.

Lemma call_over_sessions_witness :
  ∃ sA' sB',
    remote_Call (T := unit) 60 1 twice_server (SubMux 0) "twice" (ArgValue (Val [x2a])) [TVar tt]
      NewPair
    = (Ret (Some (mkResponse None false [Val [x2a; x2a]]), None), (sA', sB')).
Proof.
  destruct (call_over_sessions (V := list byte) (T := unit) NewPair.1 NewPair.2 60 1 twice_server
    (SubMux 0) "twice" tt (λ v, [Val (v ++ v)]) [x2a]
    (Some (mkResponse None false [Val [x2a; x2a]]), None) [tt]
    (x02 :: String.list_byte_of_string "twice") [x05; x2a] [x03; x00] [[x05; x2a; x2a]])
    as (sA' & sB' & Hr & _).
  - split; [by vm_compute|by constructor].
  - split; [by vm_compute|by constructor].
  - done.
  - done.
  - reflexivity.
  - exact I.
  - apply (answered_values [tt] [[x2a; x2a]]); [discriminate|by repeat constructor].
  - done.
  - done.
  - done.
  - by repeat constructor.
  - by apply Z.leb_le.
  - by apply Z.ltb_lt.
  - exists sA', sB'. exact Hr.
Defined.
