(* ===== verification/ChannelWait.v ===== *)
(** * Reads that wait

    A channel that is open and has too little to read makes its reader wait; and a
    program of the RPC layer over a channel where only the beginning of its input
    has arrived either does what it does over the whole input or waits. *)
From S2P Require Import Prelude GoRuntime Frame Buffer Window ChanList.
From S2P Require Import MuxState Channel ChannelSpec FrameCodec Refine.
From S2P Require Import ChannelView ChannelStream RespondMux Rpc RpcSpec RpcProgram ChannelRpc ChannelCall.

(** ** Reading *)

Lemma view_Read_wait s l v n :
  views s l v → v_queue v = [] → v_closed v = false → n ≠ 0%nat →
  ∃ s', channel_Read l n s = (Block, s').
Proof.
  intros (Hok & c & Hl & Hv) Hq Hcl Hn.
  destruct (pending_Read_eq l n c _ s Hl (vo_pending _ _ Hv)) as (b' & Hr & _).
  rewrite Hq, (vo_eof _ _ Hv), Hcl in Hr. unfold queue_read in Hr.
  rewrite (proj2 (Nat.eqb_neq n 0) Hn) in Hr.
  eexists. unfold channel_Read. exact (bind_block _ _ _ _ Hr).
Qed.

Lemma ReadFull_wait s l v n :
  views s l v → (length (v_queue v) < n)%nat → v_closed v = false →
  ∃ s', ReadFull (channel_Read l) n s = (Block, s').
Proof.
  intros Hv Hq Hcl. unfold ReadFull. cbn [ReadAtLeast_loop length].
  destruct (Nat.leb_spec n 0) as [|_]; [lia|]. rewrite Nat.sub_0_r.
  destruct (decide (v_queue v = [])) as [He|Hne].
  { destruct (view_Read_wait s l v n Hv He Hcl) as [s1 Hr]; [lia|]. exists s1.
    apply bind_block. exact (bind_block _ _ _ _ Hr). }
  destruct (view_Read s l v n) as (s1 & Hr & Hv1 & _); [done..|lia|]. rewrite take_ge in Hr by lia.
  destruct (view_Read_wait s1 l _ (n - length (v_queue v)) Hv1) as [s2 Hr2];
    [cbn; by rewrite drop_ge by lia|done|lia|].
  exists s2. apply bind_block. rewrite (bind_eq _ _ _ _ _ Hr). cbv iota beta. cbn [app].
  destruct n as [|n]; [lia|]. cbn [ReadAtLeast_loop].
  destruct (Nat.leb_spec (S n) (length (v_queue v))) as [|_]; [lia|].
  exact (bind_block _ _ _ _ Hr2).
Qed.

(** The decoder waits for the rest of a frame. *)
Lemma view_Decode_wait {A} (dec : list byte → result A) s l v b tail :
  views s l v → v_closed v = false → v_queue v ++ tail = frame b → tail ≠ [] → len b < 2 ^ 32 →
  ∃ s', channel_Decode dec l s = (Block, s').
Proof.
  intros Hv Hcl Hq Ht Hb. unfold channel_Decode. pose proof (len_nonneg b).
  assert (length (v_queue v) < 4 + length b)%nat as Hlt.
  { apply (f_equal length) in Hq. unfold frame in Hq. rewrite !length_app, length_PutUint32 in Hq.
    destruct tail; [done|cbn in Hq; lia]. }
  destruct (decide (length (v_queue v) < 4)%nat) as [Hs|Hs].
  { destruct (ReadFull_wait s l v 4 Hv Hs Hcl) as [s1 Hr]. exists s1.
    exact (bind_block _ _ _ _ Hr). }
  destruct (view_ReadFull s l v 4 io_EOF Hv) as (s1 & ms & r & k & H1 & H2 & Hv1 & _);
    [left; lia|by rewrite Hcl|].
  assert (take 4 (v_queue v) = PutUint32 (len b)) as Hp.
  { apply (f_equal (take 4)) in Hq. rewrite take_app_le in Hq by lia. rewrite Hq. unfold frame.
    rewrite u32_small by (unfold is_u32; lia). by rewrite (take_app_length' _ _ 4). }
  unfold io_ReadFull in H1. cbn [rd_data rd_err] in H1.
  destruct (Z.leb_spec (Z.of_nat 4) (len (v_queue v))); [|unfold len in *; lia].
  rewrite Nat2Z.id, Hp in H1. injection H1 as <- Hd.
  rewrite (bind_eq _ _ _ _ _ H2). rewrite <- (app_nil_r (PutUint32 _)), Uint32_PutUint32 by (unfold is_u32; lia).
  destruct (ReadFull_wait s1 l _ (Z.to_nat (len b)) Hv1) as [s2 Hr]; [|done|].
  { cbn [v_queue v_take]. rewrite <- Hd, length_drop. unfold len. lia. }
  exists s2. exact (bind_block _ _ _ _ Hr).
Qed.

(** ** Programs over the beginning of their input *)

Section prefix.
Context {V T : Type} `{Codec V T}.

(** [e] has the rest of the input of [e1] too. *)
Definition extends (e1 : chan_end) (rest : list byte) (e : chan_end) : Prop :=
  rd_data (ce_in e) = rd_data (ce_in e1) ++ rest ∧ ce_out e = ce_out e1 ∧ ce_closes e = ce_closes e1.

Lemma extends_sent e1 rest e : extends e1 rest e → end_sent e1 = end_sent e.
Proof. intros (_ & Ho & _). unfold end_sent. by rewrite Ho. Qed.

Lemma frame_split q rest b tl :
  q ++ rest = frame b ++ tl →
  (∃ q', q = frame b ++ q' ∧ tl = q' ++ rest) ∨ ∃ t, t ≠ [] ∧ q ++ t = frame b ∧ rest = t ++ tl.
Proof.
  intros Hq. apply app_eq_inv in Hq as [(t & H1 & H2)|(t & H1 & H2)].
  - left. by exists t.
  - destruct t as [|x t]; [left|right].
    + exists []. rewrite app_nil_r in H1. subst q. by rewrite app_nil_r.
    + by exists (x :: t).
Qed.

(** A longer input makes no difference to what is sent, *)
Lemma extends_Encode v e1 e2 rest (σ : srv) :
  extends e1 rest (sv_ch σ) → end_Encode v e1 = (Ret None, e2) →
  ∃ e3, responder_Send v σ = (Ret None, set_sv_ch e3 σ) ∧ extends e2 rest e3.
Proof.
  intros (Hi & Ho & Hc) H1. exists (mkEnd (ce_in (sv_ch σ)) (ce_out e2) (ce_closes (sv_ch σ))).
  unfold responder_Send, extends. unfold end_Encode in *. rewrite <- Ho in H1.
  split.
  - apply on_ch_eq. destruct (frameEncoder_Encode v (ce_out (sv_ch σ))) as [r w]. by injection H1 as -> <-.
  - destruct (frameEncoder_Encode v (ce_out (sv_ch σ))) as [r w]. by injection H1 as _ <-.
Qed.

(** nor to a value that has arrived, *)
Lemma extends_Decode {B} (dec : list byte → result B) e1 e2 rest (σ : srv) b q r :
  extends e1 rest (sv_ch σ) → len b < 2 ^ 32 → rd_data (ce_in e1) = frame b ++ q →
  end_Decode dec e1 = (Ret r, e2) →
  ∃ e3, on_ch (end_Decode dec) σ = (Ret r, set_sv_ch e3 σ) ∧ extends e2 rest e3.
Proof.
  intros (Hi & Ho & Hc) Hb Hq H1. rewrite Hq, <- app_assoc in Hi.
  exists (mkEnd (mkReader (q ++ rest) (rd_err (ce_in (sv_ch σ)))) (ce_out (sv_ch σ)) (ce_closes (sv_ch σ))).
  unfold end_Decode in H1. destruct (ce_in e1) as [d err]. cbn [rd_data] in Hq. subst d.
  rewrite frame_waits_frame, frameDecoder_Decode_frame in H1 by done. injection H1 as <- <-. split; [|done].
  apply on_ch_eq. unfold end_Decode. destruct (ce_in (sv_ch σ)) as [d err']. cbn [rd_data] in Hi. subst d.
  by rewrite frame_waits_frame, frameDecoder_Decode_frame.
Qed.

(** nor to closing. *)
Lemma extends_Close e1 e2 rest (σ : srv) r :
  extends e1 rest (sv_ch σ) → chan_Close e1 = (Ret r, e2) →
  ∃ e3, on_ch chan_Close σ = (Ret r, set_sv_ch e3 σ) ∧ extends e2 rest e3.
Proof.
  intros (Hi & Ho & Hc) H1. exists (mkEnd (ce_in (sv_ch σ)) (ce_out (sv_ch σ)) (S (ce_closes (sv_ch σ)))).
  unfold chan_Close in H1. injection H1 as <- <-. split; [|split; [done|]; cbn; by rewrite Hc].
  apply on_ch_eq. unfold chan_Close. by rewrite Hc.
Qed.

Lemma run_prefix {A} lim fuel l v0 out0 s0 (p : prog V A) s σ e1 rest pre a σ' :
  agrees l v0 out0 s0 s e1 pre → v_closed v0 = false → extends e1 rest (sv_ch σ) →
  smooth lim false p σ → lim ≤ v_win v0 + len out0 → lim < Z.of_nat fuel →
  run_end p σ = (Ret a, σ') →
  (∃ s' pre' e1', run_session fuel l p (s, header_of σ) = (Ret a, (s', header_of σ')) ∧
     agrees l v0 out0 s0 s' e1' pre' ∧ extends e1' rest (sv_ch σ')) ∨
  ((∃ s', run_session fuel l p (s, header_of σ) = (Block, s')) ∧ rest ≠ []).
Proof.
  intros Ha Hcl Hext Hsm Hlim Hf. revert s σ e1 pre Ha Hext Hsm.
  induction p as [o|v p IH|? dec p IH|p IH|p IH|f p IH]; intros s σ e1 pre Ha Hext Hsm Hrun;
    cbn [smooth run_end run_session] in *.
  - injection Hrun as -> ->. left. by exists s, pre, e1.
  - destruct Hsm as ((b & Hb & Hl) & _ & Hn & Hsm). rewrite <- (extends_sent _ _ _ Hext) in Hl.
    assert (ce_closes e1 = 0%nat) as Hn1 by (destruct Hext as (_ & _ & Hc); congruence).
    assert (length (frame b) < fuel)%nat
      by (pose proof (len_nonneg (end_sent e1)); unfold len in *; lia).
    destruct (agrees_Encode l v0 out0 s0 s _ pre v b fuel Ha Hb) as (s1 & e2 & pre1 & H1 & H2 & Ha1);
      [lia|done..|].
    destruct (extends_Encode v e1 e2 rest σ Hext H1) as (e3 & Hs & Hext').
    rewrite (bind_ret _ _ _ _ _ Hs) in Hrun. erewrite bind_ret by by apply on_fst_eq.
    by apply (IH None s1 (set_sv_ch e3 σ) e2 pre1 Ha1); [|apply Hsm|].
  - destruct Hsm as ([(b & tl & Hd & Hb)|?] & Hsm); [|done].
    pose proof Hext as (Hi & _). rewrite Hi in Hd.
    apply frame_split in Hd as [(q' & Hq & ->)|(t & Ht & Hq & ->)].
    + destruct (agrees_Decode l v0 out0 s0 dec s _ pre Ha) as (s1 & r & e2 & pre1 & H1 & H2 & Ha1);
        [left; by exists b, q'|].
      destruct (extends_Decode dec e1 e2 rest σ b q' r Hext Hb Hq H1) as (e3 & Hs & Hext').
      rewrite (bind_ret _ _ _ _ _ Hs) in Hrun. erewrite bind_ret by by apply on_fst_eq.
      by apply (IH r s1 (set_sv_ch e3 σ) e2 pre1 Ha1); [|apply Hsm|].
    + right. split; [|by destruct t].
      destruct (view_Decode_wait dec s l _ b t (ag_view _ _ _ _ _ _ _ Ha)) as [s1 Hr]; [done..|].
      exists (s1, header_of σ). apply bind_block. unfold on_fst. cbn [fst snd]. by rewrite Hr.
  - destruct (agrees_Close l v0 out0 s0 s _ pre Ha) as (s1 & r & e2 & H1 & H2 & Ha1).
    destruct (extends_Close e1 e2 rest σ r Hext H1) as (e3 & Hs & Hext').
    rewrite (bind_ret _ _ _ _ _ Hs) in Hrun. erewrite bind_ret by by apply on_fst_eq.
    by apply (IH r s1 (set_sv_ch e3 σ) e2 pre Ha1); [|apply Hsm|].
  - by apply (IH (header_of σ) s σ e1 pre).
  - destruct (IH s (set_header (f (header_of σ)) σ) e1 pre Ha Hext Hsm Hrun)
      as [(s2 & pre2 & e2 & Hr & Ha2)|[(s2 & Hr) Hne]]; rewrite header_set in Hr.
    + left. by exists s2, pre2, e2.
    + right. split; [by exists s2|done].
Qed.

(** The same on a channel that has sent and read nothing: the program answers as it
    does over the whole input [v_queue v ++ rest], or waits for some of the rest. *)
Lemma on_channel_prefix {A} lim fuel l v (p : prog V A) s rest e x σ :
  views s l v → v_sent v = false → v_closed v = false →
  smooth lim false p (new_responder (mkEnd (mkReader (v_queue v ++ rest) e) (mkWriter [] []) 0)) →
  lim ≤ v_win v → lim < Z.of_nat fuel →
  run_end p (new_responder (mkEnd (mkReader (v_queue v ++ rest) e) (mkWriter [] []) 0)) = (Ret x, σ) →
  (∃ s' pre e1, on_channel fuel l p s = (Ret x, s') ∧ views s' l (end_view v [] e1) ∧
     sends l s s' (pre ++ if (ce_closes (sv_ch σ) =? 0)%nat then [] else [CloseMessage (v_remote v)]) ∧
     Forall (piece (v_remote v) (v_packet v)) pre ∧ stream_to (v_remote v) pre = end_sent (sv_ch σ) ∧
     total_credit pre + len (rd_data (ce_in e1)) ≤ len (v_queue v) ∧ extends e1 rest (sv_ch σ)) ∨
  ((∃ s', on_channel fuel l p s = (Block, s')) ∧ rest ≠ []).
Proof.
  intros Hv Hs Hc Hsm Hl Hf Hr. set (e1 := mkEnd (mkReader (v_queue v) e) (mkWriter [] []) 0).
  set (σ0 := new_responder _) in *.
  destruct (run_prefix lim fuel l v [] s p s σ0 e1 rest [] x σ)
    as [(s' & pre & e2 & Hrun & [Av As _ _ Ap Ast Ac _] & Hext)|[[[s' h] Hrun] Hne]]; try done.
  - apply (agrees_start s l v e1); try done. congruence.
  - change (len (@nil byte)) with 0. lia.
  - left. exists s', pre, e2. pose proof Hext as (_ & Ho & Hn).
    split; [unfold on_channel; change no_header with (header_of σ0); by rewrite Hrun|].
    split; [done|]. split; [|split; [done|split; [|by split]]].
    + unfold hung_up in As. rewrite Hs in As. cbn [orb] in As. by rewrite Hn.
    + cbn [app] in Ast. by rewrite Ast, (extends_sent _ _ _ Hext).
  - right. split; [|done]. exists s'. unfold on_channel.
    change no_header with (header_of σ0).
    by rewrite Hrun.
Qed.
End prefix.
