(* ===== verification/ChannelPair.v ===== *)
(** * Two channels that are each other's peer

    What is on the way from a channel to its peer when both are used as the RPC
    layer uses them: data, window given back, and a close message at the end. The
    loop takes every such message in. *)
From S2P Require Import Prelude GoRuntime Frame Buffer Window ChanList.
From S2P Require Import MuxState Channel ChannelSpec Session SessionSpec.
From S2P Require Import Handshake Refine ChannelView ChannelStream.

(** ** What is on the way *)

(** The messages [f] are on the way from the channel [vs] to the channel [vr]. *)
Record flow (vs : chan_view) (f : list Message) (vr : chan_view) : Prop := {
  fl_over : v_closed vr = true → f = [] ∧ v_sent vs = true;
  fl_pieces : v_closed vr = false → ∃ ps,
    f = ps ++ (if v_sent vs then [CloseMessage (v_local vr)] else []) ∧
    Forall (piece (v_local vr) channelMaxPacket) ps;
  fl_room : v_closed vr = false → len (stream_to (v_local vr) f) ≤ v_mine vr;
  fl_win : v_closed vr = false → v_win vr + total_credit f < 2 ^ 32;
}.

(** The two channels, and what is on the way between them. *)
Record joined (va vb : chan_view) (fab fba : list Message) : Prop := {
  jn_ab : v_remote va = v_local vb;
  jn_ba : v_remote vb = v_local va;
  jn_pa : v_packet va = channelMaxPacket;
  jn_pb : v_packet vb = channelMaxPacket;
  jn_flow_ab : flow va fab vb;
  jn_flow_ba : flow vb fba va;
}.

Lemma joined_sym va vb fab fba : joined va vb fab fba → joined vb va fba fab.
Proof. by intros []. Qed.

(** ** Taking a message in *)

(** The channel takes a message in and answers with [out]. *)
Inductive v_gets (v : chan_view) : Message → chan_view → list Message → Prop :=
| gets_piece m : piece (v_local v) channelMaxPacket m → v_gets v m (v_arrived [m] v) []
| gets_close :
    v_gets v (CloseMessage (v_local v)) (v_end v) (if v_sent v then [] else [CloseMessage (v_remote v)]).

Lemma flow_open vs m f v : flow vs (m :: f) v → v_closed v = false.
Proof. intros Hf. destruct (v_closed v) eqn:E; [|done]. by destruct (fl_over _ _ _ Hf E). Qed.

Lemma stream_cons k m f : stream_to k (m :: f) = data_of k m ++ stream_to k f.
Proof. done. Qed.

Lemma credit_cons m f : total_credit (m :: f) = msg_credit m + total_credit f.
Proof. done. Qed.

Lemma flow_gets vs m f v :
  flow vs (m :: f) v → ∃ v' out, v_gets v m v' out ∧ flow vs f v'.
Proof.
  intros Hf. pose proof (flow_open _ _ _ _ Hf) as Ho. destruct Hf as [_ Hp Hr Hw].
  destruct (Hp Ho) as (ps & Hps & Hall). specialize (Hr Ho). specialize (Hw Ho).
  rewrite stream_cons, len_app in Hr. rewrite credit_cons in Hw.
  destruct ps as [|m' ps].
  - destruct (v_sent vs) eqn:Es; [|done]. injection Hps as -> ->.
    exists (v_end v). eexists. split; [apply gets_close|]. by split.
  - injection Hps as <- ->. apply Forall_cons in Hall as [Hm Hall].
    exists (v_arrived [m] v), []. split; [by apply gets_piece|].
    split; cbn [v_arrived v_got v_spend v_closed v_local v_mine v_win]; intros Hc; [congruence|by exists ps| |].
    + unfold stream_to at 2. cbn [fmap list_fmap mjoin list_join]. rewrite app_nil_r. lia.
    + unfold total_credit at 1. cbn [fmap list_fmap foldr]. lia.
Qed.

(** There is room for the next message. *)
Lemma flow_room vs m f v :
  flow vs (m :: f) v →
  len (stream_to (v_local v) [m]) ≤ v_mine v ∧ v_win v + total_credit [m] < 2 ^ 32.
Proof.
  intros Hf. pose proof (flow_open _ _ _ _ Hf) as Ho. pose proof (fl_room _ _ _ Hf Ho) as Hr.
  pose proof (fl_win _ _ _ Hf Ho) as Hw.
  change (m :: f) with ([m] ++ f) in Hr, Hw. rewrite stream_to_app, len_app in Hr.
  rewrite total_credit_app in Hw. pose proof (len_nonneg (stream_to (v_local v) f)).
  assert (0 ≤ total_credit f); [|lia].
  destruct (fl_pieces _ _ _ Hf Ho) as ([|m' ps] & Hps & Hall).
  - destruct (v_sent vs); [|done]. by injection Hps as _ ->.
  - injection Hps as _ ->. apply Forall_cons in Hall as [_ Hall]. rewrite total_credit_app.
    pose proof (total_credit_nonneg _ _ _ Hall). destruct (v_sent vs); cbn; lia.
Qed.

(** The answer goes the other way. *)
Lemma flow_answer v m v' out f vr :
  v_gets v m v' out → flow v f vr → v_remote v = v_local vr → flow v' (f ++ out) vr.
Proof.
  intros [m' Hm|] [Ho Hp Hr Hw] Hl; [by rewrite app_nil_r; split|].
  destruct (v_sent v) eqn:Es.
  { rewrite app_nil_r. by split. }
  split; cbn [v_sent v_end]; intros Hc.
  - by destruct (Ho Hc).
  - destruct (Hp Hc) as (ps & -> & Hall). exists ps. by rewrite app_nil_r, Hl.
  - rewrite stream_to_app, app_nil_r. by apply Hr.
  - rewrite total_credit_app. change (total_credit [_]) with 0. rewrite Z.add_0_r. by apply Hw.
Qed.

Lemma gets_same v m v' out :
  v_gets v m v' out → v_local v' = v_local v ∧ v_remote v' = v_remote v ∧ v_packet v' = v_packet v.
Proof. by intros []. Qed.

Lemma joined_gets va vb m fab fba :
  joined va vb (m :: fab) fba → ∃ vb' out, v_gets vb m vb' out ∧ joined va vb' fab (fba ++ out).
Proof.
  intros [Hab Hba Hpa Hpb H1 H2]. destruct (flow_gets _ _ _ _ H1) as (vb' & out & Hg & Hf).
  exists vb', out. split; [done|].
  destruct (gets_same _ _ _ _ Hg) as (El & Er & Ep).
  split; try congruence. by eapply flow_answer.
Qed.

(** The answer, if there is one, is a close message to a peer that is open. *)
Lemma joined_answer va vb m fab fba vb' out :
  joined va vb (m :: fab) fba → v_gets vb m vb' out →
  out = [] ∨ (out = [CloseMessage (v_local va)] ∧ v_closed va = false).
Proof.
  intros [_ Hba _ _ _ Hf] [m' Hm|]; [by left|]. destruct (v_sent vb) eqn:Es; [by left|].
  right. rewrite Hba. split; [done|]. destruct (v_closed va) eqn:Ec; [|done].
  destruct (fl_over _ _ _ Hf Ec) as [_ ?]. congruence.
Qed.

Lemma gets_closed v m v' out :
  v_closed v = false → v_gets v m v' out → v_closed v' = false → out = [].
Proof. by intros Hc [] Hc'. Qed.

(** ** The loop *)

Lemma session_gets s l v m rest e v' out :
  views s l v → v_closed v = false → chanList_getChan (v_local v) (s_chans s) = Some l →
  is_u32 (v_local v) → v_gets v m v' out → len (stream_to (v_local v) [m]) ≤ v_mine v →
  v_win v + total_credit [m] < 2 ^ 32 → s_dec s = mkReader (Message_Bytes m ++ rest) e →
  ∃ s', session_onePacket true s = (Ret None, s') ∧ views s' l v' ∧
    s_enc s' = emit out (s_enc s) ∧ s_dec s' = mkReader rest e ∧
    s_chans s' = (if v_closed v' then chanList_remove (v_local v) (s_chans s) else s_chans s) ∧
    s_fresh s' = s_fresh s ∧ others l s s'.
Proof.
  intros Hv Hc Hl Hu Hg Hr Hw Hd. destruct Hg as [m Hm|].
  - destruct (dispatch_piece s l v channelMaxPacket m rest e Hv Hc Hl Hm) as (s' & Hs & Hv' & [He Hch Hdec Hf Ho]);
      [done..|].
    exists s'. rewrite (onePacket_next m rest e) by (done || by eapply piece_wf). cbv zeta.
    split; [by destruct Hm|]. split; [done|].
    split; [exact He|]. split; [by rewrite Hdec|]. split; [cbn [v_closed v_arrived v_got v_spend]; by rewrite Hc|].
    by split.
  - destruct (view_close (set_dec (mkReader rest e) s) l v (v_local v)) as (s' & Hs & Hv' & He & Hch & Hdec & Hf & Ho);
      [done..|].
    exists s'. rewrite (onePacket_next (CloseMessage (v_local v)) rest e) by done. cbv zeta.
    rewrite dispatch_eq. cbn [Message_Channel fst s_chans set_dec]. rewrite Hl.
    split; [exact Hs|]. split; [done|]. split; [exact He|]. split; [by rewrite Hdec|].
    split; [exact Hch|]. by split.
Qed.
