(* ===== verification/CallsInFlight.v ===== *)
(** * Many calls at once over one session

    Any number of goroutines run [Client.Call] on one session, and [Server.Respond]
    on the session at the other end starts a goroutine for every channel it accepts.
    A step is one goroutine going on - opening its channel, sending its request,
    answering, reading its response - or one of the two loops handling one packet, in
    any order. A goroutine that has to wait takes no step; it reads when all it is
    going to read has arrived. *)
From stdpp Require Import relations.
From S2P Require Import Prelude GoRuntime Frame Buffer Window ChanList.
From S2P Require Import MuxState Channel ChannelSpec Session SessionSpec.
From S2P Require Import Handshake Refine FrameCodec ChannelView ChannelStream.
From S2P Require Import RespondMux RespondMuxSpec Rpc RpcSpec RpcProgram ChannelRpc ChannelCall.

Section crowd.
Context {V T : Type} `{Codec V T}.

(** The arguments of [Client.Call]. *)
Record pending_call := mkCall {
  cl_selector : string;
  cl_args : call_args V;
  cl_replies : list (target T);
}.

(** Where a goroutine in [Client.Call] is: before [Open], waiting in it, waiting
    for the response, returned. *)
Inductive client :=
| Ready (q : pending_call)
| Opening (q : pending_call) (l : chan_ptr)
| Waiting (q : pending_call) (l : chan_ptr)
| Returned (r : option (Response V) * option call_error).

(** The two sessions, the goroutines in [Client.Call], and those of
    [Server.respond], each with its channel and whether it is through. *)
Record crowd := mkCrowd {
  cr_a : session;
  cr_b : session;
  cr_clients : list client;
  cr_servers : list (chan_ptr * bool);
}.

Definition set_client (k : nat) (x : client) (c : crowd) : crowd :=
  mkCrowd (cr_a c) (cr_b c) (<[k := x]> (cr_clients c)) (cr_servers c).

Definition set_server (j : nat) (x : chan_ptr * bool) (c : crowd) : crowd :=
  mkCrowd (cr_a c) (cr_b c) (cr_clients c) (<[j := x]> (cr_servers c)).

(** The accept loop of [Server.Respond] starts a goroutine for every channel the
    session made since its next one was [n]. *)
Definition accept_new (n : nat) (c : crowd) : crowd :=
  mkCrowd (cr_a c) (cr_b c) (cr_clients c)
    (cr_servers c ++ ((λ l, (l, false)) <$> seq n (s_fresh (cr_b c) - n))).

(** A goroutine of either side goes on, unless it waits; what it wrote is on the
    way to the other side. *)
Definition at_client {A} (m : MS A) (k : A → crowd → crowd) (c : crowd) : option crowd :=
  match m (cr_a c) with
  | (Ret x, a) =>
      let '(a, b) := transmit a (cr_b c) in
      Some (k x (mkCrowd a b (cr_clients c) (cr_servers c)))
  | _ => None
  end.

Definition at_server {A} (m : MS A) (k : A → crowd → crowd) (c : crowd) : option crowd :=
  match m (cr_b c) with
  | (Ret x, b) =>
      let '(b, a) := transmit b (cr_a c) in
      Some (k x (mkCrowd a b (cr_clients c) (cr_servers c)))
  | _ => None
  end.

(** The loop waits for a packet; one that failed carries nothing any more. *)
Definition one_packet : MS unit := λ s,
  match rd_data (s_dec s) with
  | [] => (Block, s)
  | _ => going_on (session_onePacket true) s
  end.

Inductive event :=
| EOpen (k : nat)
| EAsk (k : nat)
| ERead (k : nat)
| EServe (j : nat)
| EClientLoop
| EServerLoop.

Section exec.
Context (fuel mux_fuel : nat) (ms : gmap nat (RespondMux (string → prog V unit)))
  (hn : Handler (string → prog V unit)).

(** From the confirmation in [Open] to the request. *)
Definition client_ask (q : pending_call) (l : chan_ptr) : MS (option error) :=
  r ← session_Open_wait l None;
  match r with
  | Err e => mret (Some e)
  | Ok l => on_channel fuel l (p_call_request (cl_selector q) (cl_args q))
  end.

Definition failed (e : error) : client := Returned (None, Some (LocalError e)).

(** What an event does, if it can happen. *)
Definition exec_event (e : event) (c : crowd) : option crowd :=
  match e with
  | EOpen k =>
      match cr_clients c !! k with
      | Some (Ready q) =>
          at_client session_Open_request (λ r, set_client k
            (match r with Ok l => Opening q l | Err e => failed e end)) c
      | _ => None
      end
  | EAsk k =>
      match cr_clients c !! k with
      | Some (Opening q l) =>
          at_client (client_ask q l) (λ r, set_client k
            (match r with None => Waiting q l | Some e => failed e end)) c
      | _ => None
      end
  | ERead k =>
      match cr_clients c !! k with
      | Some (Waiting q l) =>
          at_client (on_channel fuel l (p_call_response (cl_replies q)))
            (λ r, set_client k (Returned r)) c
      | _ => None
      end
  | EServe j =>
      match cr_servers c !! j with
      | Some (l, false) =>
          at_server (on_channel fuel l (p_Server_respond mux_fuel ms hn))
            (λ _, set_server j (l, true)) c
      | _ => None
      end
  | EClientLoop => at_client one_packet (λ _ c, c) c
  | EServerLoop => at_server one_packet (λ _, accept_new (s_fresh (cr_b c))) c
  end.

Definition crowd_step (c c' : crowd) : Prop := ∃ e, exec_event e c = Some c'.

(** A schedule; an event that cannot happen is passed over. *)
Definition exec_events (es : list event) (c : crowd) : crowd :=
  foldl (λ c e, default c (exec_event e c)) c es.

Lemma exec_events_steps es c : rtc crowd_step c (exec_events es c).
Proof.
  revert c. induction es as [|e es IH]; intros c; [done|]. cbn [exec_events foldl].
  destruct (exec_event e c) as [c'|] eqn:He; cbn [default]; [|apply IH].
  eapply rtc_l; [by exists e|apply IH].
Qed.
End exec.

(** Everybody is about to call. *)
Definition crowd_start (a b : session) (qs : list pending_call) : crowd := mkCrowd a b (Ready <$> qs) [].
End crowd.

(** Two calls that overtake each other: the second opens first, the first is
    answered first, and the second reads first. *)
Definition two_calls : list (pending_call (V := list byte) (T := unit)) :=
  [ mkCall "twice" (ArgValue (Val [x2a])) [TVar tt]; mkCall "twice" (ArgValue (Val [x07; x08])) [TVar tt] ].

Definition overtaking : list event :=
  [EOpen 1; EOpen 0; EServerLoop; EClientLoop; EAsk 1; EServerLoop; EClientLoop; EAsk 0] ++
  replicate 4 EServerLoop ++ [EServe 1; EServe 0] ++ replicate 20 EClientLoop ++
  [ERead 1; ERead 0] ++ replicate 20 EServerLoop ++ replicate 3 EClientLoop.

Example calls_overtake :
  cr_clients (exec_events 60 1 twice_server (SubMux 0) overtaking
    (crowd_start NewPair.1 NewPair.2 two_calls))
  = [ Returned (Some (mkResponse None false [Val [x2a; x2a]]), None);
      Returned (Some (mkResponse None false [Val [x07; x08; x07; x08]]), None) ].
Proof. by vm_compute. Qed.
