(* ===== verification/CallsInvariant.v ===== *)
(** * What holds while many calls are in flight

    Every call is in a phase, which says what its two channels look like and which
    messages for them are on the way; the channels of different calls are different,
    and so are their ids as long as they are in use. *)
From S2P Require Import Prelude GoRuntime Frame Buffer Window ChanList.
From S2P Require Import MuxState Channel ChannelSpec Session SessionSpec.
From S2P Require Import Handshake Protocol Refine FrameCodec ChannelView ChannelStream ChannelPair.
From S2P Require Import RespondMux RespondMuxSpec Rpc RpcSpec RpcProgram ChannelRpc ChannelCall.
From S2P Require Import CallsInFlight.

(** ** Phases *)

Inductive stage := Asked | Served | Ended.

(** A call before [Open]; with its open request on the way; with the confirmation
    on the way; confirmed; and from the request on. *)
Inductive phase :=
| PReady
| PRequested (la : chan_ptr) (x : Z)
| POffered (la : chan_ptr) (x : Z) (lb : chan_ptr) (y : Z)
| PConfirmed (la : chan_ptr) (x : Z) (lb : chan_ptr) (y : Z)
| PJoined (la lb : chan_ptr) (va vb : chan_view) (st : stage).

(** The client's and the server's channel of a call. *)
Definition ptr_a (ph : phase) : option chan_ptr :=
  match ph with
  | PReady => None
  | PRequested la _ | POffered la _ _ _ | PConfirmed la _ _ _ | PJoined la _ _ _ _ => Some la
  end.

Definition ptr_b (ph : phase) : option chan_ptr :=
  match ph with
  | PReady | PRequested _ _ => None
  | POffered _ _ lb _ | PConfirmed _ _ lb _ | PJoined _ lb _ _ _ => Some lb
  end.

(** The id of that channel, while it is in the table. *)
Definition hold_a (ph : phase) : option (Z * chan_ptr) :=
  match ph with
  | PReady => None
  | PRequested la x | POffered la x _ _ | PConfirmed la x _ _ => Some (x, la)
  | PJoined la _ va _ _ => if v_closed va then None else Some (v_local va, la)
  end.

Definition hold_b (ph : phase) : option (Z * chan_ptr) :=
  match ph with
  | PReady | PRequested _ _ => None
  | POffered _ _ lb y | PConfirmed _ _ lb y => Some (y, lb)
  | PJoined _ lb _ vb _ => if v_closed vb then None else Some (v_local vb, lb)
  end.

(** How many channels the call will still add to the table. *)
Definition need_a (ph : phase) : Z := match ph with PReady => 1 | _ => 0 end.

Definition need_b (ph : phase) : Z := match ph with PReady | PRequested _ _ => 1 | _ => 0 end.

Definition total_need (need : phase → Z) (phs : list phase) : Z := foldr (λ ph n, need ph + n) 0 phs.

Lemma total_need_insert need phs k ph ph' :
  phs !! k = Some ph →
  total_need need (<[k := ph']> phs) = total_need need phs - need ph + need ph'.
Proof.
  revert k. induction phs as [|p phs IH]; intros [|k]; cbn; intros Hk; try done.
  - injection Hk as ->. lia.
  - unfold total_need in IH. rewrite IH by done. lia.
Qed.

Lemma hold_ptr_a ph x l : hold_a ph = Some (x, l) → ptr_a ph = Some l.
Proof. destruct ph; cbn; try case_match; naive_solver. Qed.

Lemma hold_ptr_b ph x l : hold_b ph = Some (x, l) → ptr_b ph = Some l.
Proof. destruct ph; cbn; try case_match; naive_solver. Qed.

Lemma held_id (h : option (Z * chan_ptr)) x : fst <$> h = Some x → ∃ l, h = Some (x, l).
Proof. destruct h as [[x' l]|]; [|done]. intros [= ->]. by exists l. Qed.

(** ** One session *)

Definition table (s : session) (j : Z) : option chan_ptr := chanList_getChan j (s_chans s).

(** The table once the entry [h] became [h']. *)
Definition tab_upd (h h' : option (Z * chan_ptr)) (t : Z → option chan_ptr) (j : Z) : option chan_ptr :=
  if decide (fst <$> h' = Some j) then snd <$> h'
  else if decide (fst <$> h = Some j) then None else t j.

Section side.
Context (hold : phase → option (Z * chan_ptr)) (ptr : phase → option chan_ptr) (need : phase → Z).
Context (hold_ptr : ∀ ph x l, hold ph = Some (x, l) → ptr ph = Some l).

(** The session [s], which was [s0] before the calls, is between two steps: its
    table has the channels of the calls in use besides those of [s0]. *)
Record side_inv (s0 s : session) (phs : list phase) : Prop := {
  si_out : w_out (s_enc s) = [];
  si_writer : writer_ok (s_enc s);
  si_room : len (s_chans s) + total_need need phs < 2 ^ 32 - 1;
  si_held : ∀ k ph x l, phs !! k = Some ph → hold ph = Some (x, l) →
    table s x = Some l ∧ table s0 x = None ∧ is_u32 x;
  si_rest : ∀ j, 0 ≤ j →
    table s j = table s0 j ∨ ∃ k ph l, phs !! k = Some ph ∧ hold ph = Some (j, l);
  si_ptr : ∀ k ph l, phs !! k = Some ph → ptr ph = Some l → (s_fresh s0 ≤ l < s_fresh s)%nat;
  si_uniq : ∀ k k' ph ph' l, phs !! k = Some ph → phs !! k' = Some ph' →
    ptr ph = Some l → ptr ph' = Some l → k = k';
  si_fresh : (s_fresh s0 ≤ s_fresh s)%nat;
  si_old : ∀ l, (l < s_fresh s0)%nat → s_heap s !! l = s_heap s0 !! l;
}.

Lemma held_uniq s0 s phs k k' ph ph' x l l' :
  side_inv s0 s phs → phs !! k = Some ph → phs !! k' = Some ph' →
  hold ph = Some (x, l) → hold ph' = Some (x, l') → k = k'.
Proof using hold_ptr.
  intros Hs Hk Hk' Hx Hx'. destruct (si_held _ _ _ Hs _ _ _ _ Hk Hx) as [Ht _].
  destruct (si_held _ _ _ Hs _ _ _ _ Hk' Hx') as [Ht' _].
  assert (l = l') as <- by congruence.
  eapply (si_uniq _ _ _ Hs); eauto.
Qed.

Lemma lookup_moved {A} (l : list A) k x k' y :
  <[k := x]> l !! k' = Some y → (k' = k ∧ y = x) ∨ (k' ≠ k ∧ l !! k' = Some y).
Proof. intros [(-> & -> & _)|[? ?]]%list_lookup_insert_Some; [by left|right; by split]. Qed.

(** One call moves on. *)
Section update.
Context (s0 s s' : session) (phs : list phase) (k : nat) (ph ph' : phase).
Hypothesis Hs : side_inv s0 s phs.
Hypothesis Hk : phs !! k = Some ph.
Hypothesis Hp : ∀ l, ptr ph' = Some l →
  (l < s_fresh s')%nat ∧ (ptr ph = Some l ∨ (s_fresh s ≤ l)%nat).
Hypothesis Ht : ∀ j, 0 ≤ j → table s' j = tab_upd (hold ph) (hold ph') (table s) j.
Hypothesis Hx : ∀ x l, hold ph' = Some (x, l) → hold ph = Some (x, l) ∨ (is_u32 x ∧ table s x = None).

(** What it holds then was not there at the beginning. *)
Lemma update_new x l : hold ph' = Some (x, l) → is_u32 x ∧ table s0 x = None.
Proof using Hs Hk Hx.
  intros Hxl. destruct (Hx x l Hxl) as [Hold|[Hu Hn]].
  - by destruct (si_held _ _ _ Hs _ _ _ _ Hk Hold) as (_ & ? & ?).
  - split; [done|]. destruct Hu as [Hu0 _].
    destruct (si_rest _ _ _ Hs x Hu0) as [<-|(k3 & ph3 & l3 & Hk3 & Hh3)]; [done|].
    destruct (si_held _ _ _ Hs _ _ _ _ Hk3 Hh3) as [? _]. congruence.
Qed.

Lemma update_held k2 ph2 x l :
  <[k := ph']> phs !! k2 = Some ph2 → hold ph2 = Some (x, l) →
  table s' x = Some l ∧ table s0 x = None ∧ is_u32 x.
Proof using hold_ptr Hs Hk Ht Hx.
  intros [[-> ->]|[Hne Hk2]]%lookup_moved Hxl.
  - destruct (update_new x l Hxl) as [Hu H0]. split; [|done]. destruct Hu as [Hu _].
    rewrite Ht by done. unfold tab_upd. rewrite Hxl. by rewrite decide_True.
  - destruct (si_held _ _ _ Hs _ _ _ _ Hk2 Hxl) as (Ht2 & H0 & Hu). split; [|done].
    rewrite Ht by (by destruct Hu). unfold tab_upd.
    assert (∀ l', hold ph ≠ Some (x, l')) as Hno.
    { intros l' Hl'. apply Hne. by eapply held_uniq. }
    rewrite decide_False, decide_False; [done| |].
    + intros [l' Hl']%held_id. by apply (Hno l').
    + intros [l' Hl']%held_id. destruct (Hx x l' Hl') as [Hl2|[_ Hn]]; [by apply (Hno l')|congruence].
Qed.

Lemma update_rest j :
  0 ≤ j → table s' j = table s0 j ∨
  ∃ k2 ph2 l, <[k := ph']> phs !! k2 = Some ph2 ∧ hold ph2 = Some (j, l).
Proof using Hs Hk Ht.
  intros Hj. rewrite Ht by done. unfold tab_upd. case_decide as H1; [|case_decide as H2].
  - right. apply held_id in H1 as [l Hl].
    exists k, ph', l. split; [|done]. apply list_lookup_insert_eq. by eapply lookup_lt_Some.
  - left. apply held_id in H2 as [l Hl].
    by destruct (si_held _ _ _ Hs _ _ _ _ Hk Hl) as (_ & -> & _).
  - destruct (si_rest _ _ _ Hs j Hj) as [->|(k3 & ph3 & l3 & Hk3 & Hh3)]; [by left|right].
    destruct (decide (k3 = k)) as [->|Hne].
    { assert (ph3 = ph) as -> by congruence. by rewrite Hh3 in H2. }
    exists k3, ph3, l3. by rewrite list_lookup_insert_ne.
Qed.

Lemma update_ptr k2 ph2 l :
  (s_fresh s ≤ s_fresh s')%nat → <[k := ph']> phs !! k2 = Some ph2 → ptr ph2 = Some l →
  (s_fresh s0 ≤ l < s_fresh s')%nat.
Proof using Hs Hk Hp.
  intros Hf. pose proof (si_fresh _ _ _ Hs). intros [[-> ->]|[Hne Hk2]]%lookup_moved Hl.
  - destruct (Hp l Hl) as [? [Hold|?]]; [|lia].
    pose proof (si_ptr _ _ _ Hs _ _ _ Hk Hold). lia.
  - pose proof (si_ptr _ _ _ Hs _ _ _ Hk2 Hl). lia.
Qed.

Lemma update_uniq k2 k3 ph2 ph3 l :
  <[k := ph']> phs !! k2 = Some ph2 → <[k := ph']> phs !! k3 = Some ph3 →
  ptr ph2 = Some l → ptr ph3 = Some l → k2 = k3.
Proof using Hs Hk Hp.
  assert (∀ k2 ph2 l, k2 ≠ k → phs !! k2 = Some ph2 → ptr ph' = Some l → ptr ph2 ≠ Some l) as Hdis.
  { intros k4 ph4 l' Hne Hk4 Hl Hl2. destruct (Hp l' Hl) as [_ [Hold|Hge]].
    - apply Hne. by eapply (si_uniq _ _ _ Hs).
    - pose proof (si_ptr _ _ _ Hs _ _ _ Hk4 Hl2). lia. }
  intros [[-> ->]|[Hne Hk2]]%lookup_moved [[-> ->]|[Hne' Hk3]]%lookup_moved Hl2 Hl3; [done|..].
  - by destruct (Hdis k3 ph3 l).
  - by destruct (Hdis k2 ph2 l).
  - by eapply (si_uniq _ _ _ Hs).
Qed.

Lemma side_update :
  w_out (s_enc s') = [] → writer_ok (s_enc s') → (s_fresh s ≤ s_fresh s')%nat →
  (∀ l, ptr ph' ≠ Some l → s_heap s' !! l = s_heap s !! l) →
  len (s_chans s') + need ph' ≤ len (s_chans s) + need ph →
  side_inv s0 s' (<[k := ph']> phs).
Proof using hold_ptr Hs Hk Hp Ht Hx.
  intros Ho Hw Hf Hh Hr. pose proof (si_fresh _ _ _ Hs) as Hf0. split; try done.
  - rewrite (total_need_insert _ _ _ _ _ Hk). pose proof (si_room _ _ _ Hs). lia.
  - exact update_held.
  - exact update_rest.
  - intros k2 ph2 l. by apply update_ptr.
  - exact update_uniq.
  - lia.
  - intros l Hl. rewrite Hh; [by apply (si_old _ _ _ Hs)|]. intros Hpl.
    destruct (Hp l Hpl) as [_ [Hold|?]]; [|lia].
    pose proof (si_ptr _ _ _ Hs _ _ _ Hk Hold). lia.
Qed.
End update.
End side.

(** ** One call *)

Definition view_at (h : gmap nat channel) (l : chan_ptr) (v : chan_view) : Prop :=
  ∃ c, h !! l = Some c ∧ view_of c v.

(** The messages on the way to a channel. *)
Definition on_way (v : chan_view) (f : list Message) : list Message :=
  if v_closed v then [] else to_ (v_local v) f.

Definition requested (x : Z) : channel := set_localId x opening_channel.

Definition confirm (x y : Z) : Message := OpenConfirmMessage x y channelWindowSize channelMaxPacket.

Definition confirmed (x y : Z) : channel :=
  set_remoteWin (mkWindow channelWindowSize 0 false)
    (set_maxRemotePayload channelMaxPacket (set_remoteId y (requested x))).

Definition open_message (x : Z) : Message := OpenMessage x channelWindowSize channelMaxPacket.

(** What is sent when a call is made alone: its request, the response to it, and
    what it returns. *)
Record script {V T : Type} := mkScript {
  sp_call : pending_call (V := V) (T := T);
  sp_request : list byte;
  sp_response : list byte;
  sp_result : option (Response V) * option call_error;
}.
Arguments script : clear implicits.
Arguments mkScript {V T}.

Section phases.
Context {V T : Type} `{Codec V T}.

(** The two channels of a call from the request on, and where its goroutines are. *)
Inductive stage_ok (srv : list (chan_ptr * bool)) (sp : script V T) (la lb : chan_ptr)
    (va vb : chan_view) (fab fba : list Message) : client → stage → Prop :=
| stage_asked got :
    va = waiting_view (v_local va) (v_local vb) (sp_request sp) →
    vb = asked_view (v_local vb) (v_local va) got →
    got ++ stream_to (v_local vb) fab = sp_request sp → total_credit fab = 0 → fba = [] →
    (lb, false) ∈ srv →
    stage_ok srv sp la lb va vb fab fba (Waiting (sp_call sp) la) Asked
| stage_served :
    v_sent vb = true → v_sent va = v_closed va →
    v_queue va ++ stream_to (v_local va) fba = sp_response sp →
    (v_closed vb = false → v_win vb + total_credit fab ≤ channelWindowSize) →
    (lb, true) ∈ srv →
    stage_ok srv sp la lb va vb fab fba (Waiting (sp_call sp) la) Served
| stage_ended :
    v_sent va = true → v_sent vb = true → (lb, true) ∈ srv →
    stage_ok srv sp la lb va vb fab fba (Returned (sp_result sp)) Ended.

Inductive phase_ok (ha hb : gmap nat channel) (fab fba : list Message)
    (srv : list (chan_ptr * bool)) (sp : script V T) : client → phase → Prop :=
| ok_ready : phase_ok ha hb fab fba srv sp (Ready (sp_call sp)) PReady
| ok_requested la x :
    ha !! la = Some (requested x) → opens x fab = [open_message x] → to_ x fba = [] →
    phase_ok ha hb fab fba srv sp (Opening (sp_call sp) la) (PRequested la x)
| ok_offered la x lb y :
    ha !! la = Some (requested x) → to_ x fba = [confirm x y] →
    view_at hb lb (fresh_view y x) → to_ y fab = [] → (lb, false) ∈ srv →
    phase_ok ha hb fab fba srv sp (Opening (sp_call sp) la) (POffered la x lb y)
| ok_confirmed la x lb y :
    ha !! la = Some (set_msg (mkChan [confirm x y] chanSize false) (confirmed x y)) →
    to_ x fba = [] → view_at hb lb (fresh_view y x) → to_ y fab = [] → (lb, false) ∈ srv →
    phase_ok ha hb fab fba srv sp (Opening (sp_call sp) la) (PConfirmed la x lb y)
| ok_joined la lb va vb st pc :
    view_at ha la va → view_at hb lb vb → joined va vb (on_way vb fab) (on_way va fba) →
    stage_ok srv sp la lb va vb (on_way vb fab) (on_way va fba) pc st →
    phase_ok ha hb fab fba srv sp pc (PJoined la lb va vb st).

Lemma stage_ok_frame srv srv' sp la lb va vb fab fba pc st :
  stage_ok srv sp la lb va vb fab fba pc st → (∀ d, (lb, d) ∈ srv → (lb, d) ∈ srv') →
  stage_ok srv' sp la lb va vb fab fba pc st.
Proof. intros Hst Hs. destruct Hst; by econstructor; eauto. Qed.

Lemma on_way_frame v f f' :
  (v_closed v = false → to_ (v_local v) f' = to_ (v_local v) f) → on_way v f' = on_way v f.
Proof. intros Hf. unfold on_way. destruct (v_closed v); [done|by apply Hf]. Qed.

Lemma on_way_flow vs v f : flow vs (to_ (v_local v) f) v → on_way v f = to_ (v_local v) f.
Proof.
  intros Hf. unfold on_way. destruct (v_closed v) eqn:E; [|done]. by destruct (fl_over _ _ _ Hf E) as [-> _].
Qed.

Lemma on_way_app v f out :
  Forall (λ m, Protocol.target m = Some (v_local v)) out → out = [] ∨ v_closed v = false →
  on_way v (f ++ out) = on_way v f ++ out.
Proof.
  intros Ht [->|Hc]; [by rewrite !app_nil_r|]. unfold on_way. by rewrite Hc, to_app, (to_all _ _ Ht).
Qed.

Lemma piece_credit k m x : piece k m x → 0 ≤ msg_credit x.
Proof. intros [p Hp|n Hn]; cbn; lia. Qed.

(** The server's channel takes a message in. *)
Lemma stage_server srv sp la lb va vb m fab fba pc st vb' out :
  stage_ok srv sp la lb va vb (m :: fab) fba pc st → flow va (m :: fab) vb → v_gets vb m vb' out →
  stage_ok srv sp la lb va vb' fab (fba ++ out) pc st.
Proof.
  intros Hst Hf Hg. pose proof (flow_open _ _ _ _ Hf) as Ho.
  destruct (gets_same _ _ _ _ Hg) as (El & Er & _).
  destruct Hst as [got Ha Hb Hq Hc -> Hsv|Hs Hsa Hq Hw Hsv|Hs Hs' Hsv].
  - destruct (fl_pieces _ _ _ Hf Ho) as (ps & Hps & Hall).
    assert (v_sent va = false) as Hsa by by rewrite Ha. rewrite Hsa, app_nil_r in Hps. subst ps.
    pose proof (total_credit_nonneg _ _ _ Hall) as Hn. apply Forall_cons in Hall as [Hm Hall].
    pose proof (piece_credit _ _ _ Hm). pose proof (total_credit_nonneg _ _ _ Hall).
    rewrite credit_cons in Hc, Hn. rewrite stream_cons in Hq.
    inversion Hg; subst; [|by inversion Hm]. apply (stage_asked _ _ _ _ _ _ _ _ (got ++ data_of (v_local vb) m)).
    + done.
    + destruct vb as [y0 x0 p0 q0 w0 m0 s0 c0]. unfold asked_view in Hb. cbn [v_local v_remote] in *. injection Hb as -> -> -> -> -> -> ->.
      unfold v_arrived, v_got, v_spend, asked_view, stream_to, total_credit.
      cbn [v_local v_remote v_packet v_queue v_win v_mine v_sent v_closed fmap list_fmap mjoin list_join foldr].
      rewrite app_nil_r, len_app. f_equal; lia.
    + cbn [v_local v_arrived v_got v_spend]. by rewrite <- app_assoc.
    + lia.
    + done.
    + done.
  - apply stage_served; try done.
    + by destruct Hg.
    + rewrite stream_to_app. destruct Hg; [by rewrite app_nil_r|]. rewrite Hs. by rewrite app_nil_r.
    + intros Hc. specialize (Hw Ho). rewrite credit_cons in Hw. destruct Hg as [m Hm|]; [|done].
      cbn [v_win v_arrived v_got v_spend]. unfold total_credit at 1. cbn [fmap list_fmap foldr]. lia.
  - apply stage_ended; try done. by destruct Hg.
Qed.

(** The client's channel takes a message in. *)
Lemma stage_client srv sp la lb va vb m fab fba pc st va' out :
  stage_ok srv sp la lb va vb fab (m :: fba) pc st → flow vb (m :: fba) va → v_gets va m va' out →
  stage_ok srv sp la lb va' vb (fab ++ out) fba pc st.
Proof.
  intros Hst Hf Hg. pose proof (flow_open _ _ _ _ Hf) as Ho.
  destruct (gets_same _ _ _ _ Hg) as (El & Er & _).
  destruct Hst as [got Ha Hb Hq Hc Hn Hsv|Hs Hsa Hq Hw Hsv|Hs Hs' Hsv]; [done|..].
  - apply stage_served; try done.
    + by destruct Hg.
    + rewrite El. rewrite stream_cons in Hq. destruct Hg as [m Hm|]; [|done].
      cbn [v_queue v_arrived v_got v_spend]. unfold stream_to at 1. cbn [fmap list_fmap mjoin list_join].
      by rewrite app_nil_r, <- app_assoc.
    + intros Hc. rewrite total_credit_app. specialize (Hw Hc).
      destruct Hg; [change (total_credit []) with 0; lia|]. destruct (v_sent va).
      * change (total_credit []) with 0. lia.
      * change (total_credit [_]) with 0. lia.
  - apply stage_ended; try done. by destruct Hg.
Qed.

(** A call does not notice what happens to the others. *)
Lemma phase_ok_frame ha hb fab fba srv ha' hb' fab' fba' srv' sp pc ph :
  phase_ok ha hb fab fba srv sp pc ph →
  (∀ l, ptr_a ph = Some l → ha' !! l = ha !! l) →
  (∀ l, ptr_b ph = Some l → hb' !! l = hb !! l) →
  (∀ y l, hold_b ph = Some (y, l) → to_ y fab' = to_ y fab) →
  (∀ x l, hold_a ph = Some (x, l) → to_ x fba' = to_ x fba) →
  (∀ la x, ph = PRequested la x → opens x fab' = opens x fab) →
  (∀ l d, ptr_b ph = Some l → (l, d) ∈ srv → (l, d) ∈ srv') →
  phase_ok ha' hb' fab' fba' srv' sp pc ph.
Proof.
  intros Hph Ha Hb Hab Hba Ho Hs.
  destruct Hph as [|la x H1 H2 H3|la x lb y H1 H2 (c & Hc & Hv) H4 H5|la x lb y H1 H2 (c & Hc & Hv) H4 H5
    |la lb va vb st pc (ca & Hca & Hva) (cb & Hcb & Hvb) Hj Hst]; cbn [ptr_a ptr_b hold_a hold_b] in *.
  - constructor.
  - constructor; [by rewrite Ha|by rewrite (Ho la x)|by rewrite (Hba x la)].
  - constructor; [by rewrite Ha|by rewrite (Hba x la)|exists c; by rewrite Hb|by rewrite (Hab y lb)|by apply Hs].
  - constructor; [by rewrite Ha|by rewrite (Hba x la)|exists c; by rewrite Hb|by rewrite (Hab y lb)|by apply Hs].
  - assert (on_way vb fab' = on_way vb fab) as Eb.
    { apply on_way_frame. intros Hcl. rewrite Hcl in Hab. by apply (Hab _ lb). }
    assert (on_way va fba' = on_way va fba) as Ea.
    { apply on_way_frame. intros Hcl. rewrite Hcl in Hba. by apply (Hba _ la). }
    constructor; rewrite ?Eb, ?Ea; [exists ca; by rewrite Ha|exists cb; by rewrite Hb|done|].
    eapply stage_ok_frame; [done|]. intros d. by apply Hs.
Qed.

(** ** All of them *)

(** The messages that belong to a call. *)
Definition own_ab (ph : phase) (m : Message) : Prop :=
  (∃ y l, hold_b ph = Some (y, l) ∧ Protocol.target m = Some y) ∨
  (∃ la x, ph = PRequested la x ∧ m = open_message x).

Definition own_ba (ph : phase) (m : Message) : Prop :=
  ∃ x l, hold_a ph = Some (x, l) ∧ Protocol.target m = Some x.

Record inv (sps : list (script V T)) (a0 b0 : session) (c : crowd) (phs : list phase)
    (fab fba : list Message) : Prop := {
  iv_len : length phs = length sps;
  iv_phase : ∀ k sp ph, sps !! k = Some sp → phs !! k = Some ph →
    ∃ pc, cr_clients c !! k = Some pc ∧
      phase_ok (s_heap (cr_a c)) (s_heap (cr_b c)) fab fba (cr_servers c) sp pc ph;
  iv_clients : length (cr_clients c) = length sps;
  iv_a : side_inv hold_a ptr_a need_a a0 (cr_a c) phs;
  iv_b : side_inv hold_b ptr_b need_b b0 (cr_b c) phs;
  iv_in_a : s_dec (cr_a c) = mkReader (frames fba) (rd_err (s_dec a0));
  iv_in_b : s_dec (cr_b c) = mkReader (frames fab) (rd_err (s_dec b0));
  iv_wf_ab : Forall message_wf fab;
  iv_wf_ba : Forall message_wf fba;
  iv_own_ab : ∀ m, m ∈ fab → ∃ k ph, phs !! k = Some ph ∧ own_ab ph m;
  iv_own_ba : ∀ m, m ∈ fba → ∃ k ph, phs !! k = Some ph ∧ own_ba ph m;
  iv_srv : NoDup (cr_servers c).*1;
  iv_srv_ptr : ∀ l d, (l, d) ∈ cr_servers c → ∃ k ph, phs !! k = Some ph ∧ ptr_b ph = Some l;
}.

(** The call [k] moves on from [ph] to [ph']. *)
Record moves (sp : script V T) (c : crowd) (ph : phase) (fab fba : list Message)
    (k : nat) (c' : crowd) (ph' : phase) (fab' fba' : list Message) : Prop := {
  mv_clients : ∃ pc', cr_clients c' = <[k := pc']> (cr_clients c) ∧
    phase_ok (s_heap (cr_a c')) (s_heap (cr_b c')) fab' fba' (cr_servers c') sp pc' ph';
  mv_heap_a : ∀ l, ptr_a ph' ≠ Some l → s_heap (cr_a c') !! l = s_heap (cr_a c) !! l;
  mv_heap_b : ∀ l, ptr_b ph' ≠ Some l → s_heap (cr_b c') !! l = s_heap (cr_b c) !! l;
  mv_to_ab : ∀ z, fst <$> hold_b ph ≠ Some z → fst <$> hold_b ph' ≠ Some z → to_ z fab' = to_ z fab;
  mv_to_ba : ∀ z, fst <$> hold_a ph ≠ Some z → fst <$> hold_a ph' ≠ Some z → to_ z fba' = to_ z fba;
  mv_opens : ∀ z, fst <$> hold_a ph' ≠ Some z → opens z fab' = opens z fab;
  mv_own_ab : ∀ m, m ∈ fab' → own_ab ph' m ∨ (m ∈ fab ∧ (own_ab ph m → own_ab ph' m));
  mv_own_ba : ∀ m, m ∈ fba' → own_ba ph' m ∨ (m ∈ fba ∧ (own_ba ph m → own_ba ph' m));
  mv_wf_ab : Forall message_wf fab';
  mv_wf_ba : Forall message_wf fba';
  mv_srv : ∀ l d, ptr_b ph' ≠ Some l → (l, d) ∈ cr_servers c → (l, d) ∈ cr_servers c';
  mv_srv_new : ∀ l d, (l, d) ∈ cr_servers c' →
    ptr_b ph' = Some l ∨ ((l, d) ∈ cr_servers c ∧ (ptr_b ph = Some l → ptr_b ph' = Some l));
  mv_srv_dup : NoDup (cr_servers c').*1;
}.

(** Two calls do not hold the same id. *)
Lemma ids_differ hold ptr need (hold_ptr : ∀ ph x l, hold ph = Some (x, l) → ptr ph = Some l)
    s0 s phs k k2 ph ph2 x l :
  side_inv hold ptr need s0 s phs → phs !! k = Some ph → phs !! k2 = Some ph2 → k ≠ k2 →
  hold ph2 = Some (x, l) → fst <$> hold ph ≠ Some x.
Proof. intros Hs Hk Hk2 Hne Hx [l' E]%held_id. apply Hne. by eapply (held_uniq _ _ _ hold_ptr). Qed.

Section moving.
Context (sps : list (script V T)) (a0 b0 : session) (c c' : crowd (V := V) (T := T)) (phs : list phase)
  (fab fba fab' fba' : list Message) (sp : script V T) (k : nat) (ph ph' : phase).
Hypothesis Hi : inv sps a0 b0 c phs fab fba.
Hypothesis Hk : phs !! k = Some ph.
Hypothesis Hmv : moves sp c ph fab fba k c' ph' fab' fba'.
Hypothesis Ha : side_inv hold_a ptr_a need_a a0 (cr_a c') (<[k := ph']> phs).
Hypothesis Hb : side_inv hold_b ptr_b need_b b0 (cr_b c') (<[k := ph']> phs).

(** The other calls stay in their phases. *)
Lemma moves_other k2 sp2 ph2 :
  k ≠ k2 → sps !! k2 = Some sp2 → phs !! k2 = Some ph2 → ∃ pc2, cr_clients c' !! k2 = Some pc2 ∧
    phase_ok (s_heap (cr_a c')) (s_heap (cr_b c')) fab' fba' (cr_servers c') sp2 pc2 ph2.
Proof using Hi Hk Hmv Ha Hb.
  intros Hne Hsp2 Hk2. destruct (iv_phase _ _ _ _ _ _ _ Hi k2 sp2 ph2 Hsp2 Hk2) as (pc2 & Hpc2 & Hok2).
  assert (<[k := ph']> phs !! k = Some ph') as Hk'
    by (apply list_lookup_insert_eq; by eapply lookup_lt_Some).
  assert (<[k := ph']> phs !! k2 = Some ph2) as Hk2' by by rewrite list_lookup_insert_ne.
  destruct Hmv as [(pc' & Hcl & _) Hha Hhb Htab Htba Hop _ _ _ _ Hsv _ _].
  exists pc2. split; [by rewrite Hcl, list_lookup_insert_ne|].
  eapply phase_ok_frame; [exact Hok2|..].
  - intros l Hl. apply Hha. intros Hl'. by apply Hne, (si_uniq _ _ _ _ _ _ Ha _ _ _ _ _ Hk' Hk2' Hl').
  - intros l Hl. apply Hhb. intros Hl'. by apply Hne, (si_uniq _ _ _ _ _ _ Hb _ _ _ _ _ Hk' Hk2' Hl').
  - intros y l Hy. apply Htab.
    + by eapply (ids_differ _ _ _ hold_ptr_b); [apply Hi|exact Hk|exact Hk2|..].
    + by eapply (ids_differ _ _ _ hold_ptr_b); [exact Hb|exact Hk'|exact Hk2'|..].
  - intros x l Hx. apply Htba.
    + by eapply (ids_differ _ _ _ hold_ptr_a); [apply Hi|exact Hk|exact Hk2|..].
    + by eapply (ids_differ _ _ _ hold_ptr_a); [exact Ha|exact Hk'|exact Hk2'|..].
  - intros la x ->. apply Hop. by eapply (ids_differ _ _ _ hold_ptr_a); [exact Ha|exact Hk'|exact Hk2'|..].
  - intros l d Hl. apply Hsv. intros Hl'. by apply Hne, (si_uniq _ _ _ _ _ _ Hb _ _ _ _ _ Hk' Hk2' Hl').
Qed.

(** What held of some call still does, unless it no longer does of this one. *)
Lemma moves_some (P : phase → Prop) :
  (P ph → P ph') → (∃ k2 ph2, phs !! k2 = Some ph2 ∧ P ph2) →
  ∃ k2 ph2, <[k := ph']> phs !! k2 = Some ph2 ∧ P ph2.
Proof using Hk.
  intros HP (k2 & ph2 & Hk2 & H2). destruct (decide (k2 = k)) as [->|Hne].
  - exists k, ph'. split; [apply list_lookup_insert_eq; by eapply lookup_lt_Some|]. apply HP. congruence.
  - exists k2, ph2. by rewrite list_lookup_insert_ne.
Qed.

Lemma inv_moves :
  sps !! k = Some sp → s_dec (cr_a c') = mkReader (frames fba') (rd_err (s_dec a0)) →
  s_dec (cr_b c') = mkReader (frames fab') (rd_err (s_dec b0)) →
  inv sps a0 b0 c' (<[k := ph']> phs) fab' fba'.
Proof using Hi Hk Hmv Ha Hb.
  intros Hsp Hda Hdb.
  assert (<[k := ph']> phs !! k = Some ph') as Hk'
    by (apply list_lookup_insert_eq; by eapply lookup_lt_Some).
  split; try done; try apply Hmv.
  - rewrite length_insert. apply Hi.
  - intros k2 sp2 ph2 Hsp2 [[-> ->]|[Hne Hk2]]%lookup_moved; [|by apply moves_other].
    destruct (mv_clients _ _ _ _ _ _ _ _ _ _ Hmv) as (pc' & Hcl & Hok). exists pc'.
    assert (sp2 = sp) as -> by congruence. split; [|done]. rewrite Hcl.
    apply list_lookup_insert_eq. rewrite (iv_clients _ _ _ _ _ _ _ Hi). by eapply lookup_lt_Some.
  - destruct (mv_clients _ _ _ _ _ _ _ _ _ _ Hmv) as (pc' & -> & _). rewrite length_insert. apply Hi.
  - intros m [Hm|[Hm Hown]]%(mv_own_ab _ _ _ _ _ _ _ _ _ _ Hmv); [by exists k, ph'|].
    apply (moves_some (λ ph, own_ab ph m) Hown). by apply (iv_own_ab _ _ _ _ _ _ _ Hi).
  - intros m [Hm|[Hm Hown]]%(mv_own_ba _ _ _ _ _ _ _ _ _ _ Hmv); [by exists k, ph'|].
    apply (moves_some (λ ph, own_ba ph m) Hown). by apply (iv_own_ba _ _ _ _ _ _ _ Hi).
  - intros l d [Hl|[Hd Hown]]%(mv_srv_new _ _ _ _ _ _ _ _ _ _ Hmv); [by exists k, ph'|].
    apply (moves_some (λ ph, ptr_b ph = Some l) Hown). by apply (iv_srv_ptr _ _ _ _ _ _ _ Hi l d).
Qed.
End moving.

(** ** Calls made alone *)

Section scripted.
Context (fuel mux_fuel : nat) (ms : gmap nat (RespondMux (string → prog V unit)))
  (hn : Handler (string → prog V unit)).

(** How much a call sends in both directions. *)
Definition sp_size (sp : script V T) : Z := len (sp_request sp) + len (sp_response sp).

(** A call that, made alone over a channel of its own, goes as the script says, and
    whose request and response fit the windows. *)
Record scripted (sp : script V T) : Prop := {
  sc_ask :
    let p := p_call_request (cl_selector (sp_call sp)) (cl_args (sp_call sp)) in
    smooth (sp_size sp) false p (new_responder fresh_end) ∧
    ∃ σ, run_end p (new_responder fresh_end) = (Ret None, σ) ∧
      end_sent (sv_ch σ) = sp_request sp ∧ ce_closes (sv_ch σ) = 0%nat;
  sc_serve :
    let e := mkEnd (mkReader (sp_request sp) io_EOF) (mkWriter [] []) 0 in
    let p := p_Server_respond mux_fuel ms hn in
    smooth (sp_size sp) false p (new_responder e) ∧
    ∃ σ, run_end p (new_responder e) = (Ret tt, σ) ∧ end_sent (sv_ch σ) = sp_response sp ∧
      rd_data (ce_in (sv_ch σ)) = [] ∧ ce_closes (sv_ch σ) ≠ 0%nat;
  sc_read : ∀ lim n,
    let e := mkEnd (mkReader (sp_response sp) io_EOF) (mkWriter [] []) n in
    let p := p_call_response (cl_replies (sp_call sp)) in
    smooth lim false p (new_responder e) ∧ reads_only p ∧
    ∃ σ, run_end p (new_responder e) = (Ret (sp_result sp), σ) ∧ end_sent (sv_ch σ) = [] ∧
      ce_closes (sv_ch σ) = S n ∧
      (length (rd_data (ce_in (sv_ch σ))) < length (sp_response sp))%nat;
  sc_some : sp_request sp ≠ [];
  sc_fits : sp_size sp ≤ channelWindowSize ∧ sp_size sp < Z.of_nat fuel;
}.
End scripted.
End phases.
