(* ===== verification/CallsSteps.v ===== *)
(** * The steps of calls in flight

    Every event that happens moves one call on, and keeps what CallsInvariant.v
    says. *)
From S2P Require Import Prelude GoRuntime Frame Buffer Window ChanList.
From S2P Require Import MuxState Channel ChannelSpec Session SessionSpec.
From S2P Require Import Handshake Protocol Refine FrameCodec ChannelView ChannelStream ChannelPair.
From S2P Require Import RespondMux RespondMuxSpec Rpc RpcSpec RpcProgram ChannelRpc ChannelCall.
From S2P Require Import ChannelWait CallsInFlight CallsInvariant.

(** ** The tables *)

Section tables.
Context (hold : phase → option (Z * chan_ptr)) (ptr : phase → option chan_ptr) (need : phase → Z).
Context (hold_ptr : ∀ ph x l, hold ph = Some (x, l) → ptr ph = Some l)
  (need_nonneg : ∀ ph, 0 ≤ need ph).

Lemma total_need_nonneg phs : 0 ≤ total_need need phs.
Proof using need_nonneg.
  induction phs as [|ph phs IH]; [done|]. unfold total_need in *. cbn. pose proof (need_nonneg ph). lia.
Qed.

Lemma side_small s0 s phs : side_inv hold ptr need s0 s phs → chanList_small (s_chans s).
Proof using need_nonneg.
  intros Hs. pose proof (si_room _ _ _ _ _ _ Hs). pose proof (total_need_nonneg phs).
  unfold chanList_small. lia.
Qed.

(** Its channel stays where it is. *)
Lemma side_keep s0 s s' phs k ph ph' :
  side_inv hold ptr need s0 s phs → phs !! k = Some ph →
  w_out (s_enc s') = [] → writer_ok (s_enc s') → s_fresh s' = s_fresh s → s_chans s' = s_chans s →
  (∀ l, ptr ph' ≠ Some l → s_heap s' !! l = s_heap s !! l) →
  ptr ph' = ptr ph → hold ph' = hold ph → need ph' ≤ need ph →
  side_inv hold ptr need s0 s' (<[k := ph']> phs).
Proof using hold_ptr.
  intros Hs Hk Ho Hw Hf Hc Hh Hp Hx Hn.
  apply (side_update _ _ _ hold_ptr) with (s := s) (ph := ph); try done; [..|lia|rewrite Hc; lia].
  - intros l Hl. rewrite Hp in Hl. split; [|by left]. rewrite Hf. by apply (si_ptr _ _ _ _ _ _ Hs _ _ _ Hk).
  - intros j Hj. unfold tab_upd. rewrite Hx. unfold table. rewrite Hc.
    case_decide as Hd; [|done]. apply held_id in Hd as [l Hl]. rewrite Hl.
    apply (si_held _ _ _ _ _ _ Hs _ _ _ _ Hk Hl).
  - intros x l Hl. left. congruence.
Qed.

(** It gets a channel. *)
Lemma side_add s0 s s' phs k ph ph' :
  side_inv hold ptr need s0 s phs → phs !! k = Some ph →
  w_out (s_enc s') = [] → writer_ok (s_enc s') → s_fresh s' = S (s_fresh s) →
  s_chans s' = (chanList_add (s_fresh s) (s_chans s)).2 →
  (∀ l, l ≠ s_fresh s → s_heap s' !! l = s_heap s !! l) →
  ptr ph' = Some (s_fresh s) → hold ph = None → hold ph' = Some (next_id s, s_fresh s) →
  need ph' + 1 ≤ need ph →
  side_inv hold ptr need s0 s' (<[k := ph']> phs).
Proof using hold_ptr need_nonneg.
  intros Hs Hk Ho Hw Hf Hc Hh Hp Hx Hx' Hn. pose proof (side_small _ _ _ Hs) as Hsm.
  destruct (chanList_ids (s_fresh s) _ Hsm) as (Hnone & Hget & _ & Hsame & _).
  destruct (chanList_add_spec (s_fresh s) _ Hsm) as (_ & _ & _ & _ & _ & _ & Hlen).
  destruct (add_id s Hsm) as (Hu & _ & _). fold (next_id s) in Hu, Hget, Hsame, Hnone.
  apply (side_update _ _ _ hold_ptr) with (s := s) (ph := ph); try done; [..|lia| |rewrite Hc; lia].
  - intros l Hl. assert (l = s_fresh s) as -> by congruence. split; [lia|by right].
  - intros j Hj. unfold tab_upd, table. rewrite Hx, Hx', Hc. cbn [fmap option_fmap option_map fst snd].
    case_decide as Hd; [injection Hd as <-; done|]. rewrite decide_False by done. apply Hsame; [done|congruence].
  - intros x l Hl. right. assert (x = next_id s) as -> by congruence. done.
  - intros l Hl. apply Hh. congruence.
Qed.

(** It leaves the table. *)
Lemma side_drop s0 s s' phs k ph ph' x l :
  side_inv hold ptr need s0 s phs → phs !! k = Some ph →
  w_out (s_enc s') = [] → writer_ok (s_enc s') → s_fresh s' = s_fresh s →
  s_chans s' = chanList_remove x (s_chans s) →
  (∀ l, ptr ph' ≠ Some l → s_heap s' !! l = s_heap s !! l) →
  ptr ph' = ptr ph → hold ph = Some (x, l) → hold ph' = None → need ph' ≤ need ph →
  side_inv hold ptr need s0 s' (<[k := ph']> phs).
Proof using hold_ptr need_nonneg.
  intros Hs Hk Ho Hw Hf Hc Hh Hp Hx Hx' Hn. pose proof (side_small _ _ _ Hs) as Hsm.
  destruct (si_held _ _ _ _ _ _ Hs _ _ _ _ Hk Hx) as (_ & _ & [Hu _]).
  apply (side_update _ _ _ hold_ptr) with (s := s) (ph := ph); try done;
    [..|lia|rewrite Hc, chanList_remove_len; lia].
  - intros l' Hl. rewrite Hp in Hl. split; [|by left]. rewrite Hf. by apply (si_ptr _ _ _ _ _ _ Hs _ _ _ Hk).
  - intros j Hj. unfold tab_upd, table. rewrite Hx, Hx', Hc. cbn [fmap option_fmap option_map fst snd].
    rewrite decide_False by done.
    assert (chanList_small (chanList_remove x (s_chans s))) as Hsm'
      by (unfold chanList_small; by rewrite chanList_remove_len).
    rewrite !getChan_lookup, chanList_remove_lookup by done.
    destruct (decide (Some x = Some j)) as [[= ->]|Hne]; [by rewrite decide_True|].
    rewrite decide_False; [done|]. intros E. apply Hne. f_equal. lia.
  - congruence.
Qed.

(** Its channel took a message in, maybe the last one. *)
Lemma side_gets s0 s s' phs k ph ph' x l (over : bool) :
  side_inv hold ptr need s0 s phs → phs !! k = Some ph →
  w_out (s_enc s') = [] → writer_ok (s_enc s') → s_fresh s' = s_fresh s →
  s_chans s' = (if over then chanList_remove x (s_chans s) else s_chans s) →
  (∀ l, ptr ph' ≠ Some l → s_heap s' !! l = s_heap s !! l) →
  ptr ph' = ptr ph → hold ph = Some (x, l) → hold ph' = (if over then None else Some (x, l)) →
  need ph' ≤ need ph →
  side_inv hold ptr need s0 s' (<[k := ph']> phs).
Proof using hold_ptr need_nonneg.
  intros Hs Hk Ho Hw Hf Hc Hh Hp Hx Hx' Hn. destruct over.
  - by eapply side_drop.
  - eapply side_keep; try done. congruence.
Qed.
End tables.

(** ** Events *)

(** A session after what it wrote left, and with other messages to read. *)
Definition flushed (s : session) : session := set_enc (mkWriter [] (w_script (s_enc s))) s.

Definition fed (ms : list Message) (e : error) (s : session) : session :=
  set_dec (mkReader (frames ms) e) s.

Section events.
Context {V T : Type} `{CodecLaws V T}.
Context (fuel mux_fuel : nat) (ms : gmap nat (RespondMux (string → prog V unit)))
  (hn : Handler (string → prog V unit)).
Context (sps : list (script V T)) (a0 b0 : session).

Local Abbreviation exec := (exec_event fuel mux_fuel ms hn).
Local Abbreviation INV := (inv sps a0 b0).

Lemma at_client_ret {A} (m : MS A) k (c : crowd (V := V) (T := T)) phs fab fba x a' out :
  INV c phs fab fba → m (cr_a c) = (Ret x, a') → s_enc a' = emit out (s_enc (cr_a c)) →
  at_client m k c = Some (k x (mkCrowd (flushed a') (fed (fab ++ out) (rd_err (s_dec b0)) (cr_b c))
    (cr_clients c) (cr_servers c))).
Proof.
  intros Hi Hm He. unfold at_client. rewrite Hm. cbn [transmit].
  unfold flushed, fed. rewrite He. cbn [emit w_out].
  rewrite (si_out _ _ _ _ _ _ (iv_a _ _ _ _ _ _ _ Hi)), (iv_in_b _ _ _ _ _ _ _ Hi). cbn [rd_data rd_err app].
  by rewrite frames_app.
Qed.

Lemma at_server_ret {A} (m : MS A) k (c : crowd (V := V) (T := T)) phs fab fba x b' out :
  INV c phs fab fba → m (cr_b c) = (Ret x, b') → s_enc b' = emit out (s_enc (cr_b c)) →
  at_server m k c = Some (k x (mkCrowd (fed (fba ++ out) (rd_err (s_dec a0)) (cr_a c)) (flushed b')
    (cr_clients c) (cr_servers c))).
Proof.
  intros Hi Hm He. unfold at_server. rewrite Hm. cbn [transmit].
  unfold flushed, fed. rewrite He. cbn [emit w_out].
  rewrite (si_out _ _ _ _ _ _ (iv_b _ _ _ _ _ _ _ Hi)), (iv_in_a _ _ _ _ _ _ _ Hi). cbn [rd_data rd_err app].
  by rewrite frames_app.
Qed.

(** Nothing on the way belongs to ids nobody holds. *)
Lemma to_ab_none (c : crowd (V := V) (T := T)) phs fab fba y :
  INV c phs fab fba → (∀ k ph l, phs !! k = Some ph → hold_b ph ≠ Some (y, l)) → to_ y fab = [].
Proof.
  intros Hi Hno. apply to_none, Forall_forall. intros m Hm Ht.
  destruct (iv_own_ab _ _ _ _ _ _ _ Hi m Hm) as (k & ph & Hk & [(y' & l & Hy & Ht')|(la & x & _ & ->)]); [|done].
  apply (Hno k ph l Hk). congruence.
Qed.

Lemma to_ba_none (c : crowd (V := V) (T := T)) phs fab fba x :
  INV c phs fab fba → (∀ k ph l, phs !! k = Some ph → hold_a ph ≠ Some (x, l)) → to_ x fba = [].
Proof.
  intros Hi Hno. apply to_none, Forall_forall. intros m Hm Ht.
  destruct (iv_own_ba _ _ _ _ _ _ _ Hi m Hm) as (k & ph & Hk & (x' & l & Hx & Ht')).
  apply (Hno k ph l Hk). congruence.
Qed.

Lemma opens_none_new (c : crowd (V := V) (T := T)) phs fab fba x :
  INV c phs fab fba → (∀ k ph l, phs !! k = Some ph → hold_a ph ≠ Some (x, l)) → opens x fab = [].
Proof.
  intros Hi Hno. destruct (opens x fab) as [|m f] eqn:E; [done|].
  assert (m ∈ opens x fab) as [Ho Hm]%list_elem_of_filter by (rewrite E; by left).
  destruct (iv_own_ab _ _ _ _ _ _ _ Hi m Hm) as (k & ph & Hk & [(y' & l & Hy & Ht)|(la & x' & -> & ->)]).
  - by destruct m.
  - injection Ho as ->. by destruct (Hno k _ la Hk).
Qed.

Lemma next_not_held hold ptr need s0 s phs :
  side_inv hold ptr need s0 s phs → chanList_small (s_chans s) →
  ∀ k ph l, phs !! k = Some ph → hold ph ≠ Some (next_id s, l).
Proof.
  intros Hs Hsm k ph l Hk Hl. destruct (si_held _ _ _ _ _ _ Hs _ _ _ _ Hk Hl) as (Ht & _).
  destruct (add_id s Hsm) as (_ & Hn & _). unfold table in Ht. unfold next_id in Ht. congruence.
Qed.

Lemma need_a_nonneg ph : 0 ≤ need_a ph.
Proof. by destruct ph. Qed.

Lemma need_b_nonneg ph : 0 ≤ need_b ph.
Proof. by destruct ph. Qed.

Lemma open_message_wf x : is_u32 x → message_wf (open_message x).
Proof. done. Qed.

(** *** What is on the way to others *)

Lemma to_app_other y z f out :
  Forall (λ m, Protocol.target m = Some y) out → Some y ≠ Some z → to_ z (f ++ out) = to_ z f.
Proof.
  intros Ht Hz. rewrite to_app, (to_none z out), app_nil_r; [done|].
  eapply Forall_impl; [exact Ht|]. cbn. congruence.
Qed.

Lemma to_cons_other y z m f : Protocol.target m = Some y → Some y ≠ Some z → to_ z (m :: f) = to_ z f.
Proof. intros Ht Hz. rewrite to_cons, decide_False; [done|]. congruence. Qed.

Lemma opens_app_other y z f out :
  Forall (λ m, Protocol.target m = Some y) out → opens z (f ++ out) = opens z f.
Proof.
  intros Ht. rewrite opens_app, (opens_none z out), app_nil_r; [done|].
  eapply Forall_impl; [exact Ht|]. cbn. by eexists.
Qed.

Lemma to_nil_none z m f : to_ z f = [] → m ∈ f → Protocol.target m ≠ Some z.
Proof.
  intros Hf Hm Ht. assert (m ∈ to_ z f) as Hin by by apply elem_of_to.
  rewrite Hf in Hin. by apply elem_of_nil in Hin.
Qed.

Lemma to_head z m f f' : Protocol.target m = Some z → to_ z (m :: f) = f' → f' = m :: to_ z f.
Proof. intros Hm <-. by rewrite to_cons, decide_True. Qed.

(** What the loop answers for a channel with the peer [v]. *)
Lemma answer_target v out :
  out = [] ∨ (out = [CloseMessage (v_local v)] ∧ v_closed v = false) →
  Forall (λ m, Protocol.target m = Some (v_local v)) out.
Proof. intros [->|[-> _]]; [done|by apply Forall_singleton]. Qed.

Lemma answer_on_way v f out :
  out = [] ∨ (out = [CloseMessage (v_local v)] ∧ v_closed v = false) →
  on_way v (f ++ out) = on_way v f ++ out.
Proof.
  intros Ho. apply on_way_app; [by apply answer_target|]. by destruct Ho as [->|[_ ?]]; [left|right].
Qed.

Lemma answer_wf v out :
  out = [] ∨ (out = [CloseMessage (v_local v)] ∧ v_closed v = false) →
  (v_closed v = false → is_u32 (v_local v)) → Forall message_wf out.
Proof. intros [->|[-> Hc]] Hu; [done|]. apply Forall_singleton. by apply Hu. Qed.

(** *** Open *)

Lemma open_event (c : crowd (V := V) (T := T)) phs fab fba k sp :
  INV c phs fab fba → sps !! k = Some sp → phs !! k = Some PReady →
  let x := next_id (cr_a c) in
  ∃ c', exec (EOpen k) c = Some c' ∧
    INV c' (<[k := PRequested (s_fresh (cr_a c)) x]> phs) (fab ++ [open_message x]) fba.
Proof.
  intros Hi Hsp Hk x. pose proof (iv_a _ _ _ _ _ _ _ Hi) as Ha. pose proof (iv_b _ _ _ _ _ _ _ Hi) as Hb.
  pose proof (side_small _ _ _ need_a_nonneg _ _ _ Ha) as Hsm.
  pose proof (next_not_held _ _ _ _ _ _ Ha Hsm) as Hnew. fold x in Hnew.
  destruct (iv_phase _ _ _ _ _ _ _ Hi k sp PReady Hsp Hk) as (pc & Hpc & Hok). inversion Hok; subst pc; clear Hok.
  assert (ready (cr_a c)) as Hrd by (split; [done|apply Ha]).
  eexists. split.
  { cbn [exec_event]. rewrite Hpc. eapply at_client_ret; [exact Hi|by apply open_sends|done]. }
  eapply (inv_moves _ _ _ _ _ _ _ _ _ _ sp _ _ _ Hi Hk); [split|..]; try done; try apply Hi.
  - eexists. split; [done|]. apply ok_requested.
    + apply (heap_added opening_channel).
    + by rewrite opens_app, (opens_none_new _ _ _ _ _ Hi Hnew), opens_cons, decide_True.
    + by apply (to_ba_none _ _ _ _ _ Hi Hnew).
  - intros l Hl. cbn. rewrite lookup_insert_ne; [done|]. cbn in Hl. congruence.
  - intros z _ _. by rewrite to_app, app_nil_r.
  - intros z Hz. rewrite opens_app, opens_cons, decide_False, app_nil_r; [done|]. cbn in Hz |- *. congruence.
  - intros m [Hm| ->%list_elem_of_singleton]%elem_of_app.
    + right. split; [done|]. by intros [(y & l & Hy & _)|(la & x' & ? & _)].
    + left. right. by eexists _, _.
  - intros m Hm. right. split; [done|]. by intros (y & l & Hy & _).
  - apply Forall_app. split; [apply Hi|]. apply Forall_singleton, open_message_wf. by destruct (add_id _ Hsm).
  - intros l d Hl. by right.
  - eapply (side_add _ _ _ hold_ptr_a need_a_nonneg); [exact Ha|exact Hk|done|..]; try done.
    + by apply emit_ok, Ha.
    + intros l Hl. cbn. by rewrite lookup_insert_ne.
  - eapply (side_keep _ _ _ hold_ptr_b); [exact Hb|exact Hk|..]; try done; apply Hb.
Qed.

(** *** The loops *)

Lemma one_packet_ret s s' m f e :
  s_dec s = mkReader (frames (m :: f)) e → session_onePacket true s = (Ret None, s') →
  one_packet s = (Ret tt, s').
Proof.
  intros Hd Hs. unfold one_packet. rewrite Hd. cbn [rd_data].
  destruct (frames (m :: f)) eqn:E; [by destruct m|]. unfold going_on. by rewrite (bind_ret _ _ _ _ _ Hs).
Qed.

Lemma one_packet_waits s e : s_dec s = mkReader (frames []) e → one_packet s = (Block, s).
Proof. intros Hd. unfold one_packet. by rewrite Hd. Qed.

(** The server's session after it accepted a channel for an open request. *)
Definition after_offer (x : Z) (s : session) : session :=
  set_enc (emit [confirm x (next_id s)] (s_enc s))
    (set_inbox None (added (offered_channel x channelWindowSize channelMaxPacket) s)).

Lemma offer_packet s x f e :
  ready s → is_u32 x → s_dec s = mkReader (frames (open_message x :: f)) e →
  one_packet s = (Ret tt, after_offer x (fed f e s)).
Proof.
  intros Hr Hx Hd. eapply one_packet_ret; [exact Hd|].
  rewrite (onePacket_next (open_message x) (frames f) e) by done.
  apply (open_handled x true (fed f e s)). by destruct Hr; split.
Qed.

Lemma offered_view x s : view_at (s_heap (after_offer x s)) (s_fresh s) (fresh_view (next_id s) x).
Proof.
  eexists. split; [apply (heap_added _ s)|].
  split; try done; try by vm_compute. apply newBuffer_repr.
Qed.

Lemma accept_one (b b' : session) : s_fresh b' = S (s_fresh b) →
  (λ l, (l, false)) <$> seq (s_fresh b) (s_fresh b' - s_fresh b) = [(s_fresh b, false)].
Proof. intros ->. by replace (S (s_fresh b) - s_fresh b)%nat with 1%nat by lia. Qed.

(** The goroutine for a new channel is new. *)
Lemma srv_fresh (c : crowd (V := V) (T := T)) phs fab fba :
  INV c phs fab fba → NoDup ((cr_servers c ++ [(s_fresh (cr_b c), false)]).*1).
Proof.
  intros Hi. rewrite fmap_app. apply NoDup_app. split; [apply Hi|]. split; [|by apply NoDup_singleton].
  intros l ([l' d] & -> & Hd)%list_elem_of_fmap. cbn. intros Hl'%list_elem_of_singleton. subst l'.
  destruct (iv_srv_ptr _ _ _ _ _ _ _ Hi _ _ Hd) as (k2 & ph2 & Hk2 & Hp2).
  pose proof (si_ptr _ _ _ _ _ _ (iv_b _ _ _ _ _ _ _ Hi) _ _ _ Hk2 Hp2). lia.
Qed.

(** The server's loop takes an open request, and the accept loop the channel. *)
Lemma offer_event (c : crowd (V := V) (T := T)) phs fab fba k sp la x :
  INV c phs (open_message x :: fab) fba → sps !! k = Some sp → phs !! k = Some (PRequested la x) →
  let lb := s_fresh (cr_b c) in
  let y := next_id (cr_b c) in
  ∃ c', exec EServerLoop c = Some c' ∧
    INV c' (<[k := POffered la x lb y]> phs) fab (fba ++ [confirm x y]).
Proof.
  intros Hi Hsp Hk lb y. pose proof (iv_a _ _ _ _ _ _ _ Hi) as Ha. pose proof (iv_b _ _ _ _ _ _ _ Hi) as Hb.
  pose proof (side_small _ _ _ need_b_nonneg _ _ _ Hb) as Hsm.
  pose proof (to_ab_none _ _ _ _ _ Hi (next_not_held _ _ _ _ _ _ Hb Hsm)) as Htoy. fold y in Htoy.
  destruct (iv_phase _ _ _ _ _ _ _ Hi k sp _ Hsp Hk) as (pc & Hpc & Hok).
  inversion Hok as [|? ? Hl Hop Hto| | |]; subst; clear Hok.
  destruct (si_held _ _ _ _ _ _ Ha _ _ _ _ Hk eq_refl) as (_ & _ & Hu).
  assert (ready (cr_b c)) as Hrd by (split; [done|apply Hb]).
  pose proof (iv_wf_ab _ _ _ _ _ _ _ Hi) as Hwf. apply Forall_cons in Hwf as [_ Hwf].
  pose proof (offer_packet _ x fab _ Hrd Hu (iv_in_b _ _ _ _ _ _ _ Hi)) as Hone.
  rewrite opens_cons, decide_True in Hop by done. injection Hop as Hop.
  eexists. split.
  { cbn [exec_event]. by eapply (at_server_ret _ _ _ _ _ _ _ _ [confirm x y]); [exact Hi|exact Hone|]. }
  unfold accept_new. cbn [cr_servers cr_b]. rewrite accept_one by done.
  eapply (inv_moves _ _ _ _ _ _ _ _ _ _ sp _ _ _ Hi Hk); [split|..]; try done.
  - exists (Opening (sp_call sp) la). split; [cbn; by rewrite list_insert_id|]. apply ok_offered; try done.
    + by rewrite to_app, Hto, to_cons, decide_True.
    + exact (offered_view x (fed fab (rd_err (s_dec b0)) (cr_b c))).
    + apply elem_of_app. right. by left.
  - intros l Hl'. cbn. rewrite lookup_insert_ne; [done|]. intros <-. by apply Hl'.
  - intros z _ Hz. apply (to_app_other x); [by apply Forall_singleton|exact Hz].
  - intros z Hz. rewrite opens_cons, decide_False; [done|]. cbn in Hz |- *. congruence.
  - intros m Hm. right. split; [by right|]. intros [(y' & l & ? & _)|(la' & x' & [= <- <-] & ->)]; [done|].
    assert (open_message x ∈ opens x fab) as Hin by by apply list_elem_of_filter.
    rewrite Hop in Hin. by apply elem_of_nil in Hin.
  - intros m [Hm| ->%list_elem_of_singleton]%elem_of_app; [by right|]. left. by eexists _, _.
  - apply Forall_app. split; [apply Hi|]. apply Forall_singleton. by destruct (add_id _ Hsm) as [? _].
  - intros l d _ Hd. apply elem_of_app. by left.
  - intros l d [Hd|[= -> ->]%list_elem_of_singleton]%elem_of_app; [by right|by left].
  - by eapply srv_fresh.
  - eapply (side_keep _ _ _ hold_ptr_a); [exact Ha|exact Hk|..]; try done; apply Ha.
  - eapply (side_add _ _ _ hold_ptr_b need_b_nonneg); [exact Hb|exact Hk|done|..]; try done.
    + by apply emit_ok, Hb.
    + intros l Hl'. cbn. by rewrite lookup_insert_ne.
Qed.

Lemma confirm_packet s la x y f e :
  s_dec s = mkReader (frames (confirm x y :: f)) e → message_wf (confirm x y) →
  s_heap s !! la = Some (requested x) → table s x = Some la →
  one_packet s = (Ret tt, put_ch la (set_msg (mkChan [confirm x y] chanSize false) (confirmed x y)) (fed f e s)).
Proof.
  intros Hd Hwf Hl Ht. eapply one_packet_ret; [exact Hd|].
  rewrite (onePacket_next (confirm x y) (frames f) e) by done.
  cbv beta iota zeta delta [confirm]. rewrite dispatch_eq. cbn [Message_Channel fst s_chans set_dec].
  unfold table in Ht. rewrite Ht. fold (fed f e s).
  rewrite (handle_confirm_eq la x y channelWindowSize channelMaxPacket _ (fed f e s) Hl), decide_False by done.
  reflexivity.
Qed.

(** The client's loop gives the confirmation to [Open]. *)
Lemma confirm_event (c : crowd (V := V) (T := T)) phs fab m fba k sp la x lb y :
  INV c phs fab (m :: fba) → sps !! k = Some sp → phs !! k = Some (POffered la x lb y) →
  Protocol.target m = Some x →
  ∃ c', exec EClientLoop c = Some c' ∧ INV c' (<[k := PConfirmed la x lb y]> phs) fab fba.
Proof.
  intros Hi Hsp Hk Hm. pose proof (iv_a _ _ _ _ _ _ _ Hi) as Ha. pose proof (iv_b _ _ _ _ _ _ _ Hi) as Hb.
  destruct (iv_phase _ _ _ _ _ _ _ Hi k sp _ Hsp Hk) as (pc & Hpc & Hok).
  inversion Hok as [| |? ? ? ? Hl Hto Hv Htoy Hsv| |]; subst; clear Hok.
  pose proof (to_head _ _ _ _ Hm Hto) as Hhd. injection Hhd as <- Htox. symmetry in Htox.
  destruct (si_held _ _ _ _ _ _ Ha _ _ _ _ Hk eq_refl) as (Htab & _ & Hu).
  pose proof (iv_wf_ba _ _ _ _ _ _ _ Hi) as Hwf. apply Forall_cons in Hwf as [Hwfm Hwf].
  pose proof (confirm_packet _ _ _ _ _ _ (iv_in_a _ _ _ _ _ _ _ Hi) Hwfm Hl Htab) as Hone.
  eexists. split.
  { cbn [exec_event]. by eapply (at_client_ret _ _ _ _ _ _ _ _ []); [exact Hi|exact Hone|rewrite emit_nil]. }
  rewrite app_nil_r.
  assert (∀ l, l ≠ la → s_heap (put_ch la (set_msg (mkChan [confirm x y] chanSize false) (confirmed x y))
    (fed fba (rd_err (s_dec a0)) (cr_a c))) !! l = s_heap (cr_a c) !! l) as Hh.
  { intros l Hl'. cbn. by rewrite lookup_insert_ne. }
  eapply (inv_moves _ _ _ _ _ _ _ _ _ _ sp _ _ _ Hi Hk); [split|..]; try done; try apply Hi.
  - exists (Opening (sp_call sp) la). split; [cbn; by rewrite list_insert_id|]. apply ok_confirmed; try done.
    apply heap_put_ch.
  - intros l Hl'. apply Hh. cbn in Hl'. congruence.
  - intros z Hz _. symmetry. by apply (to_cons_other x).
  - intros m' Hm'. right. split; [done|].
    by intros [(y' & l & [= <- <-] & Ht)|(? & ? & ? & _)]; [left; exists y, lb|].
  - intros m' Hm'. right. split; [by right|done].
  - intros l d Hd. by right.
  - eapply (side_keep _ _ _ hold_ptr_a); [exact Ha|exact Hk|..]; try done; [apply Ha..|].
    intros l Hl'. apply Hh. cbn in Hl'. congruence.
  - eapply (side_keep _ _ _ hold_ptr_b); [exact Hb|exact Hk|..]; try done; apply Hb.
Qed.

(** A joined channel takes a message in. *)
Lemma server_takes srv (sp : script V T) la lb va vb m fab fba pc st :
  v_closed vb = false → Protocol.target m = Some (v_local vb) →
  joined va vb (on_way vb (m :: fab)) (on_way va fba) →
  stage_ok srv sp la lb va vb (on_way vb (m :: fab)) (on_way va fba) pc st →
  ∃ vb' out, v_gets vb m vb' out ∧ flow va (m :: to_ (v_local vb) fab) vb ∧
    joined va vb' (on_way vb' fab) (on_way va (fba ++ out)) ∧
    stage_ok srv sp la lb va vb' (on_way vb' fab) (on_way va (fba ++ out)) pc st ∧
    v_local vb' = v_local vb ∧ (out = [] ∨ (out = [CloseMessage (v_local va)] ∧ v_closed va = false)) ∧
    on_way vb' fab = to_ (v_local vb) fab.
Proof.
  intros Hcl Hm. assert (on_way vb (m :: fab) = m :: to_ (v_local vb) fab) as ->
    by (unfold on_way; by rewrite Hcl, to_cons, decide_True).
  intros Hj Hst. destruct (joined_gets _ _ _ _ _ Hj) as (vb' & out & Hg & Hj').
  destruct (gets_same _ _ _ _ Hg) as (El & _ & _).
  pose proof (joined_answer _ _ _ _ _ _ _ Hj Hg) as Hout.
  pose proof (stage_server _ _ _ _ _ _ _ _ _ _ _ _ _ Hst (jn_flow_ab _ _ _ _ Hj) Hg) as Hst'.
  assert (on_way vb' fab = to_ (v_local vb) fab) as Eb'.
  { rewrite <- El in *. eapply on_way_flow, jn_flow_ab, Hj'. }
  exists vb', out. rewrite Eb', answer_on_way by done. by split_and!; [..|apply Hj| | | | |].
Qed.

Lemma client_takes srv (sp : script V T) la lb va vb m fab fba pc st :
  v_closed va = false → Protocol.target m = Some (v_local va) →
  joined va vb (on_way vb fab) (on_way va (m :: fba)) →
  stage_ok srv sp la lb va vb (on_way vb fab) (on_way va (m :: fba)) pc st →
  ∃ va' out, v_gets va m va' out ∧ flow vb (m :: to_ (v_local va) fba) va ∧
    joined va' vb (on_way vb (fab ++ out)) (on_way va' fba) ∧
    stage_ok srv sp la lb va' vb (on_way vb (fab ++ out)) (on_way va' fba) pc st ∧
    v_local va' = v_local va ∧ (out = [] ∨ (out = [CloseMessage (v_local vb)] ∧ v_closed vb = false)) ∧
    on_way va' fba = to_ (v_local va) fba.
Proof.
  intros Hcl Hm. assert (on_way va (m :: fba) = m :: to_ (v_local va) fba) as ->
    by (unfold on_way; by rewrite Hcl, to_cons, decide_True).
  intros Hj%joined_sym Hst. destruct (joined_gets _ _ _ _ _ Hj) as (va' & out & Hg & Hj').
  destruct (gets_same _ _ _ _ Hg) as (El & _ & _).
  pose proof (joined_answer _ _ _ _ _ _ _ Hj Hg) as Hout.
  pose proof (stage_client _ _ _ _ _ _ _ _ _ _ _ _ _ Hst (jn_flow_ab _ _ _ _ Hj) Hg) as Hst'.
  assert (on_way va' fba = to_ (v_local va) fba) as Ea'.
  { rewrite <- El in *. eapply on_way_flow, jn_flow_ab, Hj'. }
  exists va', out. rewrite Ea', answer_on_way by done.
  by split_and!; [..|apply Hj|apply joined_sym| | | |].
Qed.

(** Messages stay on the way only to channels still in use. *)
Lemma on_way_open v f m :
  on_way v f = to_ (v_local v) f → m ∈ f → Protocol.target m = Some (v_local v) → v_closed v = false.
Proof.
  intros Ef Hm Ht. destruct (v_closed v) eqn:Hc; [|done]. exfalso.
  unfold on_way in Ef. rewrite Hc in Ef. symmetry in Ef. by eapply to_nil_none.
Qed.

(** The session's part of that. *)
Lemma loop_gets hold ptr need s0 s phs k ph l v m f e v' out vs :
  side_inv hold ptr need s0 s phs → phs !! k = Some ph → hold ph = Some (v_local v, l) →
  view_at (s_heap s) l v → s_dec s = mkReader (frames (m :: f)) e →
  flow vs (m :: to_ (v_local v) f) v → v_gets v m v' out →
  ∃ s', one_packet s = (Ret tt, s') ∧ views s' l v' ∧ s_enc s' = emit out (s_enc s) ∧
    s_dec s' = mkReader (frames f) e ∧ s_fresh s' = s_fresh s ∧
    s_chans s' = (if v_closed v' then chanList_remove (v_local v) (s_chans s) else s_chans s) ∧
    ∀ l', Some l ≠ Some l' → s_heap s' !! l' = s_heap s !! l'.
Proof.
  intros Hs Hk Hh Hv Hd Hf Hg. destruct (si_held _ _ _ _ _ _ Hs _ _ _ _ Hk Hh) as (Htab & _ & Hu).
  destruct (flow_room _ _ _ _ Hf) as [? ?]. pose proof (flow_open _ _ _ _ Hf).
  destruct (session_gets s l v m (frames f) e v' out) as (s' & Hone & Hv' & He & Hd' & Hch & Hfr & Hot);
    try done; [split; [apply Hs|exact Hv]|].
  exists s'. split_and!; try done; [by eapply one_packet_ret|].
  intros l' Hl. apply Hot. congruence.
Qed.

(** The server's loop gives a channel what its peer sent. *)
Lemma server_gets_event (c : crowd (V := V) (T := T)) phs m fab fba k sp la lb va vb st :
  INV c phs (m :: fab) fba → sps !! k = Some sp → phs !! k = Some (PJoined la lb va vb st) →
  hold_b (PJoined la lb va vb st) = Some (v_local vb, lb) → Protocol.target m = Some (v_local vb) →
  ∃ c' vb' out, exec EServerLoop c = Some c' ∧ (v_closed vb' = false → out = []) ∧
    INV c' (<[k := PJoined la lb va vb' st]> phs) fab (fba ++ out).
Proof.
  intros Hi Hsp Hk Hh Hm. pose proof (iv_a _ _ _ _ _ _ _ Hi) as Ha. pose proof (iv_b _ _ _ _ _ _ _ Hi) as Hb.
  destruct (iv_phase _ _ _ _ _ _ _ Hi k sp _ Hsp Hk) as (pc & Hpc & Hok).
  inversion Hok as [| | | |? ? ? ? ? ? Hva Hvb Hj Hst]; subst; clear Hok.
  assert (v_closed vb = false) as Hcl by (cbn [hold_b] in Hh; by destruct (v_closed vb)).
  pose proof (iv_wf_ab _ _ _ _ _ _ _ Hi) as Hwf. apply Forall_cons in Hwf as [_ Hwf].
  destruct (server_takes _ _ _ _ _ _ _ _ _ _ _ Hcl Hm Hj Hst) as (vb' & out & Hg & Hf & Hj' & Hst' & El & Hout & Eb').
  destruct (loop_gets _ _ _ _ _ _ _ _ _ _ _ _ _ _ _ _ Hb Hk Hh Hvb (iv_in_b _ _ _ _ _ _ _ Hi) Hf Hg)
    as (b' & Hone & Hv' & He & Hd & Hfr & Hch & Hot).
  exists (mkCrowd (fed (fba ++ out) (rd_err (s_dec a0)) (cr_a c)) (flushed b') (cr_clients c) (cr_servers c)), vb', out.
  split; [|split; [by eapply gets_closed|]].
  { cbn [exec_event]. erewrite at_server_ret; [|exact Hi|exact Hone|exact He].
    f_equal. unfold accept_new. cbn. by rewrite Hfr, Nat.sub_diag, app_nil_r. }
  pose proof (answer_target _ _ Hout) as Htg.
  eapply (inv_moves _ _ _ _ _ _ _ _ _ _ sp _ _ _ Hi Hk); [split|..]; try done; try apply Hi.
  - exists pc. split; [cbn; by rewrite list_insert_id|]. apply ok_joined; [exact Hva|exact (proj2 Hv')|done|done].
  - intros z Hz _. symmetry. eapply to_cons_other; [exact Hm|]. by rewrite Hh in Hz.
  - intros z Hz _. destruct Hout as [->|[-> Hc]]; [by rewrite app_nil_r|].
    eapply to_app_other; [exact Htg|]. cbn in Hz |- *. by rewrite Hc in Hz.
  - intros z Hz. symmetry. apply target_opens. by eexists.
  - intros m' Hm'. right. split; [by right|]. intros [(y' & l & Hy & Ht)|(? & ? & ? & _)]; [|done].
    rewrite Hh in Hy. injection Hy as <- <-. left. exists (v_local vb), lb. cbn [hold_b]. rewrite <- El in *.
    by rewrite (on_way_open _ _ _ Eb' Hm' Ht).
  - intros m' [Hm'|Hm']%elem_of_app; [by right|left].
    destruct Hout as [->|[-> Hc]]; [by apply elem_of_nil in Hm'|]. apply list_elem_of_singleton in Hm' as ->.
    exists (v_local va), la. cbn [hold_a]. by rewrite Hc.
  - apply Forall_app. split; [apply Hi|]. apply (answer_wf va _ Hout). intros Hc.
    by destruct (si_held _ _ _ _ _ _ Ha k _ (v_local va) la Hk) as (_ & _ & ?); [cbn; rewrite Hc|].
  - intros l d Hin. by right.
  - eapply (side_keep _ _ _ hold_ptr_a); [exact Ha|exact Hk|..]; try done; apply Ha.
  - eapply (side_gets _ _ _ hold_ptr_b need_b_nonneg _ _ _ _ _ _ _ (v_local vb) lb (v_closed vb'));
      [exact Hb|exact Hk|..]; try done; [apply Hv'|cbn; by rewrite El].
Qed.

(** The client's loop does the same. *)
Lemma client_gets_event (c : crowd (V := V) (T := T)) phs m fab fba k sp la lb va vb st :
  INV c phs fab (m :: fba) → sps !! k = Some sp → phs !! k = Some (PJoined la lb va vb st) →
  hold_a (PJoined la lb va vb st) = Some (v_local va, la) → Protocol.target m = Some (v_local va) →
  ∃ c' va' out, exec EClientLoop c = Some c' ∧ (v_closed va' = false → out = []) ∧
    INV c' (<[k := PJoined la lb va' vb st]> phs) (fab ++ out) fba.
Proof.
  intros Hi Hsp Hk Hh Hm. pose proof (iv_a _ _ _ _ _ _ _ Hi) as Ha. pose proof (iv_b _ _ _ _ _ _ _ Hi) as Hb.
  destruct (iv_phase _ _ _ _ _ _ _ Hi k sp _ Hsp Hk) as (pc & Hpc & Hok).
  inversion Hok as [| | | |? ? ? ? ? ? Hva Hvb Hj Hst]; subst; clear Hok.
  assert (v_closed va = false) as Hcl by (cbn [hold_a] in Hh; by destruct (v_closed va)).
  pose proof (iv_wf_ba _ _ _ _ _ _ _ Hi) as Hwf. apply Forall_cons in Hwf as [_ Hwf].
  destruct (client_takes _ _ _ _ _ _ _ _ _ _ _ Hcl Hm Hj Hst) as (va' & out & Hg & Hf & Hj' & Hst' & El & Hout & Ea').
  destruct (loop_gets _ _ _ _ _ _ _ _ _ _ _ _ _ _ _ _ Ha Hk Hh Hva (iv_in_a _ _ _ _ _ _ _ Hi) Hf Hg)
    as (a' & Hone & Hv' & He & Hd & Hfr & Hch & Hot).
  exists (mkCrowd (flushed a') (fed (fab ++ out) (rd_err (s_dec b0)) (cr_b c)) (cr_clients c) (cr_servers c)), va', out.
  split; [|split; [by eapply gets_closed|]].
  { cbn [exec_event]. by erewrite at_client_ret; [|exact Hi|exact Hone|exact He]. }
  pose proof (answer_target _ _ Hout) as Htg.
  eapply (inv_moves _ _ _ _ _ _ _ _ _ _ sp _ _ _ Hi Hk); [split|..]; try done; try apply Hi.
  - exists pc. split; [cbn; by rewrite list_insert_id|]. apply ok_joined; [exact (proj2 Hv')|exact Hvb|done|done].
  - intros z Hz _. destruct Hout as [->|[-> Hc]]; [by rewrite app_nil_r|].
    eapply to_app_other; [exact Htg|]. cbn in Hz |- *. by rewrite Hc in Hz.
  - intros z Hz _. symmetry. eapply to_cons_other; [exact Hm|]. by rewrite Hh in Hz.
  - intros z _. by eapply opens_app_other.
  - intros m' [Hm'|Hm']%elem_of_app.
    + right. split; [done|]. intros [?|(? & ? & ? & _)]; [by left|done].
    + destruct Hout as [->|[-> Hc]]; [by apply elem_of_nil in Hm'|]. apply list_elem_of_singleton in Hm' as ->.
      left. left. exists (v_local vb), lb. cbn [hold_b]. by rewrite Hc.
  - intros m' Hm'. right. split; [by right|]. intros (y' & l & Hy & Ht).
    rewrite Hh in Hy. injection Hy as <- <-. exists (v_local va), la. cbn [hold_a]. rewrite <- El in *.
    by rewrite (on_way_open _ _ _ Ea' Hm' Ht).
  - apply Forall_app. split; [apply Hi|]. apply (answer_wf vb _ Hout). intros Hc.
    by destruct (si_held _ _ _ _ _ _ Hb k _ (v_local vb) lb Hk) as (_ & _ & ?); [cbn; rewrite Hc|].
  - intros l d Hin. by right.
  - eapply (side_gets _ _ _ hold_ptr_a need_a_nonneg _ _ _ _ _ _ _ (v_local va) la (v_closed va'));
      [exact Ha|exact Hk|..]; try done; [apply Hv'|cbn; by rewrite El].
  - eapply (side_keep _ _ _ hold_ptr_b); [exact Hb|exact Hk|..]; try done; apply Hb.
Qed.

(** *** The goroutines *)

Lemma pieces_target k m f : Forall (piece k m) f → Forall (λ x, Protocol.target x = Some k) f.
Proof. intros Hf. eapply Forall_impl; [exact Hf|]. by intros x []. Qed.

Lemma sends_put l ch s s' out : sends l (put_ch l ch s) s' out → sends l s s' out.
Proof.
  intros [He Hc Hd Hf Ho]. split; try done. eapply others_trans; [|exact Ho]. by apply others_put.
Qed.

(** A goroutine of the client's session goes on, and what it sends is for the peer
    of its own channel. *)
Lemma client_moves {A} (m : MS A) kf (c : crowd (V := V) (T := T)) phs fab fba k sp ph ph' x0 a' out pc' la :
  INV c phs fab fba → sps !! k = Some sp → phs !! k = Some ph →
  m (cr_a c) = (Ret x0, a') → sends la (cr_a c) a' out → writer_ok (s_enc a') → kf x0 = set_client k pc' →
  hold_a ph' = hold_a ph → hold_b ph' = hold_b ph → ptr_a ph' = Some la → ptr_a ph = Some la →
  ptr_b ph' = ptr_b ph → need_a ph' ≤ need_a ph → need_b ph' ≤ need_b ph →
  (∀ l x, ph ≠ PRequested l x) →
  out = [] ∨ (∃ y l, hold_b ph = Some (y, l) ∧ Forall (λ m, Protocol.target m = Some y) out) →
  Forall message_wf out →
  phase_ok (s_heap a') (s_heap (cr_b c)) (fab ++ out) fba (cr_servers c) sp pc' ph' →
  ∃ c', at_client m kf c = Some c' ∧ INV c' (<[k := ph']> phs) (fab ++ out) fba.
Proof.
  intros Hi Hsp Hk Hm [He Hch Hd Hf Ho] Hw Hkf Eha Ehb Epa' Epa Epb Ena Enb Hnr Hout Hwf Hok.
  pose proof (iv_a _ _ _ _ _ _ _ Hi) as Ha. pose proof (iv_b _ _ _ _ _ _ _ Hi) as Hb.
  eexists. split; [by eapply at_client_ret|]. rewrite Hkf.
  assert (∀ l, ptr_a ph' ≠ Some l → s_heap a' !! l = s_heap (cr_a c) !! l) as Hheap.
  { intros l Hl. apply Ho. congruence. }
  eapply (inv_moves _ _ _ _ _ _ _ _ _ _ sp _ _ _ Hi Hk); [split|..]; try done; try apply Hi.
  - by exists pc'.
  - intros z Hz _. destruct Hout as [->|(y & l & Hy & Ht)]; [by rewrite app_nil_r|].
    eapply to_app_other; [exact Ht|]. by rewrite Hy in Hz.
  - intros z Hz. destruct Hout as [->|(y & l & Hy & Ht)]; [by rewrite app_nil_r|by eapply opens_app_other].
  - intros m' [Hm'|Hm']%elem_of_app.
    + right. split; [done|]. intros [(y & l & Hy & Ht)|(l & x & -> & _)]; [|by destruct (Hnr l x)].
      left. exists y, l. by rewrite Ehb.
    + left. destruct Hout as [->|(y & l & Hy & Ht)]; [by apply elem_of_nil in Hm'|].
      left. exists y, l. rewrite Ehb. split; [done|]. rewrite Forall_forall in Ht. by apply Ht.
  - intros m' Hm'. right. split; [done|]. intros (x & l & Hx & Ht). exists x, l. by rewrite Eha.
  - apply Forall_app. split; [apply Hi|done].
  - intros l d Hin. right. split; [done|]. congruence.
  - eapply (side_keep _ _ _ hold_ptr_a); [exact Ha|exact Hk|..]; try done. congruence.
  - eapply (side_keep _ _ _ hold_ptr_b); [exact Hb|exact Hk|..]; try done; apply Hb.
  - cbn. rewrite Hd. apply Hi.
Qed.

(** The goroutine [j] is done. *)
Lemma srv_done_old (srv : list (chan_ptr * bool)) j lb l d :
  srv !! j = Some (lb, false) → l ≠ lb → (l, d) ∈ srv → (l, d) ∈ <[j := (lb, true)]> srv.
Proof.
  intros Hj Hl [j' Hj']%list_elem_of_lookup. assert (j ≠ j') by congruence.
  apply list_elem_of_lookup. exists j'. by rewrite list_lookup_insert_ne.
Qed.

Lemma srv_done_new (srv : list (chan_ptr * bool)) j lb l d :
  srv !! j = Some (lb, false) → (l, d) ∈ <[j := (lb, true)]> srv → (l, d) = (lb, true) ∨ (l, d) ∈ srv.
Proof.
  intros Hj [j' Hj']%list_elem_of_lookup. apply lookup_moved in Hj' as [[_ ->]|[_ Hj']]; [by left|right].
  by eapply list_elem_of_lookup_2.
Qed.

Lemma srv_done_ptrs (srv : list (chan_ptr * bool)) j lb :
  srv !! j = Some (lb, false) → (<[j := (lb, true)]> srv).*1 = srv.*1.
Proof. intros Hj. rewrite list_fmap_insert. apply list_insert_id. by rewrite list_lookup_fmap, Hj. Qed.

(** A goroutine of the server's answers. *)
Lemma server_moves {A} (m : MS A) kf (c : crowd (V := V) (T := T)) phs fab fba k sp ph ph' x0 b' out j lb :
  INV c phs fab fba → sps !! k = Some sp → phs !! k = Some ph →
  m (cr_b c) = (Ret x0, b') → sends lb (cr_b c) b' out → writer_ok (s_enc b') →
  cr_servers c !! j = Some (lb, false) → kf x0 = set_server j (lb, true) →
  hold_a ph' = hold_a ph → hold_b ph' = hold_b ph → ptr_b ph' = Some lb → ptr_b ph = Some lb →
  ptr_a ph' = ptr_a ph → need_a ph' ≤ need_a ph → need_b ph' ≤ need_b ph →
  (∀ l x, ph ≠ PRequested l x) →
  out = [] ∨ (∃ x l, hold_a ph = Some (x, l) ∧ Forall (λ m, Protocol.target m = Some x) out) →
  Forall message_wf out →
  (∀ pc, phase_ok (s_heap (cr_a c)) (s_heap (cr_b c)) fab fba (cr_servers c) sp pc ph →
    phase_ok (s_heap (cr_a c)) (s_heap b') fab (fba ++ out) (<[j := (lb, true)]> (cr_servers c)) sp pc ph') →
  ∃ c', at_server m kf c = Some c' ∧ INV c' (<[k := ph']> phs) fab (fba ++ out).
Proof.
  intros Hi Hsp Hk Hm [He Hch Hd Hf Ho] Hw Hj Hkf Eha Ehb Epb' Epb Epa Ena Enb Hnr Hout Hwf Hok.
  pose proof (iv_a _ _ _ _ _ _ _ Hi) as Ha. pose proof (iv_b _ _ _ _ _ _ _ Hi) as Hb.
  eexists. split; [by eapply at_server_ret|]. rewrite Hkf.
  assert (∀ l, ptr_b ph' ≠ Some l → s_heap b' !! l = s_heap (cr_b c) !! l) as Hheap.
  { intros l Hl. apply Ho. congruence. }
  destruct (iv_phase _ _ _ _ _ _ _ Hi k sp _ Hsp Hk) as (pc & Hpc & Hph).
  eapply (inv_moves _ _ _ _ _ _ _ _ _ _ sp _ _ _ Hi Hk); [split|..]; try done; try apply Hi.
  - exists pc. split; [cbn; by rewrite list_insert_id|]. by apply Hok.
  - intros z Hz _. destruct Hout as [->|(y & l & Hy & Ht)]; [by rewrite app_nil_r|].
    eapply to_app_other; [exact Ht|]. by rewrite Hy in Hz.
  - intros m' Hm'. right. split; [done|]. intros [(y & l & Hy & Ht)|(l & x & -> & _)]; [|by destruct (Hnr l x)].
    left. exists y, l. by rewrite Ehb.
  - intros m' [Hm'|Hm']%elem_of_app.
    + right. split; [done|]. intros (x & l & Hx & Ht). exists x, l. by rewrite Eha.
    + left. destruct Hout as [->|(x & l & Hx & Ht)]; [by apply elem_of_nil in Hm'|].
      exists x, l. rewrite Eha. split; [done|]. rewrite Forall_forall in Ht. by apply Ht.
  - apply Forall_app. split; [apply Hi|done].
  - intros l d Hl Hin. apply (srv_done_old _ _ _ _ _ Hj); [congruence|done].
  - intros l d [[= -> ->]|Hin]%(srv_done_new _ _ _ _ _ Hj); [by left|right]. split; [done|congruence].
  - cbn. rewrite (srv_done_ptrs _ _ _ Hj). apply Hi.
  - eapply (side_keep _ _ _ hold_ptr_a); [exact Ha|exact Hk|..]; try done; apply Ha.
  - eapply (side_keep _ _ _ hold_ptr_b); [exact Hb|exact Hk|..]; try done. congruence.
  - cbn. rewrite Hd. apply Hi.
Qed.

Local Abbreviation scripted := (scripted fuel mux_fuel ms hn).

Lemma fits_bounds sp :
  scripted sp → 0 ≤ len (sp_request sp) ≤ channelWindowSize ∧ 0 ≤ len (sp_response sp) ≤ channelWindowSize ∧
  sp_size sp ≤ channelWindowSize ∧ sp_size sp < Z.of_nat fuel ∧ channelWindowSize + channelWindowSize < 2 ^ 32.
Proof.
  intros Hs. destruct (sc_fits _ _ _ _ _ Hs) as [? ?]. unfold sp_size in *.
  pose proof (len_nonneg (sp_request sp)). pose proof (len_nonneg (sp_response sp)).
  assert (channelWindowSize + channelWindowSize < 2 ^ 32) by by vm_compute. lia.
Qed.

Lemma pieces_wf k f : is_u32 k → Forall (piece k channelMaxPacket) f → Forall message_wf f.
Proof. intros Hk Hf. eapply Forall_impl; [exact Hf|]. intros m Hm. by eapply piece_wf. Qed.

(** The channel [Open] returns. *)
Lemma confirmed_view h l x y :
  h !! l = Some (confirmed x y) → view_at h l (fresh_view x y).
Proof.
  intros Hl. eexists. split; [exact Hl|]. split; try done; try by vm_compute. apply newBuffer_repr.
Qed.

(** *** Sending the request *)

Lemma ask_run sp s la x y :
  scripted sp → views s la (fresh_view x y) →
  ∃ s' out, on_channel fuel la (p_call_request (cl_selector (sp_call sp)) (cl_args (sp_call sp))) s = (Ret None, s') ∧
    views s' la (waiting_view x y (sp_request sp)) ∧ sends la s s' out ∧
    Forall (piece y channelMaxPacket) out ∧ stream_to y out = sp_request sp ∧ total_credit out = 0.
Proof.
  intros Hsc Hv. destruct (sc_ask _ _ _ _ _ Hsc) as (Hsm & σ & Hrun & Hsent & Hcl).
  destruct (fits_bounds sp Hsc) as (? & ? & ? & ? & _).
  destruct (run_on_channel (sp_size sp) fuel (p_call_request (cl_selector (sp_call sp)) (cl_args (sp_call sp)))
    s la (fresh_view x y) fresh_end None σ Hv)
    as (s' & out & Hr & [Av As _ _ Ap Ast Ac _]); try done.
  change (end_sent fresh_end) with (@nil byte) in *. cbn [app v_remote fresh_view v_packet v_queue] in *.
  change (len (@nil byte)) with 0 in Ac. pose proof (len_nonneg (rd_data (ce_in (sv_ch σ)))).
  pose proof (total_credit_nonneg _ _ _ Ap).
  assert (rd_data (ce_in (sv_ch σ)) = []) as Hrd by (apply len_zero_nil; lia).
  unfold hung_up in As. rewrite Hcl, orb_true_r, app_nil_r in As.
  exists s', out. split; [exact Hr|]. split; [|split; [done|split; [done|split; [congruence|lia]]]].
  assert (end_view (fresh_view x y) [] (sv_ch σ) = waiting_view x y (sp_request sp)) as <-; [|done].
  unfold end_view, waiting_view. cbn [v_local v_remote v_packet v_queue v_win v_mine v_closed fresh_view].
  rewrite Hrd, Hsent, Hcl. change (len (@nil byte)) with 0. f_equal; lia.
Qed.

Lemma ask_event (c : crowd (V := V) (T := T)) phs fab fba k sp la x lb y :
  scripted sp → INV c phs fab fba → sps !! k = Some sp → phs !! k = Some (PConfirmed la x lb y) →
  ∃ c' out, exec (EAsk k) c = Some c' ∧
    INV c' (<[k := PJoined la lb (waiting_view x y (sp_request sp)) (fresh_view y x) Asked]> phs) (fab ++ out) fba.
Proof.
  intros Hsc Hi Hsp Hk. pose proof (iv_a _ _ _ _ _ _ _ Hi) as Ha. pose proof (iv_b _ _ _ _ _ _ _ Hi) as Hb.
  destruct (iv_phase _ _ _ _ _ _ _ Hi k sp _ Hsp Hk) as (pc & Hpc & Hok).
  inversion Hok as [| | |? ? ? ? Hl Hto Hv Htoy Hsv|]; subst; clear Hok.
  destruct (si_held _ _ _ _ _ _ Hb _ _ _ _ Hk eq_refl) as (_ & _ & Huy).
  set (a1 := put_ch la (confirmed x y) (cr_a c)).
  assert (session_Open_wait la None (cr_a c) = (Ret (Ok la), a1)) as Hw.
  { rewrite (Open_wait_eq _ _ _ _ Hl). cbn [c_msg set_msg ch_buf]. reflexivity. }
  assert (views a1 la (fresh_view x y)) as Hv1.
  { split; [apply Ha|]. apply confirmed_view. cbn. apply lookup_insert_eq. }
  destruct (ask_run sp a1 la x y Hsc Hv1) as (a' & out & Hr & Hv' & Hs & Hp & Hq & Hc).
  destruct (fits_bounds sp Hsc) as (? & ? & ? & ? & ?).
  edestruct (client_moves (client_ask fuel (sp_call sp) la) (λ r, set_client k
      (match r with None => Waiting (sp_call sp) la | Some e => failed e end)) c phs fab fba k sp
      (PConfirmed la x lb y) (PJoined la lb (waiting_view x y (sp_request sp)) (fresh_view y x) Asked)
      None a' out (Waiting (sp_call sp) la) la) as (c' & He & Hi'); try done.
  - unfold client_ask. by rewrite (bind_ret _ _ _ _ _ Hw).
  - by eapply sends_put.
  - apply Hv'.
  - right. exists y, lb. split; [done|]. by eapply pieces_target.
  - by eapply pieces_wf.
  - assert (on_way (fresh_view y x) (fab ++ out) = out) as Eb.
    { unfold on_way. cbn [v_closed v_local fresh_view]. rewrite to_app, Htoy. cbn [app].
      by apply to_all; eapply pieces_target. }
    assert (on_way (waiting_view x y (sp_request sp)) fba = []) as Ea.
    { unfold on_way. cbn [v_closed v_local waiting_view]. done. }
    apply ok_joined; rewrite ?Ea, ?Eb; [apply Hv'|done| |].
    + split; try done.
      * split; cbn [v_closed v_sent v_mine v_win v_local waiting_view fresh_view]; intros ?; [done|..].
        -- exists out. by rewrite app_nil_r.
        -- rewrite Hq. lia.
        -- rewrite Hc. lia.
      * split; cbn [v_closed v_sent v_mine v_win v_local waiting_view fresh_view]; intros ?; [done|..].
        -- by exists [].
        -- by vm_compute.
        -- change (total_credit []) with 0. lia.
    + apply (stage_asked _ _ _ _ _ _ _ _ []); try done.
  - exists c', out. split; [|done]. cbn [exec_event]. by rewrite Hpc.
Qed.
(** *** Answering *)

Lemma serve_run sp s lb y x got rest :
  scripted sp → views s lb (asked_view y x got) → got ++ rest = sp_request sp →
  (rest = [] ∧ ∃ s' out vb', on_channel fuel lb (p_Server_respond mux_fuel ms hn) s = (Ret tt, s') ∧
     views s' lb vb' ∧ v_local vb' = y ∧ v_remote vb' = x ∧ v_packet vb' = channelMaxPacket ∧
     v_sent vb' = true ∧ v_closed vb' = false ∧ v_win vb' ≤ channelWindowSize ∧
     sends lb s s' (out ++ [CloseMessage x]) ∧ Forall (piece x channelMaxPacket) out ∧
     stream_to x out = sp_response sp ∧ total_credit out ≤ len (sp_request sp)) ∨
  (rest ≠ [] ∧ ∃ s', on_channel fuel lb (p_Server_respond mux_fuel ms hn) s = (Block, s')).
Proof.
  intros Hsc Hv Hq. destruct (sc_serve _ _ _ _ _ Hsc) as (Hsm & σ & Hrun & Hsent & Hrd & Hcl).
  destruct (fits_bounds sp Hsc) as (? & ? & ? & ? & _). rewrite <- Hq in Hsm, Hrun.
  destruct (on_channel_prefix (sp_size sp) fuel lb (asked_view y x got) (p_Server_respond mux_fuel ms hn) s
    rest io_EOF tt σ) as [(s' & out & e1 & Hr & Hv' & Hs & Hp & Hst & Hc & Hi & Ho & Hn)|[Hw Hne]]; try done.
  - left. rewrite Hrd in Hi. symmetry in Hi. apply app_eq_nil in Hi as [Hi ->]. rewrite app_nil_r in Hq.
    split; [done|]. exists s', out, (end_view (asked_view y x got) [] e1).
    rewrite (proj2 (Nat.eqb_neq _ _) Hcl) in Hs. cbn [v_remote asked_view v_packet v_queue] in *.
    split_and!; try done.
    + cbn [v_sent end_view]. rewrite <- Hn. by rewrite (proj2 (Nat.eqb_neq _ _) Hcl).
    + cbn [v_win end_view asked_view]. change (len (@nil byte)) with 0. pose proof (len_nonneg (end_sent e1)). lia.
    + congruence.
    + subst got. pose proof (len_nonneg (rd_data (ce_in e1))). lia.
  - by right.
Qed.

(** What the two channels are like then. *)
Lemma served_joined sp va vb vb' fab out :
  scripted sp → va = waiting_view (v_local va) (v_local vb) (sp_request sp) →
  joined va vb fab [] → total_credit fab = 0 → stream_to (v_local vb) fab = [] → v_closed vb = false →
  v_local vb' = v_local vb → v_remote vb' = v_local va → v_packet vb' = channelMaxPacket →
  v_sent vb' = true → v_closed vb' = false → v_win vb' ≤ channelWindowSize → 0 ≤ v_mine vb' →
  Forall (piece (v_local va) channelMaxPacket) out → stream_to (v_local va) out = sp_response sp →
  total_credit out ≤ len (sp_request sp) →
  joined va vb' fab (out ++ [CloseMessage (v_local va)]).
Proof.
  intros Hsc Eva [Hab Hba Hpa Hpb Hf _] Hcr Hfab Hcb El Er Ep Es Ec Ew Hm Hp Hstr Hcred.
  destruct (fits_bounds sp Hsc) as (? & ? & ? & ? & ?).
  assert (v_mine va = channelWindowSize ∧ v_win va = channelWindowSize - len (sp_request sp) ∧ v_closed va = false)
    as (Hmine & Hwin & Hca) by (rewrite Eva; done).
  split; try congruence.
  - split; rewrite ?El, ?Ec; intros Hc; [done| | |].
    + destruct (fl_pieces _ _ _ Hf Hcb) as (ps & -> & Hps). by exists ps.
    + rewrite Hfab. exact Hm.
    + lia.
  - split; rewrite ?Hca, ?Hmine, ?Hwin; intros Hc; [done| | |].
    + exists out. by rewrite Es.
    + rewrite stream_to_app, Hstr. unfold stream_to. cbn [fmap list_fmap mjoin list_join data_of].
      rewrite app_nil_r. lia.
    + rewrite total_credit_app. change (total_credit [_]) with 0. lia.
Qed.

Lemma serve_event (c : crowd (V := V) (T := T)) phs fab fba k sp la lb va vb j :
  scripted sp → INV c phs fab fba → sps !! k = Some sp → phs !! k = Some (PJoined la lb va vb Asked) →
  cr_servers c !! j = Some (lb, false) →
  (∃ c' vb' out, exec (EServe j) c = Some c' ∧
    INV c' (<[k := PJoined la lb va vb' Served]> phs) fab (fba ++ out)) ∨
  (exec (EServe j) c = None ∧ fab ≠ []).
Proof.
  intros Hsc Hi Hsp Hk Hj. pose proof (iv_b _ _ _ _ _ _ _ Hi) as Hb. pose proof (iv_a _ _ _ _ _ _ _ Hi) as Ha.
  destruct (iv_phase _ _ _ _ _ _ _ Hi k sp _ Hsp Hk) as (pc & Hpc & Hok).
  inversion Hok as [| | | |? ? ? ? ? ? Hva Hvb Hjn Hst]; subst; clear Hok.
  inversion Hst as [got Eva Evb Hq Hcr Hfba Hsv| |]; subst; clear Hst.
  destruct (fits_bounds sp Hsc) as (? & ? & ? & ? & ?).
  rewrite Evb in Hvb.
  destruct (serve_run sp (cr_b c) lb (v_local vb) (v_local va) got _ Hsc (conj (si_writer _ _ _ _ _ _ Hb) Hvb) Hq)
    as [(Hrest & b' & out & vb' & Hr & Hv' & El & Er & Ep & Es & Ec & Ew & Hs & Hp & Hstr & Hcred)|[Hne [b' Hr]]].
  2: { right. split.
    - cbn [exec_event]. rewrite Hj. unfold at_server. by rewrite Hr.
    - intros ->. unfold on_way in Hne. by rewrite Evb in Hne. }
  left. assert (v_closed va = false ∧ v_closed vb = false) as [Hca Hcb] by (rewrite Eva, Evb; done).
  assert (hold_a (PJoined la lb va vb Asked) = Some (v_local va, la)) as Hha by (cbn; by rewrite Hca).
  destruct (si_held _ _ _ _ _ _ Ha _ _ _ _ Hk Hha) as (_ & _ & Hux).
  destruct (server_moves (on_channel fuel lb (p_Server_respond mux_fuel ms hn)) (λ _, set_server j (lb, true))
    c phs fab fba k sp (PJoined la lb va vb Asked) (PJoined la lb va vb' Served) tt b' (out ++ [CloseMessage (v_local va)]) j lb)
    as (c' & He & Hi'); try done.
  - apply Hv'.
  - cbn. by rewrite Ec, Hcb, El.
  - right. exists (v_local va), la. split; [done|]. apply Forall_app. split; [by eapply pieces_target|by apply Forall_singleton].
  - apply Forall_app. split; [by eapply pieces_wf|by apply Forall_singleton].
  - intros pc' Hok'. inversion Hok' as [| | | |? ? ? ? ? ? _ _ _ Hst']; subst. inversion Hst'; subst.
    assert (on_way vb' fab = on_way vb fab) as Eb by (unfold on_way; by rewrite Ec, Hcb, El).
    assert (on_way va (fba ++ out ++ [CloseMessage (v_local va)]) = out ++ [CloseMessage (v_local va)]) as Ea.
    { rewrite on_way_app; [by rewrite Hfba| |by right]. apply Forall_app.
      split; [by eapply pieces_target|by apply Forall_singleton]. }
    apply ok_joined; rewrite ?Ea, ?Eb; [done|apply Hv'| |].
    + eapply (served_joined sp va vb); try done; [by rewrite Hfba in Hjn|].
      destruct Hv' as (_ & ch & _ & Hch). apply (vo_mine_ok _ _ Hch).
    + apply stage_served; try done.
      * by rewrite Eva.
      * rewrite stream_to_app, Hstr. unfold stream_to. cbn [fmap list_fmap mjoin list_join data_of].
        rewrite app_nil_r, Eva. done.
      * intros _. lia.
      * apply list_elem_of_lookup. exists j. apply list_lookup_insert_eq. by eapply lookup_lt_Some.
  - exists c', vb', (out ++ [CloseMessage (v_local va)]). split; [|done]. cbn [exec_event]. by rewrite Hj.
Qed.
Lemma serve_waits (c : crowd (V := V) (T := T)) phs fab fba j lb x y sp :
  scripted sp → INV c phs fab fba → cr_servers c !! j = Some (lb, false) →
  view_at (s_heap (cr_b c)) lb (fresh_view y x) → exec (EServe j) c = None.
Proof.
  intros Hsc Hi Hj Hv. cbn [exec_event]. rewrite Hj. unfold at_server.
  assert (fresh_view y x = asked_view y x []) as Ev.
  { done. }
  rewrite Ev in Hv.
  destruct (serve_run sp (cr_b c) lb y x [] (sp_request sp) Hsc
    (conj (si_writer _ _ _ _ _ _ (iv_b _ _ _ _ _ _ _ Hi)) Hv) eq_refl) as [[Hn _]|[_ [s' Hr]]].
  - by destruct (sc_some _ _ _ _ _ Hsc).
  - by rewrite Hr.
Qed.

(** *** Reading the response *)

Lemma read_run_open sp s la va rest :
  scripted sp → views s la va → v_sent va = false → v_closed va = false → v_packet va = channelMaxPacket →
  v_queue va ++ rest = sp_response sp →
  (∃ s' out va', on_channel fuel la (p_call_response (cl_replies (sp_call sp))) s = (Ret (sp_result sp), s') ∧
     views s' la va' ∧ v_local va' = v_local va ∧ v_remote va' = v_remote va ∧
     v_packet va' = channelMaxPacket ∧ v_sent va' = true ∧ v_closed va' = false ∧
     v_win va' = v_win va ∧ v_mine va ≤ v_mine va' ∧
     sends la s s' (out ++ [CloseMessage (v_remote va)]) ∧
     Forall (piece (v_remote va) channelMaxPacket) out ∧ stream_to (v_remote va) out = [] ∧
     total_credit out ≤ len (sp_response sp)) ∨
  (rest ≠ [] ∧ ∃ s', on_channel fuel la (p_call_response (cl_replies (sp_call sp))) s = (Block, s')).
Proof.
  intros Hsc Hv Hs Hc Hpk Hq.
  destruct (sc_read _ _ _ _ _ Hsc (Z.min (v_win va) (-1)) 0%nat) as (Hsm & _ & σ & Hrun & Hsent & Hcl & _).
  rewrite <- Hq in Hsm, Hrun.
  destruct (on_channel_prefix (Z.min (v_win va) (-1)) fuel la va (p_call_response (cl_replies (sp_call sp))) s
    rest io_EOF (sp_result sp) σ) as [(s' & out & e1 & Hr & Hv' & Hs' & Hp & Hst & Hcr & Hi & Ho & Hn)|[Hw Hne]];
    try done; [lia|lia| |by right].
  left. exists s', out, (end_view va [] e1). rewrite Hcl in Hs'.
  assert (end_sent e1 = []) as He1 by (unfold end_sent in *; by rewrite <- Ho).
  pose proof (len_nonneg (rd_data (ce_in e1))).
  assert (len (v_queue va) ≤ len (sp_response sp)) by (rewrite <- Hq, len_app; pose proof (len_nonneg rest); lia).
  split_and!; try done.
  - cbn [v_sent end_view]. by rewrite <- Hn, Hcl.
  - cbn [v_win end_view]. rewrite He1. change (len (@nil byte)) with 0. lia.
  - cbn [v_mine end_view]. pose proof (total_credit_nonneg _ _ _ Hp). lia.
  - by rewrite <- Hpk.
  - by rewrite Hst.
  - lia.
Qed.

Lemma read_run_closed sp s la va :
  scripted sp → views s la va → v_sent va = true → v_closed va = true → v_queue va = sp_response sp →
  ∃ s' va', on_channel fuel la (p_call_response (cl_replies (sp_call sp))) s = (Ret (sp_result sp), s') ∧
    views s' la va' ∧ v_local va' = v_local va ∧ v_remote va' = v_remote va ∧
    v_packet va' = v_packet va ∧ v_sent va' = true ∧ v_closed va' = true ∧ sends la s s' [].
Proof.
  intros Hsc Hv Hs Hc Hq.
  destruct (sc_read _ _ _ _ _ Hsc (Z.min (v_win va) (-1)) 1%nat) as (_ & Hro & σ & Hrun & Hsent & Hcl & _).
  set (e := mkEnd (mkReader (sp_response sp) io_EOF) (mkWriter [] []) 1) in *.
  destruct (run_on_channel (Z.min (v_win va) (-1)) fuel (p_call_response (cl_replies (sp_call sp))) s la va e
    (sp_result sp) σ Hv) as (s' & out & Hr & [Av As _ _ _ _ _ Aq]); try done.
  { rewrite Hc. by apply reads_only_smooth. }
  { change (len (end_sent e)) with 0. lia. }
  { lia. }
  destruct (Aq Hs) as [-> _]. unfold hung_up in As. rewrite Hs in As. cbn [orb app] in As.
  exists s', (end_view va (end_sent e) (sv_ch σ)). split_and!; try done.
  cbn [v_sent end_view]. by rewrite Hcl.
Qed.
(** What the two channels are like after that, if the close message had not come yet. *)
Lemma ended_joined sp va vb va' fab fba out :
  scripted sp → joined va vb fab fba → v_sent va = false → v_closed va = false → v_closed vb = false →
  v_local va' = v_local va → v_remote va' = v_remote va → v_packet va' = channelMaxPacket →
  v_sent va' = true → v_closed va' = false → v_win va' = v_win va → v_mine va ≤ v_mine va' →
  v_win vb + total_credit fab ≤ channelWindowSize →
  Forall (piece (v_remote va) channelMaxPacket) out → stream_to (v_remote va) out = [] →
  total_credit out ≤ len (sp_response sp) →
  joined va' vb (fab ++ out ++ [CloseMessage (v_remote va)]) fba.
Proof.
  intros Hsc [Hab Hba Hpa Hpb Hf Hg] Hsa Hca Hcb El Er Ep Es Ec Ew Em Hcr Hp Hstr Hcred.
  destruct (fits_bounds sp Hsc) as (? & ? & ? & ? & ?). rewrite Hab in *.
  split; try congruence.
  - split; intros Hc; [congruence| | |].
    + destruct (fl_pieces _ _ _ Hf Hcb) as (ps & -> & Hps). exists (ps ++ out). rewrite Hsa, app_nil_r, Es.
      split; [by rewrite app_assoc|by apply Forall_app].
    + rewrite !stream_to_app, Hstr. unfold stream_to at 2. cbn [fmap list_fmap mjoin list_join data_of].
      rewrite !app_nil_r. by apply Hf.
    + rewrite !total_credit_app. change (total_credit [_]) with 0. lia.
  - split; rewrite ?El; intros Hc; [congruence| | |].
    + by apply Hg.
    + pose proof (fl_room _ _ _ Hg Hca). lia.
    + rewrite Ew. by apply Hg.
Qed.

(** And if it had: nothing more is on the way, and nothing more is sent. *)
Lemma closed_joined va vb va' fab fba :
  joined va vb fab fba → v_sent va = true → v_sent vb = true → fba = [] →
  v_local va' = v_local va → v_remote va' = v_remote va → v_packet va' = v_packet va →
  v_sent va' = true → v_closed va' = true → joined va' vb fab fba.
Proof.
  intros [Hab Hba Hpa Hpb Hf Hg] Hsa Hsb -> El Er Ep Es Ec. split; try congruence.
  - destruct Hf as [Ho Hp Hr' Hw']. split; try done; rewrite Es; rewrite ?Hsa in *; done.
  - split; rewrite ?Ec; done.
Qed.

Lemma read_closed_event (c : crowd (V := V) (T := T)) phs fab fba k sp la lb va vb :
  scripted sp → INV c phs fab fba → sps !! k = Some sp → phs !! k = Some (PJoined la lb va vb Served) →
  v_closed va = true →
  ∃ c' va', exec (ERead k) c = Some c' ∧ INV c' (<[k := PJoined la lb va' vb Ended]> phs) (fab ++ []) fba.
Proof.
  intros Hsc Hi Hsp Hk Hca. pose proof (iv_a _ _ _ _ _ _ _ Hi) as Ha.
  destruct (iv_phase _ _ _ _ _ _ _ Hi k sp _ Hsp Hk) as (pc & Hpc & Hok).
  inversion Hok as [| | | |? ? ? ? ? ? Hva Hvb Hjn Hst]; subst; clear Hok.
  inversion Hst as [|Hsb Hsa Hq Hw Hsv|]; subst; clear Hst. rewrite Hca in Hsa.
  pose proof (conj (si_writer _ _ _ _ _ _ Ha) Hva : views (cr_a c) la va) as Hv.
  destruct (fl_over _ _ _ (jn_flow_ba _ _ _ _ Hjn) Hca) as [Hfba _]. rewrite Hfba, app_nil_r in Hq.
  destruct (read_run_closed sp (cr_a c) la va Hsc Hv Hsa Hca Hq)
    as (a' & va' & Hr & Hv' & El & Er & Ep & Es & Ec & Hs).
  destruct (client_moves (on_channel fuel la (p_call_response (cl_replies (sp_call sp))))
    (λ r, set_client k (Returned r)) c phs fab fba k sp
    (PJoined la lb va vb Served) (PJoined la lb va' vb Ended) (sp_result sp) a' []
    (Returned (sp_result sp)) la) as (c' & He & Hi'); try done.
  - apply Hv'.
  - cbn. by rewrite Ec, Hca.
  - by left.
  - assert (on_way va' fba = on_way va fba) as Ea by (unfold on_way; by rewrite Ec, Hca).
    rewrite app_nil_r. apply ok_joined; rewrite ?Ea; [apply Hv'|done|by eapply closed_joined|by apply stage_ended].
  - exists c', va'. split; [|done]. cbn [exec_event]. by rewrite Hpc.
Qed.

Lemma read_event (c : crowd (V := V) (T := T)) phs fab fba k sp la lb va vb :
  scripted sp → INV c phs fab fba → sps !! k = Some sp → phs !! k = Some (PJoined la lb va vb Served) →
  (∃ c' va' out, exec (ERead k) c = Some c' ∧
    INV c' (<[k := PJoined la lb va' vb Ended]> phs) (fab ++ out) fba) ∨
  (exec (ERead k) c = None ∧ fba ≠ []).
Proof.
  intros Hsc Hi Hsp Hk. pose proof (iv_b _ _ _ _ _ _ _ Hi) as Hb. pose proof (iv_a _ _ _ _ _ _ _ Hi) as Ha.
  destruct (iv_phase _ _ _ _ _ _ _ Hi k sp _ Hsp Hk) as (pc & Hpc & Hok).
  inversion Hok as [| | | |? ? ? ? ? ? Hva Hvb Hjn Hst]; subst; clear Hok.
  inversion Hst as [|Hsb Hsa Hq Hw Hsv|]; subst; clear Hst.
  pose proof (conj (si_writer _ _ _ _ _ _ Ha) Hva : views (cr_a c) la va) as Hv.
  destruct (v_closed va) eqn:Hca.
  { left. destruct (read_closed_event c phs fab fba k sp la lb va vb) as (c' & va' & He & Hi'); [done..|].
    by exists c', va', []. }
  assert (v_closed vb = false) as Hcb.
  { destruct (v_closed vb) eqn:E; [|done]. destruct (fl_over _ _ _ (jn_flow_ab _ _ _ _ Hjn) E). congruence. }
  destruct (read_run_open sp (cr_a c) la va _ Hsc Hv Hsa Hca (jn_pa _ _ _ _ Hjn) Hq)
    as [(a' & out & va' & Hr & Hv' & El & Er & Ep & Es & Ec & Ew & Em & Hs & Hp & Hstr & Hcred)|[Hne [a' Hr]]].
  2: { right. split.
    - cbn [exec_event]. rewrite Hpc. unfold at_client. by rewrite Hr.
    - intros ->. unfold on_way in Hne. by rewrite Hca in Hne. }
  left. pose proof (jn_ab _ _ _ _ Hjn) as Hab.
  assert (hold_b (PJoined la lb va vb Served) = Some (v_local vb, lb)) as Hhb by (cbn; by rewrite Hcb).
  destruct (si_held _ _ _ _ _ _ Hb _ _ _ _ Hk Hhb) as (_ & _ & Hux).
  assert (Forall (λ m, Protocol.target m = Some (v_local vb)) (out ++ [CloseMessage (v_remote va)])) as Htg.
  { rewrite Hab in *. apply Forall_app. split; [by eapply pieces_target|by apply Forall_singleton]. }
  destruct (client_moves (on_channel fuel la (p_call_response (cl_replies (sp_call sp))))
    (λ r, set_client k (Returned r)) c phs fab fba k sp
    (PJoined la lb va vb Served) (PJoined la lb va' vb Ended) (sp_result sp) a'
    (out ++ [CloseMessage (v_remote va)])
    (Returned (sp_result sp)) la) as (c' & He & Hi'); try done.
  - apply Hv'.
  - cbn. by rewrite Ec, Hca, El.
  - right. by exists (v_local vb), lb.
  - rewrite Hab in *. apply Forall_app. split; [by eapply pieces_wf|by apply Forall_singleton].
  - assert (on_way va' fba = on_way va fba) as Ea by (unfold on_way; by rewrite Ec, Hca, El).
    apply ok_joined; rewrite ?Ea, ?(on_way_app vb) by (done || by right).
    + apply Hv'.
    + done.
    + by apply (ended_joined sp va vb); auto.
    + by apply stage_ended.
  - exists c', va', (out ++ [CloseMessage (v_remote va)]). split; [|done]. cbn [exec_event]. by rewrite Hpc.
Qed.

Lemma read_waits (c : crowd (V := V) (T := T)) phs fab fba k sp la lb va vb :
  scripted sp → INV c phs fab fba → sps !! k = Some sp → phs !! k = Some (PJoined la lb va vb Asked) →
  exec (ERead k) c = None.
Proof.
  intros Hsc Hi Hsp Hk. pose proof (iv_a _ _ _ _ _ _ _ Hi) as Ha.
  destruct (iv_phase _ _ _ _ _ _ _ Hi k sp _ Hsp Hk) as (pc & Hpc & Hok).
  inversion Hok as [| | | |? ? ? ? ? ? Hva Hvb Hjn Hst]; subst; clear Hok.
  inversion Hst as [got Eva Evb Hq Hcr Hfba Hsv| |]; subst; clear Hst.
  cbn [exec_event]. rewrite Hpc. unfold at_client.
  destruct (sc_read _ _ _ _ _ Hsc (Z.min (v_win va) (-1)) 0%nat) as (Hsm & _ & σ & Hrun & _ & _ & Hlt).
  assert (v_queue va = [] ∧ v_sent va = false ∧ v_closed va = false) as (Hqa & Hsa & Hca) by (rewrite Eva; done).
  destruct (on_channel_prefix (Z.min (v_win va) (-1)) fuel la va (p_call_response (cl_replies (sp_call sp)))
    (cr_a c) (sp_response sp) io_EOF (sp_result sp) σ (conj (si_writer _ _ _ _ _ _ Ha) Hva))
    as [(s' & out & e1 & _ & _ & _ & _ & _ & _ & Hin & _)|[[s' Hr] _]]; rewrite ?Hqa; try done; [lia|lia| |].
  - rewrite Hin, length_app in Hlt. lia.
  - by rewrite Hr.
Qed.
End events.
