(* ===== verification/CallsTogether.v ===== *)
(** * Calls in flight do not interfere

    Whatever the order of the steps, every call that returns returns what it would
    alone, no loop fails, the steps come to an end, and at the end all calls have
    returned and both sessions are as before. *)
From stdpp Require Import relations.
From S2P Require Import Prelude GoRuntime Frame Buffer Window ChanList.
From S2P Require Import MuxState Channel ChannelSpec Session SessionSpec.
From S2P Require Import Handshake Protocol Refine FrameCodec ChannelView ChannelStream ChannelPair.
From S2P Require Import RespondMux RespondMuxSpec Rpc RpcSpec RpcProgram ChannelRpc ChannelCall.
From S2P Require Import ChannelWait CallsInFlight CallsInvariant CallsSteps.

(** ** A measure *)

Definition stage_weight (st : stage) : Z := match st with Asked => 6 | Served => 3 | Ended => 0 end.

(** What a call still has ahead. *)
Definition weight (ph : phase) : Z :=
  match ph with
  | PReady => 12
  | PRequested _ _ => 11
  | POffered _ _ _ _ => 10
  | PConfirmed _ _ _ _ => 9
  | PJoined _ _ va vb st =>
      stage_weight st + (if v_closed va then 0 else 1) + (if v_closed vb then 0 else 1)
  end.

Lemma weight_nonneg ph : 0 ≤ weight ph.
Proof. destruct ph as [| | | |? ? va vb []]; cbn; repeat case_match; lia. Qed.

Section together.
Context {V T : Type} `{CodecLaws V T}.
Context (fuel mux_fuel : nat) (ms : gmap nat (RespondMux (string → prog V unit)))
  (hn : Handler (string → prog V unit)).
Context (sps : list (script V T)) (a0 b0 : session).

Local Abbreviation exec := (exec_event fuel mux_fuel ms hn).
Local Abbreviation INV := (inv sps a0 b0).
Local Abbreviation scripted := (scripted fuel mux_fuel ms hn).

(** Less is ahead of the calls, or as much, and less on the way. *)
Definition closer (phs phs' : list phase) (fab fba fab' fba' : list Message) : Prop :=
  total_need weight phs' < total_need weight phs ∨
  (total_need weight phs' = total_need weight phs ∧
   (length fab' + length fba' < length fab + length fba)%nat).

Lemma closer_weight phs k ph ph' fab fba fab' fba' :
  phs !! k = Some ph → weight ph' < weight ph → closer phs (<[k := ph']> phs) fab fba fab' fba'.
Proof. intros Hk Hw. left. rewrite (total_need_insert _ _ _ _ _ Hk). lia. Qed.

Lemma closer_message phs k ph ph' fab fba fab' fba' :
  phs !! k = Some ph → weight ph' = weight ph →
  (length fab' + length fba' < length fab + length fba)%nat →
  closer phs (<[k := ph']> phs) fab fba fab' fba'.
Proof. intros Hk Hw Hl. right. rewrite (total_need_insert _ _ _ _ _ Hk). split; [lia|done]. Qed.

(** ** The loops go on *)

Lemma phase_of (c : crowd (V := V) (T := T)) phs fab fba k ph :
  INV c phs fab fba → phs !! k = Some ph → ∃ sp pc, sps !! k = Some sp ∧ cr_clients c !! k = Some pc ∧
    phase_ok (s_heap (cr_a c)) (s_heap (cr_b c)) fab fba (cr_servers c) sp pc ph.
Proof.
  intros Hi Hk. pose proof (lookup_lt_Some _ _ _ Hk) as Hlt. rewrite (iv_len _ _ _ _ _ _ _ Hi) in Hlt.
  apply lookup_lt_is_Some in Hlt as [sp Hsp]. destruct (iv_phase _ _ _ _ _ _ _ Hi k sp ph Hsp Hk) as (pc & ? & ?).
  by exists sp, pc.
Qed.

Lemma server_loop (c : crowd (V := V) (T := T)) phs m fab fba :
  INV c phs (m :: fab) fba →
  ∃ c' phs' fba', exec EServerLoop c = Some c' ∧ INV c' phs' fab fba' ∧
    closer phs phs' (m :: fab) fba fab fba'.
Proof.
  intros Hi. destruct (iv_own_ab _ _ _ _ _ _ _ Hi m) as (k & ph & Hk & Hown); [by left|].
  destruct (phase_of _ _ _ _ _ _ Hi Hk) as (sp & pc & Hsp & _ & Hok).
  destruct Hown as [(y & l & Hy & Ht)|(la & x & -> & ->)].
  - inversion Hok as [| |? ? ? ? _ _ _ Hto|? ? ? ? _ _ _ Hto|la lb va vb st ? ? ? ? ?]; subst; cbn in Hy; try done.
    + injection Hy as -> ->. by rewrite to_cons, decide_True in Hto.
    + injection Hy as -> ->. by rewrite to_cons, decide_True in Hto.
    + destruct (v_closed vb) eqn:Hcb; [done|]. injection Hy as <- <-.
      destruct (server_gets_event fuel mux_fuel ms hn sps a0 b0 c phs m fab fba k sp la lb va vb st)
        as (c' & vb' & out & He & Hout & Hi'); [done..|cbn; by rewrite Hcb|done|].
      eexists c', _, _. split; [exact He|]. split; [exact Hi'|].
      destruct (v_closed vb') eqn:Hc'.
      * eapply closer_weight; [done|]. cbn. rewrite Hc', Hcb. lia.
      * rewrite (Hout eq_refl), app_nil_r. eapply closer_message; [done|cbn; by rewrite Hc', Hcb|cbn; lia].
  - destruct (offer_event fuel mux_fuel ms hn sps a0 b0 c phs fab fba k sp la x Hi Hsp Hk) as (c' & He & Hi').
    eexists c', _, _. split; [exact He|]. split; [exact Hi'|]. by eapply closer_weight.
Qed.

Lemma client_loop (c : crowd (V := V) (T := T)) phs m fab fba :
  INV c phs fab (m :: fba) →
  ∃ c' phs' fab', exec EClientLoop c = Some c' ∧ INV c' phs' fab' fba ∧
    closer phs phs' fab (m :: fba) fab' fba.
Proof.
  intros Hi. destruct (iv_own_ba _ _ _ _ _ _ _ Hi m) as (k & ph & Hk & (x & l & Hx & Ht)); [by left|].
  destruct (phase_of _ _ _ _ _ _ Hi Hk) as (sp & pc & Hsp & _ & Hok).
  inversion Hok as [|? ? _ _ Hto|la ? lb y|? ? ? ? _ Hto _ _ _|la lb va vb st ? ? ? ? ?]; subst; cbn in Hx; try done.
  - injection Hx as -> ->. by rewrite to_cons, decide_True in Hto.
  - injection Hx as -> ->.
    destruct (confirm_event fuel mux_fuel ms hn sps a0 b0 c phs fab m fba k sp l x lb y Hi Hsp Hk Ht) as (c' & He & Hi').
    eexists c', _, _. split; [exact He|]. split; [exact Hi'|]. by eapply closer_weight.
  - injection Hx as -> ->. by rewrite to_cons, decide_True in Hto.
  - destruct (v_closed va) eqn:Hca; [done|]. injection Hx as <- <-.
    destruct (client_gets_event fuel mux_fuel ms hn sps a0 b0 c phs m fab fba k sp la lb va vb st)
      as (c' & va' & out & He & Hout & Hi'); [done..|cbn; by rewrite Hca|done|].
    eexists c', _, _. split; [exact He|]. split; [exact Hi'|].
    destruct (v_closed va') eqn:Hc'.
    + eapply closer_weight; [done|]. cbn. rewrite Hc', Hca. lia.
    + rewrite (Hout eq_refl), app_nil_r. eapply closer_message; [done|cbn; by rewrite Hc', Hca|cbn; lia].
Qed.

(** ** Every step *)

Lemma ask_waits (c : crowd (V := V) (T := T)) k q la x :
  cr_clients c !! k = Some (Opening q la) → s_heap (cr_a c) !! la = Some (requested x) →
  exec (EAsk k) c = None.
Proof.
  intros Hk Hl. cbn [exec_event]. rewrite Hk. unfold at_client, client_ask.
  by erewrite bind_block by (rewrite (Open_wait_eq _ _ _ _ Hl); reflexivity).
Qed.

Lemma srv_once (c : crowd (V := V) (T := T)) phs fab fba l d d' :
  INV c phs fab fba → (l, d) ∈ cr_servers c → (l, d') ∈ cr_servers c → d = d'.
Proof.
  intros Hi [j Hj]%list_elem_of_lookup [j' Hj']%list_elem_of_lookup.
  assert (j = j') as <-.
  { eapply (NoDup_lookup _ _ _ l (iv_srv _ _ _ _ _ _ _ Hi)); rewrite list_lookup_fmap; [by rewrite Hj|by rewrite Hj']. }
  congruence.
Qed.

Lemma serve_step (c : crowd (V := V) (T := T)) phs fab fba j l :
  Forall scripted sps → INV c phs fab fba → cr_servers c !! j = Some (l, false) →
  exec (EServe j) c = None ∨
  ∃ c' phs' fba', exec (EServe j) c = Some c' ∧ INV c' phs' fab fba' ∧ closer phs phs' fab fba fab fba'.
Proof.
  intros Hsc Hi Hj. pose proof (list_elem_of_lookup_2 _ _ _ Hj) as Hin.
  destruct (iv_srv_ptr _ _ _ _ _ _ _ Hi l false Hin) as (k & ph & Hk & Hp).
  destruct (phase_of _ _ _ _ _ _ Hi Hk) as (sp & pc & Hsp & _ & Hok).
  rewrite Forall_lookup in Hsc. specialize (Hsc k sp Hsp).
  inversion Hok as [| |? ? ? ? _ _ Hv|? ? ? ? _ _ Hv|la lb va vb st ? ? ? ? Hst]; subst; cbn in Hp; try done.
  - injection Hp as ->. left. by eapply serve_waits.
  - injection Hp as ->. left. by eapply serve_waits.
  - injection Hp as ->. inversion Hst; subst.
    + edestruct (serve_event fuel mux_fuel ms hn sps a0 b0 c phs fab fba k sp la l va vb j)
        as [(c' & vb' & out & He & Hi')|[He _]]; [done..|right|by left].
      eexists c', _, _. split; [exact He|]. split; [exact Hi'|]. eapply closer_weight; [done|].
      cbn. repeat case_match; lia.
    + by assert (false = true) by by eapply srv_once.
    + by assert (false = true) by by eapply srv_once.
Qed.

Lemma client_phase (c : crowd (V := V) (T := T)) phs fab fba k pc :
  INV c phs fab fba → cr_clients c !! k = Some pc → ∃ sp ph, sps !! k = Some sp ∧ phs !! k = Some ph ∧
    phase_ok (s_heap (cr_a c)) (s_heap (cr_b c)) fab fba (cr_servers c) sp pc ph.
Proof.
  intros Hi Hpc. pose proof (lookup_lt_Some _ _ _ Hpc) as Hlt. rewrite (iv_clients _ _ _ _ _ _ _ Hi) in Hlt.
  rewrite <- (iv_len _ _ _ _ _ _ _ Hi) in Hlt. apply lookup_lt_is_Some in Hlt as [ph Hph].
  destruct (phase_of _ _ _ _ _ _ Hi Hph) as (sp & pc' & Hsp & Hpc' & Hok). exists sp, ph.
  split; [done|]. split; [done|]. congruence.
Qed.

Lemma open_step (c : crowd (V := V) (T := T)) phs fab fba k q :
  INV c phs fab fba → cr_clients c !! k = Some (Ready q) →
  ∃ c' phs' fab', exec (EOpen k) c = Some c' ∧ INV c' phs' fab' fba ∧ closer phs phs' fab fba fab' fba.
Proof.
  intros Hi Hpc. destruct (client_phase _ _ _ _ _ _ Hi Hpc) as (sp & ph & Hsp & Hk & Hok).
  inversion Hok as [| | | |? ? ? ? ? ? ? ? ? Hst]; subst; [|by inversion Hst].
  destruct (open_event fuel mux_fuel ms hn sps a0 b0 c phs fab fba k sp Hi Hsp Hk) as (c' & He & Hi').
  eexists c', _, _. split; [exact He|]. split; [exact Hi'|]. by eapply closer_weight.
Qed.

Lemma ask_step (c : crowd (V := V) (T := T)) phs fab fba k q l :
  Forall scripted sps → INV c phs fab fba → cr_clients c !! k = Some (Opening q l) →
  (exec (EAsk k) c = None ∧ (fab ≠ [] ∨ fba ≠ [])) ∨
  ∃ c' phs' fab', exec (EAsk k) c = Some c' ∧ INV c' phs' fab' fba ∧ closer phs phs' fab fba fab' fba.
Proof.
  intros Hsc Hi Hpc. destruct (client_phase _ _ _ _ _ _ Hi Hpc) as (sp & ph & Hsp & Hk & Hok).
  rewrite Forall_lookup in Hsc. specialize (Hsc k sp Hsp).
  inversion Hok as [|? x Hl Hop|? x ? ? Hl Hto|? x lb y|? ? ? ? ? ? ? ? ? Hst]; subst; [..|by inversion Hst].
  - left. split; [by eapply ask_waits|]. left. by intros ->.
  - left. split; [by eapply ask_waits|]. right. by intros ->.
  - right. destruct (ask_event fuel mux_fuel ms hn sps a0 b0 c phs fab fba k sp l x lb y Hsc Hi Hsp Hk)
      as (c' & out & He & Hi').
    eexists c', _, _. split; [exact He|]. split; [exact Hi'|]. by eapply closer_weight.
Qed.

Lemma read_step (c : crowd (V := V) (T := T)) phs fab fba k q l :
  Forall scripted sps → INV c phs fab fba → cr_clients c !! k = Some (Waiting q l) →
  exec (ERead k) c = None ∨
  ∃ c' phs' fab', exec (ERead k) c = Some c' ∧ INV c' phs' fab' fba ∧ closer phs phs' fab fba fab' fba.
Proof.
  intros Hsc Hi Hpc. destruct (client_phase _ _ _ _ _ _ Hi Hpc) as (sp & ph & Hsp & Hk & Hok).
  rewrite Forall_lookup in Hsc. specialize (Hsc k sp Hsp).
  inversion Hok as [| | | |la lb va vb st ? ? ? ? Hst]; subst. inversion Hst; subst.
  - left. by eapply read_waits.
  - destruct (read_event fuel mux_fuel ms hn sps a0 b0 c phs fab fba k sp l lb va vb Hsc Hi Hsp Hk)
      as [(c' & va' & out & He & Hi')|[He _]]; [right|by left].
    eexists c', _, _. split; [exact He|]. split; [exact Hi'|]. eapply closer_weight; [done|].
    cbn. repeat case_match; lia.
Qed.

(** A step keeps the invariant and brings the end closer. *)
Lemma step_closer (c c' : crowd (V := V) (T := T)) phs fab fba e :
  Forall scripted sps → INV c phs fab fba → exec e c = Some c' →
  ∃ phs' fab' fba', INV c' phs' fab' fba' ∧ closer phs phs' fab fba fab' fba'.
Proof.
  intros Hsc Hi He. pose proof He as Hx. destruct e as [k|k|k|j| |]; cbn [exec_event] in Hx.
  - destruct (cr_clients c !! k) as [[q| | |]|] eqn:Hpc; try done.
    destruct (open_step c phs fab fba k q Hi Hpc) as (c2 & phs' & fab' & He2 & Hi' & Hc).
    assert (c2 = c') as -> by congruence. by exists phs', fab', fba.
  - destruct (cr_clients c !! k) as [[|q l| |]|] eqn:Hpc; try done.
    destruct (ask_step c phs fab fba k q l Hsc Hi Hpc) as [[He2 _]|(c2 & phs' & fab' & He2 & Hi' & Hc)]; [congruence|].
    assert (c2 = c') as -> by congruence. by exists phs', fab', fba.
  - destruct (cr_clients c !! k) as [[| |q l|]|] eqn:Hpc; try done.
    destruct (read_step c phs fab fba k q l Hsc Hi Hpc) as [He2|(c2 & phs' & fab' & He2 & Hi' & Hc)]; [congruence|].
    assert (c2 = c') as -> by congruence. by exists phs', fab', fba.
  - destruct (cr_servers c !! j) as [[l []]|] eqn:Hj; try done.
    destruct (serve_step c phs fab fba j l Hsc Hi Hj) as [He2|(c2 & phs' & fba' & He2 & Hi' & Hc)]; [congruence|].
    assert (c2 = c') as -> by congruence. by exists phs', fab, fba'.
  - destruct fba as [|m fba].
    { unfold at_client in Hx. by rewrite (one_packet_waits _ _ (iv_in_a _ _ _ _ _ _ _ Hi)) in Hx. }
    destruct (client_loop c phs m fab fba Hi) as (c2 & phs' & fab' & He2 & Hi' & Hc).
    assert (c2 = c') as -> by congruence. by exists phs', fab', fba.
  - destruct fab as [|m fab].
    { unfold at_server in Hx. by rewrite (one_packet_waits _ _ (iv_in_b _ _ _ _ _ _ _ Hi)) in Hx. }
    destruct (server_loop c phs m fab fba Hi) as (c2 & phs' & fba' & He2 & Hi' & Hc).
    assert (c2 = c') as -> by congruence. by exists phs', fab, fba'.
Qed.

Lemma inv_ends (c : crowd (V := V) (T := T)) phs fab fba :
  Forall scripted sps → INV c phs fab fba → sn (crowd_step fuel mux_fuel ms hn) c.
Proof.
  intros Hsc Hi. remember (Z.to_nat (total_need weight phs)) as n eqn:Hn.
  remember (length fab + length fba)%nat as f eqn:Hf.
  revert f c phs fab fba Hi Hn Hf. induction (lt_wf n) as [n _ IHn]. intros f.
  induction (lt_wf f) as [f _ IHf]. intros c phs fab fba Hi -> ->.
  constructor. intros c' [e He].
  destruct (step_closer c c' phs fab fba e Hsc Hi He) as (phs' & fab' & fba' & Hi' & Hc).
  pose proof (total_need_nonneg weight weight_nonneg phs').
  pose proof (total_need_nonneg weight weight_nonneg phs).
  destruct Hc as [Hlt|[Heq Hlt]].
  - eapply (IHn _ _ _ c' phs' fab' fba'); [exact Hi'|reflexivity|reflexivity].
  - eapply (IHf _ Hlt c' phs' fab' fba'); [exact Hi'|by rewrite Heq|reflexivity].
  Unshelve. lia.
Qed.

(** ** The end *)

(** Nobody can go on. *)
Lemma stuck_ended (c : crowd (V := V) (T := T)) phs fab fba :
  Forall scripted sps → INV c phs fab fba → (∀ e, exec e c = None) →
  fab = [] ∧ fba = [] ∧ ∀ k ph, phs !! k = Some ph → hold_a ph = None ∧ hold_b ph = None ∧
    ∃ sp, sps !! k = Some sp ∧ cr_clients c !! k = Some (Returned (sp_result sp)).
Proof.
  intros Hsc Hi Hno.
  assert (fab = []) as ->.
  { destruct fab as [|m fab]; [done|]. destruct (server_loop c phs m fab fba Hi) as (c' & _ & _ & He & _).
    rewrite Hno in He. done. }
  assert (fba = []) as ->.
  { destruct fba as [|m fba]; [done|]. destruct (client_loop c phs m [] fba Hi) as (c' & _ & _ & He & _).
    rewrite Hno in He. done. }
  split; [done|]. split; [done|]. intros k ph Hk.
  destruct (phase_of _ _ _ _ _ _ Hi Hk) as (sp & pc & Hsp & Hpc & Hok).
  inversion Hok as [|? ? _ Hop|? ? ? ? _ Hto|? ? ? ?|la lb va vb st ? Hva Hvb Hj Hst]; subst; try done.
  - destruct (open_step c phs [] [] k _ Hi Hpc) as (c' & _ & _ & He & _). by rewrite Hno in He.
  - destruct (ask_step c phs [] [] k _ _ Hsc Hi Hpc) as [[_ []]|(c' & _ & _ & He & _)]; try done. by rewrite Hno in He.
  - assert (scripted sp) as Hs by (rewrite Forall_lookup in Hsc; by apply (Hsc k)).
    inversion Hst as [got Eva Evb Hq Hcr Hfba Hsv|Hsb Hsa Hq Hw Hsv|Hsa Hsb Hsv]; subst.
    + apply list_elem_of_lookup in Hsv as [j Hj'].
      destruct (serve_event fuel mux_fuel ms hn sps a0 b0 c phs [] [] k sp la lb va vb j Hs Hi Hsp Hk Hj')
        as [(c' & _ & _ & He & _)|[_ ?]]; [by rewrite Hno in He|done].
    + destruct (read_event fuel mux_fuel ms hn sps a0 b0 c phs [] [] k sp la lb va vb Hs Hi Hsp Hk)
        as [(c' & _ & _ & He & _)|[_ ?]]; [by rewrite Hno in He|done].
    + assert (∀ vs v, flow vs (on_way v []) v → v_sent vs = true → v_closed v = true) as Hcl.
      { intros vs v Hf Hsent. destruct (v_closed v) eqn:E; [done|].
        destruct (fl_pieces _ _ _ Hf E) as (ps & Hps & _). rewrite Hsent in Hps. unfold on_way in Hps.
        rewrite E in Hps. by destruct ps. }
      cbn [hold_a hold_b]. rewrite (Hcl _ _ (jn_flow_ab _ _ _ _ Hj) Hsa), (Hcl _ _ (jn_flow_ba _ _ _ _ Hj) Hsb).
      split; [done|]. split; [done|]. by exists sp.
Qed.

(** ** The beginning *)

Lemma side_inv_start hold ptr need s n :
  hold PReady = None → ptr PReady = None → need PReady ≤ 1 → quiet s → writer_ok (s_enc s) →
  len (s_chans s) + Z.of_nat n < 2 ^ 32 - 1 → side_inv hold ptr need s s (replicate n PReady).
Proof.
  intros Hh Hp Hn [Ho _] Hw Hr.
  assert (∀ k ph, replicate n PReady !! k = Some ph → ph = PReady) as Hall.
  { intros k ph Hk. by apply lookup_replicate in Hk as [-> _]. }
  split; try done.
  - assert (total_need need (replicate n PReady) ≤ Z.of_nat n); [|lia].
    clear - Hn. induction n as [|n IH]; [done|]. unfold total_need in *. cbn. lia.
  - intros k ph x l ->%Hall Hx. congruence.
  - intros j _. by left.
  - intros k ph l ->%Hall Hx. congruence.
  - intros k k' ph ph' l ->%Hall _ Hx. congruence.
Qed.

Lemma start_inv :
  ready a0 → ready b0 → quiet a0 → quiet b0 →
  len (s_chans a0) + Z.of_nat (length sps) < 2 ^ 32 - 1 →
  len (s_chans b0) + Z.of_nat (length sps) < 2 ^ 32 - 1 →
  INV (crowd_start a0 b0 (sp_call <$> sps)) (replicate (length sps) PReady) [] [].
Proof.
  intros [_ Wa] [_ Wb] Qa Qb Ra Rb. split; try done.
  - by rewrite length_replicate.
  - intros k sp ph Hsp Hk. apply lookup_replicate in Hk as [-> _]. exists (Ready (sp_call sp)).
    split; [|constructor]. cbn. by rewrite !list_lookup_fmap, Hsp.
  - cbn. by rewrite !length_fmap.
  - by apply side_inv_start.
  - by apply side_inv_start.
  - cbn. destruct Qa as [_ Hd]. by destruct (s_dec a0); cbn in *; subst.
  - cbn. destruct Qb as [_ Hd]. by destruct (s_dec b0); cbn in *; subst.
  - intros m []%elem_of_nil.
  - intros m []%elem_of_nil.
  - constructor.
  - intros l d []%elem_of_nil.
Qed.

Lemma steps_inv c c' phs fab fba :
  Forall scripted sps → INV c phs fab fba → rtc (crowd_step fuel mux_fuel ms hn) c c' →
  ∃ phs' fab' fba', INV c' phs' fab' fba'.
Proof.
  intros Hsc Hi Hr. revert phs fab fba Hi.
  induction Hr as [c|c c1 c2 [e He] _ IH]; intros phs fab fba Hi; [by exists phs, fab, fba|].
  destruct (step_closer c c1 phs fab fba e Hsc Hi He) as (phs' & fab' & fba' & Hi' & _).
  by apply (IH phs' fab' fba').
Qed.
End together.

(** ** Calls of functions *)

Section functions.
Context {V T : Type} `{CodecLaws V T}.
Context (fuel mux_fuel : nat) (ms : gmap nat (RespondMux (string → prog V unit)))
  (hn : Handler (string → prog V unit)).

(** A call of a Go function of the server's mux, and what it should return: the
    function's results in the reply variables, or its error. *)
Inductive function_call : script V T → Prop :=
| function_call_intro sel (t : T) (g : V → list (any V)) (a : V) (us : list T) r cb ab hb bs :
    mux_resolve mux_fuel ms hn (cleanSelector sel) = Ret (HandlerFunc (p_unary t g)) →
    fits t a → answered us (g a) r →
    encodes (VCallHeader sel) cb → encodes (Val a) ab →
    encodes (VResponseHeader (respond_error (g a)) false) hb → Forall2 encodes (respond_values (g a)) bs →
    let request : list byte := mjoin (frame <$> [cb; ab]) in
    let response : list byte := mjoin (frame <$> hb :: bs) in
    len request + len response ≤ channelWindowSize → len request + len response < Z.of_nat fuel →
    function_call (mkScript (mkCall sel (ArgValue (Val a)) (TVar <$> us)) request response r).

Lemma frames_nonempty b bs : mjoin (frame <$> b :: bs) ≠ [].
Proof.
  intros E. apply (f_equal length) in E. change (mjoin (frame <$> b :: bs)) with (frame b ++ mjoin (frame <$> bs)) in E.
  unfold frame in E. rewrite !length_app, length_PutUint32 in E. cbn in E. lia.
Qed.

Lemma function_scripted sp : function_call sp → scripted fuel mux_fuel ms hn sp.
Proof.
  intros [sel t g a us r cb ab hb bs Hm Hfit Hans Hcb Hab Hhb Hbs request response Hlim Hfuel].
  pose proof (len_nonneg request). pose proof (len_nonneg response).
  assert (Forall2 encodes (args_values (ArgValue (Val a))) [ab]) as Hargs by (constructor; [exact Hab|constructor]).
  assert (handles (λ sel, run_end (p_unary t g sel)) (Val a) (g a)) as Hhd.
  { intros s' ab' rest e n hb' bs' ? ? ?. rewrite run_unary. by apply unary_handles. }
  split; cbn [sp_call sp_request sp_response sp_result cl_selector cl_args cl_replies].
  - split; [apply (smooth_call_request _ sel (ArgValue (Val a)) cb [ab]); [done..|change (len request ≤ len request + len response); lia]|].
    eexists. split; [rewrite run_call_request; apply on_ch_eq; by apply call_request_eq|done].
  - split.
    + unfold request. cbn [fmap list_fmap mjoin list_join]. eapply smooth_Server_respond; [exact Hcb|exact Hm| |].
      * eapply (smooth_unary _ t g _ a ab hb bs); try done. change (len response ≤ len request + len response). lia.
      * intros s' Hs'. rewrite (Hhd _ ab [] io_EOF 0%nat hb bs) in Hs' by done. by injection Hs' as <-.
    + eexists. split; [by apply (server_answers mux_fuel ms hn sel (p_unary t g) (Val a) (g a) cb ab hb bs)|].
      done.
  - intros lim n. destruct (answered_response us (g a) r hb bs io_EOF (mkWriter [] []) n Hans Hhb Hbs) as (q & Hq & Hlt).
    split; [by eapply smooth_call_response|]. split; [apply call_response_reads|].
    eexists. split; [rewrite run_call_response; apply on_ch_eq; exact Hq|]. done.
  - apply frames_nonempty.
  - done.
Qed.
End functions.

(** ** Properties *)

(** C2. Calls in flight at the same time do not interfere. Any number of goroutines
    call functions over one pair of sessions, each request and response fitting the
    windows. However their steps, those of the server's goroutines and those of the
    two loops are ordered, a call that has returned returned the results (or the
    error) of its own function for its own argument; a loop that has a packet to
    handle handles it, without failing; and the channels that were open before are
    as they were. *)
Theorem calls_do_not_interfere {V T} `{CodecLaws V T} fuel mux_fuel ms hn sA sB (sps : list (script V T)) c :
  Forall (function_call fuel mux_fuel ms hn) sps →
  ready sA → ready sB → quiet sA → quiet sB →
  len (s_chans sA) + Z.of_nat (length sps) < 2 ^ 32 - 1 →
  len (s_chans sB) + Z.of_nat (length sps) < 2 ^ 32 - 1 →
  rtc (crowd_step fuel mux_fuel ms hn) (crowd_start sA sB (sp_call <$> sps)) c →
  (∀ k r, cr_clients c !! k = Some (Returned r) → sp_result <$> (sps !! k) = Some r) ∧
  (rd_data (s_dec (cr_a c)) ≠ [] → is_Some (exec_event fuel mux_fuel ms hn EClientLoop c)) ∧
  (rd_data (s_dec (cr_b c)) ≠ [] → is_Some (exec_event fuel mux_fuel ms hn EServerLoop c)) ∧
  (∀ l, (l < s_fresh sA)%nat → s_heap (cr_a c) !! l = s_heap sA !! l) ∧
  (∀ l, (l < s_fresh sB)%nat → s_heap (cr_b c) !! l = s_heap sB !! l).
Proof.
  intros Hf Ra Rb Qa Qb Na Nb Hr.
  assert (Forall (scripted fuel mux_fuel ms hn) sps) as Hsc
    by (eapply Forall_impl; [exact Hf|apply function_scripted]).
  destruct (steps_inv _ _ _ _ sps sA sB _ c _ _ _ Hsc (start_inv sps sA sB Ra Rb Qa Qb Na Nb) Hr)
    as (phs & fab & fba & Hi).
  split_and!; [| | |apply (iv_a _ _ _ _ _ _ _ Hi)|apply (iv_b _ _ _ _ _ _ _ Hi)].
  - intros k r Hk. destruct (client_phase _ _ _ _ _ _ _ _ _ Hi Hk) as (sp & ph & Hsp & _ & Hok).
    inversion Hok as [| | | |? ? ? ? ? ? ? ? ? Hst]; subst. inversion Hst; subst. by rewrite Hsp.
  - rewrite (iv_in_a _ _ _ _ _ _ _ Hi). destruct fba as [|m fba]; [done|]. intros _.
    destruct (client_loop fuel mux_fuel ms hn _ _ _ _ _ _ _ _ Hi) as (c' & _ & _ & He & _). by exists c'.
  - rewrite (iv_in_b _ _ _ _ _ _ _ Hi). destruct fab as [|m fab]; [done|]. intros _.
    destruct (server_loop fuel mux_fuel ms hn _ _ _ _ _ _ _ _ Hi) as (c' & _ & _ & He & _). by exists c'.
Qed.

(** C3. Calls in flight all come back. From any state the steps lead to, there is no
    infinite sequence of further steps; and when no step is possible any more, every
    call has returned its own result, nothing is on the way, and both tables find
    under every id what they found before the calls: no goroutine waits for ever, and
    no channel is left over. *)
Theorem calls_complete {V T} `{CodecLaws V T} fuel mux_fuel ms hn sA sB (sps : list (script V T)) c :
  Forall (function_call fuel mux_fuel ms hn) sps →
  ready sA → ready sB → quiet sA → quiet sB →
  len (s_chans sA) + Z.of_nat (length sps) < 2 ^ 32 - 1 →
  len (s_chans sB) + Z.of_nat (length sps) < 2 ^ 32 - 1 →
  rtc (crowd_step fuel mux_fuel ms hn) (crowd_start sA sB (sp_call <$> sps)) c →
  sn (crowd_step fuel mux_fuel ms hn) c ∧
  ((∀ e, exec_event fuel mux_fuel ms hn e c = None) →
   cr_clients c = (λ sp, Returned (sp_result sp)) <$> sps ∧ quiet (cr_a c) ∧ quiet (cr_b c) ∧
   ∀ j, 0 ≤ j → chanList_getChan j (s_chans (cr_a c)) = chanList_getChan j (s_chans sA) ∧
     chanList_getChan j (s_chans (cr_b c)) = chanList_getChan j (s_chans sB)).
Proof.
  intros Hf Ra Rb Qa Qb Na Nb Hr.
  assert (Forall (scripted fuel mux_fuel ms hn) sps) as Hsc
    by (eapply Forall_impl; [exact Hf|apply function_scripted]).
  destruct (steps_inv _ _ _ _ sps sA sB _ c _ _ _ Hsc (start_inv sps sA sB Ra Rb Qa Qb Na Nb) Hr)
    as (phs & fab & fba & Hi).
  split; [by eapply inv_ends|]. intros Hno.
  destruct (stuck_ended _ _ _ _ _ _ _ _ _ _ _ Hsc Hi Hno) as (-> & -> & Hall).
  split_and!.
  - apply list_eq_same_length with (length sps); [by rewrite length_fmap|apply Hi|].
    intros k x y Hlt Hx Hy. destruct (client_phase _ _ _ _ _ _ _ _ _ Hi Hx) as (sp & ph & Hsp & Hk & _).
    destruct (Hall k ph Hk) as (_ & _ & sp' & Hsp' & Hc). rewrite list_lookup_fmap, Hsp in Hy.
    cbn in Hy. congruence.
  - split; [apply (iv_a _ _ _ _ _ _ _ Hi)|by rewrite (iv_in_a _ _ _ _ _ _ _ Hi)].
  - split; [apply (iv_b _ _ _ _ _ _ _ Hi)|by rewrite (iv_in_b _ _ _ _ _ _ _ Hi)].
  - intros j Hj. split.
    + destruct (si_rest _ _ _ _ _ _ (iv_a _ _ _ _ _ _ _ Hi) j Hj) as [?|(k & ph & l & Hk & Hh)]; [done|].
      destruct (Hall k ph Hk) as [Hn _]. congruence.
    + destruct (si_rest _ _ _ _ _ _ (iv_b _ _ _ _ _ _ _ Hi) j Hj) as [?|(k & ph & l & Hk & Hh)]; [done|].
      destruct (Hall k ph Hk) as (_ & Hn & _). congruence.
Qed.

(** The two calls that overtake each other. *)
Definition two_scripts : list (script (list byte) unit) :=
  [ mkScript (mkCall "twice" (ArgValue (Val [x2a])) [TVar tt])
      (mjoin (frame <$> [x02 :: String.list_byte_of_string "twice"; [x05; x2a]]))
      (mjoin (frame <$> [[x03; x00]; [x05; x2a; x2a]]))
      (Some (mkResponse None false [Val [x2a; x2a]]), None);
    mkScript (mkCall "twice" (ArgValue (Val [x07; x08])) [TVar tt])
      (mjoin (frame <$> [x02 :: String.list_byte_of_string "twice"; [x05; x07; x08]]))
      (mjoin (frame <$> [[x03; x00]; [x05; x07; x08; x07; x08]]))
      (Some (mkResponse None false [Val [x07; x08; x07; x08]]), None) ].

Local Ltac twice_call v r :=
  apply (function_call_intro 60 1 twice_server (SubMux 0) "twice" tt (λ w, [Val (w ++ w)]) v [tt] r
    (x02 :: String.list_byte_of_string "twice") (x05 :: v) [x03; x00] [x05 :: v ++ v]);
  [reflexivity|exact I|by apply (answered_values [tt] [v ++ v]); [|repeat constructor]|done|done|done
  |by repeat constructor|by apply Z.leb_le|by apply Z.ltb_lt].

Lemma two_scripts_calls : Forall (function_call (T := unit) 60 1 twice_server (SubMux 0)) two_scripts.
Proof.
  constructor; [|constructor; [|constructor]].
  - twice_call [x2a] (Some (mkResponse (V := list byte) None false [Val [x2a; x2a]]), @None call_error).
  - twice_call [x07; x08] (Some (mkResponse (V := list byte) None false [Val [x07; x08; x07; x08]]), @None call_error).
Qed.

Lemma pair_ready : ready NewPair.1 ∧ ready NewPair.2.
Proof. split; (split; [by vm_compute|by constructor]). Qed.

Lemma calls_do_not_interfere_witness :
  let c := exec_events 60 1 twice_server (SubMux 0) overtaking (crowd_start NewPair.1 NewPair.2 two_calls) in
  length (cr_clients c) = 2%nat ∧
  ∀ k r, cr_clients c !! k = Some (Returned r) → sp_result <$> (two_scripts !! k) = Some r.
Proof.
  intros c. split; [by vm_compute|]. destruct pair_ready as [Ra Rb].
  apply (calls_do_not_interfere (V := list byte) (T := unit) 60 1 twice_server (SubMux 0)
    NewPair.1 NewPair.2 two_scripts c two_scripts_calls Ra Rb); [done|done|by vm_compute|by vm_compute|].
  apply exec_events_steps.
Defined.

Lemma calls_complete_witness :
  sn (crowd_step (V := list byte) (T := unit) 60 1 twice_server (SubMux 0))
    (crowd_start NewPair.1 NewPair.2 two_calls).
Proof.
  destruct pair_ready as [Ra Rb].
  apply (calls_complete (V := list byte) (T := unit) 60 1 twice_server (SubMux 0)
    NewPair.1 NewPair.2 two_scripts _ two_scripts_calls Ra Rb); [done|done|by vm_compute|by vm_compute|done].
Defined.
