(* ===== verification/RpcCancel.v ===== *)
(** * Calls and their context

    [Client.Call] with the goroutine that closes the channel of a cancelled
    call: what it returns, and when it leaves the channel open. *)
From S2P Require Import Prelude GoRuntime FrameCodec RespondMux Rpc RpcSpec.

(** ** Running on a channel end *)

(** [m] returns, and [R] relates the number of closes before, its result and the
    number of closes after. *)
Definition runs {A} (m : M chan_end A) (R : nat → A → nat → Prop) : Prop :=
  ∀ c, ∃ a c', m c = (Ret a, c') ∧ R (ce_closes c) a (ce_closes c').

Lemma runs_ret {A} (a : A) (R : nat → A → nat → Prop) : (∀ n, R n a n) → runs (mret a) R.
Proof. intros HR c. by exists a, c. Qed.

Lemma runs_bind {A B} (m : M chan_end A) (k : A → M chan_end B) R R' :
  runs m R → (∀ n a n', R n a n' → runs (k a) (λ n1 b n2, n1 = n' → R' n b n2)) →
  runs (m ≫= k) R'.
Proof.
  intros Hm Hk c. destruct (Hm c) as (a & c' & Hrun & HR).
  destruct (Hk _ _ _ HR c') as (b & c'' & Hrun' & HR'). exists b, c''. split; [|by apply HR'].
  by rewrite (bind_ret _ _ _ _ _ Hrun).
Qed.

Lemma runs_mono {A} (m : M chan_end A) (R R' : nat → A → nat → Prop) :
  runs m R → (∀ n a n', R n a n' → R' n a n') → runs m R'.
Proof. intros Hm HR c. destruct (Hm c) as (a & c' & Hrun & ?). exists a, c'. auto. Qed.

Section client.
Context {V T : Type} `{Codec V T}.

Lemma runs_Close : runs chan_Close (λ n _ n', n' = S n).
Proof using. intros c. by eexists _, _. Qed.

Lemma runs_Encode v : runs (end_Encode v) (λ n _ n', n' = n).
Proof using.
  intros c. unfold end_Encode. destruct (frameEncoder_Encode v (ce_out c)) as [e w]. by eexists _, _.
Qed.

Lemma runs_closing {A} (a : A) : runs (_ ← chan_Close; mret a) (λ n b n', b = a ∧ n' = S n).
Proof using.
  eapply runs_bind; [apply runs_Close|]. intros n x n' ->. apply runs_ret. by intros n2 ->.
Qed.

Lemma runs_encode_args vs :
  runs (encode_args vs) (λ n e n', n' = match e with None => n | Some _ => S n end).
Proof using.
  induction vs as [|v vs IH]; cbn [encode_args]; [by apply runs_ret|].
  eapply runs_bind; [apply runs_Encode|]. intros n [e|] n' ->.
  - eapply runs_mono; [apply runs_closing|]. by intros n1 b n2 [-> ->] ->.
  - eapply runs_mono; [apply IH|]. by intros n1 b n2 -> ->.
Qed.

Lemma runs_request sel args :
  runs (call_request sel args) (λ n e n', n' = match e with None => n | Some _ => S n end).
Proof using.
  unfold call_request. eapply runs_bind; [apply runs_Encode|]. intros n [e|] n' ->.
  - eapply runs_mono; [apply runs_closing|]. by intros n1 b n2 [-> ->] ->.
  - destruct args; (eapply runs_mono; [apply runs_encode_args|]; by intros n1 b n2 -> ->).
Qed.

(** [m] does the same, or waits for bytes on a stream that has not ended; so far it
    has closed nothing then. *)
Definition reads {A} (m : M chan_end A) (R : nat → A → nat → Prop) : Prop :=
  ∀ c, (∃ a c', m c = (Ret a, c') ∧ R (ce_closes c) a (ce_closes c') ∧
          rd_err (ce_in c') = rd_err (ce_in c)) ∨
       (∃ c', m c = (Block, c') ∧ ce_closes c' = ce_closes c ∧
          rd_err (ce_in c) = io_Pending ∧ frame_waits (ce_in c') = true).

Lemma reads_ret {A} (a : A) (R : nat → A → nat → Prop) : (∀ n, R n a n) → reads (mret a) R.
Proof using. intros HR c. left. by exists a, c. Qed.

Lemma reads_bind {A B} (m : M chan_end A) (k : A → M chan_end B) (P : A → Prop) R :
  reads m (λ n a n', n' = n ∧ P a) → (∀ a, P a → reads (k a) R) → reads (m ≫= k) R.
Proof using.
  intros Hm Hk c. destruct (Hm c) as [(a & c' & Hrun & [Hn HP] & He)|(c' & Hrun & Hn & He & Hw)].
  - rewrite (bind_ret _ _ _ _ _ Hrun), <- Hn, <- He. by apply Hk.
  - right. exists c'. by rewrite (bind_block _ _ _ _ Hrun).
Qed.

Lemma reads_mono {A} (m : M chan_end A) (R R' : nat → A → nat → Prop) :
  reads m R → (∀ n a n', R n a n' → R' n a n') → reads m R'.
Proof using.
  intros Hm HR c. destruct (Hm c) as [(a & c' & Hrun & ? & ?)|?]; [left|by right].
  exists a, c'. auto.
Qed.

Lemma io_ReadFull_keeps_err n r : rd_err (io_ReadFull n r).2 = rd_err r.
Proof using. unfold io_ReadFull. case_cmp; [done|]. by destruct (rd_data r), (rd_err r). Qed.

Lemma reads_Decode {A} (dec : list byte → result A) : reads (end_Decode dec) (λ n _ n', n' = n ∧ True).
Proof using.
  intros c. unfold end_Decode. destruct (frame_waits (ce_in c)) eqn:Hw.
  - right. exists c. split_and!; [done..| |done]. unfold frame_waits in Hw.
    by apply andb_true_iff in Hw as [Hw%bool_decide_eq_true _].
  - left. destruct (frameDecoder_Decode dec (ce_in c)) as [v r] eqn:Ed. eexists _, _.
    split; [done|]. split; [done|]. cbn [ce_in]. unfold frameDecoder_Decode in Ed.
    pose proof (io_ReadFull_keeps_err 4 (ce_in c)) as E1.
    destruct (io_ReadFull 4 (ce_in c)) as [[p|e] r1]; [|by simplify_eq/=].
    pose proof (io_ReadFull_keeps_err (Uint32 p) r1) as E2.
    destruct (io_ReadFull (Uint32 p) r1) as [[q|e] r2]; simplify_eq/=; congruence.
Qed.

Lemma reads_decode_replies replies got :
  reads (decode_replies (V := V) replies got) (λ n _ n', n' = n ∧ True).
Proof using.
  revert got. induction replies as [|t replies IH]; intros got; cbn [decode_replies]; [by apply reads_ret|].
  eapply reads_bind; [apply reads_Decode|]. intros [v|e] _; [apply IH|by apply reads_ret].
Qed.

(** The close at the end of [call]. *)
Lemma reads_closing {A} (a : A) : reads (_ ← chan_Close; mret a) (λ n b n', b = a ∧ n' = S n).
Proof using. intros c. left. by eexists _, _. Qed.

(** How often the channel was closed for a result: not at all if the response
    asked to continue. *)
Definition closes_of (r : option (Response V) * option call_error) : nat :=
  match r.1 with Some resp => if resp_Continue resp then 0 else 1 | None => 1 end.

(** A result without a response is an error. *)
Definition explained (r : option (Response V) * option call_error) : Prop :=
  r.1 = None → is_Some r.2.

Lemma reads_response replies :
  reads (call_response replies) (λ n r n', n' = (closes_of r + n)%nat ∧ explained r).
Proof using.
  unfold call_response. eapply reads_bind; [apply reads_Decode|]. intros [[err k]|e] _.
  2: { eapply reads_mono; [apply reads_closing|]. intros n1 b n2 [-> ->]. split; [done|]. intros _. by eexists. }
  eapply (reads_bind _ _ (λ r, ∃ resp e, r = (Some resp, e) ∧ resp_Continue resp = k)).
  - destruct err as [text|]; [apply reads_ret; by eauto|]. destruct (reply_nil replies).
    + eapply reads_bind; [apply reads_Decode|]. intros x _. apply reads_ret. intros m. by eauto.
    + eapply reads_bind; [apply reads_decode_replies|]. intros [got er] _. apply reads_ret.
      intros m. by eauto.
  - intros r (resp & e & -> & Hk). destruct k.
    + intros c. left. eexists _, _. split; [done|]. unfold closes_of, explained. cbn. by rewrite Hk.
    + eapply reads_mono; [apply reads_closing|]. intros n1 b n2 [-> ->].
      unfold closes_of, explained. cbn. by rewrite Hk.
Qed.

Lemma runs_cancel here p :
  runs (cancel_at here p) (λ n _ n', n' = if decide (p = here) then S n else n).
Proof using.
  unfold cancel_at. destruct (decide (p = here)); [|by apply runs_ret].
  eapply runs_mono; [apply runs_closing|]. by intros n a n' [_ ->].
Qed.

(** What [call] does: it returns, or waits for a response on a stream that has
    not ended. *)
Lemma call_cases env p sel args replies c :
  (∀ c, ce_closes (env c) = ce_closes c) →
  (∃ r c', call env p sel args replies c = (Ret r, c') ∧ explained r ∧
     ∃ k, ce_closes c' = (closes_of r + k + ce_closes c)%nat ∧
       (p = NotClosed → k = 0%nat) ∧ (p = BeforeRequest → (0 < k)%nat) ∧
       (p = BeforeResponse → (0 < closes_of r + k)%nat)) ∨
  (∃ c1 c', call env p sel args replies c = (Block, c') ∧ rd_err (ce_in (env c1)) = io_Pending ∧
     frame_waits (ce_in c') = true ∧
     ce_closes c1 = ((if decide (p = BeforeRequest) then 1 else 0) +
       (if decide (p = BeforeResponse) then 1 else 0) + ce_closes c)%nat ∧
     ce_closes c' = ce_closes c1).
Proof using.
  intros Henv. unfold call. destruct (runs_cancel BeforeRequest p c) as ([] & c1 & H1 & N1).
  rewrite (bind_ret _ _ _ _ _ H1). destruct (runs_request sel args c1) as (e & c2 & H2 & N2).
  rewrite (bind_ret _ _ _ _ _ H2). destruct e as [e|].
  - left. eexists _, c2. split; [done|]. split; [intros _; by eexists|].
    exists (if decide (p = BeforeRequest) then 1 else 0)%nat. unfold closes_of. cbn [fst].
    repeat case_decide; subst; (split; [lia|]; repeat split; intros; try done; lia).
  - destruct (runs_cancel BeforeResponse p c2) as ([] & c3 & H3 & N3).
    rewrite (bind_ret _ _ _ _ _ H3). erewrite bind_ret by reflexivity.
    destruct (reads_response replies (env c3)) as [(r & c' & H4 & [N4 Hr] & _)|(c' & H4 & N4 & Hp & Hw)].
    + left. exists r, c'. split; [done|]. split; [done|]. rewrite Henv in N4.
      exists ((if decide (p = BeforeRequest) then 1 else 0)
              + (if decide (p = BeforeResponse) then 1 else 0))%nat.
      repeat case_decide; subst; (split; [lia|]; repeat split; intros; try done; lia).
    + right. exists c3, c'. rewrite Henv in N4. split_and!; try done.
      repeat case_decide; subst; try done; lia.
Qed.
End client.

(** An undisturbed call: its request, and the response to it. *)
Lemma Client_Call_plain {V T} `{Codec V T} ch env sel args replies c :
  call_request sel args ch = (Ret None, c) →
  Client_Call (Ok ch) env NotClosed None sel args replies
  = let '(o, c) := call_response replies (env c) in (o, Some c).
Proof.
  intros Hreq. unfold Client_Call, Client_Call_on, call, cancel_at. cbn [decide].
  rewrite !decide_False by done.
  assert ((_ ← mret tt; err ← call_request sel args;
           match err with
           | Some e => mret (None, Some (LocalError e))
           | None => _ ← mret tt; _ ← modify_st env; call_response replies
           end) ch = call_response replies (env c)) as Hcall.
  { erewrite bind_ret by reflexivity. erewrite bind_ret by exact Hreq. cbv iota beta.
    erewrite bind_ret by reflexivity. by erewrite bind_ret by reflexivity. }
  unfold mbind at 1, M_bind at 1. rewrite Hcall.
  destruct (call_response replies (env c)) as [[r| | |] c']; try done.
Qed.

(** Whether the channel of a call is still open after it. *)
Definition left_open {V} (p : cancel_point) (resp : option (Response V)) : bool :=
  bool_decide (p = NotClosed) && match resp with Some r => resp_Continue r | None => false end.

(** The server's loop, up to the first error of [Accept]. *)
Lemma Server_Respond_loop_eq chs spawned e rest :
  Server_Respond_loop ((Ok <$> chs) ++ Err e :: rest) spawned
  = (if decide (e = io_EOF) then Ret tt else Panic (Error_text e), spawned ++ chs).
Proof.
  revert spawned. induction chs as [|ch chs IH]; intros spawned; cbn.
  - by rewrite app_nil_r.
  - by rewrite IH, <- app_assoc.
Qed.

(** ** Properties *)

(** C34. What becomes of a call. [Call] waits for the response as long as its
    channel is open: a server that sends nothing keeps it waiting. When the
    goroutine of a done context closes the channel before the response is there,
    [Call] returns, whatever the server does, provided the peer's session ends the
    stream of a channel that was closed. Once [Call] returned, a done context gives
    its error; without a response there is an error; and the channel was closed,
    unless the server continued the call and the goroutine did not get to close
    it, in which case it is still open. *)
Theorem Client_Call_closes {V T} `{Codec V T} ch env p ctx_err sel args replies :
  (∀ c, ce_closes (env c) = ce_closes c) →
  (∀ c, ce_closes c ≠ 0%nat → rd_err (ce_in (env c)) ≠ io_Pending) →
  match Client_Call (Ok ch) env p ctx_err sel args replies with
  | (Ret (resp, err), Some ch') =>
      (∀ e, ctx_err = Some e → err = Some (LocalError e)) ∧
      (resp = None → is_Some err) ∧
      if left_open p resp then ce_closes ch' = ce_closes ch else (ce_closes ch < ce_closes ch')%nat
  | (Block, Some ch') =>
      p ≠ BeforeRequest ∧ p ≠ BeforeResponse ∧ ce_closes ch' = 0%nat ∧ frame_waits (ce_in ch') = true
  | _ => False
  end ∧
  (∀ c, call_request sel args ch = (Ret None, c) → ce_in (env c) = mkReader [] io_Pending →
     p = NotClosed → ∃ c', Client_Call (Ok ch) env p ctx_err sel args replies = (Block, Some c')).
Proof.
  intros Henv Hpeer. split.
  - unfold Client_Call, Client_Call_on.
    destruct (call_cases env p sel args replies ch Henv)
      as [(r & c & Hc & Hr & k & Hn & K1 & K2 & K3)|(c1 & c & Hc & Hp & Hw & N1 & N2)].
    2: { rewrite (bind_block _ _ _ _ Hc).
         assert (ce_closes c1 = 0%nat) as E.
         { destruct (decide (ce_closes c1 = 0%nat)) as [|Hne]; [done|]. by apply Hpeer in Hne. }
         rewrite E in *. repeat case_decide; try lia. done. }
    rewrite (bind_ret _ _ _ _ _ Hc). destruct (runs_cancel AfterResponse p c) as ([] & c' & H2 & N2).
    rewrite (bind_ret _ _ _ _ _ H2). cbv iota beta. destruct r as [resp err].
    cbn [mret M_ret]. destruct ctx_err as [e|]; cbn [fst snd];
      (split; [by intros e' [= ->]|split; [by intros; eauto|]]).
    all: unfold left_open, closes_of in *; cbn [fst] in *; destruct p;
      rewrite ?bool_decide_false by done; rewrite ?bool_decide_true by done; cbn [andb];
      rewrite ?(decide_True (P := _ = _)) in N2 by done;
      rewrite ?(decide_False (P := _ = AfterResponse)) in N2 by done.
    all: try specialize (K1 eq_refl); try specialize (K2 eq_refl); try specialize (K3 eq_refl).
    all: first [lia|destruct resp as [r|]; [destruct (resp_Continue r)|]; lia].
  - intros c Hreq Hin ->. exists (env c). unfold Client_Call, Client_Call_on, call, cancel_at.
    rewrite !decide_False by done.
    assert ((_ ← mret tt; err ← call_request sel args;
             match err with
             | Some e => mret (None, Some (LocalError e))
             | None => _ ← mret tt; _ ← modify_st env; call_response replies
             end) ch = (Block, env c)) as Hcall.
    { erewrite bind_ret by reflexivity. erewrite bind_ret by exact Hreq. cbv iota beta.
      erewrite bind_ret by reflexivity. erewrite bind_ret by reflexivity. unfold call_response.
      apply bind_block. unfold end_Decode. by rewrite Hin. }
    by rewrite (bind_block _ _ _ _ Hcall).
Qed.

(** What has arrived once the server [demo_stream] has answered, and closed if the
    call was closed. *)
Definition demo_env (c : chan_end) : chan_end :=
  match Server_respond (V := list byte) (T := unit) 1 demo_stream (SubMux 0)
          (new_responder (peer_of (ce_out c) io_Pending)) with
  | (_, s) => hears (ce_out (sv_ch s)) (if (ce_closes c =? 0)%nat then io_Pending else io_EOF) c
  end.

Lemma demo_env_closes c : ce_closes (demo_env c) = ce_closes c.
Proof. unfold demo_env. by destruct (Server_respond _ _ _ _). Qed.

Lemma demo_env_ends c : ce_closes c ≠ 0%nat → rd_err (ce_in (demo_env c)) ≠ io_Pending.
Proof.
  intros Hc. unfold demo_env. destruct (Server_respond _ _ _ _). cbn.
  by rewrite (proj2 (Nat.eqb_neq _ _) Hc).
Qed.

Lemma Client_Call_closes_witness :
  ∃ resp err ch', Client_Call (V := list byte) (T := unit) (Ok fresh_end) demo_env BeforeResponse
      (Some ctx_Canceled) "count" (ArgValue (Val [x2a])) [TVar tt] = (Ret (resp, err), Some ch') ∧
    err = Some (LocalError ctx_Canceled) ∧ (0 < ce_closes ch')%nat.
Proof.
  pose proof (Client_Call_closes (V := list byte) (T := unit) fresh_end demo_env BeforeResponse
    (Some ctx_Canceled) "count" (ArgValue (Val [x2a])) [TVar tt] demo_env_closes demo_env_ends) as [H _].
  eexists _, _, _. split; [vm_compute; reflexivity|]. split; [reflexivity|].
  exact (proj2 (proj2 H)).
Defined.

(** A call that was continued and whose context is done by the time [Call]
    looks, but whose goroutine then sees [done] first: [Call] returns the
    context's error, and the channel stays open behind it. *)
Theorem cancelled_stream_leaks :
  ∃ ch', Client_Call (V := list byte) (T := unit) (Ok fresh_end) demo_env NotClosed
      (Some ctx_Canceled) "count" (ArgValue (Val [x2a])) [TVar tt]
    = (Ret (Some (mkResponse None true [Val [x2a]]), Some (LocalError ctx_Canceled)), Some ch') ∧
    ce_closes ch' = 0%nat.
Proof. by eexists. Qed.
