(* ===== verification/FnProperties.v ===== *)
(** * fn: properties

    Type safety of calls by reflection, what JSON-like arguments become, how
    results and errors are told apart, handlers made of functions end to end,
    and the routing of a receiver's methods. *)
From Stdlib Require Import Floats.SpecFloat Ascii String.
From S2P Require Import Prelude GoRuntime GoReflect GoReflectSpec Fn FnSpec.
From S2P Require Import FrameCodec RespondMux RespondMuxSpec Rpc RpcSpec.

Local Open Scope Z_scope.

(** ** JSON-like arguments *)

Section json.
Context `{GT : GoTypes} `{HL : !GoTypesLaws} `{FloatConv} `{MS : Mapstructure}.

(** [json_arg t v x]: the decoded argument [x] stands for the value [v] of the
    parameter type [t]. Numbers are floats, structs and slices of structs are
    decoded by mapstructure, an [any] parameter takes anything but a slice of
    specific elements. *)
Inductive json_arg : rtype → value → iface → Prop :=
| json_basic t k v :
    underlying t = TBasic k → has_type (TBasic k) v → json_arg t v (Some (TBasic k, v))
| json_number t k z :
    underlying t = TBasic k → k ≠ BBool → k ≠ BFloat64 → k ≠ BString →
    has_type (TBasic k) (VInt z) → Z.abs z ≤ 2 ^ 53 →
    json_arg t (VInt z) (Some (TFloat64, VFloat (int_to_float z)))
| json_struct t v x :
    Kind t = KStruct → mapstructure_Decode x t (zero t) = Ok v → json_arg t v x
| json_structs t xs vs :
    Kind t = KSlice → Kind (Elem t) = KStruct →
    Forall2 (λ x v, mapstructure_Decode x (Elem t) (zero (Elem t)) = Ok v) xs vs →
    json_arg t (VSlice (Some vs)) (Some (TSlice TAny, VSlice (Some (VIface <$> xs))))
| json_any pt x :
    Kind pt ≠ KSlice ∨ Elem pt = TAny → is_interface pt = false →
    json_arg TAny (VIface (Some (pt, x))) (Some (pt, x)).

Lemma Kind_basic t k : underlying t = TBasic k → Kind t = Kind (TBasic k).
Proof. unfold Kind. by intros ->. Qed.

Lemma Convert_same_basic t k v :
  underlying t = TBasic k → has_type (TBasic k) v → Convert (Some (TBasic k, v)) t = Ret (Some (t, v)).
Proof.
  intros Hu Hv. unfold Convert. rewrite Hu. cbn [underlying].
  rewrite (bool_decide_true (TBasic k = TBasic k)) by done.
  inversion Hv; subst; cbn; try done; rewrite ?wrap64_small, ?Z.mod_small by done; done.
Qed.

Lemma Convert_float t k z :
  underlying t = TBasic k → k ≠ BBool → k ≠ BFloat64 → k ≠ BString →
  has_type (TBasic k) (VInt z) → Z.abs z ≤ 2 ^ 53 →
  Convert (Some (TFloat64, VFloat (int_to_float z))) t = Ret (Some (t, VInt z)).
Proof.
  intros Hu H1 H2 H3 Hz Ha. unfold Convert. rewrite Hu. cbn [underlying TFloat64].
  inversion Hz; subst; try done; cbn [convert_basic wrap_basic];
    rewrite float_to_int64_int, ?wrap64_small, ?Z.mod_small by done; done.
Qed.

(** [ensureType] converts a value that is not a slice. *)
Lemma ensureType_plain h vt x t :
  Kind vt ≠ KSlice ∨ Elem vt = t →
  ensureType h (Some (vt, x)) t
  = if bool_decide (vt = t) then Ret (Some (vt, x)) else Convert (Some (vt, x)) t.
Proof.
  intros Hk. unfold ensureType. cbn [Value_Type mbind outcome_bind].
  destruct (bool_decide _ && bool_decide _) eqn:Hb; [|done].
  apply andb_prop in Hb as [H1%bool_decide_eq_true H2%bool_decide_eq_true].
  by destruct Hk.
Qed.

Lemma ensureType_same h t x : Kind t ≠ KSlice → ensureType h (Some (t, x)) t = Ret (Some (t, x)).
Proof. intros Hk. rewrite ensureType_plain by by left. by rewrite bool_decide_true. Qed.

Lemma Value_Index_slice t l i x :
  l !! i = Some x → Value_Index (Some (t, VSlice (Some l))) i = Ret (Some (Elem t, x)).
Proof. intros Hx. unfold Value_Index. cbn. by rewrite Hx. Qed.

(** [nv] is [make]d, and its elements are decoded one after the other. *)
Lemma decode_elems_eq t xs vs pre rest :
  Kind t = KSlice →
  Forall2 (λ x v, mapstructure_Decode x (Elem t) (zero (Elem t)) = Ok v) xs vs →
  length rest = length pre →
  decode_elems (length xs) (Some (TSlice TAny, VSlice (Some (VIface <$> (rest ++ xs)))))
    (Some (t, VSlice (Some (pre ++ replicate (length xs) (zero (Elem t)))))) (length pre)
  = Ret (Ok (Some (t, VSlice (Some (pre ++ vs))))).
Proof.
  intros Hk Hd. revert pre rest. induction Hd as [|x v xs vs Hx _ IH]; intros pre rest Hlen; [done|].
  cbn [length decode_elems replicate].
  assert (Hi : ∀ l' : list value,
    Value_Index (Some (t, VSlice (Some (pre ++ zero (Elem t) :: l')))) (length pre)
    = Ret (Some (Elem t, zero (Elem t)))).
  { intros l'. by apply Value_Index_slice, list_lookup_middle. }
  rewrite Hi. cbn [mbind outcome_bind Value_Type].
  rewrite (Value_Index_slice _ _ _ (VIface x)).
  2: { rewrite fmap_app. apply list_lookup_middle. by rewrite length_fmap. }
  cbn [mbind outcome_bind].
  change (Value_Interface (Elem (TSlice TAny), VIface x)) with x. rewrite Hx.
  unfold Value_SetIndex. rewrite Hi. cbn [mbind outcome_bind]. rewrite assignTo_same.
  cbn [mbind outcome_bind].
  replace (<[length pre := v]> (pre ++ zero (Elem t) :: replicate (length xs) (zero (Elem t))))
    with ((pre ++ [v]) ++ replicate (length xs) (zero (Elem t))).
  2: { rewrite <- app_assoc. cbn. by rewrite insert_app_r_alt, Nat.sub_diag by lia. }
  replace (S (length pre)) with (length (pre ++ [v])) by (rewrite length_app; cbn; lia).
  replace (VIface <$> rest ++ x :: xs) with (VIface <$> (rest ++ [x]) ++ xs)
    by (by rewrite <- app_assoc).
  rewrite IH by (rewrite !length_app, Hlen; done). by rewrite <- app_assoc.
Qed.

Lemma arg_to_json h t v x : json_arg t v x → arg_to h t x = Ret (Ok (Some (t, v))).
Proof.
  intros Hj. unfold arg_to. destruct Hj as [t k v Hu Hv|t k z Hu H1 H2 H3 Hz Ha|t v x Hk Hd
    |t xs vs Hk Hke Hd|pt x Hk Hi].
  - assert (ensureType h (Some (TBasic k, v)) t = Ret (Some (t, v))) as He.
    { rewrite ensureType_plain by (left; by destruct k). case_bool_decide as Ht; [by rewrite Ht|].
      by apply Convert_same_basic. }
    rewrite (Kind_basic _ _ Hu). unfold ValueOf, mbind, outcome_bind.
    destruct k; cbn -[ensureType]; repeat case_bool_decide; try done; by rewrite He.
  - assert (Hcv : Kind t ≠ KInt →
      ensureType h (Some (TFloat64, VFloat (int_to_float z))) t = Ret (Some (t, VInt z))).
    { intros Hk. rewrite ensureType_plain by by left.
      rewrite bool_decide_false; [by apply (Convert_float t k)|]. intros <-.
      cbn in Hu. by injection Hu as <-. }
    rewrite (Kind_basic _ _ Hu) in *. destruct k; try done; unfold ValueOf, mbind, outcome_bind.
    + assert (ensureType h (Some (TInt, VInt z)) t = Ret (Some (t, VInt z))) as He.
      { rewrite ensureType_plain by by left. case_bool_decide as Ht; [by rewrite Ht|].
        by apply (Convert_same_basic t BInt). }
      cbn -[ensureType]. repeat case_bool_decide; try done.
      rewrite float_to_int64_int by done. by rewrite He.
    + cbn -[ensureType]. repeat case_bool_decide; try done. by rewrite Hcv.
    + cbn -[ensureType]. repeat case_bool_decide; try done. by rewrite Hcv.
  - rewrite Hk, Hd. rewrite ensureType_same by by rewrite Hk. done.
  - rewrite Hk. rewrite bool_decide_true by done. unfold ValueOf.
    assert (Value_Len h (Some (TSlice TAny, VSlice (Some (VIface <$> xs)))) = Ret (length xs)) as ->
      by (cbn; by rewrite length_fmap).
    exact (decode_elems_eq t xs vs [] [] Hk Hd eq_refl).
  - change (Kind TAny) with KInterface. cbv iota. rewrite bool_decide_false by done.
    unfold ValueOf, mbind, outcome_bind. rewrite ensureType_plain by done.
    rewrite bool_decide_false by (by intros ->).
    assert (Convert (Some (pt, x)) TAny = Ret (Some (TAny, VIface (Some (pt, x))))) as ->; [|done].
    unfold Convert. rewrite (bool_decide_false (underlying TAny = underlying pt)).
    2: { intros Hu. by rewrite (is_interface_iface pt []) in Hi. }
    assert (Value_Interface (pt, x) = Some (pt, x)) as ->
      by (unfold Value_Interface; rewrite Hi; by destruct x).
    by destruct pt as [|n| |n ? | | | | |]; cbn; repeat case_match.
Qed.
End json.

(** ** Results *)

Section results.
Context `{GT : GoTypes} `{FloatConv} `{MS : Mapstructure} `{ST : Stack}.

(** Results as [any] values. *)
Definition any_results (outs : list rtype) (rs : list value) : list iface :=
  Value_Interface <$> zip outs rs.

Lemma interfaces_eq l : interfaces (Some <$> l) = Ret (Value_Interface <$> l).
Proof. induction l as [|x l IH]; [done|]. cbn. cbn in IH. by rewrite IH. Qed.

Lemma zip_with_Some {A B} (l : list A) (k : list B) :
  zip_with (λ a b, Some (a, b)) l k = Some <$> zip l k.
Proof. revert k. induction l as [|a l IH]; intros [|b k]; [done..|]. cbn. by rewrite IH. Qed.

(** Without an error at the end, every result is returned. *)
Lemma ParseReturn_values outs rs :
  length outs = length rs →
  match last outs with Some t => Implements t TError = false | None => True end →
  ParseReturn (zip_with (λ t r, Some (t, r)) outs rs) = Ret (Ok (any_results outs rs)).
Proof.
  intros Hlen He. rewrite zip_with_Some. unfold any_results, ParseReturn.
  destruct outs as [|t outs _] using rev_ind; [done|].
  destruct rs as [|r rs _] using rev_ind; [rewrite length_app in Hlen; cbn in Hlen; lia|].
  rewrite !length_app in Hlen. cbn in Hlen. rewrite last_snoc in He.
  rewrite zip_with_app by lia. cbn [zip_with]. rewrite fmap_app. cbn [fmap list_fmap].
  rewrite last_snoc. cbn [Value_Type mbind outcome_bind]. rewrite He.
  change [Some (t, r)] with (Some <$> [(t, r)]). rewrite <- fmap_app, interfaces_eq. done.
Qed.

(** An error at the end is taken off, or is all there is. *)
Lemma ParseReturn_error outs rs x :
  length outs = length rs →
  ParseReturn (zip_with (λ t r, Some (t, r)) (outs ++ [TError]) (rs ++ [VIface x]))
  = Ret (match x with None => Ok (any_results outs rs) | Some e => Err (as_error e) end).
Proof.
  intros Hlen. rewrite zip_with_Some, zip_with_app by done. cbn [zip_with].
  rewrite fmap_app. cbn [fmap list_fmap]. unfold ParseReturn. rewrite last_snoc.
  cbn [Value_Type mbind outcome_bind].
  assert (Implements TError TError = true) as -> by by vm_compute.
  destruct x as [x|]; [done|]. cbn [IsNil mbind outcome_bind].
  rewrite length_app, length_fmap. cbn [length].
  rewrite Nat.add_sub. rewrite take_app_length' by by rewrite length_fmap.
  by rewrite interfaces_eq.
Qed.

Lemma prepare_call_exact ins vs :
  length ins = length vs →
  prepare_call ins false (zip_with (λ t v, Some (t, v)) ins vs) = Ret vs.
Proof.
  intros Hlen. unfold prepare_call. rewrite zip_with_Some, length_fmap, length_zip_with.
  rewrite Hlen, Nat.min_id, Nat.ltb_irrefl. cbn [negb andb].
  assert (existsb (λ a, match a with None => true | Some _ => false end)
    (Some <$> zip ins vs) = false) as ->.
  { clear. induction (zip ins vs) as [|x l IH]; done. }
  assert (call_params ins (Some <$> zip ins vs) = Ret vs) as Hc.
  { revert vs Hlen. induction ins as [|t ins IH]; intros [|v vs] Hlen; try done.
    cbn [zip zip_with fmap list_fmap call_params]. rewrite assignTo_same.
    cbn [mbind outcome_bind]. unfold zip in IH. rewrite IH by (by injection Hlen). done. }
  rewrite !take_ge by (rewrite ?length_fmap, ?length_zip_with; lia). rewrite Hc. done.
Qed.
End results.

Section calls.
Context `{GT : GoTypes} `{HL : !GoTypesLaws} `{FloatConv} `{MS : Mapstructure} `{ST : Stack}.
Context {S : Type} `{FB : FuncBodies S}.

Lemma ArgsTo_json h ft ins outs b args vs :
  underlying ft = TFunc ins outs b → Forall3 json_arg ins vs args →
  ArgsTo h ft args = Ret (Ok (zip_with (λ t v, Some (t, v)) ins vs)).
Proof.
  intros Hu H3. unfold ArgsTo, In_types. rewrite Hu. cbn [mbind outcome_bind].
  rewrite bool_decide_true.
  2: { pose proof (Forall3_length_lm _ _ _ _ H3). pose proof (Forall3_length_lr _ _ _ _ H3). lia. }
  clear Hu. induction H3 as [|t v x ins vs args Hj _ IH]; [done|].
  cbn [ArgsTo_loop zip_with]. rewrite (arg_to_json h t v x Hj). cbn [mbind outcome_bind].
  by rewrite IH.
Qed.

Lemma Call_json_eq h ft ins outs f args vs s :
  underlying ft = TFunc ins outs false → Forall3 json_arg ins vs args →
  Call h (Some (ft, VFunc (Some f))) args s = call_body f outs vs s.
Proof.
  intros Hu H3. rewrite (Call_eq _ _ _ _ _ _ _ _ Hu), (ArgsTo_json _ _ _ _ _ _ _ Hu H3).
  by rewrite prepare_call_exact by (by eapply Forall3_length_lm).
Qed.
End calls.

(** ** Handlers made of functions *)

Section handlers.
Context `{GT : GoTypes} `{FloatConv} `{MS : Mapstructure} `{ST : Stack}.
Context `{CD : Codec (rtype * value) rtype} `{FB : FuncBodies srv} `{OB : Objects}.

(** The bytes of [a], received into a [[]any], give the arguments [args]. *)
Definition arrives (a : any (rtype * value)) (args : list iface) : Prop :=
  ∀ b, codec_Encode a = Ok b →
    codec_Decode (TVar (TSlice TAny)) b = Ok (Val (TSlice TAny, VSlice (Some (VIface <$> args)))).

(** What a handler answers for the result of [Call]. *)
Definition fn_answer (r : result (list iface)) : list (any (rtype * value)) :=
  match r with Ok xs => to_any <$> xs | Err e => [VErr e] end.

Definition expects_call (ins : list rtype) : bool :=
  match last ins with Some t => bool_decide (t = callRef) | None => false end.

(** The arguments of the function: those received, and the call if it asks. *)
Definition fn_args (ins : list rtype) (args : list iface) (sel : string) : list iface :=
  if expects_call ins then args ++ [Some (call_value sel)] else args.

Lemma as_args_VIface args :
  as_args (Val (TSlice TAny, VSlice (Some (VIface <$> args)))) = args.
Proof.
  cbn. rewrite <- list_fmap_compose. induction args as [|x l IH]; [done|]. cbn. by rewrite IH.
Qed.

Lemma fromFunc_handles h ft f ins outs b a args r :
  underlying ft = TFunc ins outs b → arrives a args →
  (∀ sel s, Call h (Some (ft, VFunc (Some f))) (fn_args ins args sel) s = (Ret r, s)) →
  ∃ hd, fromFunc h (Some (ft, VFunc (Some f))) = Ret hd ∧ handles hd a (fn_answer r).
Proof.
  intros Hu Harr Hcall. unfold fromFunc, In_types. cbn [Value_Type mbind outcome_bind].
  rewrite Hu. cbn [mbind outcome_bind]. eexists. split; [done|].
  intros sel ab rest e n hb bs [Ha Hl] Hh Hbs. unfold recovering.
  match goal with |- match ?m ?s with _ => _ end = ?res => assert (m s = res) as ->; [|done] end.
  unfold Call_Receive. erewrite bind_ret; [|eapply on_ch_eq; by apply end_Decode_eq].
  rewrite (Harr _ Ha). cbv zeta. rewrite as_args_VIface. fold (expects_call ins).
  fold (fn_args ins args sel).
  cbn [set_sv_ch new_responder r_responded r_Error r_Continue].
  erewrite bind_ret by apply Hcall.
  destruct r as [xs|err]; cbn [fn_answer] in Hh, Hbs |- *;
    (erewrite bind_ret; [|apply (respond_eq _ _ _ _ (mkReader rest e) [] n Hh Hbs)]); done.
Qed.

(** ** A receiver's methods *)

(** A method name: it becomes a selector by a leading slash. *)
Definition method_name (name : string) : bool :=
  bool_decide (cleanSelector name = "/" +:+ name) && negb (ends_slash (cleanSelector name)).

Lemma register_methods_eq h rcvr p ms (muxes : gmap nat (RespondMux handler_func)) m :
  muxes !! p = Some m → NoDup ms.*1 → forallb method_name ms.*1 = true →
  (∀ name, name ∈ ms.*1 → m_m m !! cleanSelector name = None) →
  (∀ name sig, (name, sig) ∈ ms → ∃ f, method_handler h rcvr name sig = Ret f) →
  ∃ m', register_methods h rcvr p ms muxes = (Ret tt, <[p := m']> muxes) ∧ m_es m' = m_es m ∧
    (∀ k, k ∉ cleanSelector <$> ms.*1 → m_m m' !! k = m_m m !! k) ∧
    ∀ name sig f, (name, sig) ∈ ms → method_handler h rcvr name sig = Ret f →
      m_m m' !! cleanSelector name = Some (mkEntry (Some (HandlerFunc f)) (cleanSelector name)).
Proof.
  revert muxes m. induction ms as [|[name sig] ms IH]; intros muxes m Hp Hnd Hnames Hnew Hf.
  { exists m. cbn. rewrite insert_id by done. split_and!; try done.
    intros ? ? ? []%elem_of_nil. }
  cbn [fmap list_fmap fst forallb] in Hnd, Hnames.
  apply NoDup_cons in Hnd as [Hnin Hnd]. apply andb_prop in Hnames as [Hn Hnames].
  apply andb_prop in Hn as [Hcl%bool_decide_eq_true Hse].
  destruct (Hf name sig) as [f Hfn]; [by left|].
  cbn [register_methods]. erewrite bind_ret by (unfold lift; by rewrite Hfn).
  pose proof (Handle_eq p name (HandlerFunc f) muxes m Hp) as Hh.
  cbv zeta in Hh. cbn [handle_pattern] in Hh. rewrite (Hnew name) in Hh by by left.
  erewrite bind_ret by exact Hh. apply negb_true_iff in Hse.
  assert (Hne : ∀ n, n ∈ ms.*1 → cleanSelector n ≠ cleanSelector name).
  { intros n Hin Heq. apply Hnin.
    assert (method_name n = true) as [H1%bool_decide_eq_true _]%andb_prop.
    { apply Is_true_true, forallb_True in Hnames. rewrite Forall_forall in Hnames.
      by apply Is_true_true, Hnames. }
    rewrite H1, Hcl in Heq. by assert (n = name) as -> by (by injection Heq). }
  destruct (IH (<[p:=registered (cleanSelector name) (HandlerFunc f) m]> muxes)
    (registered (cleanSelector name) (HandlerFunc f) m)) as (m' & Hr & Hes & Hk & Hin).
  - by rewrite lookup_insert_eq.
  - done.
  - done.
  - intros n Hn. cbn. rewrite lookup_insert_ne by by apply not_eq_sym, Hne. apply Hnew. by right.
  - intros n sg Hin. apply Hf. by right.
  - exists m'. rewrite Hr, insert_insert_eq. split; [done|]. cbn in Hes. rewrite Hse in Hes.
    split; [done|]. split.
    + intros k Hkn. cbn [fmap list_fmap fst] in Hkn. apply not_elem_of_cons in Hkn as [Hk1 Hk2].
      rewrite Hk by done. cbn. by rewrite lookup_insert_ne.
    + intros n sg g [[= -> ->]|Hn]%elem_of_cons Hg; [|by apply (Hin n sg)].
      rewrite Hfn in Hg. injection Hg as <-. rewrite Hk.
      * cbn. by rewrite lookup_insert_eq.
      * intros (n' & Heq & Hn')%list_elem_of_fmap. symmetry in Heq. by apply Hne in Heq.
Qed.
End handlers.

(** ** A program to evaluate on

    One function, the sum of two [int]s; no declared types; a codec for its
    arguments and its result. *)
Module Demo.

#[export] Instance types : GoTypes := {|
  declared _ := TStruct [];
  declared_zero _ := VStruct [];
  method_set t := match t with TNamed "calc" => [("Sum", TFunc [TInt; TInt] [TInt] false)] | _ => [] end;
  as_error _ := errorString "failed";
|}.

#[export] Instance types_laws : GoTypesLaws.
Proof. split; [done|]. intros name. by repeat constructor. Qed.

#[export] Instance overflow : FloatConv := λ _, - 2 ^ 63.

#[export] Instance structs : Mapstructure := λ _ _ old, Ok old.

#[export] Instance structs_laws : MapstructureLaws.
Proof. by intros param t old new Hold [= <-]. Qed.

#[export] Instance stack : Stack := {| runtime_Callers := []; runtime_FuncForPC _ := None |}.

#[export] Instance sum S : FuncBodies S := λ _ ps,
  match ps with [VInt a; VInt b] => mret [VInt (wrap64 (a + b))] | _ => panic_st "bad" end.

#[export] Instance objects : Objects :=
  {| call_at _ := 0%nat; responder_at := 1%nat; bound_method _ _ := 0%nat |}.

Definition float_arg (z : Z) : iface := Some (TFloat64, VFloat (int_to_float z)).

Definition args : rtype * value :=
  (TSlice TAny, VSlice (Some (VIface <$> [float_arg 2; float_arg 3]))).

Definition five : rtype * value := (TInt, VInt 5).

#[export] Instance codec : Codec (rtype * value) rtype := {|
  codec_Encode v :=
    match v with
    | Val (TSlice _, _) => Ok [x05; x01]
    | Val (TBasic _, _) => Ok [x05; x02]
    | Val _ => Err (errorString "not in the demo")
    | VNil => codec_Encode (VNil : any (list byte))
    | VErr e => codec_Encode (VErr e : any (list byte))
    | VCallHeader s => codec_Encode (VCallHeader s : any (list byte))
    | VResponseHeader e c => codec_Encode (VResponseHeader e c : any (list byte))
    end;
  codec_Decode_call := codec_Decode_call (T := unit);
  codec_Decode_response := codec_Decode_response (T := unit);
  codec_Decode t b :=
    match b with
    | [x05; x01] => Ok (Val args)
    | [x05; x02] => Ok (Val five)
    | _ => Ok VNil
    end;
|}.

#[export] Instance demo_fits : Fits (rtype * value) rtype := λ t v, v = args ∨ v = five.

#[export] Instance codec_laws : CodecLaws (rtype * value) rtype.
Proof.
  split.
  - intros sel b. apply (law_call (V := list byte) (T := unit)).
  - intros e c b. apply (law_response (V := list byte) (T := unit)).
  - intros t v b [-> | ->] [= <-]; done.
Qed.

Definition sum_type : rtype := TFunc [TInt; TInt] [TInt] false.

Lemma sum_args : Forall3 json_arg [TInt; TInt] [VInt 2; VInt 3] [float_arg 2; float_arg 3].
Proof.
  assert (∀ z, z = 2 ∨ z = 3 → json_arg TInt (VInt z) (float_arg z)) as H.
  { intros z Hz. apply (json_number TInt BInt); try done; [constructor; unfold is_i64; lia|lia]. }
  constructor; [by apply H; left|]. constructor; [by apply H; right|constructor].
Qed.
End Demo.
Import Demo.

(** ** Properties *)

(** C30. Calls by reflection are type safe by what [ArgsTo] does. Whenever it
    succeeds there is one parameter for each argument, of exactly the type of the
    function's parameter, except that a slice without structs is passed as it was
    given. So the checks of [reflect] never refuse a call without such slices: the
    function of a fixed number of parameters then runs on just those values. With
    them, [reflect] refuses the call, which is an error like any other panic, or the
    function still runs on values of its parameter types (the variadic tail as a
    slice of its type). When [ArgsTo] fails or panics, [Call] returns that as an
    error without running the function. *)
Theorem Call_type_safe `{GT : GoTypes} `{HL : !GoTypesLaws} `{FloatConv} `{MS : Mapstructure}
    `{ML : !MapstructureLaws} `{ST : Stack} {S} `{FB : FuncBodies S} h ft ins outs b f args s :
  underlying ft = TFunc ins outs b → func_wf ins b → Forall iface_ok args →
  let fn := Some (ft, VFunc (Some f)) in
  match ArgsTo h ft args with
  | Ret (Ok vs) =>
      Forall3 param_ok ins args vs ∧
      (b = false → Forall (λ t, passed_as_is t = false) ins →
         ∃ ps, vs = zip_with (λ t p, Some (t, p)) ins ps ∧ Forall2 has_type ins ps ∧
           Call h fn args s = call_body f outs ps s) ∧
      ((∃ p, prepare_call ins b vs = Panic p ∧ Call h fn args s = (Ret (Err (panic_error p)), s)) ∨
       (∃ ps, Forall2 has_type ins ps ∧ Call h fn args s = call_body f outs ps s))
  | Ret (Err e) => Call h fn args s = (Ret (Err e), s)
  | Panic p => Call h fn args s = (Ret (Err (panic_error p)), s)
  | _ => False
  end.
Proof.
  intros Hu Hwf Hok fn. unfold fn. pose proof (settles_ArgsTo h ft args) as Hset.
  destruct (ArgsTo h ft args) as [[vs|e]| |p|] eqn:Ha; try done;
    try by rewrite (Call_eq _ _ _ _ _ _ _ _ Hu), Ha.
  pose proof (ArgsTo_typed h ft ins outs b args vs Hu Hok Ha) as Hps. split_and!; [done| |].
  - intros -> Hno. destruct (Forall3_params_typed _ _ _ Hps Hno) as (ps & -> & Hty).
    exists ps. split_and!; try done. rewrite (Call_eq _ _ _ _ _ _ _ _ Hu), Ha.
    by rewrite prepare_call_exact by (by eapply Forall2_length).
  - apply Call_cases with (b := b); try done. by eapply Forall3_params_ok.
Qed.

Lemma Call_type_safe_witness :
  ArgsTo ∅ Demo.sum_type [Demo.float_arg 2; Demo.float_arg 3]
    = Ret (Ok [Some (TInt, VInt 2); Some (TInt, VInt 3)]) ∧
  ∃ ps, [Some (TInt, VInt 2); Some (TInt, VInt 3)] = zip_with (λ t p, Some (t, p)) [TInt; TInt] ps ∧
    Forall2 has_type [TInt; TInt] ps ∧
    Call ∅ (Some (Demo.sum_type, VFunc (Some 0%nat))) [Demo.float_arg 2; Demo.float_arg 3] tt
    = call_body 0 [TInt] ps tt.
Proof.
  split; [vm_compute; reflexivity|].
  pose proof (Call_type_safe ∅ Demo.sum_type [TInt; TInt] [TInt] false 0
    [Demo.float_arg 2; Demo.float_arg 3] tt eq_refl I) as Hsafe.
  refine (proj1 (proj2 (Hsafe _)) eq_refl _); repeat constructor.
Defined.

(** C31. What a call by reflection returns. When the arguments stand for the
    values [vs] of the parameter types - numbers as floats up to 2^53, structs
    and slices of structs as mapstructure decodes them - the function runs on
    exactly [vs], and: without an error result all results are returned; a nil
    error at the end is dropped; another error is returned alone; a panic of the
    function is returned as an error with its text. *)
Theorem Call_results `{GT : GoTypes} `{HL : !GoTypesLaws} `{FloatConv} `{MS : Mapstructure}
    `{ST : Stack} {S} `{FB : FuncBodies S} h ft ins outs f args vs s s' :
  underlying ft = TFunc ins outs false → Forall3 json_arg ins vs args →
  let fn := Some (ft, VFunc (Some f)) in
  (∀ rs, func_body f vs s = (Ret rs, s') → length outs = length rs →
     match last outs with Some t => Implements t TError = false | None => True end →
     Call h fn args s = (Ret (Ok (any_results outs rs)), s')) ∧
  (∀ us rs x, outs = us ++ [TError] → length us = length rs →
     func_body f vs s = (Ret (rs ++ [VIface x]), s') →
     Call h fn args s =
       (Ret (match x with None => Ok (any_results us rs) | Some e => Err (as_error e) end), s')) ∧
  (∀ p, func_body f vs s = (Panic p, s') → Call h fn args s = (Ret (Err (panic_error p)), s')).
Proof.
  intros Hu H3 fn. unfold fn. rewrite (Call_json_eq _ _ _ _ _ _ _ _ Hu H3).
  unfold call_body, recovering. split_and!.
  - intros rs Hrun Hlen Hlast. erewrite bind_ret by exact Hrun. unfold lift.
    by rewrite ParseReturn_values.
  - intros us rs x -> Hlen Hrun. erewrite bind_ret by exact Hrun. unfold lift.
    by rewrite ParseReturn_error.
  - intros p Hrun. unfold mbind, M_bind. by rewrite Hrun.
Qed.

Lemma Call_results_witness :
  Call ∅ (Some (Demo.sum_type, VFunc (Some 0%nat))) [Demo.float_arg 2; Demo.float_arg 3] tt
  = (Ret (Ok [Some (TInt, VInt 5)]), tt).
Proof.
  exact (proj1 (Call_results ∅ Demo.sum_type [TInt; TInt] [TInt] 0
    [Demo.float_arg 2; Demo.float_arg 3] [VInt 2; VInt 3] tt tt eq_refl Demo.sum_args)
    [VInt 5] eq_refl eq_refl eq_refl).
Defined.

(** C32. A remote call of a Go function. If the selector resolves to the
    handler [HandlerFrom] makes of a function, the argument array arrives as
    values of the parameter types and the function returns [rs], then the client's
    request, the server's response and the client's reading of it end without
    error, the replies are the function's results in order, and both sides have
    closed the channel. *)
Theorem remote_function_returns `{GT : GoTypes} `{HL : !GoTypesLaws} `{FloatConv}
    `{MS : Mapstructure} `{ST : Stack} `{CL : CodecLaws (rtype * value) rtype}
    `{FB : FuncBodies srv} `{OB : Objects} fuel ms hn sel h ft ins outs f hd a args vs rs us e e' :
  underlying ft = TFunc ins outs false → expects_call ins = false →
  fromFunc h (Some (ft, VFunc (Some f))) = Ret hd →
  mux_resolve fuel ms hn (cleanSelector sel) = Ret (HandlerFunc hd) →
  arrives a args → Forall3 json_arg ins vs args →
  (∀ s, func_body f vs s = (Ret rs, s)) → length outs = length rs → rs ≠ [] →
  Forall (λ t, is_interface t = false ∧ Implements t TError = false) outs →
  Forall2 fits us (zip outs rs) →
  sendable (VCallHeader sel) → sendable a → sendable (VResponseHeader None false) →
  Forall (λ r, sendable (Val r)) (zip outs rs) →
  call_ends fuel ms hn sel a e e' (TVar <$> us)
    (Some (mkResponse None false (Val <$> zip outs rs)), None).
Proof.
  intros Hu Hx Hfn Hres Harr H3 Hbody Hlen Hrs Houts Hus Hc Ha Hh Hvs.
  destruct (fromFunc_handles h ft f ins outs false a args (Ok (any_results outs rs)) Hu Harr)
    as (hd' & Hfn' & Hhd).
  { intros s0 s. unfold fn_args. rewrite Hx, (Call_json_eq _ _ _ _ _ _ _ _ Hu H3).
    unfold call_body, recovering. erewrite bind_ret by apply Hbody. unfold lift.
    rewrite ParseReturn_values; [done|done|].
    destruct (last outs) as [t|] eqn:Hl; [|done].
    rewrite Forall_forall in Houts. by apply Houts, last_Some_elem_of. }
  rewrite Hfn in Hfn'. injection Hfn' as <-.
  assert (fn_answer (Ok (any_results outs rs)) = Val <$> zip outs rs) as Heq.
  { cbn [fn_answer]. unfold any_results. rewrite <- list_fmap_compose.
    clear -Houts. revert rs. induction Houts as [|t outs [Hi Him] _ IH]; intros [|r rs]; try done.
    cbn. cbn in IH. rewrite IH. f_equal. destruct r; rewrite ?Hi; cbn; by rewrite Him. }
  rewrite Heq in Hhd. apply handled_call_returns with (f := hd); try done.
  destruct outs, rs; done.
Qed.

Lemma remote_function_returns_witness :
  ∃ hd, fromFunc ∅ (Some (Demo.sum_type, VFunc (Some 0%nat))) = Ret hd ∧
    call_ends 1 ∅ (HandlerFunc hd) "sum" (Val Demo.args) io_EOF io_EOF [TVar TInt]
      (Some (mkResponse None false [Val Demo.five]), None).
Proof.
  destruct (fromFunc ∅ (Some (Demo.sum_type, VFunc (Some 0%nat)))) as [hd| | |] eqn:Hd;
    [|discriminate Hd..].
  exists hd. split; [reflexivity|].
  refine (remote_function_returns 1 ∅ (HandlerFunc hd) "sum" ∅ Demo.sum_type [TInt; TInt] [TInt] 0 hd
    (Val Demo.args)
    [Demo.float_arg 2; Demo.float_arg 3] [VInt 2; VInt 3] [VInt 5] [TInt] io_EOF io_EOF
    eq_refl eq_refl Hd eq_refl _ Demo.sum_args _ eq_refl _ _ _ _ _ _ _).
  - by intros b [= <-].
  - reflexivity.
  - discriminate.
  - by repeat constructor.
  - constructor; [right; reflexivity|constructor].
  - by eexists.
  - by eexists.
  - by eexists.
  - constructor; [by eexists|constructor].
Defined.

(** The wrong number of arguments is refused: the caller of a function
    handler gets a [RemoteError] that names both numbers, and the function has not
    run. *)
Theorem remote_arity_error `{GT : GoTypes} `{FloatConv} `{MS : Mapstructure} `{ST : Stack}
    `{CL : CodecLaws (rtype * value) rtype} `{FB : FuncBodies srv} `{OB : Objects}
    fuel ms hn sel h ft ins outs b f hd a args us e e' :
  underlying ft = TFunc ins outs b → fromFunc h (Some (ft, VFunc (Some f))) = Ret hd →
  mux_resolve fuel ms hn (cleanSelector sel) = Ret (HandlerFunc hd) →
  arrives a args →
  let n := (length args + (if expects_call ins then 1 else 0))%nat in
  let text := "fn: expected " +:+ pretty (length ins) +:+ " params, got " +:+ pretty n in
  n ≠ length ins →
  sendable (VCallHeader sel) → sendable a →
  sendable (VResponseHeader (Some text) false) → sendable VNil →
  call_ends fuel ms hn sel a e e' us
    (Some (mkResponse (Some text) false []), Some (RemoteError text)).
Proof.
  intros Hu Hfn Hres Harr n text Hn Hc Ha Hh Hnil.
  destruct (fromFunc_handles h ft f ins outs b a args (Err (errorString text)) Hu Harr)
    as (hd' & Hfn' & Hhd).
  { intros s0 s. rewrite (Call_eq _ _ _ _ _ _ _ _ Hu). unfold ArgsTo, In_types. rewrite Hu.
    cbn [mbind outcome_bind].
    assert (length (fn_args ins args s0) = n) as Hlen.
    { unfold fn_args, n. destruct (expects_call ins); rewrite ?length_app; cbn; lia. }
    rewrite bool_decide_false by (rewrite Hlen; done). by rewrite Hlen. }
  rewrite Hfn in Hfn'. injection Hfn' as <-.
  by apply (handled_call_fails fuel ms hn sel hd a (errorString text)).
Qed.

Lemma remote_arity_error_witness :
  ∃ hd, fromFunc ∅ (Some (TFunc [TInt] [TInt] false, VFunc (Some 0%nat))) = Ret hd ∧
    call_ends 1 ∅ (HandlerFunc hd) "sum" (Val Demo.args) io_EOF io_EOF [TVar TInt]
      (Some (mkResponse (Some "fn: expected 1 params, got 2") false []),
       Some (RemoteError "fn: expected 1 params, got 2")).
Proof.
  destruct (fromFunc ∅ (Some (TFunc [TInt] [TInt] false, VFunc (Some 0%nat)))) as [hd| | |] eqn:Hd;
    [|discriminate Hd..].
  exists hd. split; [reflexivity|].
  refine (remote_arity_error 1 ∅ (HandlerFunc hd) "sum" ∅ (TFunc [TInt] [TInt] false) [TInt] [TInt]
    false 0 hd (Val Demo.args) [Demo.float_arg 2; Demo.float_arg 3] _ io_EOF io_EOF
    eq_refl Hd eq_refl _ _ _ _ _ _).
  - by intros b [= <-].
  - discriminate.
  - by eexists.
  - by eexists.
  - by eexists.
  - by eexists.
Defined.

(** A slice is only passed to a parameter of its own type. A function of
    one slice parameter whose elements are neither structs nor [any] cannot be
    called with a decoded array ([[]any]): [Call] always returns the error of a
    panic of package reflect. *)
Theorem slice_argument_rejected `{GT : GoTypes} `{FloatConv} `{MS : Mapstructure} `{ST : Stack}
    {S} `{FB : FuncBodies S} h ft t e outs f l s :
  underlying ft = TFunc [t] outs false → underlying t = TSlice e → Kind e ≠ KStruct → e ≠ TAny →
  Call h (Some (ft, VFunc (Some f))) [Some (TSlice TAny, VSlice l)] s
  = (Ret (Err (panic_error ("reflect: Call using []interface {} as type " +:+ type_String t))), s).
Proof.
  intros Hu Ht He Hne. rewrite (Call_eq _ _ _ _ _ _ _ _ Hu). unfold ArgsTo, In_types. rewrite Hu.
  cbn [mbind outcome_bind length]. rewrite bool_decide_true by done.
  cbn [ArgsTo_loop]. unfold arg_to.
  assert (Kind t = KSlice) as -> by (unfold Kind; by rewrite Ht).
  assert (Elem t = e) as -> by (unfold Elem; by rewrite Ht).
  rewrite bool_decide_false by done. cbn [mbind outcome_bind].
  unfold prepare_call, ValueOf. cbn [length Nat.ltb Nat.leb negb andb existsb orb take call_params].
  assert (assignTo ("reflect: Call using " +:+ type_String (TSlice TAny) +:+ " as type "
      +:+ type_String t) (TSlice TAny, VSlice l) t
    = Panic ("reflect: Call using []interface {} as type " +:+ type_String t)) as Ha.
  { unfold assignTo, directlyAssignable, Implements, is_interface, Kind. cbn [fst underlying].
    rewrite Ht. rewrite (bool_decide_false (t = _)) by (intros ->; cbn in Ht; by injection Ht as <-).
    rewrite (bool_decide_false (TSlice e = _)) by (intros [= ->]; done).
    rewrite andb_false_r. done. }
  cbn [fst]. rewrite Ha. done.
Qed.

Lemma slice_argument_rejected_witness :
  Call ∅ (Some (TFunc [TSlice TString] [] false, VFunc (Some 0%nat)))
    [Some (TSlice TAny, VSlice (Some [VIface (Some (TString, VString "a"))]))] tt
  = (Ret (Err (panic_error "reflect: Call using []interface {} as type []string")), tt).
Proof.
  apply (slice_argument_rejected ∅ (TFunc [TSlice TString] [] false) (TSlice TString) TString
    [] 0 (Some [VIface (Some (TString, VString "a"))]) tt eq_refl eq_refl); discriminate.
Defined.

(** A JSON null is not passed to a parameter that could hold it. *)
Lemma nil_argument_rejected `{GT : GoTypes} `{FloatConv} `{MS : Mapstructure} `{ST : Stack}
    {S} `{FB : FuncBodies S} h ft t outs f s :
  underlying ft = TFunc [t] outs false → Kind t = KPtr ∨ Kind t = KMap ∨ Kind t = KInterface →
  Call h (Some (ft, VFunc (Some f))) [None] s
  = (Ret (Err (panic_error "reflect: call of reflect.Value.Type on zero Value")), s).
Proof.
  intros Hu Hk. rewrite (Call_eq _ _ _ _ _ _ _ _ Hu). unfold ArgsTo, In_types. rewrite Hu.
  cbn [mbind outcome_bind length]. rewrite bool_decide_true by done.
  cbn [ArgsTo_loop]. unfold arg_to. by destruct Hk as [-> | [-> | ->]].
Qed.

(** [HandlerFrom] of a struct, or of a pointer to one, is [fromMethods]. *)
Lemma HandlerFrom_struct `{GT : GoTypes} `{FloatConv} `{MS : Mapstructure} `{ST : Stack}
    `{CD : Codec (rtype * value) rtype} `{FB : FuncBodies srv} `{OB : Objects}
    h t v (muxes muxes' : gmap nat (RespondMux handler_func)) p :
  Kind (if bool_decide (Kind v.1 = KPtr) then Elem v.1 else v.1) = KStruct → v.2 ≠ VPtr None →
  fromMethods h v t muxes = (Ret p, muxes') →
  HandlerFrom h t (Some v) muxes = (Ret (SubMux p), muxes').
Proof.
  intros Hrt Hnn Hrun. unfold HandlerFrom, ValueOf. destruct v as [vt x]. cbn [fst snd] in *.
  cbn [Value_Type]. erewrite bind_ret by reflexivity. case_bool_decide as Hptr.
  - rewrite Hptr. erewrite bind_ret.
    2: { destruct x as [| | | | | | |[a|]| | |]; first [reflexivity|done]. }
    rewrite Hrt. by erewrite bind_ret by exact Hrun.
  - rewrite Hrt. erewrite bind_ret by reflexivity. rewrite Hrt. by erewrite bind_ret by exact Hrun.
Qed.

(** Method names are their own canonical selectors, and none is the root. *)
Lemma method_names_canonical (ms : list (string * rtype)) :
  forallb method_name ms.*1 = true →
  "/" ∉ cleanSelector <$> ms.*1 ∧
  ∀ name sig, (name, sig) ∈ ms → cleanSelector name = "/" +:+ name.
Proof.
  intros Hnames%Is_true_true%forallb_True. rewrite Forall_forall in Hnames. split.
  - intros (n & Heq & Hn)%list_elem_of_fmap. specialize (Hnames n Hn).
    apply Is_true_true, andb_prop in Hnames as [_ Hs]. by rewrite <- Heq in Hs.
  - intros name sig Hin. assert (name ∈ ms.*1) as Hn by (apply list_elem_of_fmap; by exists (name, sig)).
    specialize (Hnames name Hn).
    by apply Is_true_true, andb_prop in Hnames as [Hc%bool_decide_eq_true _].
Qed.

(** C33. [HandlerFrom] of a struct, or of a pointer to one, makes a new mux
    that routes each method of the type parameter by its name to that method -
    the method itself if it has the handler signature, else the handler made of
    it - and every other selector to the receiver if it is a handler, and to
    nothing otherwise. No other mux changes. *)
Theorem HandlerFrom_routes `{GT : GoTypes} `{FloatConv} `{MS : Mapstructure} `{ST : Stack}
    `{CD : Codec (rtype * value) rtype} `{FB : FuncBodies srv} `{OB : Objects}
    h t v r (muxes : gmap nat (RespondMux handler_func)) :
  let rt := if bool_decide (Kind v.1 = KPtr) then Elem v.1 else v.1 in
  Kind rt = KStruct → v.2 ≠ VPtr None → Convert (Some v) t = Ret r →
  NoDup (methods_of t).*1 → forallb method_name (methods_of t).*1 = true →
  (∀ name sig, (name, sig) ∈ methods_of t → ∃ f, method_handler h v name sig = Ret f) →
  let p := fresh (dom muxes) in
  ∃ muxes', HandlerFrom h t (Some v) muxes = (Ret (SubMux p), muxes') ∧
    (∀ q, q ≠ p → muxes' !! q = muxes !! q) ∧
    (∀ name sig f fuel, (name, sig) ∈ methods_of t → method_handler h v name sig = Ret f →
       Match (S fuel) muxes' p name = Ret (Some (HandlerFunc f), "/" +:+ name)) ∧
    (∀ sel fuel, cleanSelector sel ∉ cleanSelector <$> (methods_of t).*1 →
       Match (S fuel) muxes' p sel =
         if bool_decide (handler_method ∈ methods_of v.1) then
           Ret (Some (HandlerFunc (run_handler (bound_method v "RespondRPC"))), "/")
         else Ret (None, "")).
Proof.
  intros rt Hrt Hnn Hcv Hnd Hnames Hf p.
  assert (Hnew : muxes !! p = None) by (apply not_elem_of_dom, is_fresh).
  destruct (register_methods_eq h v p (methods_of t) (<[p := NewRespondMux]> muxes) NewRespondMux)
    as (m & Hr & Hes & Hk & Hm).
  { by rewrite lookup_insert_eq. } { done. } { done. } { done. } { exact Hf. }
  rewrite insert_insert_eq in Hr.
  destruct (method_names_canonical _ Hnames) as [Hroot Hclean].
  set (catch := bool_decide (handler_method ∈ methods_of v.1)).
  set (root := HandlerFunc (run_handler (bound_method v "RespondRPC")) : Handler handler_func).
  set (m' := if catch then registered "/" root m else m).
  assert (Hrun : fromMethods h v t muxes = (Ret p, <[p := m']> muxes)).
  { unfold fromMethods. erewrite bind_ret by (unfold lift, ValueOf; by rewrite Hcv).
    erewrite bind_ret by reflexivity. cbv zeta. fold p. erewrite bind_ret by reflexivity.
    erewrite bind_ret by exact Hr. unfold m'. fold catch.
    destruct catch; [|by erewrite bind_ret by reflexivity].
    pose proof (Handle_eq p "/" root (<[p := m]> muxes) m (lookup_insert_eq _ _ _)) as Hh.
    cbv zeta in Hh. change (handle_pattern "/" root) with "/" in Hh.
    rewrite (Hk _ Hroot) in Hh. erewrite bind_ret by exact Hh. by rewrite insert_insert_eq. }
  exists (<[p := m']> muxes). split; [|split; [|split]].
  - by apply HandlerFrom_struct.
  - intros q Hq. by rewrite lookup_insert_ne.
  - intros name sig f fuel Hin Hfn. cbn [Match]. rewrite lookup_insert_eq.
    specialize (Hm _ _ _ Hin Hfn).
    assert (m_m m' !! cleanSelector name
      = Some (mkEntry (Some (HandlerFunc f)) (cleanSelector name))) as ->.
    { unfold m'. destruct catch; [|done]. cbn. rewrite lookup_insert_ne; [done|].
      intros Heq. apply Hroot. rewrite Heq. apply list_elem_of_fmap. exists name.
      split; [done|]. apply list_elem_of_fmap. by exists (name, sig). }
    cbn. by rewrite (Hclean _ _ Hin).
  - intros sel fuel Hsel. cbn [Match]. rewrite lookup_insert_eq.
    unfold m'. destruct catch; cbn [registered m_m m_es].
    + change (ends_slash "/") with true. cbv iota. rewrite Hes. cbn [NewRespondMux m_es].
      destruct (decide (cleanSelector sel = "/")) as [-> |Hne].
      { by rewrite lookup_insert_eq. }
      rewrite lookup_insert_ne, (Hk _ Hsel) by done. cbn [m_m NewRespondMux lookup].
      rewrite lookup_empty.
      change (appendSorted [] ?e) with [e]. cbn [first_prefix].
      cbn [e_pattern]. by rewrite HasPrefix_root.
    + rewrite (Hk _ Hsel), Hes. cbn. done.
Qed.

Lemma HandlerFrom_routes_witness :
  ∃ p f muxes', HandlerFrom ∅ (TNamed "calc") (Some (TNamed "calc", VStruct [])) ∅
      = (Ret (SubMux p), muxes') ∧
    Match 1 muxes' p "Sum" = Ret (Some (HandlerFunc f), "/Sum") ∧
    Match 1 muxes' p "Product" = Ret (None, "").
Proof.
  destruct (method_handler ∅ (TNamed "calc", VStruct []) "Sum" Demo.sum_type) as [f| | |] eqn:Hf;
    [|discriminate Hf..].
  destruct (HandlerFrom_routes ∅ (TNamed "calc") (TNamed "calc", VStruct [])
    (Some (TNamed "calc", VStruct [])) ∅) as (muxes' & H1 & _ & H2 & H3).
  - reflexivity.
  - discriminate.
  - reflexivity.
  - apply NoDup_singleton.
  - reflexivity.
  - intros name sig [[= -> ->]|[]%elem_of_nil]%elem_of_cons. by exists f.
  - eexists _, f, muxes'. split; [exact H1|]. split.
    + apply (H2 "Sum" Demo.sum_type); [by left|exact Hf].
    + apply (H3 "Product"). vm_compute. by intros [[=]|[]%elem_of_nil]%elem_of_cons.
Defined.
