(* ===== verification/Interop.v ===== *)
(** * interop: the services behind qtalk interop and qtalk check

    service.go and callbacks.go. Every method is a handler; the service's methods
    call the methods of the same names back on the caller's side. A call back is
    a [caller], and [react] is what has arrived on its channel once the caller
    has sent what it has: the goroutine of [Stream] and [Bytes] only reads the
    call and writes the stream, the handler itself only reads the stream and
    writes the call, so they run here one after the other, each until it ends or
    waits. A loop over a channel ends when the other side has closed it for
    writing, and waits at the end of the data before. [log.Println] is left out. *)
From S2P Require Import Prelude GoRuntime FrameCodec RespondMux Rpc.

Local Open Scope string_scope.
Local Open Scope Z_scope.

(** ** Loops over a channel *)

(** Receive a value, send it on, until one of the two fails. *)
Fixpoint relay {S V} (fuel : nat) (recv : M S (result (any V)))
    (send : any V → M S (option error)) : M S unit :=
  match fuel with
  | O => nofuel_st
  | Datatypes.S fuel =>
      v ← recv;
      match v with
      | Err _ => mret tt
      | Ok v =>
          err ← send v;
          match err with
          | Some _ => mret tt
          | None => relay fuel recv send
          end
      end
  end.

(** The buffer of [io.Copy]. *)
Definition copy_buffer : nat := 32 * 1024.

(** [io.Copy]: [sizes] is how much more than one byte each [Read] would like to
    return, as the transport delivers it. *)
Fixpoint io_Copy {S} (fuel : nat) (sizes : nat → nat) (read : nat → M S (result (list byte)))
    (write : list byte → M S (option error)) : M S (option error) :=
  match fuel with
  | O => nofuel_st
  | Datatypes.S fuel =>
      r ← read (Nat.min (Datatypes.S (sizes fuel)) copy_buffer);
      match r with
      | Err e => mret (if decide (e = io_EOF) then None else Some e)
      | Ok p =>
          err ← write p;
          match err with
          | Some e => mret (Some e)
          | None => io_Copy fuel sizes read write
          end
      end
  end.

(** [Read] of a channel, returning at most [n] bytes, and [Write]. *)
Definition end_Read (n : nat) : M chan_end (result (list byte)) := λ c,
  match rd_data (ce_in c) with
  | [] => if decide (rd_err (ce_in c) = io_Pending) then (Block, c)
          else (Ret (Err (rd_err (ce_in c))), c)
  | d => (Ret (Ok (take n d)),
          mkEnd (mkReader (drop n d) (rd_err (ce_in c))) (ce_out c) (ce_closes c))
  end.

Definition end_Write (p : list byte) : M chan_end (option error) := λ c,
  let '(e, w) := io_Write p (ce_out c) in (Ret e, mkEnd (ce_in c) w (ce_closes c)).

(** Go on with what a call gave. *)
Definition await {S A} (o : outcome A) : M S A := λ s, (o, s).

(** The channel of a call that goes on, on the caller's side: [st_shut] is set by
    [CloseWrite], and refuses the writes that come later. *)
Record stream_end := mkStream {
  st_end : chan_end;
  st_shut : bool;
}.

Definition on_stream {A} (m : M chan_end A) : M stream_end A := λ s,
  let '(o, c) := m (st_end s) in (o, mkStream c (st_shut s)).

(** What the other side reads behind the data written to the channel. *)
Definition stream_ends (s : stream_end) : error :=
  if st_shut s || negb (ce_closes (st_end s) =? 0)%nat then io_EOF else io_Pending.

Definition stream_CloseWrite : M stream_end (option error) := λ s,
  (Ret (if (ce_closes (st_end s) =? 0)%nat then None else Some io_EOF), mkStream (st_end s) true).

Definition stream_Write (p : list byte) : M stream_end (option error) := λ s,
  if st_shut s then (Ret (Some io_EOF), s) else on_stream (end_Write p) s.

Definition stream_Read (n : nat) : M stream_end (result (list byte)) := on_stream (end_Read n).

(** A handler with the channel of a call it made. *)
Definition with_stream {S S' A} (c : S') (m : M (S * S') A) : M S A := λ s,
  match m (s, c) with
  | (Ret a, (s, _)) => (Ret a, s)
  | (Block, (s, _)) => (Block, s)
  | (Panic e, (s, _)) => (Panic e, s)
  | (NoFuel, (s, _)) => (NoFuel, s)
  end.

(** [go func() { ... }()] over the call and such a channel: it runs until it ends or
    waits, and what it did to the channel is the result. *)
Definition go_stream {S S' A} (c : S') (m : M (S * S') A) : M S S' := λ s,
  match m (s, c) with
  | (Ret _, (s, c)) | (Block, (s, c)) => (Ret c, s)
  | (Panic e, (s, _)) => (Panic e, s)
  | (NoFuel, (s, _)) => (NoFuel, s)
  end.

Section interop.
Context {V T : Type} `{Codec V T}.

(** [Response.Send] and [Response.Receive] on the channel of a call. *)
Definition stream_Send (v : any V) : M stream_end (option error) := λ s,
  if st_shut s
  then (Ret (Some (match codec_Encode v with Err e => e | Ok _ => io_EOF end)), s)
  else on_stream (Response_Send v) s.

Definition stream_Receive (t : target T) : M stream_end (result (any V)) :=
  on_stream (Response_Receive t).

(** The variables [var params any] and [var text string], and the text a
    [string] variable holds. *)
Class Variables := {
  var_any : T;
  var_string : T;
  text_of : any V → string;
}.
Context `{Variables}.

(** ** CallbackService *)

Definition CallbackService_Unary : handler_func := λ _,
  params ← Call_Receive (TVar var_any);
  match params with
  | Err _ => mret tt
  | Ok params => _ ← responder_Return [params]; mret tt
  end.

Definition CallbackService_Stream (fuel : nat) : handler_func := λ _,
  v ← Call_Receive (TVar var_any);
  match v with
  | Err _ => mret tt
  | Ok v =>
      err ← responder_Continue [v];
      match err with
      | Some _ => mret tt
      | None =>
          _ ← relay fuel (Call_Receive (TVar var_any)) responder_Send;
          _ ← on_ch chan_Close; mret tt
      end
  end.

Definition CallbackService_Bytes (fuel : nat) (sizes : nat → nat) : handler_func := λ _,
  params ← Call_Receive (TVar var_any);
  match params with
  | Err _ => mret tt
  | Ok params =>
      err ← responder_Continue [params];
      match err with
      | Some _ => mret tt
      | None =>
          _ ← on_ch (io_Copy fuel sizes end_Read end_Write);
          _ ← on_ch chan_Close; mret tt
      end
  end.

(** ** InteropService *)

(** [call.Caller.Call(ctx, selector, params, &ret)]: its result, and the channel
    of the call, if it returns. *)
Definition caller : Type :=
  string → any V → list (target T) →
  outcome ((option (Response V) * option call_error) * stream_end).

(** The variable [ret] after the call. *)
Definition ret_of (resp : option (Response V)) : any V :=
  match resp with
  | Some r => default VNil (head (resp_replies r))
  | None => VNil
  end.

Definition InteropService_Unary (call : caller) : handler_func := λ _,
  params ← Call_Receive (TVar var_any);
  match params with
  | Err _ => mret tt
  | Ok params =>
      r ← await (call "Unary" params [TVar var_any]);
      match r with
      | ((_, Some _), _) => mret tt
      | ((resp, None), _) => _ ← responder_Return [ret_of resp]; mret tt
      end
  end.

Definition InteropService_Stream (fuel : nat) (call : caller) (react : stream_end → stream_end)
    : handler_func := λ _,
  params ← Call_Receive (TVar var_any);
  match params with
  | Err _ => mret tt
  | Ok params =>
      r ← await (call "Stream" params [TVar var_any]);
      match r with
      | ((_, Some _), _) => mret tt
      | ((resp, None), stream) =>
          err ← responder_Continue [ret_of resp];
          match err with
          | Some _ => mret tt
          | None =>
              stream ← go_stream stream
                (_ ← relay fuel (on_fst (Call_Receive (TVar var_any)))
                       (λ v, on_snd (stream_Send v));
                 on_snd stream_CloseWrite);
              _ ← with_stream (react stream)
                    (relay fuel (on_snd (stream_Receive (TVar var_any)))
                       (λ v, on_fst (responder_Send v)));
              _ ← on_ch chan_Close; mret tt
          end
      end
  end.

Definition InteropService_Bytes (fuel : nat) (sizes : nat → nat) (call : caller)
    (react : stream_end → stream_end) : handler_func := λ _,
  params ← Call_Receive (TVar var_any);
  match params with
  | Err _ => mret tt
  | Ok params =>
      r ← await (call "Bytes" params [TVar var_any]);
      match r with
      | ((_, Some _), _) => mret tt
      | ((resp, None), stream) =>
          err ← responder_Continue [ret_of resp];
          match err with
          | Some _ => mret tt
          | None =>
              stream ← go_stream stream
                (_ ← io_Copy fuel sizes (λ n, on_fst (on_ch (end_Read n)))
                       (λ p, on_snd (stream_Write p));
                 on_snd stream_CloseWrite);
              _ ← with_stream (react stream)
                    (io_Copy fuel sizes (λ n, on_snd (stream_Read n))
                       (λ p, on_fst (on_ch (end_Write p))));
              _ ← on_ch chan_Close; mret tt
          end
      end
  end.

Definition InteropService_Error : handler_func := λ _,
  text ← Call_Receive (TVar var_string);
  match text with
  | Err _ => mret tt
  | Ok text => _ ← responder_Return [VErr (errorString (text_of text))]; mret tt
  end.

(** ** The services as handlers *)

(** [fn.HandlerFrom] of a struct registers its methods by name. *)
Fixpoint register (ms : list (string * handler_func))
    : M (gmap nat (RespondMux handler_func)) unit :=
  match ms with
  | [] => mret tt
  | (name, f) :: ms => _ ← Handle 0 name (Some (HandlerFunc f)); register ms
  end.

Definition service (ms : list (string * handler_func))
    : gmap nat (RespondMux handler_func) :=
  (register ms {[ 0%nat := NewRespondMux ]}).2.

Definition callback_service (fuel : nat) (sizes : nat → nat)
    : gmap nat (RespondMux handler_func) :=
  service [("Bytes", CallbackService_Bytes fuel sizes); ("Stream", CallbackService_Stream fuel);
           ("Unary", CallbackService_Unary)].

Definition interop_service (fuel : nat) (sizes : nat → nat) (call : caller)
    (react : string → stream_end → stream_end) : gmap nat (RespondMux handler_func) :=
  service [("Bytes", InteropService_Bytes fuel sizes call (react "Bytes"));
           ("Error", InteropService_Error);
           ("Stream", InteropService_Stream fuel call (react "Stream"));
           ("Unary", InteropService_Unary call)].

(** ** qtalk check *)

(** What [check] prints: the arguments of [fmt.Println]. *)
Inductive line :=
| LError (text : string)
| LUnary (v ret : any V)
| LStream (ret : any V)
| LBytes (n : nat).

(** The lines printed, and how it ended: [Ret true] by [log.Fatal]. *)
Definition checked : Type := list line * outcome bool.

Definition then_check (a b : checked) : checked :=
  match a.2 with Ret false => ((a.1 ++ b.1)%list, b.2) | _ => a end.

(** What comes after a call or a wait. *)
Definition on_outcome {A} (o : outcome A) (k : A → checked) : checked :=
  match o with
  | Ret a => k a
  | Block => ([], Block)
  | Panic e => ([], Panic e)
  | NoFuel => ([], NoFuel)
  end.

(** [err.Error()]. *)
Definition call_error_text (e : call_error) : string :=
  match e with
  | LocalError e => Error_text e
  | RemoteError text => "remote: " +:+ text
  end.

Section check.
Context (call : caller) (react : string → stream_end → stream_end) (fuel : nat).
(** [vals] and the string ["test"], as values. *)
Context (vals : list (any V)) (test : any V).

Definition check_error (selector : string) : checked :=
  on_outcome (call selector test [TNil]) (λ r,
    match r with
    | ((_, None), _) => ([], Ret true)
    | ((_, Some err), _) => ([LError (TrimPrefix (call_error_text err) "remote: ")], Ret false)
    end).

Fixpoint check_unary (vs : list (any V)) : checked :=
  match vs with
  | [] => ([], Ret false)
  | v :: vs =>
      on_outcome (call "Unary" v [TVar var_any]) (λ r,
        match r with
        | ((_, Some _), _) => ([], Ret true)
        | ((resp, None), _) => then_check ([LUnary v (ret_of resp)], Ret false) (check_unary vs)
        end)
  end.

(** The goroutine that sends: whether [fatal] had no error to report. *)
Fixpoint send_all (vs : list (any V)) : M stream_end bool :=
  match vs with
  | [] =>
      err ← stream_CloseWrite;
      mret (match err with None => true | Some _ => false end)
  | v :: vs =>
      err ← stream_Send v;
      match err with None => send_all vs | Some _ => mret false end
  end.

(** The loop that receives until there is an error. *)
Fixpoint receive_all (fuel : nat) (s : stream_end) : checked :=
  match fuel with
  | O => ([], NoFuel)
  | Datatypes.S fuel =>
      let '(o, s) := stream_Receive (TVar var_any) s in
      on_outcome o (λ r,
        match r with
        | Err _ => ([], Ret false)
        | Ok v => then_check ([LStream v], Ret false) (receive_all fuel s)
        end)
  end.

Definition check_stream : checked :=
  on_outcome (call "Stream" VNil [TNil]) (λ r,
    match r with
    | ((_, Some _), _) => ([], Ret true)
    | ((_, None), ch) =>
        let '(sent, ch) := send_all vals ch in
        on_outcome sent (λ sent,
          if sent : bool then receive_all fuel (react "Stream" ch) else ([], Ret true))
    end).

(** [io.Copy] into a [bytes.Buffer]: all there is to read until the stream ends. *)
Definition read_all : M stream_end (list byte) := λ s,
  if decide (rd_err (ce_in (st_end s)) = io_Pending) then (Block, s)
  else (Ret (rd_data (ce_in (st_end s))),
        mkStream (mkEnd (mkReader [] (rd_err (ce_in (st_end s)))) (ce_out (st_end s))
                    (ce_closes (st_end s))) (st_shut s)).

(** Random bytes there and back: how many came back. A [bytes.Buffer] is copied in
    one [Write]. *)
Definition echo_bytes (data : list byte) (ch : stream_end) : outcome nat :=
  let '(o, ch) := (_ ← stream_Write data; stream_CloseWrite) ch in
  match o with
  | Ret _ => match (read_all (react "Bytes" ch)).1 with
             | Ret buf => Ret (length buf)
             | Block => Block
             | Panic e => Panic e
             | NoFuel => NoFuel
             end
  | Block => Block
  | Panic e => Panic e
  | NoFuel => NoFuel
  end.

(** One turn of the loop over the sizes, [data] being the random bytes. *)
Definition check_bytes (data : list byte) : checked :=
  on_outcome (call "Bytes" VNil [TNil]) (λ r,
    match r with
    | ((_, Some _), _) => ([], Ret true)
    | ((_, None), ch) =>
        on_outcome (echo_bytes data ch) (λ n,
          if bool_decide (n = length data) then ([LBytes n], Ret false) else ([], Ret true))
    end).

(** [checkCmd.Run] once it is connected, for the given random bytes. *)
Definition check (datas : list (list byte)) : checked :=
  then_check (check_error "Error")
    (then_check (check_error "BadSelector")
       (then_check (check_unary vals)
          (then_check check_stream
             (foldr (λ d r, then_check (check_bytes d) r) ([], Ret false) datas)))).
End check.
End interop.

Arguments caller : clear implicits.
Arguments Variables : clear implicits.
