(* ===== verification/InteropSpec.v ===== *)
(** * interop: what the services do to a call

    The loops over a channel as functions of what arrives, and each handler run
    on everything its caller sends, up to the end of the stream and before it. *)
From S2P Require Import Prelude GoRuntime FrameCodec RespondMux Rpc RpcSpec.
From S2P Require Import Interop.

(** One statement of a handler, by what it does. *)
Tactic Notation "step" tactic3(t) := erewrite bind_ret by t; cbv iota beta.

(** The channel of a call that continues: what was written, what has arrived and
    how it ends, and whether it was closed for writing. *)
Definition calling (w : list (list byte)) (d : list byte) (e : error) (shut : bool) : stream_end :=
  mkStream (mkEnd (mkReader d e) (mkWriter w []) 0) shut.

(** The same before the first [CloseWrite], nothing having arrived. *)
Abbreviation waiting w := (calling w [] io_Pending false).

Section spec.
Context {V T : Type} `{CodecLaws V T} `{Variables V T}.

(** A value the services can pass on: encodable, and decoded into an [any]
    variable as it was. *)
Definition carried (v : any V) : Prop :=
  sendable v ∧ ∀ b, codec_Encode v = Ok b → codec_Decode (TVar var_any) b = Ok v.

Lemma carried_val v : fits var_any v → sendable (Val v) → carried (Val v).
Proof using All. intros Hf Hs. split; [done|]. intros b Hb. by eapply law_val. Qed.

Lemma carried_all vs : Forall carried vs → ∃ bs, Forall2 encodes vs bs.
Proof using All.
  induction 1 as [|v vs [[b Hb] _] _ [bs IH]]; [by exists []|]. exists (b :: bs). by constructor.
Qed.

(** ** A channel end with frames to come *)

(** [ins] are the frames still to be read before [e], [out] what was written. *)
Definition at_end (ins : list (list byte)) (e : error) (out : list (list byte)) (n : nat) : chan_end :=
  mkEnd (mkReader (mjoin (frame <$> ins)) e) (mkWriter out []) n.

Lemma end_Decode_next {A} (dec : list byte → result A) b ins e out n :
  len b < 2 ^ 32 → end_Decode dec (at_end (b :: ins) e out n) = (Ret (dec b), at_end ins e out n).
Proof using. intros Hb. unfold at_end. cbn [fmap list_fmap mjoin list_join]. by apply end_Decode_eq. Qed.

Lemma end_Decode_end {A} (dec : list byte → result A) out n :
  end_Decode dec (at_end [] io_EOF out n) = (Ret (Err io_EOF), at_end [] io_EOF out n) ∧
  end_Decode dec (at_end [] io_Pending out n) = (Block, at_end [] io_Pending out n).
Proof using. done. Qed.

Lemma end_Encode_at v b ins e out n :
  encodes v b → end_Encode v (at_end ins e out n) = (Ret None, at_end ins e (out ++ [frame b]) n).
Proof using.
  intros [Hv _]. unfold end_Encode, at_end. cbn [ce_out ce_in ce_closes].
  by rewrite (frameEncoder_Encode_eq _ _ _ Hv).
Qed.

(** ** The loops *)

Section relay.
Context {S : Type} (recv : M S (result (any V))) (send : any V → M S (option error)).
(** A state with frames to come, having sent some; the error at the end. *)
Context (st : list (list byte) → list (list byte) → S) (e : error).
Hypothesis Hrecv : ∀ v b ins outs, carried v → encodes v b →
  recv (st (b :: ins) outs) = (Ret (Ok v), st ins outs).
Hypothesis Hstop : ∀ outs, recv (st [] outs) = (Ret (Err e), st [] outs).
Hypothesis Hsend : ∀ v b ins outs, encodes v b →
  send v (st ins outs) = (Ret None, st ins (outs ++ [frame b])).

(** Every value is passed on, in order. *)
Lemma relay_eq fuel vs bs outs :
  Forall carried vs → Forall2 encodes vs bs → (length vs < fuel)%nat →
  relay fuel recv send (st bs outs) = (Ret tt, st [] (outs ++ (frame <$> bs))).
Proof using Hrecv Hstop Hsend.
  intros Hc Hb. revert fuel outs Hc. induction Hb as [|v b vs bs Hv Hb IH]; intros [|fuel] outs Hc Hf;
    cbn [length] in Hf; try lia; cbn [relay].
  - step (apply Hstop). by rewrite app_nil_r.
  - apply Forall_cons in Hc as [Hc Hcs]. step (by apply Hrecv).
    step (by apply Hsend). rewrite IH by (done || lia).
    cbn. by rewrite <- app_assoc.
Qed.
End relay.

Section copying.
Context {S : Type} (read : nat → M S (result (list byte))) (write : list byte → M S (option error)).
Context (st : list byte → list (list byte) → S) (e : error).
Hypothesis Hread : ∀ n x d outs,
  read n (st (x :: d) outs) = (Ret (Ok (take n (x :: d))), st (drop n (x :: d)) outs).
Hypothesis Hstop : ∀ n outs, read n (st [] outs) = (Ret (Err e), st [] outs).
Hypothesis Hwrite : ∀ p d outs, write p (st d outs) = (Ret None, st d (outs ++ [p])).

(** All bytes are copied, in some pieces. *)
Lemma io_Copy_eq fuel sizes d outs :
  (length d < fuel)%nat → ∃ ps, mjoin ps = d ∧
    io_Copy fuel sizes read write (st d outs)
    = (Ret (if decide (e = io_EOF) then None else Some e), st [] (outs ++ ps)).
Proof using Hread Hstop Hwrite.
  revert d outs. induction fuel as [|fuel IH]; intros d outs Hf; [lia|]. cbn [io_Copy].
  destruct d as [|x d].
  - exists []. split; [done|]. step (apply Hstop). by rewrite app_nil_r.
  - step (apply Hread). set (n := Nat.min _ _).
    assert (1 ≤ n)%nat as Hn by (unfold n, copy_buffer; lia).
    step (apply Hwrite).
    destruct (IH (drop n (x :: d)) (outs ++ [take n (x :: d)])) as (ps & Hps & ->).
    { rewrite length_drop. cbn [length] in *. lia. }
    exists (take n (x :: d) :: ps). split.
    + rewrite <- (take_drop n (x :: d)) at 2. by rewrite <- Hps.
    + by rewrite <- app_assoc.
Qed.
End copying.

(** ** The states of a handler *)

(** A call that has [ins] to come and answered [out]. *)
Definition serving (ins : list (list byte)) (e : error) (out : list (list byte)) (n : nat)
    (responded : bool) (err : option string) (continue : bool) : srv :=
  mkSrv (at_end ins e out n) responded err continue.

Lemma receive_any v b ins e out n r x c :
  carried v → encodes v b →
  Call_Receive (TVar var_any) (serving (b :: ins) e out n r x c)
  = (Ret (Ok v), serving ins e out n r x c).
Proof using.
  intros [_ Hd] [Hv Hl]. unfold Call_Receive. erewrite on_ch_eq by by apply end_Decode_next.
  by rewrite (Hd b Hv).
Qed.

Lemma send_any v b ins e out n r x c :
  encodes v b →
  responder_Send v (serving ins e out n r x c) = (Ret None, serving ins e (out ++ [frame b]) n r x c).
Proof using. intros Hv. unfold responder_Send. by erewrite on_ch_eq by by apply end_Encode_at. Qed.

(** A received value is not an error of this program. *)
Definition plain (v : any V) : Prop := match v with VErr _ => False | _ => True end.

Lemma plain_split v : plain v → split_error [v] = ([v], None).
Proof using. by destruct v. Qed.

(** Answering with one value and going on. *)
Lemma continue_eq v b hb ins e :
  plain v → encodes v b → encodes (VResponseHeader None true) hb →
  responder_Continue [v] (serving ins e [] 0 false None false)
  = (Ret None, serving ins e [frame hb; frame b] 0 true None true).
Proof using.
  intros Hs%plain_split Hv Hh. unfold responder_Continue, responder_respond.
  step (reflexivity). rewrite Hs. step (reflexivity).
  step (reflexivity). cbn [set_responded set_header_error serving].
  step (by apply (send_any (VResponseHeader None true) hb)).
  cbn [app]. erewrite bind_ret.
  2: { cbn [send_values]. step (by apply (send_any v b)). reflexivity. }
  done.
Qed.

(** ** The handlers of CallbackService *)

(** The first part of a handler that goes on: the parameters, and the answer. *)
Lemma CallbackService_Stream_eq fuel sel v b hb vs bs :
  carried v → plain v → encodes v b → encodes (VResponseHeader None true) hb →
  Forall carried vs → Forall2 encodes vs bs → (length vs < fuel)%nat →
  CallbackService_Stream fuel sel (serving (b :: bs) io_EOF [] 0 false None false)
  = (Ret tt, serving [] io_EOF ([frame hb; frame b] ++ (frame <$> bs)) 1 true None true).
Proof using.
  intros Hv Hp Hb Hh Hvs Hbs Hf. unfold CallbackService_Stream.
  step (by apply receive_any). step (by apply continue_eq).
  erewrite bind_ret.
  2: { apply (relay_eq _ _ (λ ins out, serving ins io_EOF out 0 true None true) io_EOF) with (vs := vs);
         try done; intros; [by apply receive_any|by apply send_any]. }
  done.
Qed.

(** Nothing more has arrived: the answer is sent, and the handler waits. *)
Lemma CallbackService_Stream_waits fuel sel v b hb :
  carried v → plain v → encodes v b → encodes (VResponseHeader None true) hb → (0 < fuel)%nat →
  CallbackService_Stream fuel sel (serving [b] io_Pending [] 0 false None false)
  = (Block, serving [] io_Pending [frame hb; frame b] 0 true None true).
Proof using.
  intros Hv Hp Hb Hh Hf. unfold CallbackService_Stream.
  step (by apply receive_any). step (by apply continue_eq).
  destruct fuel as [|fuel]; [lia|]. done.
Qed.

(** A call with raw bytes to come. *)
Definition piping (d : list byte) (e : error) (out : list (list byte)) (n : nat)
    (responded : bool) (err : option string) (continue : bool) : srv :=
  mkSrv (mkEnd (mkReader d e) (mkWriter out []) n) responded err continue.

Lemma piping_frame b d e out n r x c :
  piping (frame b ++ d) e out n r x c
  = set_sv_ch (mkEnd (mkReader (frame b ++ d) e) (mkWriter out []) n)
      (serving [] e out n r x c).
Proof using. done. Qed.

Lemma receive_raw v b d e out n r x c :
  carried v → encodes v b →
  Call_Receive (TVar var_any) (piping (frame b ++ d) e out n r x c) = (Ret (Ok v), piping d e out n r x c).
Proof using.
  intros [_ Hd] [Hv Hl]. unfold Call_Receive. erewrite on_ch_eq by by apply end_Decode_eq.
  by rewrite (Hd b Hv).
Qed.

(** Sending depends on what was written only. *)
Lemma send_raw v b d e out n r x c :
  encodes v b →
  responder_Send v (piping d e out n r x c) = (Ret None, piping d e (out ++ [frame b]) n r x c).
Proof using.
  intros [Hv _]. unfold responder_Send. erewrite on_ch_eq; [done|]. unfold end_Encode.
  cbn [ce_out ce_in ce_closes piping sv_ch]. by rewrite (frameEncoder_Encode_eq _ _ _ Hv).
Qed.

Lemma continue_raw v b hb d e :
  plain v → encodes v b → encodes (VResponseHeader None true) hb →
  responder_Continue [v] (piping d e [] 0 false None false)
  = (Ret None, piping d e [frame hb; frame b] 0 true None true).
Proof using.
  intros Hs%plain_split Hv Hh. unfold responder_Continue, responder_respond.
  step (reflexivity). rewrite Hs. step (reflexivity).
  step (reflexivity). cbn [set_responded set_header_error piping].
  step (by apply (send_raw (VResponseHeader None true) hb)).
  cbn [app]. erewrite bind_ret.
  2: { cbn [send_values]. step (by apply (send_raw v b)). reflexivity. }
  done.
Qed.

Lemma read_raw n x d e out m r y c :
  on_ch (end_Read n) (piping (x :: d) e out m r y c)
  = (Ret (Ok (take n (x :: d))), piping (drop n (x :: d)) e out m r y c).
Proof using. done. Qed.

Lemma write_raw p d e out m r y c :
  on_ch (end_Write p) (piping d e out m r y c) = (Ret None, piping d e (out ++ [p]) m r y c).
Proof using. done. Qed.

Lemma CallbackService_Bytes_eq fuel sizes sel v b hb d :
  carried v → plain v → encodes v b → encodes (VResponseHeader None true) hb →
  (length d < fuel)%nat → ∃ ps, mjoin ps = d ∧
  CallbackService_Bytes fuel sizes sel (piping (frame b ++ d) io_EOF [] 0 false None false)
  = (Ret tt, piping [] io_EOF ([frame hb; frame b] ++ ps) 1 true None true).
Proof using.
  intros Hv Hp Hb Hh Hf. unfold CallbackService_Bytes.
  destruct (io_Copy_eq end_Read end_Write (λ d out, mkEnd (mkReader d io_EOF) (mkWriter out []) 0) io_EOF)
    with fuel sizes d [frame hb; frame b] as (ps & Hps & Hcopy); try done.
  exists ps. split; [done|]. step (by apply receive_raw). step (by apply continue_raw).
  step (eapply on_ch_eq; exact Hcopy). done.
Qed.

Lemma CallbackService_Bytes_waits fuel sizes sel v b hb :
  carried v → plain v → encodes v b → encodes (VResponseHeader None true) hb → (0 < fuel)%nat →
  CallbackService_Bytes fuel sizes sel (piping (frame b) io_Pending [] 0 false None false)
  = (Block, piping [] io_Pending [frame hb; frame b] 0 true None true).
Proof using.
  intros Hv Hp Hb Hh Hf. rewrite <- (app_nil_r (frame b)). unfold CallbackService_Bytes.
  step (by apply receive_raw). step (by apply continue_raw). rewrite app_nil_r.
  destruct fuel as [|fuel]; [lia|]. done.
Qed.

(** ** What callers of the services rely on *)

(** The answer to a call that goes on: a header and the value; then, once the
    stream has ended, an echo and a close, and before, nothing. *)
Definition echoes_values (f : handler_func) (bound : nat) : Prop :=
  ∀ sel v b hb, carried v → plain v → encodes v b → encodes (VResponseHeader None true) hb →
    (∀ vs bs, Forall carried vs → Forall2 encodes vs bs → (length vs < bound)%nat →
       f sel (serving (b :: bs) io_EOF [] 0 false None false)
       = (Ret tt, serving [] io_EOF ([frame hb; frame b] ++ (frame <$> bs)) 1 true None true)) ∧
    f sel (serving [b] io_Pending [] 0 false None false)
    = (Block, serving [] io_Pending [frame hb; frame b] 0 true None true).

Definition echoes_bytes (f : handler_func) (bound : nat) : Prop :=
  ∀ sel v b hb, carried v → plain v → encodes v b → encodes (VResponseHeader None true) hb →
    (∀ d, (length d < bound)%nat → ∃ ps, mjoin ps = d ∧
       f sel (piping (frame b ++ d) io_EOF [] 0 false None false)
       = (Ret tt, piping [] io_EOF ([frame hb; frame b] ++ ps) 1 true None true)) ∧
    f sel (piping (frame b) io_Pending [] 0 false None false)
    = (Block, piping [] io_Pending [frame hb; frame b] 0 true None true).

Definition echoes_value (f : handler_func) : Prop := ∀ v, carried v → plain v → handles f v [v].

Lemma return_handles (f : handler_func) v w :
  (∀ sel ab rest e n, encodes v ab →
     f sel (new_responder (mkEnd (mkReader (frame ab ++ rest) e) (mkWriter [] []) n))
     = (_ ← responder_Return [w]; mret tt) (new_responder (mkEnd (mkReader rest e) (mkWriter [] []) n))) →
  handles f v [w].
Proof using.
  intros Hf sel ab rest e n hb bs Ha Hh Hbs. rewrite (Hf sel ab rest e n Ha).
  change (mkEnd (mkReader rest e) (mkWriter [] []) n) with (sent_end (mkReader rest e) [] n).
  erewrite bind_ret by by apply (respond_eq [w] false). done.
Qed.

Lemma Callback_echoes fuel sizes :
  (0 < fuel)%nat →
  echoes_value CallbackService_Unary ∧ echoes_values (CallbackService_Stream fuel) fuel ∧
  echoes_bytes (CallbackService_Bytes fuel sizes) fuel.
Proof using.
  intros Hf. split_and!.
  - intros v Hv Hp. apply return_handles. intros sel ab rest e n Ha.
    unfold CallbackService_Unary.
    erewrite bind_ret by exact (receive_raw v ab rest e [] n false None false Hv Ha). done.
  - intros sel v b hb **. split; [|by apply (CallbackService_Stream_waits fuel sel v)].
    intros vs bs **. by apply (CallbackService_Stream_eq fuel sel v b hb vs).
  - intros sel v b hb **. split; [|by apply (CallbackService_Bytes_waits fuel sizes sel v)].
    intros d **. by apply (CallbackService_Bytes_eq fuel sizes sel v b hb).
Qed.

(** ** Calling an echo *)

(** A target whose reading gives [v]: the variable, or nothing. *)
Definition reads (replies : list (target T)) (v : any V) (got : list (any V)) : Prop :=
  replies = [TNil] ∧ got = [] ∨ replies = [TVar var_any] ∧ got = [v].

(** What the services promise to whoever calls them: a value comes back, and
    what is sent on a call that continues comes back on its channel once the
    channel was closed for writing, be it values ([sel] is "Stream") or bytes
    ("Bytes"), below the given bound; then the stream ends. *)
Class EchoCaller (call : caller V T) (react : string → stream_end → stream_end) (bound : nat) : Prop := {
  ec_unary v : carried v → plain v → ∃ c,
    call "Unary"%string v [TVar var_any] = Ret ((Some (mkResponse None false [v]), None), c);
  ec_stream v replies got : reads replies v got → carried v → plain v → ∃ w,
    call "Stream"%string v replies = Ret ((Some (mkResponse None true got), None), waiting w) ∧
    react "Stream"%string (waiting w) = waiting w ∧
    ∀ vs bs, Forall carried vs → Forall2 encodes vs bs → (length vs < bound)%nat →
      react "Stream"%string (calling (w ++ (frame <$> bs)) [] io_Pending true)
      = calling (w ++ (frame <$> bs)) (mjoin (frame <$> bs)) io_EOF true;
  ec_bytes v replies got : reads replies v got → carried v → plain v → ∃ w,
    call "Bytes"%string v replies = Ret ((Some (mkResponse None true got), None), waiting w) ∧
    react "Bytes"%string (waiting w) = waiting w ∧
    ∀ ps, (length (mjoin ps) < bound)%nat →
      react "Bytes"%string (calling (w ++ ps) [] io_Pending true)
      = calling (w ++ ps) (mjoin ps) io_EOF true;
}.

(** ** The handlers of InteropService, over callers that echo *)

Lemma with_stream_eq {S S' A} (m : M (S * S') A) c s a s' c' :
  m (s, c) = (Ret a, (s', c')) → with_stream c m s = (Ret a, s').
Proof using. intros Hm. unfold with_stream. by rewrite Hm. Qed.

Lemma go_stream_eq {S S' A} (m : M (S * S') A) c s a s' c' :
  m (s, c) = (Ret a, (s', c')) → go_stream c m s = (Ret c', s').
Proof using. intros Hm. unfold go_stream. by rewrite Hm. Qed.

Lemma await_eq {S A} (a : A) (s : S) : await (Ret a) s = (Ret a, s).
Proof using. done. Qed.

(** *** Sending and receiving on the channel of a call *)

Lemma stream_Send_eq v b w d e :
  encodes v b → stream_Send v (calling w d e false) = (Ret None, calling (w ++ [frame b]) d e false).
Proof using.
  intros [Hv _]. unfold stream_Send, on_stream, Response_Send, end_Encode, calling.
  cbn [st_shut st_end ce_out ce_in ce_closes]. by rewrite (frameEncoder_Encode_eq _ _ _ Hv).
Qed.

Lemma stream_Receive_eq v b bs w e shut :
  carried v → encodes v b →
  stream_Receive (TVar var_any) (calling w (mjoin (frame <$> b :: bs)) e shut)
  = (Ret (Ok v), calling w (mjoin (frame <$> bs)) e shut).
Proof using.
  intros [_ Hd] [Hv Hb]. unfold stream_Receive, on_stream, Response_Receive, calling.
  cbn [st_end st_shut]. pose proof (end_Decode_next (codec_Decode (TVar var_any)) b bs e w 0 Hb) as Hn.
  unfold at_end in Hn. by rewrite Hn, (Hd b Hv).
Qed.

Section interop.
Context call react bound `{!EchoCaller call react bound} (Hbound : (0 < bound)%nat).

Lemma InteropService_Unary_echoes : echoes_value (InteropService_Unary call).
Proof using All.
  intros v Hv Hp. apply return_handles. intros sel ab rest e n Ha. unfold InteropService_Unary.
  erewrite bind_ret by exact (receive_raw v ab rest e [] n false None false Hv Ha). cbv iota beta.
  destruct (ec_unary v Hv Hp) as [c ->]. by step (apply await_eq).
Qed.

(** From the call to the channel of the call back, which is then closed for writing. *)
Lemma forward_eq w vs bs out :
  Forall carried vs → Forall2 encodes vs bs → (length vs < bound)%nat →
  go_stream (waiting w)
    (_ ← relay bound (on_fst (Call_Receive (TVar var_any))) (λ v, on_snd (stream_Send v));
     on_snd stream_CloseWrite)
    (serving bs io_EOF out 0 true None true)
  = (Ret (calling (w ++ (frame <$> bs)) [] io_Pending true), serving [] io_EOF out 0 true None true).
Proof using All.
  intros Hvs Hbs Hl. eapply go_stream_eq.
  pose proof (relay_eq (on_fst (Call_Receive (TVar var_any))) (λ v, on_snd (stream_Send v))
    (λ ins o, (serving ins io_EOF out 0 true None true, waiting (w ++ o))) io_EOF) as Hr.
  specialize (Hr ltac:(intros; apply on_fst_eq; by apply receive_any) ltac:(done)
    ltac:(intros; apply on_snd_eq; rewrite app_assoc; by apply stream_Send_eq)
    bound vs bs [] Hvs Hbs Hl).
  cbv beta in Hr; rewrite app_nil_r in Hr. erewrite bind_ret by exact Hr. done.
Qed.

(** From the channel of the call back to the call. *)
Lemma backward_eq w vs bs out :
  Forall carried vs → Forall2 encodes vs bs → (length vs < bound)%nat →
  with_stream (calling w (mjoin (frame <$> bs)) io_EOF true)
    (relay bound (on_snd (stream_Receive (TVar var_any))) (λ v, on_fst (responder_Send v)))
    (serving [] io_EOF out 0 true None true)
  = (Ret tt, serving [] io_EOF (out ++ (frame <$> bs)) 0 true None true).
Proof using All.
  intros Hvs Hbs Hl. eapply with_stream_eq.
  pose proof (relay_eq (on_snd (stream_Receive (TVar var_any))) (λ v, on_fst (responder_Send v))
    (λ ins o, (serving [] io_EOF (out ++ o) 0 true None true,
       calling w (mjoin (frame <$> ins)) io_EOF true)) io_EOF) as Hr.
  specialize (Hr ltac:(intros; apply on_snd_eq; by apply stream_Receive_eq) ltac:(done)
    ltac:(intros; apply on_fst_eq; rewrite app_assoc; by apply send_any)
    bound vs bs [] Hvs Hbs Hl).
  cbv beta in Hr; rewrite app_nil_r in Hr. exact Hr.
Qed.

(** Nothing having arrived, both sides wait. *)
Lemma forward_waits w out :
  go_stream (waiting w)
    (_ ← relay bound (on_fst (Call_Receive (TVar var_any))) (λ v, on_snd (stream_Send v));
     on_snd stream_CloseWrite)
    (serving [] io_Pending out 0 true None true)
  = (Ret (waiting w), serving [] io_Pending out 0 true None true).
Proof using All. destruct bound; [lia|]. done. Qed.

Lemma backward_waits w e out :
  with_stream (waiting w)
    (relay bound (on_snd (stream_Receive (TVar var_any))) (λ v, on_fst (responder_Send v)))
    (serving [] e out 0 true None true)
  = (Block, serving [] e out 0 true None true).
Proof using All. destruct bound; [lia|]. done. Qed.

Lemma forward_waits_bytes sizes w out :
  go_stream (waiting w)
    (_ ← io_Copy bound sizes (λ n, on_fst (on_ch (end_Read n))) (λ p, on_snd (stream_Write p));
     on_snd stream_CloseWrite)
    (piping [] io_Pending out 0 true None true)
  = (Ret (waiting w), piping [] io_Pending out 0 true None true).
Proof using All. destruct bound; [lia|]. done. Qed.

Lemma backward_waits_bytes sizes w e out :
  with_stream (waiting w)
    (io_Copy bound sizes (λ n, on_snd (stream_Read n)) (λ p, on_fst (on_ch (end_Write p))))
    (piping [] e out 0 true None true)
  = (Block, piping [] e out 0 true None true).
Proof using All. destruct bound; [lia|]. done. Qed.

Lemma InteropService_Stream_echoes :
  echoes_values (InteropService_Stream bound call (react "Stream"%string)) bound.
Proof using All.
  intros sel v b hb Hv Hp Hb Hh.
  destruct (ec_stream v [TVar var_any] [v]) as (w & Hcall & Hidle & Hreact); [by right|done..|].
  split.
  - intros vs bs Hvs Hbs Hl. unfold InteropService_Stream. step (by apply receive_any). rewrite Hcall.
    step (apply await_eq). cbn [ret_of resp_replies head default]. step (by apply continue_eq).
    step (by apply (forward_eq w vs bs)). rewrite (Hreact vs bs) by done.
    step (by apply (backward_eq _ vs bs)). done.
  - unfold InteropService_Stream. step (by apply receive_any). rewrite Hcall.
    step (apply await_eq). cbn [ret_of resp_replies head default]. step (by apply continue_eq).
    step (apply forward_waits). rewrite Hidle. by apply bind_block, backward_waits.
Qed.

Lemma forward_bytes_eq sizes w d out :
  (length d < bound)%nat → ∃ ps, mjoin ps = d ∧
  go_stream (waiting w)
    (_ ← io_Copy bound sizes (λ n, on_fst (on_ch (end_Read n))) (λ p, on_snd (stream_Write p));
     on_snd stream_CloseWrite)
    (piping d io_EOF out 0 true None true)
  = (Ret (calling (w ++ ps) [] io_Pending true), piping [] io_EOF out 0 true None true).
Proof using All.
  intros Hl.
  destruct (io_Copy_eq (λ n, on_fst (on_ch (end_Read n))) (λ p, on_snd (stream_Write p))
    (λ d o, (piping d io_EOF out 0 true None true, waiting (w ++ o))) io_EOF) with bound sizes d
    (@nil (list byte)) as (ps & Hps & Hcopy); try done.
  { intros p d' o. rewrite app_assoc. done. }
  cbv beta in Hcopy; rewrite ?app_nil_r in Hcopy. exists ps. split; [done|].
  eapply go_stream_eq. erewrite bind_ret by exact Hcopy. done.
Qed.

Lemma backward_bytes_eq sizes w d out :
  (length d < bound)%nat → ∃ ps r, mjoin ps = d ∧
  with_stream (calling w d io_EOF true)
    (io_Copy bound sizes (λ n, on_snd (stream_Read n)) (λ p, on_fst (on_ch (end_Write p))))
    (piping [] io_EOF out 0 true None true)
  = (Ret r, piping [] io_EOF (out ++ ps) 0 true None true).
Proof using All.
  intros Hl.
  destruct (io_Copy_eq (λ n, on_snd (stream_Read n)) (λ p, on_fst (on_ch (end_Write p)))
    (λ d o, (piping [] io_EOF (out ++ o) 0 true None true, calling w d io_EOF true)) io_EOF)
    with bound sizes d (@nil (list byte)) as (ps & Hps & Hcopy); try done.
  { intros p d' o. rewrite app_assoc. done. }
  cbv beta in Hcopy; rewrite ?app_nil_r in Hcopy. exists ps. eexists. split; [done|].
  eapply with_stream_eq. exact Hcopy.
Qed.

Lemma InteropService_Bytes_echoes sizes :
  echoes_bytes (InteropService_Bytes bound sizes call (react "Bytes"%string)) bound.
Proof using All.
  intros sel v b hb Hv Hp Hb Hh.
  destruct (ec_bytes v [TVar var_any] [v]) as (w & Hcall & Hidle & Hreact); [by right|done..|].
  split.
  - intros d Hl. unfold InteropService_Bytes.
    destruct (forward_bytes_eq sizes w d [frame hb; frame b] Hl) as (ps & Hps & Hfwd).
    destruct (backward_bytes_eq sizes (w ++ ps) d [frame hb; frame b] Hl)
      as (ps' & r' & Hps' & Hbwd).
    exists ps'. split; [done|].
    step (by apply receive_raw). rewrite Hcall. step (apply await_eq).
    cbn [ret_of resp_replies head default]. step (by apply continue_raw).
    step (exact Hfwd). rewrite Hreact by (by rewrite Hps). rewrite Hps.
    step (exact Hbwd). done.
  - unfold InteropService_Bytes. rewrite <- (app_nil_r (frame b)) at 1.
    step (by apply receive_raw). rewrite Hcall. step (apply await_eq).
    cbn [ret_of resp_replies head default]. step (by apply continue_raw).
    step (apply forward_waits_bytes). rewrite Hidle.
    by apply bind_block, backward_waits_bytes.
Qed.
End interop.
End spec.
