(* ===== verification/InteropProperties.v ===== *)
(** * interop: the services over the wire, and qtalk check

    A call to a service runs the request, the server and the reading of the
    response over the bytes they exchange. [over_wire] is such a caller, so the
    service's own calls back are calls of the same kind. *)
From S2P Require Import Prelude GoRuntime FrameCodec RespondMux Rpc RpcSpec.
From S2P Require Import RpcCancel Interop InteropSpec.

(** ** Calls over the wire *)

Section wire.
Context {V T : Type} `{CodecLaws V T} `{Variables V T}.

(** The channel of a call as its caller sees it, once the server [ms] did what it can
    with all that was sent on it: what the server wrote, behind which there is an
    end if one of the two has closed the channel. *)
Definition answered (fuel : nat) (ms : gmap nat (RespondMux handler_func)) (s : stream_end) : chan_end :=
  match Server_respond fuel ms (SubMux 0) (new_responder (peer_of (ce_out (st_end s)) (stream_ends s))) with
  | (_, sv) =>
      hears (ce_out (sv_ch sv))
        (if (ce_closes (sv_ch sv) =? 0)%nat && (ce_closes (st_end s) =? 0)%nat
         then io_Pending else io_EOF) (st_end s)
  end.

Definition over_wire (fuel : nat) (ms : gmap nat (RespondMux handler_func)) : caller V T :=
  λ sel arg replies,
  match Client_Call (Ok fresh_end) (λ c, answered fuel ms (mkStream c false)) NotClosed None
          sel (ArgValue arg) replies with
  | (Ret r, ch) => Ret (r, mkStream (default fresh_end ch) false)
  | (Block, _) => Block
  | (Panic e, _) => Panic e
  | (NoFuel, _) => NoFuel
  end.

(** What has arrived behind the response once more was sent on the channel, or it was
    closed for writing. *)
Definition wire_react (fuel : nat) (ms : gmap nat (RespondMux handler_func)) (s : stream_end)
    : stream_end :=
  mkStream (call_response [TNil] (answered fuel ms s)).2 (st_shut s).

Context (fuel : nat) (ms : gmap nat (RespondMux (handler_func))) (bound : nat).

(** The service [ms] answers [sel] with [f]. *)
Definition serves (sel : string) (f : handler_func) : Prop :=
  mux_resolve fuel ms (SubMux 0) (cleanSelector sel) = Ret (HandlerFunc f).

Lemma request_eq sel v hb b :
  encodes (VCallHeader sel) hb → encodes v b →
  call_request sel (ArgValue v) fresh_end = (Ret None, st_end (waiting [frame hb; frame b])).
Proof using.
  intros Hh Hb. rewrite (call_request_eq sel (ArgValue v) hb [b]); [done|done|].
  constructor; [exact Hb|constructor].
Qed.

Lemma response_eq replies v got b hb d e w n k :
  reads replies v got → carried v → encodes v b → encodes (VResponseHeader None k) hb →
  call_response replies (mkEnd (mkReader (frame hb ++ frame b ++ d) e) w n)
  = (Ret (Some (mkResponse None k got), None),
     mkEnd (mkReader d e) w (if k then n else S n)).
Proof using All.
  intros Hr [_ Hv] [Hb Hl] [Hh Hhl].
  destruct Hr as [[-> ->]|[-> ->]]; unfold call_response; step (by apply end_Decode_eq);
    rewrite (law_response _ _ _ Hh); cbn [reply_nil decode_replies].
  - erewrite bind_ret; [|by step (by apply end_Decode_eq)]. by destruct k.
  - erewrite bind_ret.
    2: { erewrite bind_ret; [|by step (by apply end_Decode_eq); rewrite (Hv b Hb)]. done. }
    by destruct k.
Qed.

(** *** What the server has answered *)

(** To a call whose stream goes on: it waits for more. *)
Lemma answered_waits f sel hb b rb :
  serves sel f → encodes (VCallHeader sel) hb →
  f (cleanSelector sel) (piping (frame b) io_Pending [] 0 false None false)
  = (Block, piping [] io_Pending [frame rb; frame b] 0 true None true) →
  answered fuel ms (waiting [frame hb; frame b])
  = st_end (calling [frame hb; frame b] (frame rb ++ frame b ++ []) io_Pending false).
Proof using All.
  intros Hs Hh Hf. unfold answered, peer_of. cbn [calling st_end ce_out w_out].
  change (mjoin [frame hb; frame b]) with (frame hb ++ frame b ++ []). rewrite app_nil_r at 1.
  erewrite Server_respond_waits; [|exact Hh|unfold RespondRPC; rewrite Hs; exact Hf]. done.
Qed.

(** Once [ps] was sent after the request and the stream ended. *)
Lemma answered_values f sel v hb b rb vs bs :
  serves sel f → echoes_values f bound → encodes (VCallHeader sel) hb →
  carried v → plain v → encodes v b → encodes (VResponseHeader None true) rb →
  Forall carried vs → Forall2 encodes vs bs → (length vs < bound)%nat →
  answered fuel ms (calling ([frame hb; frame b] ++ (frame <$> bs)) [] io_Pending true)
  = st_end (calling ([frame hb; frame b] ++ (frame <$> bs))
      (frame rb ++ frame b ++ mjoin (frame <$> bs)) io_EOF true).
Proof using All.
  intros Hs Hf Hh Hv Hp Hb Hr Hvs Hbs Hl. unfold answered, peer_of. cbn [calling st_end ce_out w_out].
  change (mjoin ([frame hb; frame b] ++ (frame <$> bs)))
    with (frame hb ++ mjoin (frame <$> (b :: bs))).
  erewrite Server_respond_eq; [|exact Hh|].
  2: { unfold RespondRPC. rewrite Hs.
       by apply (proj1 (Hf _ v b rb Hv Hp Hb Hr) vs bs). }
  done.
Qed.

Lemma answered_bytes f sel v hb b rb ps :
  serves sel f → echoes_bytes f bound → encodes (VCallHeader sel) hb →
  carried v → plain v → encodes v b → encodes (VResponseHeader None true) rb →
  (length (mjoin ps) < bound)%nat →
  answered fuel ms (calling ([frame hb; frame b] ++ ps) [] io_Pending true)
  = st_end (calling ([frame hb; frame b] ++ ps) (frame rb ++ frame b ++ mjoin ps) io_EOF true).
Proof using All.
  intros Hs Hf Hh Hv Hp Hb Hr Hl. unfold answered, peer_of. cbn [calling st_end ce_out w_out].
  destruct (proj1 (Hf (cleanSelector sel) v b rb Hv Hp Hb Hr) (mjoin ps) Hl) as (ps' & Hps & Hrun).
  change (mjoin ([frame hb; frame b] ++ ps)) with (frame hb ++ frame b ++ mjoin ps).
  erewrite Server_respond_eq; [|exact Hh|].
  2: { unfold RespondRPC. rewrite Hs. exact Hrun. }
  cbn [r_responded piping after_handler r_Continue]. unfold hears.
  cbn [calling st_end ce_out sv_ch w_out ce_closes]. by rewrite <- Hps.
Qed.

(** ** Calls of an echo over the wire *)

(** The headers of the calls and responses are encodable. *)
Context (Hcalls : ∀ sel, sel ∈ ["Unary"; "Stream"; "Bytes"]%string → sendable (VCallHeader sel))
        (Hheads : ∀ k, sendable (VResponseHeader None k)).

Lemma over_wire_unary f v :
  serves "Unary" f → echoes_value f → carried v → plain v →
  ∃ c, over_wire fuel ms "Unary" v [TVar var_any]
    = Ret ((Some (mkResponse None false [v]), None), c).
Proof using All.
  intros Hs Hf Hv Hp.
  assert (respond_error [v] = None ∧ respond_values [v] = [v]) as [He Hvs] by by destruct v.
  destruct (handled_call_eq fuel ms (SubMux 0) "Unary" f v [v] io_Pending) as
    (c1 & hb & bs & s1 & Hreq & Hn & Hhb & Hbs & Hsrv & Hcl & Hout);
    [exact Hs|by apply Hf|by apply Hcalls; left|apply Hv|by rewrite He|rewrite Hvs; repeat constructor; apply Hv|].
  rewrite He in Hhb. rewrite Hvs in Hbs.
  apply Forall2_cons_inv_l in Hbs as (b & bs' & Hb & Hbs & ->).
  apply Forall2_nil_inv_l in Hbs as ->.
  unfold over_wire. rewrite (Client_Call_plain _ _ _ _ _ _ Hreq).
  unfold answered, stream_ends. cbn [st_end st_shut orb]. rewrite Hn. cbn [Nat.eqb negb].
  rewrite Hsrv. unfold hears. rewrite Hout, Hcl.
  cbn [w_out fmap list_fmap mjoin list_join Nat.eqb andb].
  rewrite (response_eq _ v [v] b hb [] _ _ _ false) by (done || by right). by eexists.
Qed.

(** What a stream method does with a call so far. *)
Lemma echoes_waits f sel v b rb :
  echoes_values f bound ∨ echoes_bytes f bound →
  carried v → plain v → encodes v b → encodes (VResponseHeader None true) rb →
  f sel (piping (frame b) io_Pending [] 0 false None false)
  = (Block, piping [] io_Pending [frame rb; frame b] 0 true None true).
Proof using.
  intros [Hf|Hf] Hv Hp Hb Hr; [|by apply (Hf sel v b rb)].
  pose proof (proj2 (Hf sel v b rb Hv Hp Hb Hr)) as Hw. unfold serving, at_end in Hw.
  cbn [fmap list_fmap mjoin list_join] in Hw. rewrite app_nil_r in Hw. exact Hw.
Qed.

Lemma over_wire_stream sel f v b hb replies got :
  serves sel f → echoes_values f bound ∨ echoes_bytes f bound →
  encodes (VCallHeader sel) hb → encodes v b →
  reads replies v got → carried v → plain v →
  over_wire fuel ms sel v replies
  = Ret ((Some (mkResponse None true got), None), waiting [frame hb; frame b]).
Proof using All.
  intros Hs Hf Hhb Hb Hr Hv Hp. destruct (Hheads true) as [rb Hrb].
  unfold over_wire.
  rewrite (Client_Call_plain _ _ _ _ _ _ (request_eq sel v hb b Hhb Hb)).
  change (mkStream (st_end (waiting ?w)) false) with (waiting w).
  rewrite (answered_waits f sel hb b rb Hs Hhb) by by apply (echoes_waits f _ v).
  cbn [calling st_end]. by rewrite (response_eq _ v got b rb [] _ _ _ true).
Qed.

Lemma wire_react_waits sel f v b hb :
  serves sel f → echoes_values f bound ∨ echoes_bytes f bound →
  encodes (VCallHeader sel) hb → encodes v b → carried v → plain v →
  wire_react fuel ms (waiting [frame hb; frame b]) = waiting [frame hb; frame b].
Proof using All.
  intros Hs Hf Hhb Hb Hv Hp. destruct (Hheads true) as [rb Hrb]. unfold wire_react.
  rewrite (answered_waits f sel hb b rb Hs Hhb) by by apply (echoes_waits f _ v).
  cbn [calling st_end st_shut].
  by rewrite (response_eq [TNil] v [] b rb [] _ _ _ true) by (done || by left).
Qed.

Lemma wire_react_values sel f v b hb vs bs :
  serves sel f → echoes_values f bound →
  encodes (VCallHeader sel) hb → carried v → plain v → encodes v b →
  Forall carried vs → Forall2 encodes vs bs → (length vs < bound)%nat →
  wire_react fuel ms (calling ([frame hb; frame b] ++ (frame <$> bs)) [] io_Pending true)
  = calling ([frame hb; frame b] ++ (frame <$> bs)) (mjoin (frame <$> bs)) io_EOF true.
Proof using All.
  intros Hs Hf Hhb Hv Hp Hb Hvs Hbs Hl. destruct (Hheads true) as [rb Hrb].
  unfold wire_react. rewrite (answered_values f sel v hb b rb vs) by done. cbn [calling st_end st_shut].
  by rewrite (response_eq [TNil] v [] b rb _ _ _ _ true) by (done || by left).
Qed.

Lemma wire_react_bytes sel f v b hb ps :
  serves sel f → echoes_bytes f bound →
  encodes (VCallHeader sel) hb → carried v → plain v → encodes v b →
  (length (mjoin ps) < bound)%nat →
  wire_react fuel ms (calling ([frame hb; frame b] ++ ps) [] io_Pending true)
  = calling ([frame hb; frame b] ++ ps) (mjoin ps) io_EOF true.
Proof using All.
  intros Hs Hf Hhb Hv Hp Hb Hl. destruct (Hheads true) as [rb Hrb].
  unfold wire_react. rewrite (answered_bytes f sel v hb b rb ps) by done. cbn [calling st_end st_shut].
  by rewrite (response_eq [TNil] v [] b rb _ _ _ _ true) by (done || by left).
Qed.

(** A service with the three echo methods is an echo to its callers. *)
Lemma over_wire_echo fu fs fb :
  serves "Unary" fu → serves "Stream" fs → serves "Bytes" fb →
  echoes_value fu → echoes_values fs bound → echoes_bytes fb bound →
  EchoCaller (over_wire fuel ms) (λ _, wire_react fuel ms) bound.
Proof using All.
  intros Hu Hs Hb Hfu Hfs Hfb.
  destruct (Hcalls "Stream") as [sb Hsb]; [by right; left|].
  destruct (Hcalls "Bytes") as [bb Hbb]; [by right; right; left|]. split.
  - intros v Hv Hp. by apply (over_wire_unary fu).
  - intros v replies got Hr Hv Hp. destruct (proj1 Hv) as [b Hvb]. exists [frame sb; frame b].
    split_and!.
    + apply (over_wire_stream "Stream" fs v b); try done. by left.
    + apply (wire_react_waits "Stream" fs v); try done. by left.
    + intros vs bs **. by apply (wire_react_values "Stream" fs v b sb vs).
  - intros v replies got Hr Hv Hp. destruct (proj1 Hv) as [b Hvb]. exists [frame bb; frame b].
    split_and!.
    + apply (over_wire_stream "Bytes" fb v b); try done. by right.
    + apply (wire_react_waits "Bytes" fb v); try done. by right.
    + intros ps Hl. by apply (wire_react_bytes "Bytes" fb v).
Qed.
End wire.

(** ** The services *)

Section services.
Context {V T : Type} `{CodecLaws V T} `{Variables V T}.
Context (k bound : nat) (sizes : nat → nat) (Hbound : (0 < bound)%nat).
Context (Hcalls : ∀ sel, sel ∈ ["Unary"; "Stream"; "Bytes"]%string → sendable (VCallHeader sel))
        (Hheads : ∀ k, sendable (VResponseHeader None k)).

(** What is registered under each name. *)
Lemma callback_serves :
  serves (S k) (callback_service bound sizes) "Unary" CallbackService_Unary ∧
  serves (S k) (callback_service bound sizes) "Stream" (CallbackService_Stream bound) ∧
  serves (S k) (callback_service bound sizes) "Bytes" (CallbackService_Bytes bound sizes).
Proof using. split_and!; by destruct k. Qed.

Lemma interop_serves call react :
  serves (S k) (interop_service bound sizes call react) "Unary" (InteropService_Unary call) ∧
  serves (S k) (interop_service bound sizes call react) "Stream"
    (InteropService_Stream bound call (react "Stream"%string)) ∧
  serves (S k) (interop_service bound sizes call react) "Bytes"
    (InteropService_Bytes bound sizes call (react "Bytes"%string)) ∧
  serves (S k) (interop_service bound sizes call react) "Error" InteropService_Error.
Proof using. split_and!; by destruct k. Qed.

(** The two peers: the service's calls back go to the callback service. *)
Definition callbacks : gmap nat (RespondMux handler_func) := callback_service bound sizes.

Definition interop_peer : gmap nat (RespondMux handler_func) :=
  interop_service bound sizes (over_wire (S k) callbacks) (λ _, wire_react (S k) callbacks).

Lemma callbacks_echo :
  EchoCaller (over_wire (S k) callbacks) (λ _, wire_react (S k) callbacks) bound.
Proof using All.
  destruct (Callback_echoes bound sizes Hbound) as (Hu & Hs & Hb).
  destruct callback_serves as (H4 & H5 & H6).
  exact (over_wire_echo _ _ bound Hcalls Hheads _ _ _ H4 H5 H6 Hu Hs Hb).
Qed.

Lemma interop_peer_echo :
  EchoCaller (over_wire (S k) interop_peer) (λ _, wire_react (S k) interop_peer) bound.
Proof using All.
  pose proof callbacks_echo as He.
  destruct (interop_serves (over_wire (S k) callbacks) (λ _, wire_react (S k) callbacks))
    as (H4 & H5 & H6 & _).
  eapply over_wire_echo; [exact Hcalls|exact Hheads|exact H4|exact H5|exact H6|..].
  - by eapply InteropService_Unary_echoes.
  - by apply (InteropService_Stream_echoes _ (λ _, wire_react (S k) callbacks)).
  - by apply (InteropService_Bytes_echoes _ (λ _, wire_react (S k) callbacks)).
Qed.
End services.

(** ** qtalk check, against a service that echoes *)

Section checks.
Context {V T : Type} `{CodecLaws V T} `{Variables V T}.
Context call react bound `{!EchoCaller call react bound}.
Context (Hnil : carried VNil).

(** A value [check] can use. *)
Definition usable (v : any V) : Prop := carried v ∧ plain v.

Lemma usable_carried vs : Forall usable vs → Forall carried vs.
Proof using. intros Hvs. eapply Forall_impl; [exact Hvs|]. by intros v [Hv _]. Qed.

Lemma check_unary_eq vs :
  Forall usable vs → check_unary call vs = ((λ v, LUnary v v) <$> vs, Ret false).
Proof using All.
  induction 1 as [|v vs [Hv Hp] _ IH]; [done|]. cbn [check_unary].
  destruct (ec_unary v Hv Hp) as [c ->]. cbn [on_outcome]. by rewrite IH.
Qed.

Lemma send_all_eq vs bs w d e :
  Forall2 encodes vs bs →
  send_all vs (calling w d e false) = (Ret true, calling (w ++ (frame <$> bs)) d e true).
Proof using.
  intros Hbs. revert w. induction Hbs as [|v b vs bs Hv Hbs IH]; intros w; cbn [send_all].
  { by rewrite app_nil_r. }
  step (by apply stream_Send_eq). rewrite IH. by rewrite <- app_assoc.
Qed.

Lemma receive_all_eq fuel vs bs w shut :
  Forall carried vs → Forall2 encodes vs bs → (length vs < fuel)%nat →
  receive_all fuel (calling w (mjoin (frame <$> bs)) io_EOF shut) = (LStream <$> vs, Ret false).
Proof using.
  intros Hc Hbs. revert fuel Hc.
  induction Hbs as [|v b vs bs Hv Hbs IH]; intros [|fuel] Hc Hl; cbn [length] in Hl; try lia; [done|].
  apply Forall_cons in Hc as [Hd Hc]. cbn [receive_all].
  rewrite (stream_Receive_eq v b bs) by done. cbn [on_outcome]. by rewrite IH by (done || lia).
Qed.

Lemma check_stream_eq fuel vs :
  Forall usable vs → (length vs < bound)%nat → (length vs < fuel)%nat →
  check_stream call react fuel vs = (LStream <$> vs, Ret false).
Proof using All.
  intros Hvs%usable_carried Hl Hf. destruct (carried_all _ Hvs) as [bs Hbs]. unfold check_stream.
  destruct (ec_stream VNil [TNil] []) as (w & -> & _ & Hreact); [by left|done..|]. cbn [on_outcome].
  rewrite (send_all_eq _ _ _ _ _ Hbs). cbn [on_outcome]. rewrite (Hreact vs) by done.
  by rewrite (receive_all_eq _ vs).
Qed.

(** Bytes there and back. *)
Lemma call_bytes_eq data :
  (length data < bound)%nat → ∃ r ch,
    call "Bytes"%string VNil [TNil] = Ret ((r, None), ch) ∧
    echo_bytes react data ch = Ret (length data).
Proof using All.
  intros Hl. destruct (ec_bytes VNil [TNil] []) as (w & -> & _ & Hreact); [by left|done..|].
  eexists _, _. split; [done|]. unfold echo_bytes.
  change ((_ ← stream_Write data; stream_CloseWrite) (waiting w))
    with (Ret (@None error), calling (w ++ [data]) [] io_Pending true).
  pose proof (Hreact [data]) as Hr. cbn [mjoin list_join] in Hr. rewrite app_nil_r in Hr.
  cbv iota beta. by rewrite Hr by done.
Qed.

Lemma check_bytes_eq data :
  (length data < bound)%nat → check_bytes call react data = ([LBytes (length data)], Ret false).
Proof using All.
  intros Hl. unfold check_bytes. destruct (call_bytes_eq data Hl) as (r & ch & -> & He).
  cbn [on_outcome]. rewrite He. cbn [on_outcome]. by rewrite bool_decide_true.
Qed.

Lemma check_all_bytes_eq datas :
  Forall (λ d, length d < bound)%nat datas →
  foldr (λ d r, then_check (check_bytes call react d) r) ([], Ret false) datas
  = (LBytes ∘ length <$> datas, Ret false).
Proof using All.
  induction 1 as [|d datas Hd _ IH]; [done|]. cbn [foldr]. by rewrite IH, check_bytes_eq.
Qed.

(** A selector whose call fails with a remote error. *)
Lemma check_error_eq (call' : caller V T) test sel r text c :
  call' sel test [TNil] = Ret ((r, Some (RemoteError text)), c) →
  check_error call' test sel = ([LError text], Ret false).
Proof using.
  intros Hc. unfold check_error. rewrite Hc. cbn [on_outcome call_error_text]. unfold TrimPrefix.
  by cbn.
Qed.
End checks.

(** ** Calls that fail *)

Section failing.
Context {V T : Type} `{CodecLaws V T} `{Variables V T}.

Lemma over_wire_ends fuel ms sel a us r :
  call_ends fuel ms (SubMux 0) sel a io_Pending io_EOF us r →
  ∃ c, over_wire fuel ms sel a us = Ret (r, c).
Proof using.
  intros (c1 & s1 & c2 & Hreq & Hsrv & Hresp & _ & Hcl). eexists. unfold over_wire.
  rewrite (Client_Call_plain _ _ _ _ _ _ Hreq). unfold answered, stream_ends. cbn [st_end st_shut orb].
  destruct (runs_request sel (ArgValue a) fresh_end) as (x & c & Hrun & Hn).
  rewrite Hreq in Hrun. simplify_eq. rewrite Hn. cbn [ce_closes fresh_end Nat.eqb negb].
  rewrite Hsrv, (proj2 (Nat.eqb_neq _ 0)) by lia. cbn [andb]. by rewrite Hresp.
Qed.

(** [Error] makes an error of the text it is given. *)
Lemma over_wire_error fuel ms t us :
  serves fuel ms "Error" InteropService_Error → fits var_string t →
  sendable (VCallHeader "Error") → sendable (Val t) → sendable VNil →
  sendable (VResponseHeader (Some (text_of (Val t))) false) →
  ∃ r c, over_wire fuel ms "Error" (Val t) us = Ret ((r, Some (RemoteError (text_of (Val t)))), c).
Proof using All.
  intros Hs Hfit Hc Ht Hnil Hh. eexists. apply over_wire_ends.
  apply (handled_call_fails fuel ms _ _ InteropService_Error (Val t) (errorString (text_of (Val t))));
    try done.
  intros sel ab rest e n hb bs [Ha Hl] Hhb Hbs. unfold InteropService_Error, Call_Receive.
  erewrite bind_ret; [|eapply on_ch_eq; by apply end_Decode_eq].
  rewrite (law_val _ _ _ Hfit Ha). cbn [set_sv_ch new_responder r_responded r_Error r_Continue].
  erewrite bind_ret; [|apply (respond_eq _ _ _ _ (mkReader rest e) [] n Hhb Hbs)]. done.
Qed.

Lemma over_wire_not_found fuel ms sel a pat us :
  Match (S fuel) ms 0 (cleanSelector sel) = Ret (None, pat) →
  sendable (VCallHeader sel) → sendable a → sendable VNil →
  sendable (VResponseHeader (Some ("not found: " +:+ cleanSelector sel)%string) false) →
  ∃ r c, over_wire (S fuel) ms sel a us
    = Ret ((r, Some (RemoteError ("not found: " +:+ cleanSelector sel))), c).
Proof using All.
  intros Hm Hc [ab Ha] Hnil Hh.
  destruct (remote_call_not_found fuel ms 0 sel (ArgValue a) [ab] pat us io_Pending io_EOF)
    as (c1 & s1 & c2 & Hreq & Hsrv & Hresp & Hrest); [done|done|by (constructor; [exact Ha|constructor])|done|done|].
  eexists. apply over_wire_ends. by exists c1, s1, c2.
Qed.
End failing.

(** ** Properties *)

#[global] Instance tagged_variables : Variables (list byte) unit := {|
  var_any := tt;
  var_string := tt;
  text_of v := match v with Val s => String.string_of_list_byte s | _ => ""%string end;
|}.

Lemma tagged_sendable (v : any (list byte)) b :
  codec_Encode v = Ok b → bool_decide (len b < 2 ^ 32) = true → sendable v.
Proof. intros Hv Hl%bool_decide_eq_true. by exists b. Qed.

Lemma tagged_carried (v : list byte) : bool_decide (len v < 2 ^ 31) = true → carried (Val v).
Proof.
  intros Hl%bool_decide_eq_true. apply carried_val; [done|]. eexists. split; [done|].
  unfold len in *. cbn [length]. lia.
Qed.

(** The interop service is an echo, through two hops: a value sent to
    [Unary] comes back, and all that is sent on a call of [Stream] (values) or
    [Bytes] (bytes, however the transport cuts them) comes back on the channel
    of the call, in order and complete, although the service itself only passes
    it on to the [CallbackService] of the caller. *)
Theorem interop_echoes {V T} `{CodecLaws V T} `{Variables V T} k bound sizes :
  (0 < bound)%nat →
  (∀ sel, sel ∈ ["Unary"; "Stream"; "Bytes"]%string → sendable (VCallHeader sel)) →
  (∀ c, sendable (VResponseHeader None c)) →
  EchoCaller (over_wire (S k) (interop_peer k bound sizes))
    (λ _, wire_react (S k) (interop_peer k bound sizes)) bound.
Proof. apply interop_peer_echo. Qed.

Lemma interop_echoes_witness :
  ∃ c, over_wire 1 (interop_peer 0 9 (λ _, 3%nat)) "Unary" (Val [x07; x08]) [TVar tt]
    = Ret ((Some (mkResponse None false [Val [x07; x08]]), None), c).
Proof.
  destruct (interop_echoes (V := list byte) (T := unit) 0 9 (λ _, 3%nat)) as [Hu _ _].
  - apply Nat.ltb_lt. reflexivity.
  - intros sel Hin. repeat (apply elem_of_cons in Hin as [->|Hin]);
      [by eapply tagged_sendable..|by apply elem_of_nil in Hin].
  - intros c. eapply tagged_sendable; [reflexivity|by destruct c].
  - apply Hu; [by apply tagged_carried|exact I].
Defined.

(** C35. [qtalk check] succeeds against the interop service: it prints the
    text of the error it asked for, the error of the selector nothing is
    registered for, every value with itself as the answer, every value again in
    the order it was streamed, and the size of every run of random bytes, and
    is not ended by [log.Fatal]. *)
Theorem check_passes {V T} `{CodecLaws V T} `{Variables V T} k bound sizes fuel vals t datas :
  (0 < bound)%nat → (length vals < bound)%nat → (length vals < fuel)%nat →
  Forall (λ d, length d < bound)%nat datas →
  (∀ sel, sel ∈ ["Unary"; "Stream"; "Bytes"; "Error"; "BadSelector"]%string →
     sendable (VCallHeader sel)) →
  (∀ c, sendable (VResponseHeader None c)) →
  (∀ text, text ∈ [text_of (Val t); "not found: /BadSelector"%string] →
     sendable (VResponseHeader (Some text) false)) →
  carried VNil → fits var_string t → sendable (Val t) → Forall usable vals →
  check (over_wire (S k) (interop_peer k bound sizes))
    (λ _, wire_react (S k) (interop_peer k bound sizes)) fuel vals (Val t) datas
  = (LError (text_of (Val t)) :: LError "not found: /BadSelector"
       :: ((λ v, LUnary v v) <$> vals) ++ (LStream <$> vals) ++ (LBytes ∘ length <$> datas), Ret false).
Proof.
  intros Hb Hl Hf Hd Hcalls Hheads Herrs Hnil Hfit Ht Hvs.
  assert (EchoCaller (over_wire (S k) (interop_peer k bound sizes))
    (λ _, wire_react (S k) (interop_peer k bound sizes)) bound) as Hecho.
  { apply interop_peer_echo; [done| |done]. intros sel Hin. apply Hcalls.
    rewrite !elem_of_cons in *. tauto. }
  destruct (interop_serves k bound sizes (over_wire (S k) (callbacks bound sizes))
    (λ _, wire_react (S k) (callbacks bound sizes))) as (_ & _ & _ & Hserr).
  destruct (over_wire_error (S k) (interop_peer k bound sizes) t [TNil]) as (r & c & Herr);
    [exact Hserr|done|apply Hcalls; by repeat constructor|done|apply Hnil|apply Herrs; by repeat constructor|].
  destruct (over_wire_not_found k (interop_peer k bound sizes) "BadSelector" (Val t) "" [TNil])
    as (r' & c' & Hbad);
    [done|apply Hcalls; by repeat constructor|done|apply Hnil|apply Herrs; by repeat constructor|].
  unfold check. rewrite (check_error_eq _ _ _ _ _ _ Herr), (check_error_eq _ _ _ _ _ _ Hbad).
  erewrite check_unary_eq, check_stream_eq, check_all_bytes_eq by done.
  unfold then_check. cbn. by rewrite <- ?app_assoc.
Qed.

Lemma check_passes_witness :
  check (V := list byte) (T := unit) (over_wire 1 (interop_peer 0 9 (λ _, 3%nat)))
    (λ _, wire_react 1 (interop_peer 0 9 (λ _, 3%nat))) 9
    [Val [x07]; Val []] (Val [x74; x65]) [[x01]; [x02; x03; x04; x05; x06]]
  = ([LError "te"; LError "not found: /BadSelector"; LUnary (Val [x07]) (Val [x07]);
      LUnary (Val []) (Val []); LStream (Val [x07]); LStream (Val []); LBytes 1; LBytes 5], Ret false).
Proof.
  etransitivity; [apply (check_passes (V := list byte) (T := unit) 0 9 (λ _, 3%nat) 9
    [Val [x07]; Val []] [x74; x65] [[x01]; [x02; x03; x04; x05; x06]])|reflexivity].
  1-3: apply Nat.ltb_lt; reflexivity.
  - repeat constructor.
  - intros sel Hin. repeat (apply elem_of_cons in Hin as [->|Hin]);
      [by eapply tagged_sendable..|by apply elem_of_nil in Hin].
  - intros c. eapply tagged_sendable; [reflexivity|by destruct c].
  - intros text Hin. repeat (apply elem_of_cons in Hin as [->|Hin]);
      [by eapply tagged_sendable..|by apply elem_of_nil in Hin].
  - split; [by eapply tagged_sendable|]. by intros b [= <-].
  - exact I.
  - by eapply tagged_sendable.
  - constructor; [|constructor; [|constructor]]; (split; [by apply tagged_carried|exact I]).
Defined.
