(* ===== verification/Tool.v ===== *)
(** * cmd/qtalk: the commands of the tool

    call.go, and the Run functions of check.go, bench.go and interop.go around the
    checks of Interop.v: what they connect to, the process they start, what they
    clean up. Parsing an URL (net/url) and arguments (clon-go), printing JSON, and
    what the system answers to a command (os/exec, quic-go) are arguments. *)
From Stdlib Require Import Ascii String.
From S2P Require Import Prelude GoRuntime FrameCodec RespondMux RespondMuxSpec Rpc.
From S2P Require Import Interop InteropSpec InteropProperties.

Local Open Scope string_scope.
Local Open Scope Z_scope.

(** How a command ends: it printed a text, or [log.Fatal] did. *)
Inductive tool_end :=
| Printed (text : string)
| ToolFatal (e : error).

(** ** call *)

(** What [call] uses of an [url.URL]. *)
Record URL := mkURL {
  Scheme : string;
  Host : string;
  Path : string;
}.

Section call.
Context {V T Peer : Type}.
Context (url_Parse : string → result URL).
Context (clon_Parse : list string → result (any V)).
Context (Dial : string → string → result Peer).
Context (Call : Peer → string → any V → any V * option call_error).
Context (MarshalIndent : any V → result string).

(** The [Run] of [callCmd]; its [Args] makes sure there is an argument. *)
Definition call_Run (args : list string) : outcome tool_end :=
  match args with
  | [] => Panic "runtime error: index out of range [0] with length 0"
  | a :: rest =>
      match url_Parse a with
      | Err err => Ret (ToolFatal err)
      | Ok u =>
          match (if (0 <? length rest)%nat then clon_Parse rest else Ok VNil) with
          | Err err => Ret (ToolFatal err)
          | Ok sargs =>
              match Dial (Scheme u) (Host u) with
              | Err err => Ret (ToolFatal err)
              | Ok peer =>
                  match Call peer (Path u) sargs with
                  | (_, Some err) => Ret (ToolFatal (errorString (call_error_text err)))
                  | (ret, None) =>
                      match MarshalIndent ret with
                      | Err err => Ret (ToolFatal err)
                      | Ok b => Ret (Printed b)
                      end
                  end
              end
          end
      end
  end.
End call.

(** ** What check and bench connect to *)

Inductive endpoint :=
| SelfInterop
| Subprocess (command : string)
| QuicEndpoint (addr : string).

Definition check_endpoint (args : list string) : endpoint :=
  match args with
  | [] => SelfInterop
  | a :: _ => if negb (HasPrefix a "udp://") then Subprocess a
              else QuicEndpoint (TrimPrefix a "udp://")
  end.

(** bench.go has the same code. *)
Definition bench_endpoint (args : list string) : endpoint :=
  match args with
  | [] => SelfInterop
  | a :: _ => if negb (HasPrefix a "udp://") then Subprocess a
              else QuicEndpoint (TrimPrefix a "udp://")
  end.

(** [os.Getenv("QTALK_CODEC")] decides the codec. *)
Definition check_codec {C} (JSONCodec CBORCodec : C) (QTALK_CODEC : string) : C :=
  if bool_decide (QTALK_CODEC = "json") then JSONCodec else CBORCodec.

Definition bench_codec {C} (JSONCodec CBORCodec : C) (QTALK_CODEC : string) : C :=
  if bool_decide (QTALK_CODEC = "json") then JSONCodec else CBORCodec.

Definition interop_codec {C} (JSONCodec CBORCodec : C) (QTALK_CODEC : string) : C :=
  if bool_decide (QTALK_CODEC = "json") then JSONCodec else CBORCodec.

(** What [interop] serves: the standard streams, or every connection of a QUIC
    listener at an address. *)
Definition interop_endpoint (args : list string) : option string :=
  match args with [] => None | a :: _ => Some a end.

(** ** The sizes of check, and bench *)

Definition check_sizes : list Z := [1; 1024; Z.shiftl 1 20].

Definition mb : Z := Z.shiftl 1 20.

Definition bench_sizes : list Z := [mb * 256; mb * 512; mb * 1024].

Section bench.
Context {V T : Type} `{Codec V T} `{Variables V T}.
Context (call : caller V T) (react : string → stream_end → stream_end).

(** One turn of [bench]: the megabytes it prints, or [log.Fatal]. *)
Definition bench_bytes (data : list byte) : M unit (option Z) :=
  r ← await (call "Bytes" VNil [TNil]);
  match r with
  | ((_, Some _), _) => mret None
  | ((_, None), ch) =>
      n ← await (echo_bytes react data ch);
      mret (if bool_decide (n = length data) then Some (Z.of_nat n / mb) else None)
  end.

(** The loop over the sizes, for the given random bytes: what it prints until it
    is over, fails ([Ret true]) or waits for ever. *)
Fixpoint bench (datas : list (list byte)) : list Z * outcome bool :=
  match datas with
  | [] => ([], Ret false)
  | d :: datas =>
      match (bench_bytes d tt).1 with
      | Ret None => ([], Ret true)
      | Ret (Some n) => let '(ns, o) := bench datas in (n :: ns, o)
      | Block => ([], Block)
      | Panic e => ([], Panic e)
      | NoFuel => ([], NoFuel)
      end
  end.
End bench.

(** ** Running check, bench and interop *)

Inductive codec_kind := JSON | CBOR.

(** [exec.Command(path, args...)]. *)
Record process := Command {
  p_path : string;
  p_args : list string;
}.

(** What a command does to the outside, in order. [EvRespond] is the server for the
    calls back, or the service; [EvClose] is [sess.Close]. *)
Inductive tool_event (L : Type) :=
| EvStart (p : process)
| EvDial (addr : string)
| EvRespond (c : codec_kind)
| EvPrint (l : L)
| EvClose
| EvInterrupt
| EvWait.
Arguments EvStart {_} _.
Arguments EvDial {_} _.
Arguments EvRespond {_} _.
Arguments EvPrint {_} _.
Arguments EvClose {_}.
Arguments EvInterrupt {_}.
Arguments EvWait {_}.

(** It returned, or [log.Fatal] ended the program: deferred calls do not run then. *)
Inductive tool_stop := Done | Fatal.

(** What the system and the libraries answer. *)
Record tool_env := mkEnv {
  Getenv : string → string;
  Executable : result string;
  LookPath : string → result string;
  StdinPipe : process → option error;
  StdoutPipe : process → option error;
  DialIO : process → option error;
  Start : process → option error;
  DialAddr : string → option error;
}.

Section run.
Context {L : Type} (env : tool_env).
(** The lines printed over the session, and how that ended: [Ret true] by [log.Fatal]. *)
Context (work : codec_kind → list L * outcome bool).

Definition event (e : tool_event L) : M (list (tool_event L)) unit := modify_st (λ t, t ++ [e])%list.

Definition fatal_if (err : option error) (k : M (list (tool_event L)) tool_stop)
    : M (list (tool_event L)) tool_stop :=
  match err with Some _ => mret Fatal | None => k end.

(** From [defer sess.Close()] on, and the deferred calls; [cmd] is the process. *)
Definition over_session (c : codec_kind) (cmd : option process)
    : M (list (tool_event L)) tool_stop :=
  _ ← event (EvRespond c);
  let '(lines, o) := work c in
  _ ← modify_st (λ t, t ++ (EvPrint <$> lines))%list;
  fatal ← await o;
  if fatal : bool then mret Fatal
  else
    _ ← event EvClose;
    match cmd with
    | Some _ => _ ← event EvInterrupt; _ ← event EvWait; mret Done
    | None => mret Done
    end.

(** [if cmd != nil]. *)
Definition over_process (c : codec_kind) (cmd : process) : M (list (tool_event L)) tool_stop :=
  fatal_if (StdinPipe env cmd) (fatal_if (StdoutPipe env cmd) (fatal_if (DialIO env cmd)
    (fatal_if (Start env cmd) (_ ← event (EvStart cmd); over_session c (Some cmd))))).

(** The [Run] of [checkCmd]. *)
Definition check_Run (args : list string) : M (list (tool_event L)) tool_stop :=
  let c := check_codec JSON CBOR (Getenv env "QTALK_CODEC") in
  match check_endpoint args with
  | SelfInterop =>
      match Executable env with
      | Err _ => mret Fatal
      | Ok path => over_process c (Command path ["interop"])
      end
  | Subprocess s =>
      match LookPath env "sh" with
      | Err _ => mret Fatal
      | Ok path => over_process c (Command path ["-c"; s])
      end
  | QuicEndpoint addr =>
      fatal_if (DialAddr env addr) (_ ← event (EvDial addr); over_session c None)
  end.

(** The [Run] of [benchCmd]: the same, around other work. *)
Definition bench_Run (args : list string) : M (list (tool_event L)) tool_stop :=
  let c := bench_codec JSON CBOR (Getenv env "QTALK_CODEC") in
  match bench_endpoint args with
  | SelfInterop =>
      match Executable env with
      | Err _ => mret Fatal
      | Ok path => over_process c (Command path ["interop"])
      end
  | Subprocess s =>
      match LookPath env "sh" with
      | Err _ => mret Fatal
      | Ok path => over_process c (Command path ["-c"; s])
      end
  | QuicEndpoint addr =>
      fatal_if (DialAddr env addr) (_ ← event (EvDial addr); over_session c None)
  end.

(** The loop of [interop] over QUIC: a goroutine serves each connection. [accepts]
    is what [l.Accept] returns, call after call. *)
Fixpoint interop_loop (c : codec_kind) (accepts : list (result unit))
    : M (list (tool_event L)) tool_stop :=
  match accepts with
  | [] => block_st
  | Err _ :: _ => mret Fatal
  | Ok _ :: accepts => _ ← event (EvRespond c); interop_loop c accepts
  end.

(** The [Run] of [interopCmd]; [serve] returns when the session of the standard
    streams ends. *)
Definition interop_Run (DialStdio : option error) (ListenAddr : string → option error)
    (accepts : list (result unit)) (args : list string) : M (list (tool_event L)) tool_stop :=
  let c := interop_codec JSON CBOR (Getenv env "QTALK_CODEC") in
  match interop_endpoint args with
  | None => fatal_if DialStdio (_ ← event (EvRespond c); mret Done)
  | Some addr => fatal_if (ListenAddr addr) (interop_loop c accepts)
  end.
End run.

(** ** Properties *)

(** [bench] runs through against a service that echoes, and prints the sizes of
    bench.go in megabytes. *)
Theorem bench_passes {V T} `{CodecLaws V T} `{Variables V T} call react bound datas
    `{!EchoCaller call react bound} :
  carried VNil → len <$> datas = bench_sizes → Forall (λ d, length d < bound)%nat datas →
  bench call react datas = ([256; 512; 1024], Ret false).
Proof.
  intros Hnil Hsz Hb.
  assert (∀ ds, Forall (λ d, length d < bound)%nat ds →
    bench call react ds = ((λ d, len d / mb) <$> ds, Ret false)) as Hall.
  { clear Hsz Hb datas. induction 1 as [|d ds Hd _ IH]; [done|]. cbn [bench].
    destruct (call_bytes_eq call react bound Hnil d Hd) as (r & ch & Hc & He).
    assert (bench_bytes call react d tt = (Ret (Some (len d / mb)), tt)) as ->.
    { unfold bench_bytes. rewrite Hc. erewrite bind_ret by apply await_eq. cbv iota beta. rewrite He.
      erewrite bind_ret by apply await_eq. by rewrite bool_decide_true. }
    cbn [fst]. by rewrite IH. }
  rewrite Hall by done.
  assert ((λ d : list byte, len d / mb) <$> datas = (λ n, n / mb) <$> (len <$> datas)) as ->
    by by rewrite <- list_fmap_compose.
  by rewrite Hsz.
Qed.

(** An endpoint names a QUIC address exactly when its argument is that address
    behind [udp://]. *)
Theorem check_endpoint_exact args :
  bench_endpoint args = check_endpoint args ∧
  match check_endpoint args with
  | SelfInterop => args = []
  | Subprocess c => head args = Some c ∧ ∀ addr, c ≠ "udp://" +:+ addr
  | QuicEndpoint addr => head args = Some ("udp://" +:+ addr)
  end.
Proof.
  split; [done|]. destruct args as [|a args]; [done|]. cbn [check_endpoint head].
  destruct (HasPrefix a "udp://") eqn:Ha; cbn [negb].
  - apply HasPrefix_true in Ha as [r ->]. by rewrite TrimPrefix_app.
  - split; [done|]. intros addr ->. assert (HasPrefix ("udp://" +:+ addr) "udp://" = true) as Ht
      by (apply HasPrefix_true; by exists addr). by rewrite Ht in Ha.
Qed.

(** [call] dials the host of the URL and calls its path: a URL without a host, as
    the path of a Unix socket makes one, is dialed as the empty address. *)
Theorem call_dials_host {V Peer} url_Parse clon_Parse (Dial : string → string → result Peer)
    (Call : Peer → string → any V → any V * option call_error) MarshalIndent a scheme path e :
  url_Parse a = Ok (mkURL scheme "" path) → Dial scheme "" = Err e →
  call_Run url_Parse clon_Parse Dial Call MarshalIndent [a] = Ret (ToolFatal e).
Proof. intros Hp Hd. unfold call_Run. rewrite Hp. cbn. by rewrite Hd. Qed.

(** The events of a run that returned and of one that [log.Fatal] ended. *)
Definition tidy {L} (proc : bool) (o : outcome tool_stop) (log : list (tool_event L)) : Prop :=
  match o with
  | Ret Done => ∃ started, (EvClose ∉ started) ∧
      log = (started ++ (EvClose :: (if proc then [EvInterrupt; EvWait] else [])))%list
  | _ => (EvClose ∉ log) ∧ (EvInterrupt ∉ log) ∧ (EvWait ∉ log)
  end.

Definition in_process (e : endpoint) : bool := match e with QuicEndpoint _ => false | _ => true end.

Lemma over_session_tidy {L} (work : codec_kind → list L * outcome bool) c cmd log :
  EvClose ∉ log → EvInterrupt ∉ log → EvWait ∉ log →
  let r := over_session work c cmd log in
  tidy (match cmd with Some _ => true | None => false end) r.1 r.2.
Proof.
  intros Hc Hi Hw. unfold over_session. destruct (work c) as [lines o] eqn:Ew.
  assert (∀ e, e ∉ log → (∀ k, e ≠ EvRespond k) → (∀ l, e ≠ EvPrint l) →
    e ∉ ((log ++ [EvRespond c]) ++ (EvPrint <$> lines))%list) as Hno.
  { intros e He Hr Hp. rewrite !not_elem_of_app. split_and!; [done| |].
    - intros ->%list_elem_of_singleton. by apply (Hr c).
    - intros (l & -> & _)%list_elem_of_fmap. by apply (Hp l). }
  set (log1 := ((log ++ [EvRespond c]) ++ (EvPrint <$> lines))%list) in *.
  assert (EvClose ∉ log1) by by apply Hno.
  assert ((EvClose ∉ log1) ∧ (EvInterrupt ∉ log1) ∧ (EvWait ∉ log1)) as Hnone by
    (split_and!; by apply Hno).
  destruct o as [[]| | |]; [exact Hnone| |exact Hnone..].
  destruct cmd; exists log1; (split; [done|]).
  - change (((log1 ++ [EvClose]) ++ [EvInterrupt]) ++ [EvWait] = log1 ++ [EvClose; EvInterrupt; EvWait])%list.
    by rewrite <- !app_assoc.
  - done.
Qed.

Lemma over_process_tidy {L} env (work : codec_kind → list L * outcome bool) c cmd :
  let r := over_process env work c cmd [] in tidy true r.1 r.2.
Proof.
  assert (tidy (L := L) true (Ret Fatal) []) as Hfatal by (cbn; set_solver).
  unfold over_process, fatal_if. cbv zeta.
  destruct (StdinPipe env cmd), (StdoutPipe env cmd), (DialIO env cmd), (Start env cmd);
    try exact Hfatal.
  apply (over_session_tidy work c (Some cmd) [EvStart cmd]); by intros ?%list_elem_of_singleton.
Qed.

(** [check] and [bench] tidy up only when they succeed: a run that returns has
    closed the session at the end, and then interrupted and awaited the process it
    started, if it started one; a run that [log.Fatal] ends, or that never ends, has
    done none of it, whatever the system answered and whatever failed. [bench] runs around its work
    as [check] does. *)
Theorem check_Run_tidy {L} env (work : codec_kind → list L * outcome bool) args :
  let r := check_Run env work args [] in
  tidy (in_process (check_endpoint args)) r.1 r.2 ∧ bench_Run env work args [] = r.
Proof.
  split; [|done]. assert (∀ b, tidy (L := L) b (Ret Fatal) []) as Hfatal by (cbn; set_solver).
  unfold check_Run. cbv zeta. destruct (check_endpoint args) as [|s|addr].
  - destruct (Executable env); [apply over_process_tidy|apply Hfatal].
  - destruct (LookPath env "sh"); [apply over_process_tidy|apply Hfatal].
  - unfold fatal_if. destruct (DialAddr env addr); [apply Hfatal|].
    apply (over_session_tidy work _ None [EvDial addr]); by intros ?%list_elem_of_singleton.
Qed.

(** A self check against a service that fails: the process it started is not
    interrupted. *)
Example check_leaves_process :
  check_Run (mkEnv (λ _, "json") (Ok "qtalk") Ok (λ _, None) (λ _, None) (λ _, None) (λ _, None)
    (λ _, None)) (λ _, (["Error: test"], Ret true)) [] []
  = (Ret Fatal, [EvStart (Command "qtalk" ["interop"]); EvRespond JSON; EvPrint "Error: test"]).
Proof. done. Qed.
