(* ===== verification/Listeners.v ===== *)
(** * mux and talk: listeners, dialers, peers

    listen_io.go, listen_net.go, listen_ws.go, dial_io.go, dial_net.go,
    dial_ws.go, talk/dial.go and talk/peer.go. A connection is its two streams;
    package net is a listener with the connections that arrived. The handshake
    of package websocket is left out: a connection it accepts is a connection. *)
From S2P Require Import Prelude GoRuntime MuxState Session RespondMux Rpc.

(** A [io.ReadWriteCloser]. *)
Definition conn : Type := writer * reader.

(** A [mux.Session]: the pointer [New] returns, nil for a nil transport. *)
Abbreviation Sess := (option session).

(** ** Package net *)

(** A listening socket: its address, the connections nobody accepted yet, and
    whether it was closed. *)
Record net_Listener := mkListener {
  nl_addr : string;
  nl_backlog : list conn;
  nl_closed : bool;
}.

Definition net_Accept : M net_Listener (result conn) := λ l,
  if nl_closed l then (Ret (Err (OpError "accept" net_ErrClosed)), l)
  else match nl_backlog l with
       | c :: cs => (Ret (Ok c), mkListener (nl_addr l) cs false)
       | [] => (Block, l)
       end.

Definition net_Close : M net_Listener (option error) := λ l,
  if nl_closed l then (Ret (Some (OpError "close" net_ErrClosed)), l)
  else (Ret None, mkListener (nl_addr l) (nl_backlog l) true).

(** ** listen_net.go *)

(** [netListener.Accept()], [Close()], [Addr()]; [ListenerFrom] only wraps. *)
Definition netListener_Accept : M net_Listener (result Sess) :=
  conn ← net_Accept;
  match conn with
  | Err err => mret (Err err)
  | Ok conn => mret (Ok (session_New (Some conn)))
  end.

Definition netListener_Close : M net_Listener (option error) := net_Close.

Definition netListener_Addr (l : net_Listener) : string := nl_addr l.

(** [Server.Serve(l)], of package rpc. *)
Definition Server_Serve (fuel : nat) : M (net_Listener * list Sess) error :=
  Server_ServeMux fuel netListener_Accept.

(** [ListenTCP] and [ListenUnix], by what [net.Listen(network, addr)] does. *)
Definition ListenTCP (net_Listen : string → string → result net_Listener) (addr : string)
    : result net_Listener :=
  match net_Listen "tcp" addr with Err err => Err err | Ok l => Ok l end.

Definition ListenUnix (net_Listen : string → string → result net_Listener) (path : string)
    : result net_Listener :=
  match net_Listen "unix" path with Err err => Err err | Ok l => Ok l end.

(** ** listen_io.go *)

(** [ioListener.Accept()]: a new session over the one connection. *)
Definition ioListener_Accept : M conn (result Sess) := λ rwc,
  (Ret (Ok (session_New (Some rwc))), rwc).

(** Something with a [Close]: how often it was called, what it answers. *)
Record closer := mkCloser {
  cl_calls : nat;
  cl_err : option error;
}.

Definition closer_Close : M closer (option error) := λ c,
  (Ret (cl_err c), mkCloser (S (cl_calls c)) (cl_err c)).

(** [ioduplex.Close()], on the writer and the reader. *)
Definition ioduplex_Close : M (closer * closer) (option error) :=
  err ← on_fst closer_Close;
  match err with
  | Some err => mret (Some err)
  | None =>
      err ← on_snd closer_Close;
      match err with
      | Some err => mret (Some err)
      | None => mret None
      end
  end.

(** [ListenIO(out, in)], [ListenStdio()]: the connection of the listener. *)
Definition ListenIO (out : writer) (in_ : reader) : result conn := Ok (out, in_).

Definition ListenStdio (Stdout : writer) (Stdin : reader) : result conn := ListenIO Stdout Stdin.

(** ** Dialers *)

Definition DialIO (out : writer) (in_ : reader) : result Sess := Ok (session_New (Some (out, in_))).

Definition DialStdio (Stdout : writer) (Stdin : reader) : result Sess := DialIO Stdout Stdin.

(** [dialNet(proto, addr)], [net_Dial] being [net.Dial]. *)
Definition dialNet (net_Dial : string → string → result conn) (proto addr : string)
    : result Sess :=
  match net_Dial proto addr with
  | Err err => Err err
  | Ok conn => Ok (session_New (Some conn))
  end.

Definition DialTCP (net_Dial : string → string → result conn) (addr : string) : result Sess :=
  dialNet net_Dial "tcp" addr.

Definition DialUnix (net_Dial : string → string → result conn) (path : string) : result Sess :=
  dialNet net_Dial "unix" path.

(** [DialWS(addr)], [ws_Dial url origin] being [websocket.Dial(url, "", origin)]. *)
Definition DialWS (ws_Dial : string → string → result conn) (addr : string) : result Sess :=
  match ws_Dial ("ws://" +:+ addr +:+ "/") ("http://" +:+ addr +:+ "/") with
  | Err err => Err err
  | Ok ws => Ok (session_New (Some ws))
  end.

(** ** listen_ws.go *)

(** The listener and the goroutines of its HTTP server, one per connection
    (numbered as they arrive): the handlers that wait to send their session on
    [accepted], those whose session was accepted and that wait for its end, and
    those that are over, their session closed. *)
Record wsListener := mkWs {
  ws_net : net_Listener;
  ws_accepted_closed : bool;
  ws_waiting : list nat;
  ws_serving : list nat;
  ws_over : list nat;
}.

(** The handler of connection [c], up to [wsl.accepted <- sess]: it waits, or
    panics on a closed channel, and its deferred [sess.Close()] runs. *)
Definition ws_handler (c : nat) : M wsListener unit := λ l,
  if ws_accepted_closed l then
    (Panic "send on closed channel",
     mkWs (ws_net l) true (ws_waiting l) (ws_serving l) (ws_over l ++ [c]))
  else
    (Ret tt, mkWs (ws_net l) false (ws_waiting l ++ [c]) (ws_serving l) (ws_over l)).

(** [wsListener.Accept()]: the session that waits longest. *)
Definition wsListener_Accept : M wsListener (result nat) := λ l,
  match ws_waiting l with
  | c :: cs => (Ret (Ok c), mkWs (ws_net l) (ws_accepted_closed l) cs (ws_serving l ++ [c]) (ws_over l))
  | [] => if ws_accepted_closed l then (Ret (Err io_EOF), l) else (Block, l)
  end.

(** [wsListener.Close()]: the handlers that wait panic, and close their
    sessions. *)
Definition wsListener_Close : M wsListener (option error) := λ l,
  if ws_accepted_closed l then (Panic "close of closed channel", l)
  else
    let '(o, n) := net_Close (ws_net l) in
    (o, mkWs n true [] (ws_serving l) (ws_over l ++ ws_waiting l)).

(** [sess.Wait()] of connection [c] returns: the handler closes the session. *)
Definition ws_ended (c : nat) : M wsListener unit := λ l,
  (Ret tt, mkWs (ws_net l) (ws_accepted_closed l) (ws_waiting l)
     (filter (λ c', c' ≠ c) (ws_serving l)) (ws_over l ++ filter (λ c', c' = c) (ws_serving l))).

(** [ListenWS(addr)]: the server of package http accepts the connections, and runs
    the handler for each. *)
Definition ListenWS (net_Listen : string → string → result net_Listener) (addr : string)
    : result wsListener :=
  match net_Listen "tcp" addr with
  | Err err => Err err
  | Ok l => Ok (mkWs l false [] [] [])
  end.

(** What can happen to the listener. *)
Inductive ws_event :=
| WsConnect (c : nat)
| WsAccept
| WsEnded (c : nat)
| WsClose.

(** An event, and the session it gave to a caller of [Accept]. *)
Definition ws_step (e : ws_event) (l : wsListener) : option nat * wsListener :=
  match e with
  | WsConnect c => (None, (ws_handler c l).2)
  | WsAccept => match wsListener_Accept l with
                | (Ret (Ok c), l) => (Some c, l)
                | (_, l) => (None, l)
                end
  | WsEnded c => (None, (ws_ended c l).2)
  | WsClose => (None, (wsListener_Close l).2)
  end.

Fixpoint ws_run (es : list ws_event) (l : wsListener) : list nat * wsListener :=
  match es with
  | [] => ([], l)
  | e :: es =>
      let '(a, l) := ws_step e l in
      let '(acc, l) := ws_run es l in
      (option_list a ++ acc, l)
  end.

(** ** Package talk *)

Definition Dialer : Type := string → result Sess.

(** [Dialers], as [init] leaves it. *)
Definition Dialers (net_Dial ws_Dial : string → string → result conn)
    (Stdout : writer) (Stdin : reader) : gmap string Dialer :=
  {[ "tcp" := DialTCP net_Dial; "unix" := DialUnix net_Dial; "ws" := DialWS ws_Dial;
     "stdio" := λ _, DialStdio Stdout Stdin ]}%string.

Section peer.
Context {F C : Type}.

(** [type Client struct] and [type Peer struct]: [p_RespondMux] is a pointer. *)
Record Client := mkClient {
  cl_Session : Sess;
  cl_codec : C;
}.

Record Peer := mkPeer {
  p_Session : Sess;
  p_Client : Client;
  p_RespondMux : nat;
  p_Codec : C;
}.

Definition NewClient (session : Sess) (codec : C) : Client := mkClient session codec.

(** [NewPeer(session, codec)], its mux at a new address. *)
Definition NewPeer (session : Sess) (codec : C) : M (gmap nat (RespondMux F)) Peer := λ ms,
  let p := fresh (dom ms) in
  (Ret (mkPeer session (NewClient session codec) p codec), <[p := NewRespondMux]> ms).

(** The session [Peer.Close()] closes, and the handler, codec and session
    [Peer.Respond()] responds with. *)
Definition Peer_Close (p : Peer) : Sess := cl_Session (p_Client p).

Definition Peer_Respond (p : Peer) : Handler F * C * Sess :=
  (SubMux (p_RespondMux p), p_Codec p, p_Session p).

(** [talk.Dial(transport, addr, codec)]. *)
Definition Dial (dialers : gmap string Dialer) (transport addr : string) (codec : C)
    : M (gmap nat (RespondMux F)) (result Peer) :=
  match dialers !! transport with
  | None => mret (Err (errorString ("transport '" +:+ transport +:+ "' not in available in Dialers")))
  | Some d =>
      match d addr with
      | Err err => mret (Err err)
      | Ok sess => p ← NewPeer sess codec; mret (Ok p)
      end
  end.
End peer.

Arguments Peer : clear implicits.
Arguments Client : clear implicits.
