(* ===== verification/ListenersSpec.v ===== *)
(** * mux and talk: what listeners, dialers and peers do *)
From S2P Require Import Prelude GoRuntime MuxState Session RespondMux Rpc.
From S2P Require Import Listeners.

(** ** Serving a listener *)

(** [Serve] responds to every connection that arrived, in order, then waits;
    on a closed listener it returns the error of [Accept]. *)
Theorem ServeMux_net addr cs ss n :
  Server_Serve (length cs + S n) (mkListener addr cs false, ss)
  = (Block, (mkListener addr [] false, ss ++ (session_New ∘ Some <$> cs))) ∧
  Server_Serve (S n) (mkListener addr cs true, ss)
  = (Ret (OpError "accept" net_ErrClosed), (mkListener addr cs true, ss)).
Proof.
  unfold Server_Serve. split; [|done]. revert ss. induction cs as [|c cs IH]; intros ss.
  - by rewrite app_nil_r.
  - cbn [length Nat.add Server_ServeMux]. erewrite bind_ret by reflexivity. cbv iota beta.
    erewrite bind_ret by reflexivity. cbn [fst snd]. rewrite IH. cbn. by rewrite <- app_assoc.
Qed.

(** A listener over one connection never makes [ServeMux] wait: it goes on for
    ever, starting one session after the other over the same connection. *)
Theorem ServeMux_io_never_waits rwc ss n :
  Server_ServeMux n ioListener_Accept (rwc, ss)
  = (NoFuel, (rwc, ss ++ replicate n (session_New (Some rwc)))).
Proof.
  revert ss. induction n as [|n IH]; intros ss; [by rewrite app_nil_r|].
  cbn [Server_ServeMux]. erewrite bind_ret by reflexivity. cbv iota beta.
  erewrite bind_ret by reflexivity. cbn [fst snd]. rewrite IH. cbn. by rewrite <- app_assoc.
Qed.

(** [ioduplex.Close] closes both streams, unless closing the writer fails: then
    the reader stays open. *)
Theorem ioduplex_Close_exact w r :
  ioduplex_Close (w, r)
  = (Ret (match cl_err w with Some e => Some e | None => cl_err r end),
     (mkCloser (S (cl_calls w)) (cl_err w),
      match cl_err w with Some _ => r | None => mkCloser (S (cl_calls r)) (cl_err r) end)).
Proof. by destruct w as [nw [e|]], r as [nr [e'|]]. Qed.

(** ** The WebSocket listener *)

(** The connections of some events, as they arrive. *)
Definition arrivals (es : list ws_event) : list nat :=
  es ≫= λ e, match e with WsConnect c => [c] | _ => [] end.

(** The connections the listener knows. *)
Definition ws_known (l : wsListener) : list nat := ws_waiting l ++ ws_serving l ++ ws_over l.

(** Nobody waits on a closed channel. *)
Definition ws_ok (l : wsListener) : Prop := ws_accepted_closed l = true → ws_waiting l = [].

Lemma ws_step_ok e l : ws_ok l → ws_ok (ws_step e l).2.
Proof.
  destruct l as [n [|] w s o]; intros Hok; unfold ws_ok in *; cbn in *.
  - rewrite (Hok eq_refl). by destruct e; cbn.
  - destruct e; cbn; try done.
    + by destruct w.
    + unfold wsListener_Close. cbn. by destruct (net_Close n).
Qed.

Lemma filter_split (c : nat) (l : list nat) :
  filter (λ c', c' ≠ c) l ++ filter (λ c', c' = c) l ≡ₚ l.
Proof.
  induction l as [|a l IH]; [done|]. rewrite !filter_cons.
  destruct (decide (a = c)) as [->|Hn].
  - rewrite decide_False by (by intros []). rewrite <- Permutation_middle. by rewrite IH.
  - rewrite decide_True by done. cbn. by rewrite IH.
Qed.

Lemma ws_step_known e l : ws_known (ws_step e l).2 ≡ₚ ws_known l ++ arrivals [e].
Proof.
  destruct l as [n cl w s o]. unfold ws_known, arrivals.
  destruct e as [c| |c|]; cbn [mbind list_bind app]; rewrite ?app_nil_r.
  - cbn. unfold ws_handler. destruct cl; cbn; rewrite <- !app_assoc; [done|].
    f_equiv. cbn. by rewrite Permutation_cons_append, <- app_assoc.
  - cbn. unfold wsListener_Accept. cbn. destruct w as [|c w]; [by destruct cl|]. cbn.
    rewrite <- app_assoc. cbn. by rewrite (app_assoc w s), <- Permutation_middle, <- app_assoc.
  - cbn. f_equiv. rewrite (Permutation_app_comm o), app_assoc.
    by rewrite filter_split.
  - cbn. unfold wsListener_Close. cbn. destruct cl; [done|]. destruct (net_Close n). cbn.
    rewrite app_assoc. by rewrite Permutation_app_comm.
Qed.

Lemma ws_step_order e l :
  option_list (ws_step e l).1 ++ ws_waiting (ws_step e l).2 `sublist_of` ws_waiting l ++ arrivals [e].
Proof.
  destruct l as [n cl w s o]. unfold arrivals.
  destruct e as [c| |c|]; cbn [mbind list_bind app]; rewrite ?app_nil_r; cbn.
  - unfold ws_handler. destruct cl; cbn; [by apply sublist_inserts_r|done].
  - unfold wsListener_Accept. cbn. destruct w as [|c w]; [by destruct cl|done].
  - done.
  - unfold wsListener_Close. cbn. destruct cl; [done|]. destruct (net_Close n). cbn. apply sublist_nil_l.
Qed.

Lemma ws_run_spec es l :
  ws_ok l →
  (ws_run es l).1 ++ ws_waiting (ws_run es l).2 `sublist_of` ws_waiting l ++ arrivals es ∧
  ws_known (ws_run es l).2 ≡ₚ ws_known l ++ arrivals es ∧ ws_ok (ws_run es l).2.
Proof.
  revert l. induction es as [|e es IH]; intros l Hok.
  - unfold arrivals. cbn. by rewrite !app_nil_r.
  - pose proof (ws_step_ok e l Hok) as Hok'. pose proof (ws_step_known e l) as Hk.
    pose proof (ws_step_order e l) as Ho.
    assert (arrivals (e :: es) = arrivals [e] ++ arrivals es) as ->
      by (unfold arrivals; cbn [mbind list_bind]; by rewrite app_nil_r).
    cbn [ws_run]. destruct (ws_step e l) as [a l']. cbn [fst snd] in *.
    destruct (IH l' Hok') as (H1 & H2 & H3). destruct (ws_run es l') as [acc l'']. cbn [fst snd] in *.
    split_and!; [|by rewrite H2, Hk, app_assoc|done].
    rewrite <- app_assoc, (app_assoc (ws_waiting l)). etrans.
    { apply sublist_app; [reflexivity|exact H1]. }
    rewrite app_assoc. by apply sublist_app.
Qed.

(** A WebSocket listener hands out every session at most once, in the order
    the connections arrived: over any run of connections, accepts, ends and
    closes, what [Accept] returned, with the handlers still waiting behind it, is
    in the order of arrival; every connection is either waiting, or served, or
    over with its session closed; and once the listener is closed no handler
    waits for an [Accept] that will not come. *)
Theorem ws_sessions_once addr es :
  let r := ws_run es (mkWs (mkListener addr [] false) false [] [] []) in
  r.1 ++ ws_waiting r.2 `sublist_of` arrivals es ∧
  ws_waiting r.2 ++ ws_serving r.2 ++ ws_over r.2 ≡ₚ arrivals es ∧
  (ws_accepted_closed r.2 = true → ws_waiting r.2 = []).
Proof. by apply (ws_run_spec es (mkWs (mkListener addr [] false) false [] [] [])). Qed.

(** Closing the listener makes the handlers that wait for an [Accept] panic on
    the closed channel, and closing it twice panics itself. *)
Theorem ws_Close_panics l c :
  ws_accepted_closed l = true →
  (ws_handler c l).1 = Panic "send on closed channel" ∧
  (wsListener_Close l).1 = Panic "close of closed channel".
Proof. intros Hc. unfold ws_handler, wsListener_Close. by rewrite Hc. Qed.

Lemma ws_Close_panics_witness :
  let l := (wsListener_Close (mkWs (mkListener "a" [] false) false [1%nat] [] [])).2 in
  (ws_handler 2 l).1 = Panic "send on closed channel" ∧
  (wsListener_Close l).1 = Panic "close of closed channel".
Proof. by apply ws_Close_panics. Defined.

(** ** Package talk *)

(** [Dial] of a transport that has no dialer is an error that names it and has
    no effect; else it is the dialer's error, or a peer on the dialed session,
    with the given codec in its client too and an empty mux of its own. *)
Theorem Dial_exact {F C} (dialers : gmap string Dialer) transport addr (codec : C)
    (ms : gmap nat (RespondMux F)) :
  match dialers !! transport with
  | None => Dial dialers transport addr codec ms
      = (Ret (Err (errorString ("transport '" +:+ transport +:+ "' not in available in Dialers"))), ms)
  | Some d =>
      match d addr with
      | Err e => Dial dialers transport addr codec ms = (Ret (Err e), ms)
      | Ok sess => ∃ p, ms !! p = None ∧
          Dial dialers transport addr codec ms
          = (Ret (Ok (mkPeer sess (mkClient sess codec) p codec)), <[p := NewRespondMux]> ms)
      end
  end.
Proof.
  unfold Dial. destruct (dialers !! transport) as [d|]; [|done].
  destruct (d addr) as [sess|e]; [|done]. exists (fresh (dom ms)).
  split; [|done]. apply not_elem_of_dom, is_fresh.
Qed.
