(* ===== verification/Quic.v ===== *)
(** * x/quic: sessions over a QUIC connection

    quic.go. The package quic-go is third-party code: class [QuicConn] has the
    operations the adapter calls, and [QuicLaws] what it relies on. Both ends of
    a connection share its state [Q]; [side] says which end calls. *)
From S2P Require Import Prelude GoRuntime RespondMux Rpc RpcCancel.

Local Open Scope string_scope.
Local Open Scope Z_scope.

(** [strings.Contains(s, substr)]. *)
Fixpoint Contains (s substr : string) : bool :=
  HasPrefix s substr ||
  match s with
  | EmptyString => false
  | String _ s => Contains s substr
  end.

Class QuicConn (Q Stream : Type) := {
  AcceptStream : bool → M Q (result Stream);
  OpenStreamSync : bool → M Q (result Stream);
  StreamID : Stream → Z;
  stream_Read : bool → Stream → nat → M Q (list byte * option error);
  stream_Write : bool → Stream → list byte → M Q (nat * option error);
  stream_Close : bool → Stream → M Q (option error);
  stream_CancelRead : bool → Stream → Z → M Q unit;
  CloseWithError : bool → Z → string → M Q (option error);
  (** [Context().Err()], once [Done()] is closed. *)
  conn_Err : bool → Q → option error;
}.

Section quic.
Context {Q Stream : Type} `{QuicConn Q Stream}.

(** [type session struct] is the connection, [type channel struct] a stream. *)

Definition quic_session_Close (side : bool) : M Q (option error) :=
  CloseWithError side 42 "close connection".

Definition quic_session_Accept (side : bool) : M Q (result Stream) :=
  stream ← AcceptStream side;
  match stream with
  | Err err =>
      if Contains (Error_text err) "close connection" then mret (Err io_EOF) else mret (Err err)
  | Ok stream =>
      r ← stream_Read side stream 1;
      match r.2 with
      | Some err => mret (Err err)
      | None => mret (Ok stream)
      end
  end.

Definition quic_session_Open (side : bool) : M Q (result Stream) :=
  stream ← OpenStreamSync side;
  match stream with
  | Err err => mret (Err err)
  | Ok stream =>
      r ← stream_Write side stream [x21];
      match r.2 with
      | Some err => mret (Err err)
      | None => mret (Ok stream)
      end
  end.

Definition quic_session_Wait (side : bool) : M Q error := λ q,
  match conn_Err side q with Some e => (Ret e, q) | None => (Block, q) end.

Definition quic_channel_ID (c : Stream) : Z := u32 (StreamID c).

Definition quic_channel_Read (side : bool) (c : Stream) (n : nat) : M Q (list byte * option error) :=
  stream_Read side c n.

Definition quic_channel_Write (side : bool) (c : Stream) (p : list byte) : M Q (nat * option error) :=
  stream_Write side c p.

Definition quic_channel_CloseWrite (side : bool) (c : Stream) : M Q (option error) :=
  stream_Close side c.

Definition quic_channel_Close (side : bool) (c : Stream) : M Q (option error) :=
  _ ← stream_CancelRead side c 42; quic_channel_CloseWrite side c.

(** ** What a connection does *)

(** [st_data side s q]: what was written to stream [s] for [side] and not read
    yet; [st_known side s q]: whether [side] has heard of [s]; [st_new side q]: the
    streams it heard of and did not accept. A stream reaches the peer with the
    first bytes written to it. *)
Class QuicLaws := {
  st_data : bool → Stream → Q → list byte;
  st_known : bool → Stream → Q → bool;
  st_new : bool → Q → list Stream;
  law_open side q s q' : OpenStreamSync side q = (Ret (Ok s), q') →
    st_data (negb side) s q' = [] ∧ st_known (negb side) s q' = false ∧
    st_new (negb side) q' = st_new (negb side) q;
  law_write side s p q n q' : stream_Write side s p q = (Ret (n, None), q') → p ≠ [] →
    st_data (negb side) s q' = (st_data (negb side) s q ++ p)%list ∧
    st_known (negb side) s q' = true ∧
    st_new (negb side) q' = (st_new (negb side) q ++
      (if st_known (negb side) s q then [] else [s]))%list;
  law_accept side q s ss : st_new side q = s :: ss → ∃ q', AcceptStream side q = (Ret (Ok s), q') ∧
    st_new side q' = ss ∧ ∀ t, st_data side t q' = st_data side t q;
  law_read side s n q b d : st_data side s q = b :: d → (0 < n)%nat →
    ∃ k q', stream_Read side s n q = (Ret (take k (b :: d), None), q') ∧
      (0 < k ≤ n)%nat ∧ st_data side s q' = drop k (b :: d) ∧ st_new side q' = st_new side q;
}.
End quic.

Arguments QuicLaws _ _ {_}.

(** ** A connection *)

(** Two ends in one memory: what was written for each end of each stream, and the
    streams to accept. *)
Record loopback := mkLoop {
  lo_next : nat;
  lo_data : gmap (bool * nat) (list byte);
  lo_new : bool → list nat;
}.

Definition set_new (side : bool) (ss : list nat) (f : bool → list nat) : bool → list nat := λ b,
  if decide (b = side) then ss else f b.

#[global] Instance loopback_conn : QuicConn loopback nat := {|
  AcceptStream side q :=
    match lo_new q side with
    | s :: ss => (Ret (Ok s), mkLoop (lo_next q) (lo_data q) (set_new side ss (lo_new q)))
    | [] => (Block, q)
    end;
  OpenStreamSync side q :=
    (Ret (Ok (lo_next q)), mkLoop (S (lo_next q))
       (delete (negb side, lo_next q) (lo_data q)) (lo_new q));
  StreamID s := Z.of_nat s;
  stream_Read side s n q :=
    match default [] (lo_data q !! (side, s)) with
    | [] => (Block, q)
    | d => (Ret (take n d, None), mkLoop (lo_next q) (<[(side, s) := drop n d]> (lo_data q)) (lo_new q))
    end;
  stream_Write side s p q :=
    (Ret (length p, None),
     match lo_data q !! (negb side, s) with
     | Some d => mkLoop (lo_next q) (<[(negb side, s) := (d ++ p)%list]> (lo_data q)) (lo_new q)
     | None => mkLoop (lo_next q) (<[(negb side, s) := p]> (lo_data q))
                 (set_new (negb side) (lo_new q (negb side) ++ [s]) (lo_new q))
     end);
  stream_Close _ _ q := (Ret None, q);
  stream_CancelRead _ _ _ q := (Ret tt, q);
  CloseWithError _ _ _ q := (Ret None, q);
  conn_Err _ _ := None;
|}.

#[global] Instance loopback_laws : QuicLaws loopback nat.
Proof.
  refine {|
    st_data side s q := default [] (lo_data q !! (side, s));
    st_known side s q := bool_decide (is_Some (lo_data q !! (side, s)));
    st_new side q := lo_new q side;
  |}.
  - cbn. intros side q s q' [= <- <-]. cbn. by rewrite lookup_delete_eq.
  - cbn. intros side s p q n q' [= <- <-] Hp.
    destruct (lo_data q !! (negb side, s)) as [d|] eqn:Hd; cbn; rewrite lookup_insert_eq.
    + by rewrite app_nil_r.
    + unfold set_new. by rewrite decide_True.
  - cbn. intros side q s ss Hn. rewrite Hn. eexists. split; [done|]. cbn. unfold set_new.
    by rewrite decide_True.
  - cbn. intros side s n q b d Hd Hn. rewrite Hd. set (l := b :: d).
    assert (take (Nat.min n (length l)) l = take n l ∧ drop (Nat.min n (length l)) l = drop n l)
      as [Ht Hdr].
    { destruct (Nat.le_ge_cases n (length l)); [by rewrite Nat.min_l|].
      rewrite Nat.min_r, !take_ge, !drop_ge by lia. done. }
    exists (Nat.min n (length l)). rewrite Ht, Hdr. eexists. split; [done|].
    cbn [lo_data lo_new]. rewrite lookup_insert_eq. split; [subst l; cbn [length]; lia|done].
Defined.

(** ** Properties *)

Section handshake.
Context {Q Stream : Type} `{QuicLaws Q Stream}.

(** Opening a QUIC channel: the opener announces the stream with one byte,
    the peer's [Accept] consumes exactly that byte and returns a channel on the
    same stream, and all that the opener wrote before the accept, and nothing
    else, is there to be read on it. *)
Theorem quic_handshake side q s q1 p n q2 :
  st_new (negb side) q = [] →
  quic_session_Open side q = (Ret (Ok s), q1) → p ≠ [] →
  quic_channel_Write side s p q1 = (Ret (n, None), q2) →
  ∃ q3, quic_session_Accept (negb side) q2 = (Ret (Ok s), q3) ∧
    st_data (negb side) s q3 = p ∧ st_new (negb side) q3 = [].
Proof.
  intros Hnew Hopen Hp Hwrite. unfold quic_session_Open in Hopen.
  unfold mbind at 1, M_bind at 1 in Hopen.
  destruct (OpenStreamSync side q) as [[[t|e]| | |] q0] eqn:Ho; simplify_eq/=.
  unfold mbind, M_bind in Hopen.
  destruct (stream_Write side t [x21] q0) as [[[m [e|]]| | |] q0'] eqn:Hw; try done.
  cbn in Hopen. injection Hopen as -> ->.
  destruct (law_open _ _ _ _ Ho) as (Hd0 & Hk0 & Hn0).
  destruct (law_write _ _ _ _ _ _ Hw ltac:(done)) as (Hd1 & Hk1 & Hn1).
  destruct (law_write _ _ _ _ _ _ Hwrite Hp) as (Hd2 & Hk2 & Hn2).
  rewrite Hd0 in Hd1. rewrite Hk0, Hn0, Hnew in Hn1. rewrite Hd1 in Hd2. rewrite Hk1, Hn1 in Hn2.
  destruct (law_accept _ _ _ _ Hn2) as (q3 & Ha & Hn3 & Hd3).
  destruct (law_read (negb side) s 1 q3 x21 p) as (k & q4 & Hr & Hk & Hd4 & Hn4);
    [by rewrite Hd3, Hd2|lia|]. assert (k = 1%nat) as -> by lia.
  exists q4. split_and!; [|done|by rewrite Hn4]. unfold quic_session_Accept.
  erewrite bind_ret by exact Ha. cbv iota. by erewrite bind_ret by exact Hr.
Qed.
End handshake.

Lemma quic_handshake_witness :
  ∃ q3, quic_session_Accept false
      (quic_channel_Write true 0%nat [x07; x08]
         (quic_session_Open true (mkLoop 0 ∅ (λ _, []))).2).2 = (Ret (Ok 0%nat), q3) ∧
    st_data false 0%nat q3 = [x07; x08].
Proof.
  edestruct (quic_handshake (Q := loopback) (Stream := nat) true (mkLoop 0 ∅ (λ _, [])) 0%nat)
    with (p := [x07; x08]) as (q3 & H1 & H2 & _); [done|done|done|done|].
  exists q3. by split; [exact H1|exact H2].
Defined.

(** C36. A peer can bring a server down over QUIC: a stream that fails before
    its first byte arrived (its sender may cancel it) is an error of [Accept], and
    [Server.Respond] panics with it, after however many calls; a stream that ends
    before its first byte looks like the end of the session, which is then
    closed. *)
Theorem quic_stream_ends_server {Q Stream} `{QuicConn Q Stream} side q s q1 p e q2 chs rest :
  AcceptStream side q = (Ret (Ok s), q1) → stream_Read side s 1 q1 = (Ret (p, Some e), q2) →
  quic_session_Accept side q = (Ret (Err e), q2) ∧
  Server_Respond false ((Ok <$> chs) ++ Err e :: rest)
  = (if decide (e = io_EOF) then Ret tt else Panic (Error_text e), chs, true).
Proof.
  intros Ha Hr. split.
  - unfold quic_session_Accept. erewrite bind_ret by exact Ha. cbv iota. by erewrite bind_ret by exact Hr.
  - unfold Server_Respond. rewrite (Server_Respond_loop_eq chs [] e rest). by case_decide.
Qed.

(** A connection whose peer cancels every stream it opens. *)
Definition cancelling_conn : QuicConn unit unit := {|
  AcceptStream _ q := (Ret (Ok tt), q);
  OpenStreamSync _ q := (Ret (Ok tt), q);
  StreamID _ := 0;
  stream_Read _ _ _ q := (Ret ([], Some (errorString "stream 0 canceled with error code 1")), q);
  stream_Write _ _ p q := (Ret (length p, None), q);
  stream_Close _ _ q := (Ret None, q);
  stream_CancelRead _ _ _ q := (Ret tt, q);
  CloseWithError _ _ _ q := (Ret None, q);
  conn_Err _ _ := None;
|}.

Lemma quic_stream_ends_server_witness :
  Server_Respond false [Ok (mkEnd (mkReader [] io_EOF) (mkWriter [] []) 0);
                        Err (errorString "stream 0 canceled with error code 1")]
  = (Panic "stream 0 canceled with error code 1",
     [mkEnd (mkReader [] io_EOF) (mkWriter [] []) 0], true).
Proof.
  exact (proj2 (@quic_stream_ends_server unit unit cancelling_conn true tt tt tt []
    (errorString "stream 0 canceled with error code 1") tt
    [mkEnd (mkReader [] io_EOF) (mkWriter [] []) 0] [] eq_refl eq_refl)).
Defined.
