(* ===== verification/WebRTC.v ===== *)
(** * x/webrtc: sessions over a WebRTC peer connection

    webrtc.go. The packages pion/webrtc and pion/datachannel are third-party
    code: class [DataChannel] has the operations of a detached data channel,
    [PeerConnection] those of a peer connection. Callbacks of the peer connection
    are the events of the session. *)
From S2P Require Import Prelude GoRuntime.

Local Open Scope string_scope.
Local Open Scope Z_scope.

(** ** Channels *)

(** A detached data channel: it carries messages, each text or binary. *)
Class DataChannel (W : Type) := {
  ReadDataChannel : nat → M W (list byte * bool * option error);
  WriteDataChannel : list byte → bool → M W (nat * option error);
  rwc_Write : list byte → M W (nat * option error);
  rwc_Close : M W (option error);
}.

(** [type channel struct]. *)
Record rtc_channel (W : Type) := mkRtc {
  rc_id : Z;
  rc_rwc : W;
  rc_gotEOF : bool;
  rc_closedWrite : bool;
}.
Arguments mkRtc {_} _ _ _ _.
Arguments rc_id {_} _.
Arguments rc_rwc {_} _.
Arguments rc_gotEOF {_} _.
Arguments rc_closedWrite {_} _.

(** The bytes of ["EOF"]. *)
Definition EOF_text : list byte := [x45; x4f; x46].

Section channel.
Context {W : Type} `{DataChannel W}.

Definition on_rwc {A} (m : M W A) : M (rtc_channel W) A := λ c,
  let '(o, w) := m (rc_rwc c) in (o, mkRtc (rc_id c) w (rc_gotEOF c) (rc_closedWrite c)).

(** [newChannel(ch)], by what [ch.Detach()] gave. *)
Definition newChannel (id : Z) (detached : result W) : result (rtc_channel W) :=
  match detached with
  | Err err => Err err
  | Ok rwc => Ok (mkRtc (id `mod` 2 ^ 32) rwc false false)
  end.

Definition rtc_channel_ID (c : rtc_channel W) : Z := rc_id c.

(** [Read(p)]: the bytes read, and the error. *)
Definition rtc_channel_Read (n : nat) : M (rtc_channel W) (list byte * option error) :=
  c ← get_st;
  if rc_gotEOF c then mret ([], Some io_EOF)
  else
    r ← on_rwc (ReadDataChannel n);
    let '(p, isString, err) := r in
    match err with
    | Some err => mret (p, Some err)
    | None => if isString && bool_decide (p = EOF_text) then mret ([], Some io_EOF) else mret (p, None)
    end.

Definition rtc_channel_Write (p : list byte) : M (rtc_channel W) (nat * option error) :=
  c ← get_st;
  if rc_closedWrite c then mret (0%nat, Some io_ErrClosedPipe) else on_rwc (rwc_Write p).

Definition rtc_channel_Close : M (rtc_channel W) (option error) := on_rwc rwc_Close.

Definition rtc_channel_CloseWrite : M (rtc_channel W) (option error) :=
  r ← on_rwc (WriteDataChannel EOF_text true);
  match r.2 with
  | Some err => mret (Some err)
  | None => _ ← modify_st (λ c, mkRtc (rc_id c) (rc_rwc c) (rc_gotEOF c) true); mret None
  end.
End channel.

(** ** Sessions *)

(** A peer connection, as far as the adapter uses it; [D] is a data channel. *)
Class PeerConnection (P D : Type) := {
  NewPeerConnection : M P (option error);
  CreateDataChannel : string → M P (result D);
  CreateOffer : M P (option error);
  CreateAnswer : M P (option error);
  SetLocalDescription : M P (option error);
  SetRemoteDescription : M P (option error);
  peer_Close : M P (option error);
  dc_Close : D → M P (option error);
  Label : D → string;
}.

(** [type session struct]: [channels] has no buffer, so it is the callbacks that
    wait to send their channel. *)
Record rtc_session (P D : Type) := mkRtcSession {
  rs_peer : P;
  rs_channels : list D;
  rs_done : bool;
}.
Arguments mkRtcSession {_ _} _ _ _.
Arguments rs_peer {_ _} _.
Arguments rs_channels {_ _} _.
Arguments rs_done {_ _} _.

Section session.
Context {P D W : Type} `{PeerConnection P D}.

Definition on_peer {A} (m : M P A) : M (rtc_session P D) A := λ s,
  let '(o, p) := m (rs_peer s) in (o, mkRtcSession p (rs_channels s) (rs_done s)).

Definition rtc_New (peer : P) : rtc_session P D := mkRtcSession peer [] false.

(** The callback [rtc_New] registers: the peer opened the data channel [d]. *)
Definition on_data_channel (d : D) : M (rtc_session P D) unit :=
  if bool_decide (Label d = "qtalk") then
    modify_st (λ s, mkRtcSession (rs_peer s) (rs_channels s ++ [d])%list (rs_done s))
  else mret tt.

Definition rtc_session_Close : M (rtc_session P D) (option error) := on_peer peer_Close.

(** [Accept()], [new] being [newChannel]. *)
Definition rtc_session_Accept {C} (new : D → result C) : M (rtc_session P D) (result C) :=
  s ← get_st;
  match rs_channels s with
  | d :: ds =>
      _ ← put_st (mkRtcSession (rs_peer s) ds (rs_done s));
      mret (new d)
  | [] => if rs_done s then mret (Err (errorString "session closed")) else block_st
  end.

(** [Open(ctx)]: [opened] when the data channel opened before the context was
    done, with [ctx_err]. *)
Definition rtc_session_Open {C} (new : D → result C) (opened : option unit) (ctx_err : error)
    : M (rtc_session P D) (result C) :=
  d ← on_peer (CreateDataChannel "qtalk");
  match d with
  | Err err => mret (Err err)
  | Ok d =>
      match opened with
      | Some _ => mret (new d)
      | None => _ ← on_peer (dc_Close d); mret (Err ctx_err)
      end
  end.

Definition rtc_session_Wait : M (rtc_session P D) error := panic_st "not implemented".

(** ** Offers and answers *)

(** [Offer(cfg)] and [Answer(cfg, offer)], without what they return besides the
    error. *)
Definition Offer : M P (option error) :=
  err ← NewPeerConnection;
  match err with
  | Some err => mret (Some err)
  | None =>
      meta ← CreateDataChannel "qtalk-meta";
      match meta with
      | Err err => _ ← peer_Close; mret (Some err)
      | Ok _ =>
          err ← CreateOffer;
          match err with
          | Some err => _ ← peer_Close; mret (Some err)
          | None =>
              err ← SetLocalDescription;
              match err with
              | Some err => _ ← peer_Close; mret (Some err)
              | None => mret None
              end
          end
      end
  end.

Definition Answer : M P (option error) :=
  err ← NewPeerConnection;
  match err with
  | Some err => mret (Some err)
  | None =>
      err ← SetRemoteDescription;
      match err with
      | Some err => _ ← peer_Close; mret (Some err)
      | None =>
          err ← CreateAnswer;
          match err with
          | Some err => _ ← peer_Close; mret (Some err)
          | None =>
              err ← SetLocalDescription;
              match err with
              | Some err => _ ← peer_Close; mret (Some err)
              | None => mret None
              end
          end
      end
  end.
End session.

(** ** What a data channel does *)

(** [dc_in w], [dc_out w]: the messages still to be read and the messages sent;
    a message is text or not. *)
Class DataChannelLaws (W : Type) `{DataChannel W} := {
  dc_in : W → list (list byte * bool);
  dc_out : W → list (list byte * bool);
  law_ReadDataChannel n w m rest : dc_in w = m :: rest → (length m.1 ≤ n)%nat →
    ∃ w', ReadDataChannel n w = (Ret (m.1, m.2, None), w') ∧ dc_in w' = rest;
  law_wait n w : dc_in w = [] → ReadDataChannel n w = (Block, w);
  law_WriteDataChannel p text w k w' :
    WriteDataChannel p text w = (Ret (k, None), w') → dc_out w' = (dc_out w ++ [(p, text)])%list;
  law_rwc_Write p w k w' :
    rwc_Write p w = (Ret (k, None), w') → dc_out w' = (dc_out w ++ [(p, false)])%list;
}.

(** Messages in memory: what is to be read, what was sent. *)
Definition messages : Type := list (list byte * bool) * list (list byte * bool).

#[global] Instance messages_channel : DataChannel messages := {|
  ReadDataChannel n w :=
    match w.1 with
    | [] => (Block, w)
    | m :: rest => if decide (length m.1 ≤ n)%nat then (Ret (m.1, m.2, None), (rest, w.2))
                   else (Ret ([], false, Some (errorString "short buffer")), w)
    end;
  WriteDataChannel p text w := (Ret (length p, None), (w.1, w.2 ++ [(p, text)])%list);
  rwc_Write p w := (Ret (length p, None), (w.1, w.2 ++ [(p, false)])%list);
  rwc_Close w := (Ret None, w);
|}.

#[global] Instance messages_laws : DataChannelLaws messages.
Proof.
  refine {| dc_in := fst; dc_out := snd |}; cbn.
  - intros n [i o] m rest -> Hl. rewrite decide_True by done. by eexists.
  - by intros n [i o] ->.
  - by intros p text w k w' [= <- <-].
  - by intros p w k w' [= <- <-].
Defined.

(** ** Properties *)

Section streams.
Context {W : Type} `{DataChannelLaws W}.

(** Write in turn, stopping at the first error. *)
Fixpoint write_all (ps : list (list byte)) : M (rtc_channel W) (option error) :=
  match ps with
  | [] => mret None
  | p :: ps =>
      r ← rtc_channel_Write p;
      match r.2 with Some e => mret (Some e) | None => write_all ps end
  end.

Lemma rtc_channel_Write_eq p c k c' :
  rtc_channel_Write p c = (Ret (k, None), c') →
  dc_out (rc_rwc c') = (dc_out (rc_rwc c) ++ [(p, false)])%list ∧ rc_closedWrite c' = rc_closedWrite c.
Proof using All.
  unfold rtc_channel_Write. mred. destruct (rc_closedWrite c) eqn:Hc; [done|]. unfold on_rwc.
  destruct (rwc_Write p (rc_rwc c)) as [o w] eqn:Hw. intros [= -> <-]. cbn.
  split; [by eapply law_rwc_Write|done].
Qed.

Lemma write_all_eq ps c c' :
  write_all ps c = (Ret None, c') →
  dc_out (rc_rwc c') = (dc_out (rc_rwc c) ++ ((λ p, (p, false)) <$> ps))%list.
Proof using All.
  revert c. induction ps as [|p ps IH]; intros c; cbn [write_all].
  - intros [= <-]. by rewrite app_nil_r.
  - unfold mbind, M_bind. destruct (rtc_channel_Write p c) as [[[k [e|]]| | |] c1] eqn:Hw; try done.
    cbn [snd]. intros Hr%IH. apply rtc_channel_Write_eq in Hw as [Hw _]. rewrite Hr, Hw.
    cbn. by rewrite <- app_assoc.
Qed.

(** Read [k] times with buffers of [n] bytes. *)
Fixpoint read_times (k n : nat) : M (rtc_channel W) (list (list byte * option error)) :=
  match k with
  | O => mret []
  | S k => r ← rtc_channel_Read n; rs ← read_times k n; mret (r :: rs)
  end.

Lemma read_times_eq ps n c rest :
  Forall (λ p, length p ≤ n)%nat ps → rc_gotEOF c = false →
  dc_in (rc_rwc c) = (((λ p, (p, false)) <$> ps) ++ rest)%list →
  ∃ c', read_times (length ps) n c = (Ret ((λ p, (p, None)) <$> ps), c') ∧
    rc_gotEOF c' = false ∧ dc_in (rc_rwc c') = rest.
Proof using All.
  intros Hps. revert c. induction Hps as [|p ps Hp Hps IH]; intros c Hc Hin; [by exists c|].
  destruct (law_ReadDataChannel n _ _ _ Hin Hp) as (w' & Hr & Hin').
  destruct (IH (mkRtc (rc_id c) w' (rc_gotEOF c) (rc_closedWrite c)) Hc Hin')
    as (c' & Hrs & Hc' & Hin''). exists c'. split; [|done].
  cbn [length read_times]. erewrite bind_ret.
  2: { unfold rtc_channel_Read. mred. rewrite Hc. unfold on_rwc. rewrite Hr. reflexivity. }
  by erewrite bind_ret by exact Hrs.
Qed.

(** A WebRTC channel carries the writes unchanged and then the end: what
    is written before [CloseWrite], even the bytes "EOF", is read by the peer
    write by write, if its buffer can hold them; then [Read] is [io.EOF]; the
    writer itself can write no more. But the end is told only once: since
    [Read] never sets [gotEOF], the next [Read] waits for ever. *)
Theorem webrtc_stream ps c1 c1' c2 n :
  rc_closedWrite c1 = false → dc_out (rc_rwc c1) = [] →
  (err ← write_all ps; match err with Some e => mret (Some e) | None => rtc_channel_CloseWrite end) c1
    = (Ret None, c1') →
  rc_gotEOF c2 = false → dc_in (rc_rwc c2) = dc_out (rc_rwc c1') →
  Forall (λ p, length p ≤ n)%nat ps → (3 ≤ n)%nat →
  ∃ c2' c2'', read_times (length ps) n c2 = (Ret ((λ p, (p, None)) <$> ps), c2') ∧
    rtc_channel_Read n c2' = (Ret ([], Some io_EOF), c2'') ∧
    (rtc_channel_Read n c2'').1 = Block ∧
    ∀ p, rtc_channel_Write p c1' = (Ret (0%nat, Some io_ErrClosedPipe), c1').
Proof using All.
  intros Hcl Hout Hrun Hgot Hin Hps Hn. unfold mbind at 1, M_bind at 1 in Hrun.
  destruct (write_all ps c1) as [[[e|]| | |] c] eqn:Hw; try done.
  apply write_all_eq in Hw. rewrite Hout in Hw. cbn [app] in Hw.
  unfold rtc_channel_CloseWrite, on_rwc, mbind, M_bind in Hrun.
  destruct (WriteDataChannel EOF_text true (rc_rwc c)) as [[[k [e|]]| | |] w] eqn:Hd; try done.
  cbn in Hrun. injection Hrun as <-.
  apply law_WriteDataChannel in Hd. cbn [rc_rwc] in Hin. rewrite Hd, Hw in Hin.
  destruct (read_times_eq ps n c2 [(EOF_text, true)] Hps Hgot Hin) as (c2' & Hr & Hg & Hin').
  destruct (law_ReadDataChannel n _ _ _ Hin' Hn) as (w' & Hr' & Hin'').
  exists c2'. eexists. split; [exact Hr|]. split; [|split].
  - unfold rtc_channel_Read. mred. rewrite Hg. unfold on_rwc. rewrite Hr'. reflexivity.
  - unfold rtc_channel_Read. mred. cbn [rc_gotEOF]. rewrite Hg. unfold on_rwc. cbn [rc_rwc].
    by rewrite (law_wait n w' Hin'').
  - intros p. done.
Qed.
End streams.

Lemma webrtc_stream_witness :
  ∃ c' c'', read_times 2 9 (mkRtc 1 (([(EOF_text, false); ([], false); (EOF_text, true)], []) : messages)
      false false) = (Ret [(EOF_text, None); ([], None)], c') ∧
    rtc_channel_Read 9 c' = (Ret ([], Some io_EOF), c'') ∧ (rtc_channel_Read 9 c'').1 = Block.
Proof.
  edestruct (webrtc_stream (W := messages) [EOF_text; []] (mkRtc 1 ([], []) false false))
    with (n := 9%nat) as (c' & c'' & H1 & H2 & H3 & _);
    [done|done|reflexivity| | | | |exists c', c''; exact (conj H1 (conj H2 H3))].
  - done.
  - done.
  - repeat constructor; by apply Nat.leb_le.
  - by apply Nat.leb_le.
Defined.

(** The things that can happen to a session. *)
Inductive session_op (D : Type) :=
| OpDataChannel (d : D)
| OpClose
| OpAccept
| OpOpen (opened : option unit) (ctx_err : error).
Arguments OpDataChannel {_} _.
Arguments OpClose {_}.
Arguments OpAccept {_}.
Arguments OpOpen {_} _ _.

Section sessions.
Context {P D C : Type} `{PeerConnection P D} (new : D → result C).

Definition rtc_run_op (s : rtc_session P D) (o : session_op D) : rtc_session P D :=
  match o with
  | OpDataChannel d => (on_data_channel d s).2
  | OpClose => (rtc_session_Close s).2
  | OpAccept => (rtc_session_Accept new s).2
  | OpOpen opened err => (rtc_session_Open new opened err s).2
  end.

Lemma rtc_run_op_done s o : rs_done (rtc_run_op s o) = rs_done s.
Proof using.
  assert (∀ A (m : M P A) (s' : rtc_session P D), rs_done (on_peer m s').2 = rs_done s') as Hp.
  { intros A m s'. unfold on_peer. by destruct (m (rs_peer s')). }
  destruct o as [d| | |opened err]; cbn.
  - unfold on_data_channel. by case_bool_decide.
  - apply Hp.
  - unfold rtc_session_Accept. mred. destruct (rs_channels s) eqn:Hc; [|done].
    by destruct (rs_done s) eqn:Hd.
  - unfold rtc_session_Open, mbind, M_bind.
    pose proof (Hp _ (CreateDataChannel "qtalk") s) as H1.
    destruct (on_peer _ s) as [[[d|e]| | |] s1]; try exact H1.
    destruct opened; [exact H1|]. pose proof (Hp _ (dc_Close d) s1) as H2.
    destruct (on_peer (dc_Close d) s1) as [[x| | |] s2]; cbn in *; congruence.
Qed.

(** [Accept] of a closed session waits for ever: nothing closes [done], so
    whatever happened to the session, [Close] included, [Accept] gives a channel
    the peer opened or waits, and never says that the session is over. *)
Theorem webrtc_Accept_never_ends peer os :
  let s := foldl rtc_run_op (rtc_New peer) os in
  (rtc_session_Accept new s).1 =
    match rs_channels s with d :: _ => Ret (new d) | [] => Block end.
Proof using.
  intros s. assert (rs_done s = false) as Hd.
  { subst s. assert (rs_done (rtc_New (D := D) peer) = false) as Hn by done. revert Hn.
    generalize (rtc_New (D := D) peer). induction os as [|o os IH]; intros s Hs; [done|].
    apply IH. by rewrite rtc_run_op_done. }
  unfold rtc_session_Accept. mred. rewrite Hd. by destruct (rs_channels s).
Qed.

(** A step of [Offer] or [Answer], and the close behind it when it failed. *)
Lemma closing_step (m : M P (option error)) (k : M P (option error)) p e p' :
  (err ← m; match err with
            | Some err => _ ← peer_Close; mret (Some err)
            | None => k
            end) p = (Ret (Some e), p') →
  (∃ p1 r, peer_Close p1 = (Ret r, p')) ∨ ∃ p1, k p1 = (Ret (Some e), p').
Proof using.
  unfold mbind, M_bind. destruct (m p) as [[[e1|]| | |] p1]; try done; [|by eauto].
  destruct (peer_Close p1) as [[r| | |] p2] eqn:Hc; try done. intros [= <- <-]. by eauto.
Qed.

(** [Offer] and [Answer] close the peer connection they made if a later step
    fails: then closing it is the last thing they do. *)
Theorem offers_close_on_error p e p' :
  Offer p = (Ret (Some e), p') ∨ Answer p = (Ret (Some e), p') →
  NewPeerConnection p = (Ret (Some e), p') ∨ ∃ p1 r, peer_Close p1 = (Ret r, p').
Proof using.
  intros [Hr|Hr]; revert Hr; unfold Offer, Answer; unfold mbind at 1, M_bind at 1.
  - destruct (NewPeerConnection p) as [[[e0|]| | |] p0]; try done; [by left|].
    unfold mbind at 1, M_bind at 1.
    destruct (CreateDataChannel "qtalk-meta" p0) as [[[d|e1]| | |] p1]; try done.
    + intros [Hc|[p2 [Hc|[p3 [=]]]%closing_step]]%closing_step; by right.
    + unfold mbind, M_bind. destruct (peer_Close p1) as [[r| | |] p2] eqn:Hc; try done.
      intros [= <- <-]. by eauto.
  - destruct (NewPeerConnection p) as [[[e0|]| | |] p0]; try done; [by left|].
    intros [Hc|[p2 [Hc|[p3 [Hc|[p4 [=]]]%closing_step]]%closing_step]]%closing_step; by right.
Qed.
End sessions.
