(* ===== verification/Exp.v ===== *)
(** * exp/ptr.go: remote function pointers inside values

    Walking a value for the [Ptr]s in it, giving them a caller, and registering
    them on a mux. Go's variables and maps live in the heap of GoReflect.v; a
    [Ptr] is a variable. [fuel] bounds the depth of a walk. Identifiers come from
    the third-party package xid and are an argument. Struct field names begin
    with an ASCII letter, and fields of embedded structs are found only under the
    name of the embedded field. *)
From Stdlib Require Import Floats.SpecFloat Ascii String.
From S2P Require Import Prelude GoRuntime GoReflect Fn FrameCodec RespondMux.
From S2P Require Import Rpc.

Local Open Scope string_scope.
Local Open Scope Z_scope.

(** ** Packages strconv, sort and strings *)

(** [strconv.Itoa(n)] and [strconv.Atoi(s)] for the numbers it prints. *)
Definition Itoa (n : nat) : string := pretty n.

Fixpoint Atoi_from (acc : nat) (s : string) : option nat :=
  match s with
  | EmptyString => Some acc
  | String c s =>
      let d := Ascii.nat_of_ascii c in
      if (48 <=? d)%nat && (d <=? 57)%nat then Atoi_from (acc * 10 + (d - 48)) s else None
  end.

Definition Atoi (s : string) : option nat :=
  match s with EmptyString => None | _ => Atoi_from 0 s end.

(** [sort.Sort(sort.StringSlice(keys))]. *)
Fixpoint insert_string (s : string) (l : list string) : list string :=
  match l with
  | [] => [s]
  | x :: l => if String.leb s x then s :: x :: l else x :: insert_string s l
  end.

Definition sort_strings (l : list string) : list string := foldr insert_string [] l.

(** [strings.Split(s, ",")[0]]. *)
Fixpoint before_comma (s : string) : string :=
  match s with
  | EmptyString => EmptyString
  | String c s => if Ascii.eqb c "," then EmptyString else String c (before_comma s)
  end.

(** [name[0] == strings.ToUpper(name)[0]]. *)
Definition starts_upper (name : string) : bool :=
  match name with
  | String c _ => let d := Ascii.nat_of_ascii c in negb ((97 <=? d)%nat && (d <=? 122)%nat)
  | EmptyString => false
  end.

Section exp.
Context `{GT : GoTypes}.

(** ** More of package reflect *)

(** [v.Elem()] of a pointer. *)
Definition Value_Elem (h : heap) (v : Value) : outcome Value :=
  match v with
  | Some (t, VPtr (Some a)) =>
      match h !! a with
      | Some (OVar _ x) => Ret (Some (Elem t, x))
      | _ => Panic nil_dereference
      end
  | _ => Ret None
  end.

(** The key and value types of a map type. *)
Definition map_types (t : rtype) : rtype * rtype :=
  match underlying t with TMap k e => (k, e) | _ => (t, t) end.

Definition map_entries (h : heap) (p : option nat) : list (value * value) :=
  match p with
  | Some a => match h !! a with Some (OMap es) => es | _ => [] end
  | None => []
  end.

(** [key.Interface().(string)] for a key of type [k]. *)
Definition string_key (k : rtype) (key : value) : option string :=
  match Value_Interface (k, key) with
  | Some (TBasic BString, VString s) => Some s
  | _ => None
  end.

(** The key a string becomes in a map with keys of type [k]. *)
Definition key_is (k : rtype) (s : string) (key : value) : bool :=
  match string_key k key with Some s' => (s' =? s)%string | None => false end.

Definition has_key (k : rtype) (s : string) (kv : value * value) : bool := key_is k s kv.1.

(** [v.MapIndex(reflect.ValueOf(key))] for a string key. *)
Definition MapIndex (h : heap) (v : Value) (key : string) : outcome Value :=
  match v with
  | Some (t, VMap p) =>
      let '(k, e) := map_types t in
      _ ← assignTo ("reflect.Value.MapIndex: " +:+ not_assignable TString k)
            (TString, VString key) k;
      Ret ((λ kv, (e, kv.2)) <$> List.find (has_key k key) (map_entries h p))
  | _ => ValueError "MapIndex" v
  end.

(** [v.FieldByName(name)] among the fields of the struct itself. *)
Fixpoint field_named (name : string) (fs : list (string * string * rtype)) (vs : list value)
    : option (rtype * value) :=
  match fs, vs with
  | (n, _, t) :: fs, v :: vs => if (n =? name)%string then Some (t, v) else field_named name fs vs
  | _, _ => None
  end.

Definition struct_fields (t : rtype) : list (string * string * rtype) :=
  match underlying t with TStruct fs => fs | _ => [] end.

Definition FieldByName (v : Value) (name : string) : Value :=
  match v with
  | Some (t, VStruct vs) => field_named name (struct_fields t) vs
  | _ => None
  end.

(** [reflect.ValueOf(rval.Interface())] for a valid [rval]. *)
Definition unwrapped (rval : Value) : Value :=
  match rval with Some x => ValueOf (Value_Interface x) | None => None end.

(** ** Walking *)

(** The search for a field by its [json] tag. *)
Fixpoint tagged_field (key : string) (fs : list (string * string * rtype)) : option string :=
  match fs with
  | [] => None
  | (name, tag, _) :: fs =>
      if ((before_comma tag =? key) || (name =? key))%string then Some name
      else tagged_field key fs
  end.

(** [prop(robj, key)]. *)
Fixpoint prop (fuel : nat) (h : heap) (robj : Value) (key : string) : outcome Value :=
  match fuel with
  | O => NoFuel
  | S fuel =>
      rtyp ← Value_Type robj;
      match Kind rtyp with
      | KSlice | KArray =>
          match Atoi key with
          | None => Panic "non-numeric index given for slice"
          | Some idx => rval ← Value_Index robj idx; Ret (unwrapped rval)
          end
      | KPtr => e ← Value_Elem h robj; prop fuel h e key
      | KMap =>
          rval ← MapIndex h robj key;
          match rval with
          | Some _ => Ret (unwrapped rval)
          | None => Panic ("unexpected kind: " +:+ kind_String (Kind rtyp))
          end
      | KStruct =>
          match FieldByName robj key with
          | Some rval => Ret (Some rval)
          | None =>
              match tagged_field key (struct_fields rtyp) with
              | Some name => Ret (FieldByName robj name)
              | None => Panic ("struct field not found: " +:+ key)
              end
          end
      | k => Panic ("unexpected kind: " +:+ kind_String k)
      end
  end.

(** [keys(v)]. *)
Fixpoint keys (fuel : nat) (h : heap) (v : Value) : outcome (list string) :=
  match fuel with
  | O => NoFuel
  | S fuel =>
      t ← Value_Type v;
      match Kind t, v with
      | KMap, Some (_, VMap p) =>
          Ret (sort_strings (omap (λ kv, string_key (map_types t).1 kv.1) (map_entries h p)))
      | KStruct, _ => Ret (filter (λ name, starts_upper name = true) ((λ f, f.1.1) <$> struct_fields t))
      | KSlice, _ | KArray, _ => n ← Value_Len h v; Ret (Itoa <$> seq 0 n)
      | KPtr, Some (_, VPtr (Some _)) => e ← Value_Elem h v; keys fuel h e
      | _, _ => Ret []
      end
  end.

Section walk.
Context {A : Type}.

(** A visitor sees the value, its parent and the path to it. *)
Definition visitor : Type := Value → Value → list string → M (heap * A) (option error).

(** The loop over the keys of [v]; [rec] walks a child. *)
Fixpoint walk_keys (fuel : nat) (v : Value) (path : list string) (visit : visitor)
    (rec : Value → list string → M (heap * A) (option error)) (ks : list string)
    : M (heap * A) (option error) :=
  match ks with
  | [] => mret None
  | k :: ks =>
      let subpath := (path ++ [k])%list in
      s ← get_st;
      vv ← lift (prop fuel s.1 v k);
      match vv with
      | None => walk_keys fuel v path visit rec ks
      | Some _ =>
          err ← visit vv v subpath;
          match err with
          | Some e => mret (Some e)
          | None =>
              err ← rec vv subpath;
              match err with
              | Some e => mret (Some e)
              | None => walk_keys fuel v path visit rec ks
              end
          end
      end
  end.

(** [walk(v, path, visitor)]. *)
Fixpoint walk (fuel : nat) (v : Value) (path : list string) (visit : visitor)
    : M (heap * A) (option error) :=
  match fuel with
  | O => nofuel_st
  | S fuel =>
      s ← get_st;
      ks ← lift (keys (S fuel) s.1 v);
      walk_keys (S fuel) v path visit (λ vv subpath, walk fuel vv subpath visit) ks
  end.
End walk.

(** ** Ptr *)

Definition ptr_type : rtype := TPtr (TNamed "exp.Ptr").

(** The fields of the [Ptr] at an address: its id, its caller, its function. *)
Definition ptr_at (h : heap) (a : nat) : option (string * iface * iface) :=
  match h !! a with
  | Some (OVar _ (VStruct [VString id; VIface caller; VIface fn])) => Some (id, caller, fn)
  | _ => None
  end.

Definition ptr_var (id : string) (caller fn : iface) : obj :=
  OVar (TNamed "exp.Ptr") (VStruct [VString id; VIface caller; VIface fn]).

(** [Callback(fn)], [id] being [xid.New().String()]. *)
Definition Callback (id : string) (fn : iface) : M heap nat := λ h,
  let a := fresh (dom h) in (Ret a, <[a := ptr_var id None fn]> h).

(** [p.Call(ctx, params, reply)]: [call] is the [Call] of a caller. *)
Definition Ptr_Call {R} (call : rtype * value → string → R) (h : heap) (p : nat) : outcome R :=
  match ptr_at h p with
  | Some (id, Some caller, _) => Ret (call caller id)
  | _ => Panic nil_dereference
  end.

(** The visitor of [PtrsFrom]. *)
Definition collect_ptr : visitor (A := list nat) := λ v _ _ s,
  match v with
  | Some (t, VPtr p) =>
      match bool_decide (t = ptr_type), p with
      | true, Some a => (Ret None, (s.1, (s.2 ++ [a])%list))
      | _, _ => (Ret None, s)
      end
  | _ => (Ret None, s)
  end.

(** [PtrsFrom(v)]. *)
Definition PtrsFrom (fuel : nat) (h : heap) (v : iface) : outcome (list nat) :=
  match walk fuel (ValueOf v) [] collect_ptr (h, []) with
  | (Ret _, s) => Ret s.2
  | (Panic p, _) => Panic p
  | (Block, _) => Block
  | (NoFuel, _) => NoFuel
  end.

(** [ptr.Caller = c; ptrs = append(ptrs, ptr.Ptr)]. *)
Fixpoint set_ptr_callers (c : rtype * value) (ptrs : list nat) : M (heap * list string) unit :=
  match ptrs with
  | [] => mret tt
  | a :: ptrs => λ s,
      match ptr_at s.1 a with
      | Some (id, _, fn) =>
          set_ptr_callers c ptrs (<[a := ptr_var id (Some c) fn]> s.1, (s.2 ++ [id])%list)
      | None => (Panic nil_dereference, s)
      end
  end.

(** [v.String()]. *)
Definition Value_String (v : rtype * value) : string :=
  match v with
  | (_, VString s) => s
  | (t, _) => "<" +:+ type_String t +:+ " Value>"
  end.

(** Set the entry of [key], adding it if there is none. *)
Fixpoint set_entry (k : rtype) (key : string) (kv : value * value) (es : list (value * value))
    : list (value * value) :=
  match es with
  | [] => [kv]
  | e :: es => if has_key k key e then (e.1, kv.2) :: es else e :: set_entry k key kv es
  end.

(** [parent.SetMapIndex(reflect.ValueOf(key), reflect.ValueOf(c))]. *)
Definition SetMapIndex (h : heap) (parent : Value) (key : string) (c : rtype * value)
    : outcome heap :=
  match parent with
  | Some (t, VMap p) =>
      let '(k, e) := map_types t in
      kv ← assignTo ("reflect.Value.SetMapIndex: " +:+ not_assignable TString k)
             (TString, VString key) k;
      ev ← assignTo ("reflect.Value.SetMapIndex: " +:+ not_assignable c.1 e) c e;
      match p with
      | Some a =>
          match h !! a with
          | Some (OMap es) => Ret (<[a := OMap (set_entry k key (kv, ev) es)]> h)
          | _ => Panic nil_dereference
          end
      | None => Panic "assignment to entry in nil map"
      end
  | _ => ValueError "SetMapIndex" parent
  end.

(** The visitor of [SetCallers]. *)
Definition set_map_caller (c : rtype * value) : visitor (A := list string) :=
  λ v parent path s,
  if bool_decide (last path = Some "$fnptr") then
    match SetMapIndex s.1 parent "Caller" c, v with
    | Ret h, Some x => (Ret None, (h, (s.2 ++ [Value_String x])%list))
    | Panic p, _ => (Panic p, s)
    | _, _ => (NoFuel, s)
    end
  else (Ret None, s).

(** [SetCallers(v, c)]. *)
Definition SetCallers (fuel : nat) (v : iface) (c : rtype * value) : M heap (list string) := λ h,
  match PtrsFrom fuel h v with
  | Ret ptrs =>
      match (_ ← set_ptr_callers c ptrs; walk fuel (ValueOf v) [] (set_map_caller c)) (h, []) with
      | (Ret _, s) => (Ret s.2, s.1)
      | (Panic p, s) => (Panic p, s.1)
      | (Block, s) => (Block, s.1)
      | (NoFuel, s) => (NoFuel, s.1)
      end
  | Panic p => (Panic p, h)
  | Block => (Block, h)
  | NoFuel => (NoFuel, h)
  end.
End exp.

(** ** Registering *)

Section register.
Context `{GT : GoTypes} `{FloatConv} `{MS : Mapstructure} `{ST : Stack}.
Context `{CD : Codec (rtype * value) rtype} `{FB : FuncBodies srv} `{OB : Objects}.

Abbreviation muxes := (gmap nat (RespondMux handler_func)).

(** The body of the loop of [RegisterPtrs] on the mux at [m]. *)
Definition register_ptr (mfuel : nat) (h : heap) (m : nat) (ptr : nat) : M muxes unit :=
  match ptr_at h ptr with
  | None => panic_st nil_dereference
  | Some (id, _, fn) =>
      ms ← get_st;
      found ← lift (Match mfuel ms m id);
      match found.1 with
      | Some _ => mret tt
      | None => hd ← HandlerFrom h TAny fn; Handle m id (Some hd)
      end
  end.

Definition unregister_ptr (mfuel : nat) (h : heap) (m : nat) (ptr : nat) : M muxes unit :=
  match ptr_at h ptr with
  | None => panic_st nil_dereference
  | Some (id, _, _) =>
      ms ← get_st;
      found ← lift (Match mfuel ms m id);
      match found.1 with
      | Some _ => _ ← Remove m id; mret tt
      | None => mret tt
      end
  end.

Fixpoint for_ptrs (f : nat → M muxes unit) (ptrs : list nat) : M muxes unit :=
  match ptrs with
  | [] => mret tt
  | p :: ptrs => _ ← f p; for_ptrs f ptrs
  end.

(** [RegisterPtrs(m, v)] and [UnregisterPtrs(m, v)]. *)
Definition RegisterPtrs (fuel mfuel : nat) (h : heap) (m : nat) (v : iface) : M muxes unit :=
  ptrs ← lift (PtrsFrom fuel h v);
  for_ptrs (register_ptr mfuel h m) ptrs.

Definition UnregisterPtrs (fuel mfuel : nat) (h : heap) (m : nat) (v : iface) : M muxes unit :=
  ptrs ← lift (PtrsFrom fuel h v);
  for_ptrs (unregister_ptr mfuel h m) ptrs.
End register.
