(* ===== verification/ExpSpec.v ===== *)
(** * exp/ptr.go: what walking and registering guarantee

    Values that unfold to finite trees, the pointers that occur in them, and
    the proofs that [PtrsFrom] ends with exactly those and that registering them
    can be undone. *)
From Stdlib Require Import Floats.SpecFloat Ascii String.
From S2P Require Import Prelude GoRuntime GoReflect Fn FrameCodec RespondMux.
From S2P Require Import RespondMuxSpec Rpc RpcSpec Exp.

Local Open Scope Z_scope.

(** ** Decimal numbers *)

Lemma Atoi_from_pretty (x : N) acc s :
  acc = 0%nat → Atoi_from acc (pretty_N_go x s) = Atoi_from (N.to_nat x) s.
Proof.
  intros ->. revert s. induction (N.lt_wf_0 x) as [x _ IH]; intros s.
  destruct (decide (x = 0%N)) as [->|Hx]; [done|].
  rewrite pretty_N_go_step by lia. rewrite IH by (apply N.div_lt; lia).
  pose proof (N.mod_lt x 10 ltac:(lia)) as Hm. pose proof (N.div_mod x 10 ltac:(lia)) as Hdm.
  set (d := (x `mod` 10)%N) in *. clearbody d.
  assert (Ascii.nat_of_ascii (pretty_N_char d) = 48 + N.to_nat d)%nat as Hc.
  { assert (d = 0 ∨ d = 1 ∨ d = 2 ∨ d = 3 ∨ d = 4 ∨ d = 5 ∨ d = 6 ∨ d = 7 ∨ d = 8 ∨ d = 9)%N
      as Hd by lia.
    by repeat destruct Hd as [->|Hd]; [..|rewrite Hd]. }
  cbn [Atoi_from]. rewrite Hc.
  destruct (Nat.leb_spec 48 (48 + N.to_nat d)); [|lia].
  destruct (Nat.leb_spec (48 + N.to_nat d) 57); [|lia].
  cbn [andb]. f_equal. lia.
Qed.

Lemma Atoi_Itoa n : Atoi (Itoa n) = Some n.
Proof.
  assert (Itoa n = if decide (N.of_nat n = 0)%N then "0"%string
                   else pretty_N_go (N.of_nat n) "") as -> by done.
  case_decide as Hn.
  - destruct n; [done|lia].
  - pose proof (Atoi_from_pretty (N.of_nat n) 0 "" eq_refl) as H. cbn [Atoi_from] in H.
    rewrite Nat2N.id in H. unfold Atoi. destruct (pretty_N_go (N.of_nat n) "") eqn:E; [|done].
    exfalso. cbn in H. injection H as H. lia.
Qed.

(** ** Sorting *)

Lemma elem_of_insert_string s l x : x ∈ insert_string s l ↔ x = s ∨ x ∈ l.
Proof.
  induction l as [|y l IH]; cbn.
  - by rewrite elem_of_cons.
  - destruct (String.leb s y); rewrite !elem_of_cons; [tauto|]. rewrite IH. tauto.
Qed.

Lemma elem_of_sort_strings l x : x ∈ sort_strings l ↔ x ∈ l.
Proof. induction l as [|y l IH]; [done|]. cbn. by rewrite elem_of_insert_string, IH, elem_of_cons. Qed.

Section walk.
Context `{GT : GoTypes} (h : heap).

(** ** Trees *)

(** [tree n x]: the value unfolds, through pointers, maps, structs, slices and
    arrays, to a tree of height at most [n] whose nodes are shaped as their types
    say. A value with a cycle has no such height. *)
Fixpoint tree (n : nat) (x : rtype * value) : Prop :=
  match n with
  | O => False
  | S n =>
      let child := λ y : iface, match y with Some y => tree n y | None => True end in
      match Kind x.1, x.2 with
      | KPtr, VPtr None => True
      | KPtr, VPtr (Some a) => ∃ t y, h !! a = Some (OVar t y) ∧ tree n (Elem x.1, y)
      | KStruct, VStruct vs =>
          length vs = length (struct_fields x.1) ∧
          ∀ i f v, struct_fields x.1 !! i = Some f → vs !! i = Some v → tree n (f.2, v)
      | KSlice, VSlice o =>
          ∀ v, v ∈ default [] o → child (Value_Interface (Elem x.1, v))
      | KArray, VArray l => ∀ v, v ∈ l → child (Value_Interface (Elem x.1, v))
      | KMap, VMap p =>
          ∀ e, e ∈ map_entries h p →
            (is_Some (string_key (map_types x.1).1 e.1) →
               AssignableTo TString (map_types x.1).1 = true) ∧
            child (Value_Interface ((map_types x.1).2, e.2))
      | (KPtr | KStruct | KSlice | KArray | KMap), _ => False
      | _, _ => True
      end
  end.

(** [child x y]: [y] is an exported field of [x], an element, the value of a
    string key, or such a part of what [x] points to. *)
Inductive child : rtype * value → rtype * value → Prop :=
| child_field t vs name y :
    Kind t = KStruct → name ∈ ((λ f, f.1.1) <$> struct_fields t) → starts_upper name = true →
    field_named name (struct_fields t) vs = Some y → child (t, VStruct vs) y
| child_elem t l i v y :
    Kind t = KSlice → l !! i = Some v → Value_Interface (Elem t, v) = Some y →
    child (t, VSlice (Some l)) y
| child_item t l i v y :
    Kind t = KArray → l !! i = Some v → Value_Interface (Elem t, v) = Some y →
    child (t, VArray l) y
| child_entry t p key k v y :
    Kind t = KMap → List.find (has_key (map_types t).1 key) (map_entries h p) = Some (k, v) →
    Value_Interface ((map_types t).2, v) = Some y → child (t, VMap p) y
| child_pointee t a u z y :
    Kind t = KPtr → h !! a = Some (OVar u z) → child (Elem t, z) y → child (t, VPtr (Some a)) y.

(** The [Ptr] at [a] occurs below [x]. *)
Inductive occurs : rtype * value → nat → Prop :=
| occurs_here x a : child x (ptr_type, VPtr (Some a)) → occurs x a
| occurs_below x y a : child x y → occurs y a → occurs x a.

(** ** Keys and properties *)

Lemma find_key k key es kv :
  List.find (has_key k key) es = Some kv → kv ∈ es ∧ string_key k kv.1 = Some key.
Proof.
  intros Hf. apply List.find_some in Hf as [Hin Hk]. split; [by apply list_elem_of_In|].
  unfold has_key, key_is in Hk. destruct (string_key k kv.1) as [s|]; [|done].
  by apply String.eqb_eq in Hk as ->.
Qed.

Lemma find_key_some k key es kv :
  kv ∈ es → string_key k kv.1 = Some key →
  ∃ kv', List.find (has_key k key) es = Some kv'.
Proof.
  intros Hin Hk. destruct (List.find _ es) as [kv'|] eqn:Hf; [by exists kv'|].
  assert (has_key k key kv = false) as Hn.
  { apply (List.find_none _ es); [done|by apply list_elem_of_In]. }
  unfold has_key, key_is in Hn. rewrite Hk, String.eqb_refl in Hn. done.
Qed.

Lemma field_named_Some name fs vs :
  name ∈ ((λ f, f.1.1) <$> fs) → length vs = length fs →
  ∃ i f v, fs !! i = Some f ∧ vs !! i = Some v ∧ field_named name fs vs = Some (f.2, v).
Proof.
  revert vs. induction fs as [|[[n tag] t] fs IH]; intros [|v vs] Hin Hlen; try done.
  { by apply elem_of_nil in Hin. }
  cbn [field_named]. destruct (String.eqb_spec n name) as [->|Hne].
  - by exists 0%nat, (name, tag, t), v.
  - cbn in Hin. apply elem_of_cons in Hin as [->|Hin]; [done|].
    destruct (IH vs Hin) as (i & f & w & H1 & H2 & H3); [by injection Hlen|].
    by exists (S i), f, w.
Qed.

(** What [walk] needs of a value: its keys, and the value of each. *)
Definition walkable (fuel n : nat) (x : rtype * value) : Prop :=
  ∃ ks, keys fuel h (Some x) = Ret ks ∧
    (∀ k, k ∈ ks → ∃ r, prop fuel h (Some x) k = Ret r ∧ ∀ y, r = Some y → tree n y ∧ child x y) ∧
    (∀ y, child x y → ∃ k, k ∈ ks ∧ prop fuel h (Some x) k = Ret (Some y)).

Lemma walkable_leaf fuel n x :
  (match Kind x.1 with
   | KPtr => x.2 = VPtr None | KStruct | KSlice | KArray | KMap => False | _ => True end) →
  walkable (S fuel) n x.
Proof.
  destruct x as [t v]. cbn [fst snd]. intros Hk. exists []. split_and!.
  - cbn [keys Value_Type mbind outcome_bind]. destruct (Kind t); try done. by rewrite Hk.
  - by intros k Hin%elem_of_nil.
  - intros y Hc. inversion Hc as [? ? ? ? Ht|? ? ? ? ? Ht|? ? ? ? ? Ht|? ? ? ? ? ? Ht|? ? ? ? ? Ht];
      subst; rewrite Ht in Hk; done.
Qed.

Lemma tree_mono n m x : (n ≤ m)%nat → tree n x → tree m x.
Proof.
  revert m x. induction n as [|n IH]; intros [|m] x Hle Ht; try done; [lia|].
  assert (Hsub : ∀ y, tree n y → tree m y) by (intros y; apply IH; lia).
  cbn [tree] in *. destruct (Kind x.1); try done; destruct x.2 as [| | | |o|l|fs|[a|]|p| |]; try done.
  - intros v Hv. specialize (Ht v Hv). destruct (Value_Interface _); [by apply Hsub|done].
  - intros v Hv. specialize (Ht v Hv). destruct (Value_Interface _); [by apply Hsub|done].
  - destruct Ht as (t & y & Ha & Ht). exists t, y. split; [done|by apply Hsub].
  - intros e He. destruct (Ht e He) as [H1 H2]. split; [done|].
    destruct (Value_Interface _); [by apply Hsub|done].
  - destruct Ht as [Hl Ht]. split; [done|]. intros i f v Hf Hv. apply Hsub. by eapply Ht.
Qed.

Lemma walkable_struct fuel n t vs :
  Kind t = KStruct → tree (S n) (t, VStruct vs) → walkable (S fuel) n (t, VStruct vs).
Proof.
  intros Hk Ht. cbn [tree fst snd] in Ht. rewrite Hk in Ht. destruct Ht as [Hlen Ht].
  exists (filter (λ name, starts_upper name = true) ((λ f, f.1.1) <$> struct_fields t)). split_and!.
  - cbn [keys Value_Type mbind outcome_bind]. by rewrite Hk.
  - intros k [Hu Hin]%list_elem_of_filter.
    destruct (field_named_Some k (struct_fields t) vs Hin Hlen) as (i & f & v & Hf & Hv & Hn).
    exists (Some (f.2, v)). split.
    + cbn [prop Value_Type mbind outcome_bind]. rewrite Hk. cbn [FieldByName]. by rewrite Hn.
    + intros y [= <-]. split; [by eapply Ht|by eapply child_field].
  - intros y Hc. inversion Hc as [? ? name ? _ Hin Hu Hn| | | |]; subst.
    exists name. split; [by apply list_elem_of_filter|].
    cbn [prop Value_Type mbind outcome_bind]. rewrite Hk. cbn [FieldByName]. by rewrite Hn.
Qed.

(** Slices and arrays, given what indexing gives. *)
Lemma walkable_indexed fuel n t v l :
  Kind t = KSlice ∧ v = VSlice (Some l) ∨ Kind t = KArray ∧ v = VArray l →
  (∀ w, w ∈ l → match Value_Interface (Elem t, w) with Some y => tree n y | None => True end) →
  walkable (S fuel) n (t, v).
Proof.
  intros Hv Ht.
  assert (Hlen : Value_Len h (Some (t, v)) = Ret (length l)) by (by destruct Hv as [[_ ->]|[_ ->]]).
  assert (Hix : ∀ i w, l !! i = Some w → Value_Index (Some (t, v)) i = Ret (Some (Elem t, w))).
  { intros i w Hi. destruct Hv as [[_ ->]|[_ ->]]; cbn; by rewrite Hi. }
  assert (Hprop : ∀ i w, l !! i = Some w →
    prop (S fuel) h (Some (t, v)) (Itoa i) = Ret (Value_Interface (Elem t, w))).
  { intros i w Hi. cbn [prop Value_Type mbind outcome_bind].
    destruct Hv as [[-> _]|[-> _]]; rewrite Atoi_Itoa, (Hix i w Hi); done. }
  assert (Hchild : ∀ i w y, l !! i = Some w → Value_Interface (Elem t, w) = Some y → child (t, v) y).
  { intros i w y Hi Hy. destruct Hv as [[Hk ->]|[Hk ->]]; [by eapply child_elem|by eapply child_item]. }
  exists (Itoa <$> seq 0 (length l)). split_and!.
  - cbn [keys Value_Type]. unfold mbind at 1, outcome_bind at 1.
    destruct Hv as [[-> _]|[-> _]]; by rewrite Hlen.
  - intros k (i & -> & Hi%elem_of_seq)%list_elem_of_fmap.
    destruct (lookup_lt_is_Some_2 l i) as [w Hw]; [lia|].
    rewrite (Hprop i w Hw). eexists. split; [done|]. intros y Hy.
    specialize (Ht w). rewrite Hy in Ht. split; [|by eapply Hchild].
    apply Ht, list_elem_of_lookup. by exists i.
  - intros y Hc.
    assert (∃ i w, l !! i = Some w ∧ Value_Interface (Elem t, w) = Some y) as (i & w & Hw & Hy).
    { inversion Hc; subst; destruct Hv as [[? Heq]|[? Heq]]; simplify_eq; eauto. }
    exists (Itoa i). split; [|by rewrite (Hprop i w Hw), Hy].
    apply list_elem_of_fmap. exists i. split; [done|]. apply elem_of_seq.
    apply lookup_lt_Some in Hw. lia.
Qed.

Lemma walkable_map fuel n t p :
  Kind t = KMap → tree (S n) (t, VMap p) → walkable (S fuel) n (t, VMap p).
Proof.
  intros Hk Ht. cbn [tree fst snd] in Ht. rewrite Hk in Ht.
  set (K := (map_types t).1) in *.
  assert (Hprop : ∀ key e, e ∈ map_entries h p → string_key K e.1 = Some key →
    ∃ kv, List.find (has_key K key) (map_entries h p) = Some kv ∧ kv ∈ map_entries h p ∧
      prop (S fuel) h (Some (t, VMap p)) key = Ret (Value_Interface ((map_types t).2, kv.2))).
  { intros key e He Hs. destruct (find_key_some K key _ e He Hs) as [kv Hf].
    exists kv. split; [done|]. destruct (find_key _ _ _ _ Hf) as [Hin _]. split; [done|].
    cbn [prop Value_Type]. unfold mbind at 1, outcome_bind at 1. rewrite Hk.
    unfold MapIndex. destruct (map_types t) as [K' E] eqn:Hmt. cbn [fst snd] in *.
    assert (∃ y, assignTo ("reflect.Value.MapIndex: " +:+ not_assignable TString K)
      (TString, VString key) K = Ret y) as [y Hy].
    { destruct (Ht e He) as [Ha _]. specialize (Ha (ex_intro _ _ Hs)).
      unfold AssignableTo in Ha. unfold assignTo. cbn [fst].
      destruct (directlyAssignable K TString); [by eexists|]. cbn in Ha. rewrite Ha. by eexists. }
    unfold K in Hy, Hf. rewrite Hy. cbn [mbind outcome_bind]. by rewrite Hf. }
  exists (sort_strings (omap (λ kv, string_key K kv.1) (map_entries h p))). split_and!.
  - cbn [keys Value_Type mbind outcome_bind]. by rewrite Hk.
  - intros key (e & He & Hs)%elem_of_sort_strings%list_elem_of_omap.
    destruct (Hprop key e He Hs) as ([k v] & Hf & Hin & ->). eexists. split; [done|].
    intros y Hy. destruct (Ht (k, v) Hin) as [_ Htv]. cbn [snd] in Htv, Hy. rewrite Hy in Htv.
    split; [done|]. by eapply child_entry.
  - intros y Hc. inversion Hc as [| | |? ? key k v ? _ Hf Hy|]; subst.
    destruct (find_key _ _ _ _ Hf) as [Hin Hs]. exists key. split.
    + apply elem_of_sort_strings, list_elem_of_omap. by exists (k, v).
    + destruct (Hprop key (k, v) Hin Hs) as (kv & Hf' & _ & ->).
      unfold K in Hf'. rewrite Hf in Hf'. injection Hf' as <-. cbn [snd]. by rewrite Hy.
Qed.

(** A tree of height [n] is walkable with fuel [n]. *)
Lemma tree_walkable n fuel x : tree (S n) x → (S n ≤ fuel)%nat → walkable fuel n x.
Proof.
  revert fuel x. induction n as [n IH] using lt_wf_ind. intros [|fuel] [t v] Ht Hle; [lia|].
  destruct (Kind t) eqn:Hk; try (apply walkable_leaf; cbn; by rewrite Hk).
  - cbn [tree fst snd] in Ht. rewrite Hk in Ht. destruct v as [| | | |[l|]| | | | | |]; try done.
    + eapply walkable_indexed; [by left|exact Ht].
    + exists []. split_and!; [cbn [keys Value_Type mbind outcome_bind]; by rewrite Hk| |].
      * by intros k Hin%elem_of_nil.
      * intros y Hc. inversion Hc.
  - cbn [tree fst snd] in Ht. rewrite Hk in Ht. destruct v as [| | | | |l| | | | |]; try done.
    eapply walkable_indexed; [by right|exact Ht].
  - cbn [tree fst snd] in Ht. rewrite Hk in Ht. destruct v as [| | | | | | |[a|]| | |]; try done.
    2: { apply walkable_leaf. cbn. by rewrite Hk. }
    destruct Ht as (u & z & Ha & Hz). destruct n as [|n]; [done|].
    destruct (IH n (Nat.lt_succ_diag_r n) fuel (Elem t, z) Hz) as (ks & H1 & H2 & H3); [lia|].
    exists ks. split_and!.
    + cbn [keys Value_Type]. unfold mbind at 1, outcome_bind at 1. rewrite Hk.
      unfold Value_Elem. by rewrite Ha.
    + intros k Hin. destruct (H2 k Hin) as (r & Hr & Hy). exists r. split.
      * cbn [prop Value_Type]. unfold mbind at 1, outcome_bind at 1. rewrite Hk.
        unfold Value_Elem. by rewrite Ha.
      * intros y ->. destruct (Hy y eq_refl) as [Ht Hc].
        split; [by eapply tree_mono, Ht; lia|by eapply child_pointee].
    + intros y Hc. inversion Hc as [| | | |? ? u' z' ? _ Ha' Hc']; subst.
      rewrite Ha in Ha'. injection Ha' as <- <-. destruct (H3 y Hc') as (k & Hin & Hr).
      exists k. split; [done|]. cbn [prop Value_Type]. unfold mbind at 1, outcome_bind at 1.
      rewrite Hk. unfold Value_Elem. by rewrite Ha.
  - pose proof Ht as Ht'. cbn [tree fst snd] in Ht'. rewrite Hk in Ht'.
    destruct v; try done. by apply walkable_map.
  - pose proof Ht as Ht'. cbn [tree fst snd] in Ht'. rewrite Hk in Ht'.
    destruct v; try done. by apply walkable_struct.
Qed.
End walk.

Section ptrs.
Context `{GT : GoTypes} (h : heap).

(** ** PtrsFrom *)

(** The address a visited value adds to the list. *)
Definition ptr_of (y : rtype * value) : list nat :=
  match y with
  | (t, VPtr (Some a)) => if bool_decide (t = ptr_type) then [a] else []
  | _ => []
  end.

Lemma collect_ptr_eq y v path acc :
  collect_ptr (Some y) v path (h, acc) = (Ret None, (h, acc ++ ptr_of y)).
Proof.
  destruct y as [t [| | | | | | |[a|]| | |]]; cbn; rewrite ?app_nil_r; try done;
    case_bool_decide; by rewrite ?app_nil_r.
Qed.

Lemma elem_of_ptr_of y a : a ∈ ptr_of y ↔ y = (ptr_type, VPtr (Some a)).
Proof.
  split.
  - destruct y as [t [| | | | | | |[b|]| | |]]; cbn; try (by intros ?%elem_of_nil).
    case_bool_decide; [|by intros ?%elem_of_nil]. subst. by intros ->%list_elem_of_singleton.
  - intros ->. cbn. rewrite bool_decide_true by done. by left.
Qed.

Lemma walk_keys_collect fuel x path rec ks acc :
  (∀ k, k ∈ ks → ∃ r, prop fuel h (Some x) k = Ret r ∧
     ∀ y path acc, r = Some y → ∃ l, rec (Some y) path (h, acc) = (Ret None, (h, acc ++ l)) ∧
       ∀ a, a ∈ l ↔ occurs h y a) →
  ∃ l, walk_keys fuel (Some x) path collect_ptr rec ks (h, acc) = (Ret None, (h, acc ++ l)) ∧
    ∀ a, a ∈ l ↔ ∃ k y, k ∈ ks ∧ prop fuel h (Some x) k = Ret (Some y) ∧
                   (y = (ptr_type, VPtr (Some a)) ∨ occurs h y a).
Proof.
  revert acc. induction ks as [|k ks IH]; intros acc Hks.
  { exists []. rewrite app_nil_r. split; [done|]. intros a. split; [by intros ?%elem_of_nil|].
    by intros (k & y & ?%elem_of_nil & _). }
  destruct (Hks k) as (r & Hr & Hrec); [by left|].
  assert (Hks' : ∀ k, k ∈ ks → ∃ r, prop fuel h (Some x) k = Ret r ∧
     ∀ y path acc, r = Some y → ∃ l, rec (Some y) path (h, acc) = (Ret None, (h, acc ++ l)) ∧
       ∀ a, a ∈ l ↔ occurs h y a) by (intros; apply Hks; by right).
  cbn [walk_keys]. erewrite bind_ret by reflexivity. cbn [fst].
  erewrite bind_ret by (unfold lift; by rewrite Hr).
  destruct r as [y|].
  - erewrite bind_ret by apply collect_ptr_eq.
    destruct (Hrec y (path ++ [k]) (acc ++ ptr_of y) eq_refl) as (l & Hl & Hocc).
    erewrite bind_ret by exact Hl.
    destruct (IH ((acc ++ ptr_of y) ++ l) Hks') as (l' & Hl' & Hocc').
    exists (ptr_of y ++ l ++ l'). rewrite Hl', <- !app_assoc. split; [done|].
    intros a. rewrite !elem_of_app, elem_of_ptr_of, Hocc, Hocc'. split.
    + intros [Hy|[Hy|(k' & y' & H1 & H2 & H3)]].
      * exists k, y. split_and!; [by left|done|by left].
      * exists k, y. split_and!; [by left|done|by right].
      * exists k', y'. split_and!; [by right|done..].
    + intros (k' & y' & [->|H1]%elem_of_cons & H2 & H3).
      * rewrite Hr in H2. injection H2 as <-. tauto.
      * right. right. by exists k', y'.
  - destruct (IH acc Hks') as (l' & Hl' & Hocc'). exists l'. split; [done|].
    intros a. rewrite Hocc'. split.
    + intros (k' & y' & H1 & H2 & H3). exists k', y'. split_and!; [by right|done..].
    + intros (k' & y' & [->|H1]%elem_of_cons & H2 & H3); [|by exists k', y'].
      by rewrite Hr in H2.
Qed.

Lemma occurs_child x a :
  occurs h x a ↔ ∃ y, child h x y ∧ (y = (ptr_type, VPtr (Some a)) ∨ occurs h y a).
Proof.
  split.
  - inversion 1; subst; eauto.
  - intros (y & Hc & [->|Ho]); [by apply occurs_here|by eapply occurs_below].
Qed.

Lemma walk_collect fuel n x path acc :
  tree h n x → (n ≤ fuel)%nat →
  ∃ l, walk fuel (Some x) path collect_ptr (h, acc) = (Ret None, (h, acc ++ l)) ∧
    ∀ a, a ∈ l ↔ occurs h x a.
Proof.
  revert n x path acc. induction fuel as [|fuel IH]; intros [|n] x path acc Ht Hle; try done; [lia|].
  destruct (tree_walkable h n (S fuel) x Ht Hle) as (ks & Hks & Hprop & Hchild).
  cbn [walk]. erewrite bind_ret by reflexivity. cbn [fst].
  erewrite bind_ret by (unfold lift; by rewrite Hks).
  destruct (walk_keys_collect (S fuel) x path (λ vv p, walk fuel vv p collect_ptr) ks acc)
    as (l & Hl & Hocc).
  { intros k Hk. destruct (Hprop k Hk) as (r & Hr & Hy). exists r. split; [done|].
    intros y p acc' ->. apply (IH n); [by apply Hy|lia]. }
  exists l. split; [exact Hl|]. intros a. rewrite Hocc, occurs_child. split.
  - intros (k & y & Hk & Hr & Hy). exists y. split; [|done].
    destruct (Hprop k Hk) as (r & Hr' & Hry). rewrite Hr in Hr'. injection Hr' as <-. by apply Hry.
  - intros (y & Hc & Hy). destruct (Hchild y Hc) as (k & Hk & Hr). by exists k, y.
Qed.

Lemma PtrsFrom_eq fuel n x :
  tree h n x → (n ≤ fuel)%nat →
  ∃ l, PtrsFrom fuel h (Some x) = Ret l ∧ ∀ a, a ∈ l ↔ occurs h x a.
Proof.
  intros Ht Hle. destruct (walk_collect fuel n x [] [] Ht Hle) as (l & Hl & Hocc).
  exists l. split; [|done]. unfold PtrsFrom, ValueOf. by rewrite Hl.
Qed.
End ptrs.

(** ** RegisterPtrs *)

Section register.
Context `{GT : GoTypes} `{FloatConv} `{MS : Mapstructure} `{ST : Stack}.
Context `{CD : Codec (rtype * value) rtype} `{FB : FuncBodies srv} `{OB : Objects}.

Abbreviation muxes := (gmap nat (RespondMux handler_func)).

(** The [Ptr] at [a] can be registered: its id is a plain name and its function
    a function. *)
Definition ptr_ok (h : heap) (a : nat) (id : string) (hd : handler_func) : Prop :=
  ∃ caller ft f, ptr_at h a = Some (id, caller, Some (ft, VFunc f)) ∧ Kind ft = KFunc ∧
    fromFunc h (Some (ft, VFunc f)) = Ret hd ∧ ends_slash (cleanSelector id) = false.

Lemma HandlerFrom_func h ft f hd (ms : muxes) :
  Kind ft = KFunc → fromFunc h (Some (ft, VFunc f)) = Ret hd →
  HandlerFrom h TAny (Some (ft, VFunc f)) ms = (Ret (HandlerFunc hd), ms).
Proof.
  intros Hk Hf. unfold HandlerFrom, ValueOf. cbn [Value_Type]. erewrite bind_ret by reflexivity.
  rewrite Hk. erewrite bind_ret by reflexivity. rewrite Hk.
  by erewrite bind_ret by (unfold lift; by rewrite Hf).
Qed.

(** A mux without prefix patterns matches exact selectors only. *)
Lemma Match_exact fuel (ms : muxes) p m s :
  ms !! p = Some m → m_es m = [] →
  Match (S fuel) ms p s =
    Ret (match m_m m !! cleanSelector s with Some v => (e_h v, e_pattern v) | None => (None, "") end).
Proof.
  intros Hp He. cbn [Match]. rewrite Hp, He. destruct (m_m m !! cleanSelector s); done.
Qed.

(** The mux with the function of a pointer, or of several, registered unless
    the id already was. *)
Definition with_ptr (x : string * handler_func) (m : RespondMux handler_func)
    : RespondMux handler_func :=
  match m_m m !! cleanSelector x.1 with
  | Some _ => m
  | None => registered (cleanSelector x.1) (HandlerFunc x.2) m
  end.

Definition with_ptrs (l : list (string * handler_func)) (m : RespondMux handler_func) :=
  foldl (λ m x, with_ptr x m) m l.

Lemma with_ptrs_cons x l m : with_ptrs (x :: l) m = with_ptrs l (with_ptr x m).
Proof. done. Qed.

(** No prefix patterns, and every entry has a handler. *)
Definition flat (m : RespondMux handler_func) : Prop :=
  m_es m = [] ∧ ∀ k e, m_m m !! k = Some e → is_Some (e_h e).

Lemma with_ptr_flat x m : ends_slash (cleanSelector x.1) = false → flat m → flat (with_ptr x m).
Proof.
  intros Hx [Hes Hh]. unfold with_ptr. destruct (m_m m !! _) eqn:He; [done|].
  split; [cbn; by rewrite Hx|]. intros k e. cbn. rewrite lookup_insert_Some.
  intros [[<- <-]|[_ Hk]]; [by eexists|by eapply Hh].
Qed.

Lemma register_ptr_eq mfuel h p a id hd (ms : muxes) m :
  ptr_ok h a id hd → ms !! p = Some m → flat m →
  register_ptr (S mfuel) h p a ms = (Ret tt, <[p := with_ptr (id, hd) m]> ms).
Proof.
  intros (caller & ft & f & Hat & Hk & Hf & Hend) Hp [Hes Hh].
  unfold register_ptr, with_ptr. rewrite Hat. cbn [fst snd]. erewrite bind_ret by reflexivity.
  erewrite bind_ret by (unfold lift; by rewrite (Match_exact _ _ _ _ _ Hp Hes)).
  destruct (m_m m !! cleanSelector id) as [e|] eqn:He; cbn [fst].
  - destruct (Hh _ _ He) as [hh ->]. by rewrite insert_id.
  - erewrite bind_ret by (by apply HandlerFrom_func).
    pose proof (Handle_eq p id (HandlerFunc hd) ms m Hp) as Hreg. cbv zeta in Hreg.
    cbn [handle_pattern] in Hreg. by rewrite He in Hreg.
Qed.

Lemma register_ptrs_eq mfuel h p ptrs l (ms : muxes) m :
  Forall2 (λ a x, ptr_ok h a x.1 x.2) ptrs l → ms !! p = Some m → flat m →
  for_ptrs (register_ptr (S mfuel) h p) ptrs ms = (Ret tt, <[p := with_ptrs l m]> ms)
  ∧ flat (with_ptrs l m).
Proof.
  intros Hl. revert ms m. induction Hl as [|a [id hd] ptrs l Hok Hl IH]; intros ms m Hp Hflat.
  { cbn. by rewrite insert_id. }
  cbn [for_ptrs]. erewrite bind_ret by (by eapply register_ptr_eq).
  assert (flat (with_ptr (id, hd) m)) as Hflat'.
  { apply with_ptr_flat; [|done]. by destruct Hok as (? & ? & ? & _ & _ & _ & H'). }
  destruct (IH (<[p := with_ptr (id, hd) m]> ms) (with_ptr (id, hd) m)) as [Hr Hf];
    [by rewrite lookup_insert_eq|done|].
  cbn [fst snd]. rewrite Hr, insert_insert_eq. by split.
Qed.

(** What is registered afterwards: the old entries, and one for each new id. *)
Lemma with_ptrs_old l m k e :
  m_m m !! k = Some e → m_m (with_ptrs l m) !! k = Some e.
Proof.
  revert m. induction l as [|x l IH]; intros m He; [done|]. rewrite with_ptrs_cons. apply IH.
  unfold with_ptr. destruct (m_m m !! cleanSelector x.1) eqn:Hx; [done|]. cbn.
  rewrite lookup_insert_ne; [done|]. congruence.
Qed.

Lemma with_ptrs_in l m id hd :
  (id, hd) ∈ l → is_Some (m_m (with_ptrs l m) !! cleanSelector id).
Proof.
  revert m. induction l as [|x l IH]; intros m; [by intros ?%elem_of_nil|].
  rewrite with_ptrs_cons. intros [<-|Hin]%elem_of_cons; [|by apply IH].
  destruct (m_m (with_ptr (id, hd) m) !! cleanSelector id) as [e|] eqn:He.
  - exists e. by apply with_ptrs_old.
  - unfold with_ptr in He. cbn in He. destruct (m_m m !! cleanSelector id) eqn:Hx; [congruence|].
    cbn in He. by rewrite lookup_insert_eq in He.
Qed.

Lemma with_ptrs_other l m k :
  k ∉ (λ x, cleanSelector x.1) <$> l → m_m (with_ptrs l m) !! k = m_m m !! k.
Proof.
  revert m. induction l as [|x l IH]; intros m Hk; [done|].
  cbn in Hk. apply not_elem_of_cons in Hk as [Hk1 Hk2]. rewrite with_ptrs_cons, IH by done.
  unfold with_ptr. destruct (m_m m !! cleanSelector x.1); [done|]. cbn.
  by rewrite lookup_insert_ne.
Qed.

(** Registering again adds nothing. *)
Lemma with_ptrs_twice l m : with_ptrs l (with_ptrs l m) = with_ptrs l m.
Proof.
  generalize (with_ptrs_in l m). generalize (with_ptrs l m). clear m.
  induction l as [|x l IH]; intros m Hin; [done|]. rewrite with_ptrs_cons.
  assert (with_ptr x m = m) as ->.
  { unfold with_ptr. destruct (Hin x.1 x.2) as [e ->]; [destruct x; by left|done]. }
  apply IH. intros id hd Hx. apply (Hin id hd). by right.
Qed.

(** ** UnregisterPtrs *)

Definition without_ptrs (ids : list string) (m : RespondMux handler_func)
    : RespondMux handler_func :=
  mkMux (foldl (λ mm id, delete (cleanSelector id) mm) (m_m m) ids) (m_es m).

Lemma unregister_ptrs_eq mfuel h p ptrs ids (ms : muxes) m :
  Forall2 (λ a id, ∃ caller fn, ptr_at h a = Some (id, caller, fn)) ptrs ids →
  ms !! p = Some m → flat m →
  for_ptrs (unregister_ptr (S mfuel) h p) ptrs ms = (Ret tt, <[p := without_ptrs ids m]> ms).
Proof.
  intros Hl. revert ms m. induction Hl as [|a id ptrs ids Hat Hl IH]; intros ms m Hp [Hes Hh].
  { unfold without_ptrs. cbn. rewrite insert_id; [done|]. by destruct m. }
  assert (Hone : unregister_ptr (S mfuel) h p a ms = (Ret tt, <[p := without_ptrs [id] m]> ms)).
  { destruct Hat as (caller & fn & Hat). unfold unregister_ptr. rewrite Hat.
    erewrite bind_ret by reflexivity.
    erewrite bind_ret by (unfold lift; by rewrite (Match_exact _ _ _ _ _ Hp Hes)).
    destruct (m_m m !! cleanSelector id) as [e|] eqn:He; cbn [fst].
    - destruct (Hh _ _ He) as [hh ->]. by erewrite bind_ret by (by apply Remove_eq).
    - unfold without_ptrs. cbn. rewrite delete_id by done. destruct m. by rewrite insert_id. }
  cbn [for_ptrs]. erewrite bind_ret by exact Hone.
  rewrite (IH _ (without_ptrs [id] m)); [by rewrite insert_insert_eq|by rewrite lookup_insert_eq|].
  split; [done|]. intros k e. cbn. intros [_ Hk]%lookup_delete_Some. by eapply Hh.
Qed.

Lemma foldl_delete_lookup ids (mm : gmap string (muxEntry handler_func)) k :
  foldl (λ mm id, delete (cleanSelector id) mm) mm ids !! k
  = if bool_decide (k ∈ cleanSelector <$> ids) then None else mm !! k.
Proof.
  revert mm. induction ids as [|id ids IH]; intros mm; [done|]. cbn [foldl fmap list_fmap].
  rewrite IH. destruct (decide (k ∈ cleanSelector <$> ids)) as [Hin|Hin].
  - rewrite !bool_decide_true; [done|by right|done].
  - rewrite (bool_decide_false (k ∈ cleanSelector <$> ids)) by done.
    destruct (decide (k = cleanSelector id)) as [->|Hne].
    + rewrite bool_decide_true by by left. apply lookup_delete_eq.
    + rewrite bool_decide_false by (by intros [?|?]%elem_of_cons).
      by rewrite lookup_delete_ne.
Qed.

(** Unregistering what was registered, when none of it was before, restores
    the mux. *)
Lemma without_with_ptrs l m :
  flat (with_ptrs l m) → m_es m = [] →
  (∀ id, id ∈ l.*1 → m_m m !! cleanSelector id = None) →
  without_ptrs l.*1 (with_ptrs l m) = m.
Proof.
  intros [Hes _] Hem Hnew. unfold without_ptrs. rewrite Hes, <- Hem. destruct m as [mm es].
  cbn [m_m m_es] in *. f_equal. apply map_eq. intros k. rewrite foldl_delete_lookup.
  assert (cleanSelector <$> l.*1 = (λ x, cleanSelector x.1) <$> l) as Heq
    by (by rewrite <- list_fmap_compose).
  case_bool_decide as Hk.
  - apply list_elem_of_fmap in Hk as (id & -> & Hid). by rewrite (Hnew id Hid).
  - rewrite Heq in Hk. by rewrite (with_ptrs_other l _ k Hk).
Qed.
End register.
