(* ===== verification/PtrCallers.v ===== *)
(** * exp/ptr.go: setting callers

    [SetCallers] changes the variables and maps it walks over: the caller of a
    [Ptr], and an entry added to a map that encodes one. [later] is how the heap
    changes, and a walk goes on in the changed heap: values stay finite trees, the
    keys seen before are still there, and what was reachable still is. *)
From Stdlib Require Import Floats.SpecFloat Ascii String.
From S2P Require Import Prelude GoRuntime GoReflect Fn FrameCodec RespondMux.
From S2P Require Import Rpc Exp ExpSpec.

Local Open Scope Z_scope.

Section relations.
Context `{GT : GoTypes} (h : heap).

(** ** The parts of a value *)

(** The parts [tree] goes through: a field, element, entry or pointee. *)
Inductive part : rtype * value → rtype * value → Prop :=
| part_field t vs i f v :
    Kind t = KStruct → struct_fields t !! i = Some f → vs !! i = Some v →
    part (t, VStruct vs) (f.2, v)
| part_elem t l v y :
    Kind t = KSlice → v ∈ l → Value_Interface (Elem t, v) = Some y → part (t, VSlice (Some l)) y
| part_item t l v y :
    Kind t = KArray → v ∈ l → Value_Interface (Elem t, v) = Some y → part (t, VArray l) y
| part_entry t p e y :
    Kind t = KMap → e ∈ map_entries h p → Value_Interface ((map_types t).2, e.2) = Some y →
    part (t, VMap p) y
| part_pointee t a u z :
    Kind t = KPtr → h !! a = Some (OVar u z) → part (t, VPtr (Some a)) (Elem t, z).

(** [k] is among the keys of [x]. *)
Inductive keyed : rtype * value → string → Prop :=
| keyed_field t vs name :
    Kind t = KStruct → name ∈ ((λ f, f.1.1) <$> struct_fields t) → starts_upper name = true →
    keyed (t, VStruct vs) name
| keyed_elem t l i : Kind t = KSlice → (i < length l)%nat → keyed (t, VSlice (Some l)) (Itoa i)
| keyed_item t l i : Kind t = KArray → (i < length l)%nat → keyed (t, VArray l) (Itoa i)
| keyed_entry t p e k :
    Kind t = KMap → e ∈ map_entries h p → string_key (map_types t).1 e.1 = Some k →
    keyed (t, VMap p) k
| keyed_pointee t a u z k :
    Kind t = KPtr → h !! a = Some (OVar u z) → keyed (Elem t, z) k → keyed (t, VPtr (Some a)) k.

(** ** Pointers encoded as maps *)

(** The entries have the special key, and no caller yet. *)
Definition fresh_map (es : list (value * value)) : Prop :=
  (∃ v, (VString "$fnptr", v) ∈ es) ∧ Forall (λ e, has_key TString "Caller" e = false) es.

(** The map at [a] encodes the pointer [id]. *)
Definition encoded (a : nat) (id : string) : Prop :=
  ∃ es, h !! a = Some (OMap es) ∧
    List.find (has_key TString "$fnptr") es
    = Some (VString "$fnptr", VIface (Some (TString, VString id))).

(** A value with the special key is a map that can hold a caller and has none yet;
    no such value unless [marks]. *)
Definition settable (marks : bool) (y : rtype * value) : Prop :=
  (∀ t a es v, y = (t, VMap (Some a)) → h !! a = Some (OMap es) → (VString "$fnptr", v) ∈ es →
     marks = true ∧ map_types t = (TString, TAny) ∧ fresh_map es) ∧
  (keyed y "$fnptr" → ∃ t a es v, y = (t, VMap (Some a)) ∧ h !! a = Some (OMap es) ∧
     (VString "$fnptr", v) ∈ es).

(** All parts of a tree are. *)
Fixpoint all_settable (marks : bool) (n : nat) (x : rtype * value) : Prop :=
  match n with
  | O => True
  | S n => settable marks x ∧ ∀ y, part x y → all_settable marks n y
  end.
End relations.

Section callers.
Context `{GT : GoTypes} (c : rtype * value).

(** ** How the heap changes *)

Definition caller_entry : value * value := (VString "Caller", VIface (Some c)).

Inductive evolves : obj → obj → Prop :=
| evolves_same o : evolves o o
| evolves_ptr t id x fn :
    evolves (OVar t (VStruct [VString id; VIface x; VIface fn])) (ptr_var id (Some c) fn)
| evolves_map es : fresh_map es → evolves (OMap es) (OMap (es ++ [caller_entry])).

Definition later (h h' : heap) : Prop := ∀ a, option_Forall2 evolves (h !! a) (h' !! a).

#[export] Instance later_refl : Reflexive later.
Proof. intros h a. destruct (h !! a); constructor. constructor. Qed.

Lemma evolves_trans o1 o2 o3 : evolves o1 o2 → evolves o2 o3 → evolves o1 o3.
Proof.
  intros H12. revert o3. destruct H12 as [o|t id x fn|es Hes]; intros o3 H23; [done| |].
  - inversion H23; subst; constructor.
  - inversion H23 as [| |es' [_ Hno]]; subst; [by constructor|].
    apply Forall_app in Hno as [_ Hno]. inversion Hno as [|? ? Hce]. discriminate Hce.
Qed.

#[export] Instance later_trans : Transitive later.
Proof.
  intros h1 h2 h3 H12 H23 a. specialize (H12 a). specialize (H23 a).
  destruct H12 as [o1 o2 H12|]; inversion H23; subst; constructor. by eapply evolves_trans.
Qed.

Lemma later_lookup h h' a o : later h h' → h !! a = Some o → ∃ o', h' !! a = Some o' ∧ evolves o o'.
Proof. intros Hl Ha. specialize (Hl a). rewrite Ha in Hl. inversion Hl; eauto. Qed.

Lemma later_back h h' a o' : later h h' → h' !! a = Some o' → ∃ o, h !! a = Some o ∧ evolves o o'.
Proof. intros Hl Ha. specialize (Hl a). rewrite Ha in Hl. inversion Hl; eauto. Qed.

Lemma later_insert h a o o' : h !! a = Some o → evolves o o' → later h (<[a := o']> h).
Proof.
  intros Ha Ho b. destruct (decide (a = b)) as [<-|Hne].
  - rewrite lookup_insert_eq, Ha. by constructor.
  - rewrite lookup_insert_ne by done. apply later_refl.
Qed.

(** The entries of a map, before and after. *)
Lemma later_entries h h' p :
  later h h' →
  map_entries h' p = map_entries h p ∨
  (∃ a es, p = Some a ∧ h !! a = Some (OMap es) ∧ fresh_map es ∧
     map_entries h' p = map_entries h p ++ [caller_entry]).
Proof.
  intros Hl. destruct p as [a|]; [|by left]. specialize (Hl a). unfold map_entries.
  destruct (h !! a) as [o|] eqn:Ha; inversion Hl as [? o' Ho|]; subst; [|by left].
  destruct Ho as [o|t id x fn|es Hes]; [by left..|]. right. by exists a, es.
Qed.

(** A variable keeps its value, but for the caller of a [Ptr]. *)
Lemma evolves_var t v o' :
  evolves (OVar t v) o' →
  ∃ t' v', o' = OVar t' v' ∧
    (v' = v ∨ ∃ a x x' b, v = VStruct [a; VIface x; b] ∧ v' = VStruct [a; VIface x'; b]).
Proof. inversion 1; subst; eexists _, _; (split; [done|]); [by left|right; eauto 10]. Qed.

Lemma evolves_var_back t' v' o :
  evolves o (OVar t' v') →
  ∃ t v, o = OVar t v ∧
    (v' = v ∨ ∃ a x x' b, v = VStruct [a; VIface x; b] ∧ v' = VStruct [a; VIface x'; b]).
Proof. inversion 1; subst; eexists _, _; (split; [done|]); [by left|right; eauto 10]. Qed.

(** ** What does not depend on the caller of a Ptr *)

Lemma tree_iface h n t x x' : tree h n (t, VIface x) → tree h n (t, VIface x').
Proof. by destruct n. Qed.

Lemma tree_swap h n t a x x' b :
  tree h n (t, VStruct [a; VIface x; b]) → tree h n (t, VStruct [a; VIface x'; b]).
Proof.
  destruct n as [|n]; [done|]. cbn [tree fst snd]. destruct (Kind t); try done.
  intros [Hlen Hf]. split; [done|]. intros i f v Hi Hv.
  destruct i as [|[|[|i]]]; cbn in Hv; try done; injection Hv as <-.
  - by apply (Hf 0%nat).
  - apply (tree_iface _ _ _ x), (Hf 1%nat _ _ Hi eq_refl).
  - by apply (Hf 2%nat).
Qed.

Lemma keyed_swap h t a x x' b k :
  keyed h (t, VStruct [a; VIface x; b]) k → keyed h (t, VStruct [a; VIface x'; b]) k.
Proof. inversion 1; subst. by constructor. Qed.

Lemma all_settable_iface h marks n t x : all_settable h marks n (t, VIface x).
Proof.
  destruct n as [|n]; [done|]. split; [|intros y Hy; inversion Hy].
  split; [intros ? ? ? ? ?; congruence|intros Hk; inversion Hk].
Qed.

Lemma all_settable_swap h marks n t a x x' b :
  all_settable h marks n (t, VStruct [a; VIface x; b]) →
  all_settable h marks n (t, VStruct [a; VIface x'; b]).
Proof.
  destruct n as [|n]; [done|]. intros [[_ Hk] Hparts]. split.
  - split; [intros ? ? ? ? ?; congruence|]. intros Hin. apply (keyed_swap _ _ _ _ x) in Hin.
    destruct (Hk Hin) as (? & ? & ? & ? & ? & _). congruence.
  - intros y Hy. inversion Hy as [? ? i f v Ht Hf Hv| | | |]; subst.
    destruct i as [|[|[|i]]]; cbn in Hv; try done; injection Hv as <-.
    + apply Hparts. by apply (part_field _ _ _ 0%nat).
    + apply all_settable_iface.
    + apply Hparts. by apply (part_field _ _ _ 2%nat).
Qed.

(** ** Keys *)

Lemma keys_keyed fuel h n x ks k :
  tree h n x → keys fuel h (Some x) = Ret ks → k ∈ ks → keyed h x k.
Proof.
  revert n x ks. induction fuel as [|fuel IH]; intros [|n] [t v] ks Ht; try done.
  cbn [keys Value_Type]. unfold mbind at 1, outcome_bind at 1. cbn [tree fst snd] in Ht.
  destruct (Kind t) eqn:Hk; try (intros [= <-]; by intros ?%elem_of_nil);
    destruct v as [| | | |[l|]|l|vs|[a|]|p| |]; try done.
  - intros [= <-] (i & -> & Hi%elem_of_seq)%list_elem_of_fmap. cbn in Hi. apply keyed_elem; [done|lia].
  - intros [= <-]. by intros ?%elem_of_nil.
  - intros [= <-] (i & -> & Hi%elem_of_seq)%list_elem_of_fmap. cbn in Hi. apply keyed_item; [done|lia].
  - destruct Ht as (u & z & Ha & Ht). cbn [Value_Elem]. rewrite Ha. intros Hks Hin.
    eapply keyed_pointee; [done..|]. by eapply IH.
  - intros [= <-]. by intros ?%elem_of_nil.
  - intros [= <-] (e & He & Hs)%elem_of_sort_strings%list_elem_of_omap. by eapply keyed_entry.
  - intros [= <-] [Hu Hin]%list_elem_of_filter. by constructor.
Qed.

Lemma keyed_keys fuel h n x k :
  tree h n x → (n ≤ fuel)%nat → keyed h x k → ∃ ks, keys fuel h (Some x) = Ret ks ∧ k ∈ ks.
Proof.
  intros Ht Hle Hkey. revert n fuel Ht Hle.
  induction Hkey as [t vs name Hk Hin Hup|t l i Hk Hi|t l i Hk Hi|t p e key Hk Hin Hs|t a u z key Hk Ha Hkey IH];
    intros [|n] [|fuel] Ht Hle; try done; try lia;
    cbn [keys Value_Type]; unfold mbind at 1, outcome_bind at 1; rewrite Hk.
  - eexists. split; [done|]. by apply list_elem_of_filter.
  - eexists. split; [done|]. apply list_elem_of_fmap. exists i. split; [done|]. apply elem_of_seq. cbn. lia.
  - eexists. split; [done|]. apply list_elem_of_fmap. exists i. split; [done|]. apply elem_of_seq. cbn. lia.
  - eexists. split; [done|]. apply elem_of_sort_strings, list_elem_of_omap. by exists e.
  - cbn [Value_Elem]. rewrite Ha. apply (IH n); [|lia]. cbn [tree fst snd] in Ht. rewrite Hk in Ht.
    destruct Ht as (u0 & z0 & Ha0 & Ht). by simplify_eq.
Qed.

Lemma keyed_later h h' x k : later h h' → keyed h x k → keyed h' x k.
Proof.
  intros Hl. induction 1 as [| | |t p e key Hk Hin Hs|t a u z key Hk Ha Hkey IH]; [by constructor..| |].
  - eapply keyed_entry; [done| |done].
    destruct (later_entries h h' p Hl) as [->|(? & ? & _ & _ & _ & ->)]; [done|].
    apply elem_of_app. by left.
  - destruct (later_lookup h h' a _ Hl Ha) as (o' & Ha' & Ho').
    destruct (evolves_var _ _ _ Ho') as (u' & z' & -> & Hz').
    eapply keyed_pointee; [done..|].
    destruct Hz' as [->|(? & ? & ? & ? & -> & ->)]; [done|by eapply keyed_swap].
Qed.

(** The value of a key, later: the same, unless it is the caller of a [Ptr]. *)
Lemma field_named_swap name fs a x x' b y :
  field_named name fs [a; VIface x; b] = Some y →
  field_named name fs [a; VIface x'; b] = Some y ∨ ∃ t v, y = (t, VIface v).
Proof.
  destruct fs as [|[[n1 g1] t1] [|[[n2 g2] t2] fs]]; cbn; [done| |].
  { destruct (n1 =? name)%string; [by left|done]. }
  destruct (n1 =? name)%string; [by left|]. destruct (n2 =? name)%string; [|by left].
  intros [= <-]. right. eauto.
Qed.

Lemma field_named_swap_none name fs a x x' b :
  field_named name fs [a; VIface x; b] = None → field_named name fs [a; VIface x'; b] = None.
Proof.
  destruct fs as [|[[n1 g1] t1] [|[[n2 g2] t2] fs]]; cbn; [done| |].
  { by destruct (n1 =? name)%string. }
  destruct (n1 =? name)%string; [done|]. by destruct (n2 =? name)%string.
Qed.

Lemma prop_swap fuel h t a x x' b k y :
  prop fuel h (Some (t, VStruct [a; VIface x; b])) k = Ret (Some y) →
  prop fuel h (Some (t, VStruct [a; VIface x'; b])) k = Ret (Some y) ∨ ∃ t v, y = (t, VIface v).
Proof.
  destruct fuel as [|fuel]; [done|]. cbn [prop Value_Type mbind outcome_bind].
  destruct (Kind t); try done.
  - destruct (Atoi k); [|done]. by cbn.
  - destruct (Atoi k); [|done]. by cbn.
  - cbn [Value_Elem]. destruct fuel; done.
  - cbn [FieldByName].
    destruct (field_named k (struct_fields t) [a; VIface x; b]) as [r|] eqn:Hr.
    + intros [= ->]. destruct (field_named_swap _ _ _ _ x' _ _ Hr) as [->|?]; [by left|by right].
    + rewrite (field_named_swap_none _ _ _ _ x' _ Hr). destruct (tagged_field k _) as [name|]; [|done].
      intros [= Hn]. destruct (field_named_swap _ _ _ _ x' _ _ Hn) as [->|?]; [by left|by right].
Qed.

Lemma prop_later fuel h h' x k y :
  later h h' → prop fuel h (Some x) k = Ret (Some y) →
  prop fuel h' (Some x) k = Ret (Some y) ∨ ∃ t v, y = (t, VIface v).
Proof.
  intros Hl. revert x. induction fuel as [|fuel IH]; intros [t v]; [done|].
  cbn [prop Value_Type mbind outcome_bind].
  destruct (Kind t); try (intros; by left).
  - destruct v as [| | | | | | |[a|]| | |]; try (cbn [Value_Elem]; destruct fuel; done).
    cbn [Value_Elem]. destruct (h !! a) as [[u z|es]|] eqn:Ha; try done.
    destruct (later_lookup h h' a _ Hl Ha) as (o' & -> & Ho').
    destruct (evolves_var _ _ _ Ho') as (u' & z' & -> & Hz').
    intros [Hp|Hp]%IH; [|by right].
    destruct Hz' as [->|(? & ? & ? & ? & -> & ->)]; [by left|by eapply prop_swap].
  - destruct v as [| | | | | | | |p| |]; try done. unfold MapIndex. destruct (map_types t) as [K E].
    unfold mbind, outcome_bind. destruct (assignTo _ _ K); try done.
    destruct (later_entries h h' p Hl) as [->|(? & ? & _ & _ & _ & ->)]; [by left|].
    intros Hp. left. rewrite <- Hp.
    assert (∀ l l' (f : value * value → bool) kv, List.find f l = Some kv → List.find f (l ++ l') = Some kv)
      as Happ.
    { clear. intros l l' f kv. induction l as [|x l IH]; cbn; [done|]. by destruct (f x). }
    destruct (List.find (has_key K k) (map_entries h p)) as [kv|] eqn:Hf; [|done].
    by rewrite (Happ _ _ _ _ Hf).
Qed.

(** ** Trees in a changed heap *)

Section from.
Context (h : heap).

Lemma later_tree marks n d h' x :
  later h h' → (marks = true → tree h' d c) → tree h n x → all_settable h marks n x →
  tree h' (n + d) x.
Proof.
  intros Hl Hc. revert x. induction n as [|n IH]; intros [t v] Ht Hs; [done|].
  destruct Hs as [[Hset _] Hparts]. cbn [Nat.add tree fst snd] in *.
  assert (Hval : ∀ y, match Value_Interface y with Some y => tree h n y | None => True end →
    (∀ z, Value_Interface y = Some z → part h (t, v) z) →
    match Value_Interface y with Some y => tree h' (n + d) y | None => True end).
  { intros y. destruct (Value_Interface y) as [z|]; [|done]. intros Hz Hp.
    apply IH; [done|]. by apply Hparts, Hp. }
  destruct (Kind t) eqn:Hk; try done; destruct v as [| | | |o|l|fs|[a|]|p| |]; try done.
  - intros v Hv. apply Hval; [by apply Ht|]. intros z Hz.
    destruct o as [l|]; [by eapply part_elem|by apply elem_of_nil in Hv].
  - intros v Hv. apply Hval; [by apply Ht|]. intros z Hz. by eapply part_item.
  - destruct Ht as (u & z & Ha & Hz).
    destruct (later_lookup h h' a _ Hl Ha) as (o' & Ha' & Ho').
    destruct (evolves_var _ _ _ Ho') as (u' & z' & -> & Hz'). exists u', z'. split; [done|].
    assert (tree h' (n + d) (Elem t, z)) as Hzt.
    { apply IH; [done|]. by eapply Hparts, part_pointee. }
    destruct Hz' as [->|(? & ? & ? & ? & -> & ->)]; [done|by eapply tree_swap].
  - assert (Hold : ∀ e, e ∈ map_entries h p →
      (is_Some (string_key (map_types t).1 e.1) → AssignableTo TString (map_types t).1 = true) ∧
      match Value_Interface ((map_types t).2, e.2) with
      | Some y => tree h' (n + d) y | None => True end).
    { intros e He. destruct (Ht e He) as [H1 H2]. split; [done|]. apply Hval; [done|].
      intros z Hz. by eapply part_entry. }
    destruct (later_entries h h' p Hl) as [->|(a & es & -> & Ha & [[v Hv] Hno] & ->)]; [done|].
    intros e [He| ->%list_elem_of_singleton]%elem_of_app; [by apply Hold|].
    destruct (Hset t a es v eq_refl Ha Hv) as (Hm & -> & _). split; [done|].
    change (tree h' (n + d) c). apply (tree_mono _ d); [lia|by apply Hc].
  - destruct Ht as [Hlen Ht]. split; [done|]. intros i f v Hf Hv.
    apply IH; [by eapply Ht|]. by eapply Hparts, part_field.
Qed.

(** ** What a walk may meet *)

Context (m : nat) (Hct : tree h m c) (Hcs : all_settable h false m c).

(** A part of the value being walked, or of the caller; [k] bounds its height in
    every later heap. *)
Definition fine (k : nat) (x : rtype * value) : Prop :=
  ∃ n, tree h n x ∧ ((all_settable h true n x ∧ (n + m ≤ k)%nat) ∨
                     (all_settable h false n x ∧ (n ≤ k)%nat)).

Lemma fine_mono k k' x : (k ≤ k')%nat → fine k x → fine k' x.
Proof. intros Hle (n & Ht & [[Hs Hn]|[Hs Hn]]); exists n; (split; [done|]); [left|right]; split; (done || lia). Qed.

Lemma fine_c k : (m ≤ k)%nat → fine k c.
Proof. intros Hle. exists m. split; [exact Hct|]. right. by split. Qed.

Lemma later_caller h' : later h h' → tree h' m c.
Proof. intros Hl. rewrite <- (Nat.add_0_r m). apply (later_tree false m 0 h' c); [done..|exact Hct|exact Hcs]. Qed.

Lemma fine_tree k x h' : later h h' → fine k x → tree h' k x.
Proof.
  intros Hl (n & Ht & [[Hs Hn]|[Hs Hn]]).
  - eapply tree_mono; [exact Hn|]. eapply later_tree; [done| |done|exact Hs].
    intros _. by apply later_caller.
  - eapply tree_mono; [exact Hn|]. rewrite <- (Nat.add_0_r n). by apply (later_tree false n 0 h' x).
Qed.

Lemma fine_O x : ¬ fine 0 x.
Proof. intros Hf. by apply (fine_tree 0 x h) in Hf. Qed.

Lemma fine_settable k x : fine k x → settable h true x.
Proof.
  intros (n & Ht & [[Hs _]|[Hs _]]); (destruct n as [|n]; [done|]); destruct Hs as [[H1 H2] _].
  - by split.
  - split; [|done]. intros t a es v Hx Ha Hv. by destruct (H1 t a es v Hx Ha Hv).
Qed.

Lemma fine_part k x y :
  fine (S k) x → part h x y → (∀ n, tree h (S n) x → tree h n y) → fine k y.
Proof.
  intros (n & Ht & [[Hs Hn]|[Hs Hn]]) Hp Hy; (destruct n as [|n]; [done|]); exists n;
    (split; [by apply Hy|]); [left|right]; (split; [by apply Hs|lia]).
Qed.

(** A map that can hold a caller: it is walked with the caller's height to spare. *)
Lemma fine_marked k t a es :
  fine (S k) (t, VMap (Some a)) → h !! a = Some (OMap es) → fresh_map es →
  map_types t = (TString, TAny) ∧ (m ≤ k)%nat.
Proof.
  intros (n & Ht & Hs) Ha [[v Hv] _]. destruct n as [|n]; [done|].
  destruct Hs as [[[[H1 _] _] Hn]|[[[H1 _] _] Hn]];
    destruct (H1 t a es v eq_refl Ha Hv) as (Hm & Htypes & _); [|done]. split; [done|lia].
Qed.

Lemma fine_swap k t a x x' b :
  fine k (t, VStruct [a; VIface x; b]) → fine k (t, VStruct [a; VIface x'; b]).
Proof.
  intros (n & Ht & Hs). exists n. split; [by eapply tree_swap|].
  destruct Hs as [[Hs Hn]|[Hs Hn]]; [left|right]; (split; [by eapply all_settable_swap|done]).
Qed.

(** What a pointer points to, before and after. *)
Lemma fine_pointee k t a u' z' h' :
  later h h' → Kind t = KPtr → fine (S k) (t, VPtr (Some a)) → h' !! a = Some (OVar u' z') →
  fine k (Elem t, z') ∧ ∃ u z, h !! a = Some (OVar u z) ∧ fine k (Elem t, z) ∧
    (∀ key, keyed h (Elem t, z') key → keyed h (Elem t, z) key).
Proof.
  intros Hl Hk Hf Ha'. destruct (later_back h h' a _ Hl Ha') as (o & Ha & Ho).
  destruct (evolves_var_back _ _ _ Ho) as (u & z & -> & Hz).
  assert (fine k (Elem t, z)) as Hfz.
  { eapply fine_part; [exact Hf|by eapply part_pointee|]. intros n Ht. cbn [tree fst snd] in Ht.
    rewrite Hk in Ht. destruct Ht as (u0 & z0 & Ha0 & Ht). by simplify_eq. }
  destruct Hz as [->|(? & ? & ? & ? & -> & ->)].
  - split; [done|]. by exists u, z.
  - split; [by eapply fine_swap|]. eexists _, _. split; [done|]. split; [done|].
    intros key. apply keyed_swap.
Qed.

(** The parts of a fine value in a later heap are fine. *)
Lemma later_child h' k x y : later h h' → fine (S k) x → child h' x y → fine k y.
Proof.
  intros Hl Hf Hc. revert k Hf.
  induction Hc as [t vs name y Hk Hin Hup Hy|t l i v y Hk Hi Hy|t l i v y Hk Hi Hy
    |t p key kv v y Hk Hfd Hy|t a u z y Hk Ha Hc IH]; intros k Hf.
  - assert (∃ n, tree h (S n) (t, VStruct vs)) as [n Ht].
    { destruct Hf as ([|n] & Ht & _); [done|by exists n]. }
    cbn [tree fst snd] in Ht. rewrite Hk in Ht. destruct Ht as [Hlen _].
    destruct (field_named_Some name (struct_fields t) vs Hin Hlen) as (i & f & v & Hi & Hv & Hn).
    rewrite Hn in Hy. injection Hy as <-.
    eapply fine_part; [exact Hf|by eapply part_field|]. intros n' Ht'. cbn [tree fst snd] in Ht'.
    rewrite Hk in Ht'. by eapply Ht'.
  - apply list_elem_of_lookup_2 in Hi. eapply fine_part; [exact Hf|by eapply part_elem|].
    intros n Ht. cbn [tree fst snd] in Ht. rewrite Hk in Ht. specialize (Ht v Hi). by rewrite Hy in Ht.
  - apply list_elem_of_lookup_2 in Hi. eapply fine_part; [exact Hf|by eapply part_item|].
    intros n Ht. cbn [tree fst snd] in Ht. rewrite Hk in Ht. specialize (Ht v Hi). by rewrite Hy in Ht.
  - destruct (find_key _ _ _ _ Hfd) as [Hin _].
    assert (Hold : (kv, v) ∈ map_entries h p → fine k y).
    { intros Hin'. eapply fine_part; [exact Hf|by eapply part_entry|].
      intros n Ht. cbn [tree fst snd] in Ht. rewrite Hk in Ht. destruct (Ht _ Hin') as [_ Ht'].
      cbn [snd] in Ht'. by rewrite Hy in Ht'. }
    destruct (later_entries h h' p Hl) as [E|(a & es & -> & Ha & Hes & E)]; rewrite E in Hin.
    + by apply Hold.
    + apply elem_of_app in Hin as [Hin|Hin%list_elem_of_singleton]; [by apply Hold|].
      injection Hin as -> ->. destruct (fine_marked k t a es Hf Ha Hes) as [Hm Hle].
      rewrite Hm in Hy. injection Hy as <-. by apply fine_c.
  - destruct (fine_pointee k t a u z h' Hl Hk Hf Ha) as [Hz _].
    destruct k as [|k]; [by apply fine_O in Hz|]. apply (fine_mono k); [lia|]. by apply IH.
Qed.

(** No value gets the special key. *)
Lemma later_fnptr h' k x :
  later h h' → fine k x → keyed h' x "$fnptr" → keyed h x "$fnptr".
Proof.
  intros Hl Hf Hkey. remember "$fnptr"%string as key eqn:E. revert k Hf.
  induction Hkey as [t vs name Hk Hin Hup|t l i Hk Hi|t l i Hk Hi|t p e key Hk Hin Hs|t a u z key Hk Ha Hkey IH];
    intros [|k] Hf; try by apply fine_O in Hf.
  1-3: by constructor.
  - destruct (later_entries h h' p Hl) as [E'|(a & es & -> & Ha & Hes & E')]; rewrite E' in Hin.
    + by eapply keyed_entry.
    + apply elem_of_app in Hin as [Hin| ->%list_elem_of_singleton]; [by eapply keyed_entry|].
      destruct (fine_marked k t a es Hf Ha Hes) as [Hm _]. rewrite Hm in Hs. subst. discriminate Hs.
  - destruct (fine_pointee k t a u z h' Hl Hk Hf Ha) as (Hz & u0 & z0 & Ha0 & _ & Hback).
    eapply keyed_pointee; [done..|]. apply Hback. by apply (IH E k).
Qed.

(** ** The walk of SetCallers *)

Context (Hiface : is_interface c.1 = false).

(** The map at [a] got its caller, and only that. *)
Definition has_caller (h' : heap) (a : nat) : Prop :=
  ∃ es, h !! a = Some (OMap es) ∧ h' !! a = Some (OMap (es ++ [caller_entry])).

Lemma has_caller_later h1 h2 a : later h1 h2 → has_caller h1 a → has_caller h2 a.
Proof.
  intros Hl (es & Ha & Ha1). exists es. split; [done|].
  destruct (later_lookup h1 h2 a _ Hl Ha1) as (o & -> & Ho). inversion Ho as [| |? [_ Hno]]; [done|].
  subst. apply Forall_app in Hno as [_ Hno]. inversion Hno as [|? ? Hce]. discriminate Hce.
Qed.

Lemma set_entry_new es :
  Forall (λ e, has_key TString "Caller" e = false) es →
  set_entry TString "Caller" caller_entry es = es ++ [caller_entry] ∧
  set_entry TString "Caller" caller_entry (es ++ [caller_entry]) = es ++ [caller_entry].
Proof. induction 1 as [|e es He _ [IH1 IH2]]; [done|]. cbn. by rewrite He, IH1, IH2. Qed.

(** A visit of the special key succeeds. *)
Lemma SetMapIndex_eq h1 k x :
  later h h1 → fine k x → keyed h1 x "$fnptr" →
  ∃ t a h2, x = (t, VMap (Some a)) ∧ SetMapIndex h1 (Some x) "Caller" c = Ret h2 ∧
    later h1 h2 ∧ has_caller h2 a.
Proof.
  intros Hl Hf Hkey. destruct (fine_settable k x Hf) as [Hset Hmap].
  destruct (Hmap (later_fnptr h1 k x Hl Hf Hkey)) as (t & a & es & v & -> & Ha & Hv).
  destruct (Hset t a es v eq_refl Ha Hv) as (_ & Htypes & Hfresh).
  exists t, a, (<[a := OMap (es ++ [caller_entry])]> h1). split; [done|].
  destruct (set_entry_new es (proj2 Hfresh)) as [E1 E2].
  assert (assignTo ("reflect.Value.SetMapIndex: " +:+ not_assignable c.1 TAny) c TAny
    = Ret (VIface (Some c))) as Hassign.
  { assert (Value_Interface c = Some c) as Hvi
      by (destruct c as [ct cv]; cbn [fst] in Hiface; cbn; rewrite Hiface; by destruct cv).
    unfold assignTo. rewrite Hvi.
    assert (directlyAssignable TAny c.1 = false) as ->; [|done].
    unfold directlyAssignable. rewrite !bool_decide_false; [by rewrite andb_false_r| |];
      intros Heq; unfold is_interface, Kind in Hiface; rewrite <- Heq in Hiface; done. }
  destruct (later_lookup h h1 a _ Hl Ha) as (o & Ha1 & Ho).
  assert (o = OMap es ∨ o = OMap (es ++ [caller_entry])) as Hcases
    by (inversion Ho; subst; [by left|by right]).
  split_and!.
  - unfold SetMapIndex. rewrite Htypes, Hassign.
    assert (∀ w, assignTo w (TString, VString "Caller") TString = Ret (VString "Caller")) as -> by done.
    cbn -[set_entry]. rewrite Ha1. change (VString "Caller", VIface (Some c)) with caller_entry.
    destruct Hcases as [-> | ->]; by rewrite ?E1, ?E2.
  - eapply later_insert; [exact Ha1|]. destruct Hcases as [-> | ->]; by constructor.
  - exists es. by rewrite lookup_insert_eq.
Qed.

(** An encoded pointer that the walk gets to. *)
Definition reached (x : rtype * value) (a : nat) (id : string) : Prop :=
  ∃ t, rtc (child h) x (t, VMap (Some a)) ∧ Kind t = KMap ∧ encoded h a id.

Lemma reached_iface t v a id : ¬ reached (t, VIface v) a id.
Proof.
  intros (u & Hr & _). inversion Hr as [|? ? ? Hc]; subst. inversion Hc.
Qed.

(** What a walk does. *)
Definition sets (x : rtype * value) (m : M (heap * list string) (option error)) (h1 : heap)
    (acc : list string) : Prop :=
  ∃ h2 l, m (h1, acc) = (Ret None, (h2, acc ++ l)) ∧ later h1 h2 ∧
    ∀ a id, reached x a id → has_caller h2 a ∧ id ∈ l.

(** A visit by the walk of [SetCallers]. *)
Lemma set_map_caller_eq h1 k key path x y acc :
  later h h1 → fine k x → keyed h1 x key →
  ∃ h2 l, set_map_caller c (Some y) (Some x) (path ++ [key]) (h1, acc) = (Ret None, (h2, acc ++ l)) ∧
    later h1 h2 ∧
    ∀ t a, key = "$fnptr"%string → x = (t, VMap (Some a)) → has_caller h2 a ∧ Value_String y ∈ l.
Proof.
  intros Hl Hf Hkey. unfold set_map_caller. rewrite last_snoc. case_bool_decide as Hk.
  - injection Hk as ->. destruct (SetMapIndex_eq h1 k x Hl Hf Hkey) as (t & a & h2 & -> & Hm & H12 & Hc).
    cbn [fst snd]. rewrite Hm. exists h2, [Value_String y]. split; [done|]. split; [done|].
    intros t' a' _ [= <- <-]. split; [done|by left].
  - exists h1, []. rewrite app_nil_r. split; [done|]. split; [done|]. intros t a ->. done.
Qed.

Lemma walk_keys_set fuel x path rec ks h1 acc :
  later h h1 → fine (S fuel) x → (∀ k, k ∈ ks → keyed h1 x k) →
  (∀ y path h1 acc, later h h1 → fine fuel y → sets y (rec (Some y) path) h1 acc) →
  ∃ h2 l, walk_keys (S fuel) (Some x) path (set_map_caller c) rec ks (h1, acc)
      = (Ret None, (h2, acc ++ l)) ∧ later h1 h2 ∧
    ∀ k y, k ∈ ks → prop (S fuel) h (Some x) k = Ret (Some y) → (∀ t v, y ≠ (t, VIface v)) →
      (∀ a id, reached y a id → has_caller h2 a ∧ id ∈ l) ∧
      (∀ t a, k = "$fnptr"%string → x = (t, VMap (Some a)) →
         has_caller h2 a ∧ Value_String y ∈ l).
Proof.
  intros Hl Hf. revert h1 acc Hl. induction ks as [|k ks IH]; intros h1 acc Hl Hks Hrec.
  { exists h1, []. rewrite app_nil_r. split; [done|]. split; [done|]. by intros k y ?%elem_of_nil. }
  pose proof (fine_tree (S fuel) x h1 Hl Hf) as Ht.
  destruct (tree_walkable h1 fuel (S fuel) x Ht (le_n _)) as (ks1 & Hks1 & Hprop & _).
  destruct (keyed_keys (S fuel) h1 (S fuel) x k Ht (le_n _)) as (ks1' & Hks1' & Hk1); [by apply Hks; left|].
  rewrite Hks1 in Hks1'. injection Hks1' as <-.
  destruct (Hprop k Hk1) as (r & Hr & Hrc).
  cbn [walk_keys]. erewrite bind_ret by reflexivity. cbn [fst].
  erewrite bind_ret by (unfold lift; by rewrite Hr).
  assert (Hsame : ∀ y, prop (S fuel) h (Some x) k = Ret (Some y) → (∀ t v, y ≠ (t, VIface v)) →
    r = Some y).
  { intros y Hy Hno. destruct (prop_later (S fuel) h h1 x k y Hl Hy) as [E|(t & v & ->)].
    - rewrite Hr in E. by injection E.
    - by destruct (Hno t v). }
  destruct r as [y|].
  2: { destruct (IH h1 acc Hl) as (h2 & l & -> & H12 & Hdone); [intros; apply Hks; by right|done|].
       exists h2, l. split; [done|]. split; [done|].
       intros k' y' [->|Hin]%elem_of_cons Hy Hno; [by specialize (Hsame y' Hy Hno)|by apply (Hdone k')]. }
  destruct (set_map_caller_eq h1 (S fuel) k path x y acc Hl Hf) as (h2 & lv & Hvisit & H12 & Hset);
    [by apply Hks; left|].
  erewrite bind_ret by exact Hvisit. cbv iota.
  assert (later h h2) as Hl2 by by transitivity h1.
  destruct (Hrec y (path ++ [k]) h2 (acc ++ lv) Hl2) as (h3 & ly & Hy & H23 & Hreach).
  { eapply later_child; [exact Hl|exact Hf|]. by apply Hrc. }
  erewrite bind_ret by exact Hy. cbv iota.
  destruct (IH h3 ((acc ++ lv) ++ ly)) as (h4 & l & -> & H34 & Hdone); [by transitivity h2| |done|].
  { intros k' Hin. apply (keyed_later h1); [by transitivity h2|]. apply Hks. by right. }
  exists h4, (lv ++ ly ++ l). rewrite <- !app_assoc. split; [done|].
  split; [transitivity h2; [done|]; by transitivity h3|].
  intros k' y' [->|Hin]%elem_of_cons Hp Hno.
  - injection (Hsame y' Hp Hno) as ->. split.
    + intros a id [Hc Hid]%Hreach. split; [by eapply has_caller_later|rewrite !elem_of_app; tauto].
    + intros t a Hk Hx. destruct (Hset t a Hk Hx) as [Hc Hv].
      split; [|rewrite !elem_of_app; tauto]. apply (has_caller_later h2); [by transitivity h3|done].
  - destruct (Hdone k' y' Hin Hp Hno) as [H1 H2]. split.
    + intros a id Ha. destruct (H1 a id Ha). split; [done|]. rewrite !elem_of_app. tauto.
    + intros t a Hk Hx. destruct (H2 t a Hk Hx). split; [done|]. rewrite !elem_of_app. tauto.
Qed.

(** The special key of an encoded pointer. *)
Lemma encoded_prop fuel k t a id :
  fine k (t, VMap (Some a)) → Kind t = KMap → encoded h a id →
  keyed h (t, VMap (Some a)) "$fnptr" ∧
  prop (S fuel) h (Some (t, VMap (Some a))) "$fnptr" = Ret (Some (TString, VString id)).
Proof.
  intros Hf Hk (es & Ha & Hfd). pose proof (find_key _ _ _ _ Hfd) as [Hin Hs].
  destruct (proj1 (fine_settable k _ Hf) t a es _ eq_refl Ha Hin) as (_ & Htypes & _). split.
  - eapply keyed_entry; [done| |by rewrite Htypes]. unfold map_entries. by rewrite Ha.
  - cbn [prop Value_Type mbind outcome_bind]. rewrite Hk. unfold MapIndex. rewrite Htypes.
    cbn [mbind outcome_bind]. unfold map_entries. rewrite Ha.
    cbn -[List.find]. by rewrite Hfd.
Qed.

Lemma walk_set fuel x path h1 acc :
  later h h1 → fine fuel x → sets x (walk fuel (Some x) path (set_map_caller c)) h1 acc.
Proof.
  revert x path h1 acc. induction fuel as [|fuel IH]; intros x path h1 acc Hl Hf;
    [by apply fine_O in Hf|].
  pose proof (fine_tree (S fuel) x h1 Hl Hf) as Ht.
  destruct (tree_walkable h1 fuel (S fuel) x Ht (le_n _)) as (ks & Hks & _).
  assert (Hin : ∀ k, keyed h x k → k ∈ ks).
  { intros k Hkey. destruct (keyed_keys (S fuel) h1 (S fuel) x k Ht (le_n _)) as (ks' & Hks' & Hk);
      [by eapply keyed_later|]. rewrite Hks in Hks'. by injection Hks' as <-. }
  unfold sets. cbn [walk]. erewrite bind_ret by reflexivity. cbn [fst].
  erewrite bind_ret by (unfold lift; by rewrite Hks).
  destruct (walk_keys_set fuel x path (λ vv p, walk fuel vv p (set_map_caller c)) ks h1 acc)
    as (h2 & l & Hw & H12 & Hdone); [done|done|by intros; eapply keys_keyed|by intros; apply IH|].
  exists h2, l. split; [exact Hw|]. split; [done|]. intros a id (t & Hr & Hk & Henc).
  inversion Hr as [|? y ? Hc Hr']; subst.
  - destruct (encoded_prop fuel (S fuel) t a id Hf Hk Henc) as [Hkey Hp].
    by apply (proj2 (Hdone "$fnptr"%string _ (Hin _ Hkey) Hp ltac:(done)) t a).
  - destruct Hf as ([|n] & Hn & Hle); [done|].
    destruct (tree_walkable h n (S fuel) x Hn) as (ks0 & Hks0 & _ & Hchild); [lia|].
    destruct (Hchild y Hc) as (k & Hk0 & Hp).
    apply (proj1 (Hdone k y (Hin k (keys_keyed _ _ _ _ _ _ Hn Hks0 Hk0)) Hp
      ltac:(intros u v ->; by apply (reached_iface u v a id); exists t))). by exists t.
Qed.
End from.

(** ** The pointers themselves *)

Lemma ptr_at_insert h a b id caller fn :
  ptr_at (<[a := ptr_var id caller fn]> h) b
  = if decide (a = b) then Some (id, caller, fn) else ptr_at h b.
Proof.
  unfold ptr_at. case_decide; subst; [by rewrite lookup_insert_eq|by rewrite lookup_insert_ne].
Qed.

Lemma ptr_at_Some h a id caller fn :
  ptr_at h a = Some (id, caller, fn) →
  ∃ t, h !! a = Some (OVar t (VStruct [VString id; VIface caller; VIface fn])).
Proof.
  unfold ptr_at. destruct (h !! a) as [[t v|]|]; try done. intros Hp.
  repeat case_match; simplify_eq. by exists t.
Qed.

(** Once set, a caller stays. *)
Lemma ptr_at_later h1 h2 a id fn :
  later h1 h2 → ptr_at h1 a = Some (id, Some c, fn) → ptr_at h2 a = Some (id, Some c, fn).
Proof.
  intros Hl (t & Ha)%ptr_at_Some. destruct (later_lookup h1 h2 a _ Hl Ha) as (o & Ha2 & Ho).
  unfold ptr_at. rewrite Ha2. by inversion Ho.
Qed.

Lemma set_ptr_callers_eq ptrs h acc :
  Forall (λ a, is_Some (ptr_at h a)) ptrs →
  ∃ h' ids, set_ptr_callers c ptrs (h, acc) = (Ret tt, (h', acc ++ ids)) ∧ later h h' ∧
    ∀ a id caller fn, a ∈ ptrs → ptr_at h a = Some (id, caller, fn) →
      ptr_at h' a = Some (id, Some c, fn) ∧ id ∈ ids.
Proof.
  revert h acc. induction ptrs as [|b ptrs IH]; intros h acc Hall.
  { exists h, []. rewrite app_nil_r. split; [done|]. split; [done|]. by intros ? ? ? ? ?%elem_of_nil. }
  inversion Hall as [|? ? [[[bid bcaller] bfn] Hb] Hptrs]; subst.
  cbn [set_ptr_callers fst snd]. rewrite Hb. set (h1 := <[b := ptr_var bid (Some c) bfn]> h).
  assert (later h h1) as H01.
  { destruct (ptr_at_Some _ _ _ _ _ Hb) as [t Ht]. eapply later_insert; [exact Ht|constructor]. }
  destruct (IH h1 (acc ++ [bid])) as (h' & ids & Heq & H1 & Hset).
  { eapply Forall_impl; [exact Hptrs|]. intros a [[[id caller] fn] Ha]. unfold h1.
    rewrite ptr_at_insert. case_decide; by eexists. }
  exists h', (bid :: ids). rewrite Heq, <- app_assoc. split; [done|]. split; [by transitivity h1|].
  intros a id caller fn Hin Ha. destruct (decide (a = b)) as [->|Hne].
  - rewrite Hb in Ha. injection Ha as <- <- <-. split; [|by left].
    apply (ptr_at_later h1); [done|]. unfold h1. by rewrite ptr_at_insert, decide_True.
  - apply elem_of_cons in Hin as [?|Hin]; [done|].
    destruct (Hset a id caller fn Hin) as [H2 H3]; [|by split; [|right]].
    unfold h1. by rewrite ptr_at_insert, decide_False.
Qed.
End callers.
