(* ===== verification/ExpProperties.v ===== *)
(** * exp/ptr.go: properties

    Walking ends with exactly the pointers of a value, callers are set on all
    of them, registering is idempotent and can be undone; and where that fails:
    catch-all handlers, cyclic values, encoded pointers behind a pointer. *)
From Stdlib Require Import Floats.SpecFloat Ascii String.
From S2P Require Import Prelude GoRuntime GoReflect Fn FrameCodec RespondMux.
From S2P Require Import RespondMuxSpec Rpc RpcSpec Exp ExpSpec PtrCallers FnProperties.

Local Open Scope Z_scope.

Import Demo.

(** ** Properties *)

(** C37. [PtrsFrom] ends with exactly the pointers in a value: for a value that
    unfolds to a finite tree it returns - with as much fuel as the tree is high -
    the addresses of precisely the non-nil [Ptr]s that occur below it as exported
    fields, elements, entries of string keys or behind pointers. *)
Theorem PtrsFrom_exact `{GT : GoTypes} h n fuel x :
  tree h n x → (n ≤ fuel)%nat →
  ∃ ptrs, PtrsFrom fuel h (Some x) = Ret ptrs ∧ ∀ a, a ∈ ptrs ↔ occurs h x a.
Proof. apply PtrsFrom_eq. Qed.

(** C38. [SetCallers] makes every pointer of a value callable. It returns for a
    value and a caller that unfold to finite trees, however [Ptr]s and maps are
    shared, if maps with the special key "$fnptr" can hold a caller, have none yet
    and are not behind a pointer (there are none in the caller). Then each [Ptr] that
    occurs in the value has the caller, keeps its id and its function, and [Call] on
    it calls the caller with its id as the selector; each map below the value that
    encodes a pointer got the caller under "Caller" and is otherwise as it was; and
    the ids of all of them are among those returned. *)
Theorem SetCallers_sets `{GT : GoTypes} {R} (call : rtype * value → string → R) h n m fuel x c :
  tree h n x → tree h m c → (n + m ≤ fuel)%nat → is_interface c.1 = false →
  (∀ a, occurs h x a → is_Some (ptr_at h a)) →
  all_settable h true n x → all_settable h false m c →
  ∃ ids h', SetCallers fuel (Some x) c h = (Ret ids, h') ∧
    (∀ a id caller fn, occurs h x a → ptr_at h a = Some (id, caller, fn) →
       ptr_at h' a = Some (id, Some c, fn) ∧ id ∈ ids ∧ Ptr_Call call h' a = Ret (call c id)) ∧
    (∀ t a id, rtc (child h) x (t, VMap (Some a)) → Kind t = KMap → encoded h a id →
       id ∈ ids ∧ ∃ es, h !! a = Some (OMap es) ∧
         h' !! a = Some (OMap (es ++ [(VString "Caller", VIface (Some c))]))).
Proof.
  intros Ht Htc Hle Hc Hall Hs Hsc.
  destruct (PtrsFrom_eq h fuel n x Ht) as (ptrs & Hptrs & Hin); [lia|].
  destruct (set_ptr_callers_eq c ptrs h []) as (h1 & ids1 & Hcallers & H01 & Hspec).
  { apply Forall_forall. intros b Hb. by apply Hall, Hin. }
  destruct (walk_set c h m Htc Hsc Hc fuel x [] h1 ids1 H01) as (h2 & l & Hw & H12 & Hreach).
  { exists n. split; [done|]. by left. }
  exists (ids1 ++ l), h2. split_and!.
  - unfold SetCallers. rewrite Hptrs. rewrite (bind_ret _ _ _ _ _ Hcallers). cbn [app].
    unfold ValueOf. by rewrite Hw.
  - intros a id caller fn Ho%Hin Ha. destruct (Hspec a id caller fn Ho Ha) as [Ha1 Hid].
    pose proof (ptr_at_later c h1 h2 a id fn H12 Ha1) as Ha2.
    split_and!; [done|apply elem_of_app; by left|]. unfold Ptr_Call. by rewrite Ha2.
  - intros t a id Hr Hk He. destruct (Hreach a id) as [Hca Hid]; [by exists t|].
    split; [apply elem_of_app; by right|]. exact Hca.
Qed.

(** A struct with one callback, the sum of Fn's demonstration. *)
Module CallbackDemo.

Definition cb : iface := Some (Demo.sum_type, VFunc (Some 0%nat)).

Definition mem : heap := {[ 0%nat := ptr_var "c1" None cb ]}.

Definition data : rtype * value :=
  (TStruct [("Name", "name", TString); ("Fn", "", ptr_type)]%string,
   VStruct [VString "x"; VPtr (Some 0%nat)]).

Lemma data_tree : tree mem 4 data.
Proof.
  cbn. split; [done|]. intros [|[|i]] f v; [|cbn|done].
  - by intros [= <-] [= <-].
  - intros [= <-] [= <-]. eexists _, _. split; [reflexivity|]. cbn. split; [done|].
    intros [|[|[|j]]] f v; [cbn..|done]; by intros [= <-] [= <-].
Qed.

Lemma data_occurs a : occurs mem data a → a = 0%nat.
Proof.
  intros Hocc. destruct (PtrsFrom_eq mem 4 4 data data_tree ltac:(done)) as (l & Hl & Hin).
  apply Hin in Hocc. vm_compute in Hl. injection Hl as <-. by apply list_elem_of_singleton in Hocc.
Qed.

Lemma data_occurs_0 : occurs mem data 0.
Proof.
  destruct (PtrsFrom_eq mem 4 4 data data_tree ltac:(done)) as (l & Hl & Hin).
  apply Hin. vm_compute in Hl. injection Hl as <-. by left.
Qed.

Lemma data_ptr_ok : ∃ hd, ptr_ok mem 0 "c1" hd.
Proof.
  destruct (fromFunc mem (Some (Demo.sum_type, VFunc (Some 0%nat)))) as [hd| | |] eqn:Hd;
    [|discriminate Hd..].
  exists hd. by exists None, Demo.sum_type, (Some 0%nat).
Qed.
End CallbackDemo.

Lemma PtrsFrom_exact_witness :
  ∃ ptrs, PtrsFrom 4 CallbackDemo.mem (Some CallbackDemo.data) = Ret ptrs ∧
    ∀ a, a ∈ ptrs ↔ occurs CallbackDemo.mem CallbackDemo.data a.
Proof.
  exact (PtrsFrom_exact CallbackDemo.mem 4 4 CallbackDemo.data CallbackDemo.data_tree (le_n 4)).
Defined.

(** The struct of one callback, and a map as json.Unmarshal makes one of another. *)
Module EncodedDemo.

Definition mem : heap :=
  {[ 0%nat := ptr_var "c1" None CallbackDemo.cb;
     1%nat := OMap [(VString "$fnptr", VIface (Some (TString, VString "c2")))] ]}.

Definition map_type : rtype := TMap TString TAny.

Definition data : rtype * value :=
  (TStruct [("Args", "", map_type); ("Fn", "", ptr_type)]%string,
   VStruct [VMap (Some 1%nat); VPtr (Some 0%nat)]).

Definition caller : rtype * value := (TInt, VInt 7).

Lemma encoded_tree : tree mem 4 data.
Proof.
  cbn. split; [done|]. intros [|[|i]] f v; [| |done].
  - intros [= <-] [= <-]. cbn. by intros e ->%list_elem_of_singleton.
  - intros [= <-] [= <-]. eexists _, _. split; [reflexivity|]. cbn. split; [done|].
    intros [|[|[|j]]] f v; [cbn..|done]; by intros [= <-] [= <-].
Qed.

Lemma encoded_occurs a : occurs mem data a → a = 0%nat.
Proof.
  intros Hocc. destruct (PtrsFrom_eq mem 4 4 data encoded_tree ltac:(done)) as (l & Hl & Hin).
  apply Hin in Hocc. vm_compute in Hl. injection Hl as <-. by apply list_elem_of_singleton in Hocc.
Qed.

(** A struct without the special field: what is left are its fields. *)
Lemma struct_settable n t vs :
  Kind t = KStruct → "$fnptr"%string ∉ ((λ f, f.1.1) <$> struct_fields t) →
  (∀ i f v, struct_fields t !! i = Some f → vs !! i = Some v → all_settable mem true n (f.2, v)) →
  all_settable mem true (S n) (t, VStruct vs).
Proof.
  intros Hk Hno Hf. split.
  - split; [intros ? ? ? ? ?; congruence|]. intros Hkey. by inversion Hkey.
  - intros y Hy. inversion Hy; subst. by eapply Hf.
Qed.

Lemma leaf_settable n t v : match v with VStruct _ | VPtr _ | VMap _ | VSlice _ | VArray _ => False
  | _ => True end → all_settable mem true n (t, v).
Proof.
  intros Hv. destruct n as [|n]; [done|]. split; [|intros y Hy; by inversion Hy; subst].
  split; [intros ? ? ? ? ?; by simplify_eq/=|intros Hkey; by inversion Hkey; subst].
Qed.

Lemma encoded_settable : all_settable mem true 4 data.
Proof.
  apply struct_settable; [done|by apply (bool_decide_unpack _); vm_compute|]. intros [|[|i]] f v; [| |done].
  - intros [= <-] [= <-]. split.
    + split; [|intros _; by eexists map_type, 1%nat, _, _; repeat constructor].
      intros t a es v [= <- <-] [= <-] _. split_and!; [done..|].
      split; [eexists; by left|by repeat constructor].
    + intros y Hy. inversion Hy as [| | |? ? e ? _ He Hv|]; subst.
      apply list_elem_of_singleton in He as ->. injection Hv as <-. by apply leaf_settable.
  - intros [= <-] [= <-]. split.
    + split; [intros ? ? ? ? ?; congruence|]. intros Hkey. inversion Hkey as [| | | |? ? u z ? _ Ha Hz]; subst.
      injection Ha as <- <-. inversion Hz as [? ? ? _ Hin _| | | |]; subst.
      exfalso. revert Hin. change ("$fnptr"%string ∉ ((λ f, f.1.1) <$> struct_fields (Elem ptr_type))).
      by apply (bool_decide_unpack _); vm_compute.
    + intros y Hy. inversion Hy as [| | | |? ? u z _ Ha]; subst. injection Ha as <- <-.
      apply struct_settable; [done|by apply (bool_decide_unpack _); vm_compute|].
      intros [|[|[|i]]] f v; [..|done]; intros [= <-] [= <-]; by apply leaf_settable.
Qed.
End EncodedDemo.

Lemma SetCallers_sets_witness :
  ∃ ids h', SetCallers 5 (Some EncodedDemo.data) EncodedDemo.caller EncodedDemo.mem = (Ret ids, h') ∧
    "c2"%string ∈ ids ∧
    h' !! 1%nat = Some (OMap [(VString "$fnptr", VIface (Some (TString, VString "c2")));
                              (VString "Caller", VIface (Some EncodedDemo.caller))]).
Proof.
  destruct (SetCallers_sets (λ c id, (c, id)) EncodedDemo.mem 4 1 5 EncodedDemo.data
    EncodedDemo.caller EncodedDemo.encoded_tree I (le_n 5) eq_refl) as (ids & h' & Hs & _ & Hm).
  - intros a ->%EncodedDemo.encoded_occurs. by eexists.
  - exact EncodedDemo.encoded_settable.
  - split; [|intros y Hy; inversion Hy]. split; [intros ? ? ? ? Heq; discriminate Heq|].
    intros Hkey. inversion Hkey.
  - exists ids, h'. split; [exact Hs|].
    destruct (Hm EncodedDemo.map_type 1%nat "c2"%string) as (Hid & es & He & He').
    + apply rtc_once. eapply (child_field _ _ _ "Args"); [reflexivity|by left|reflexivity|reflexivity].
    + reflexivity.
    + eexists. split; reflexivity.
    + split; [exact Hid|]. injection He as <-. exact He'.
Defined.

Lemma collect_oks {A B} (P : A → B → Prop) l :
  (∀ a, a ∈ l → ∃ b, P a b) → ∃ k, Forall2 P l k.
Proof.
  induction l as [|a l IH]; intros H; [by exists []|].
  destruct (H a) as [b Hb]; [by left|]. destruct IH as [k Hk]; [intros; apply H; by right|].
  exists (b :: k). by constructor.
Qed.

(** C39. [RegisterPtrs] can be called again and undone. On a mux with exact
    patterns only, and a value whose pointers hold functions: every pointer's id
    then finds a handler, what was registered still routes the same, a second call
    changes nothing, and - if none of the ids was registered before -
    [UnregisterPtrs] restores the mux. *)
Theorem RegisterPtrs_roundtrip `{GT : GoTypes} `{FloatConv} `{MS : Mapstructure} `{ST : Stack}
    `{CD : Codec (rtype * value) rtype} `{FB : FuncBodies srv} `{OB : Objects}
    h n fuel mfuel x p m (ms : gmap nat (RespondMux handler_func)) :
  tree h n x → (n ≤ fuel)%nat → ms !! p = Some m → flat m →
  (∀ a, occurs h x a → ∃ id hd, ptr_ok h a id hd) →
  ∃ ms', RegisterPtrs fuel (S mfuel) h p (Some x) ms = (Ret tt, ms') ∧
    (∀ a id hd, occurs h x a → ptr_ok h a id hd →
       ∃ hd' pat, Match (S mfuel) ms' p id = Ret (Some hd', pat)) ∧
    (∀ s v, m_m m !! cleanSelector s = Some v →
       Match (S mfuel) ms' p s = Ret (e_h v, e_pattern v)) ∧
    RegisterPtrs fuel (S mfuel) h p (Some x) ms' = (Ret tt, ms') ∧
    ((∀ a id hd, occurs h x a → ptr_ok h a id hd → m_m m !! cleanSelector id = None) →
     UnregisterPtrs fuel (S mfuel) h p (Some x) ms' = (Ret tt, ms)).
Proof.
  intros Ht Hle Hp Hflat Hok.
  destruct (PtrsFrom_eq h fuel n x Ht Hle) as (ptrs & Hptrs & Hin).
  destruct (collect_oks (λ a x, ptr_ok h a x.1 x.2) ptrs) as [l Hl].
  { intros a Ha. destruct (Hok a) as (id & hd & Hpo); [by apply Hin|]. by exists (id, hd). }
  destruct (register_ptrs_eq mfuel h p ptrs l ms m Hl Hp Hflat) as [Hr Hflat'].
  set (m' := with_ptrs l m) in *.
  assert (Hp' : <[p := m']> ms !! p = Some m') by apply lookup_insert_eq.
  assert (Hid : ∀ a id hd, occurs h x a → ptr_ok h a id hd → id ∈ l.*1).
  { intros a id hd Ho Hpo. apply Hin, list_elem_of_lookup in Ho as [i Hi].
    destruct (Forall2_lookup_l _ _ _ _ _ Hl Hi) as ([id' hd'] & Hi' & Hpo').
    destruct Hpo as (c1 & t1 & f1 & H1 & _), Hpo' as (c2 & t2 & f2 & H2 & _).
    cbn [fst] in H2. rewrite H1 in H2. injection H2 as -> _ _ _.
    apply list_elem_of_fmap. exists (id', hd'). split; [done|]. by eapply list_elem_of_lookup_2. }
  exists (<[p := m']> ms). split_and!.
  - unfold RegisterPtrs. by erewrite bind_ret by (unfold lift; by rewrite Hptrs).
  - intros a id hd Ho Hpo. specialize (Hid a id hd Ho Hpo).
    apply list_elem_of_fmap in Hid as ([id' hd'] & -> & Hin').
    rewrite (Match_exact _ _ _ _ _ Hp' (proj1 Hflat')).
    destruct (with_ptrs_in l m id' hd' Hin') as [e He]. cbn [fst]. fold m' in He. rewrite He.
    destruct (proj2 Hflat' _ _ He) as [hh ->]. by eexists _, _.
  - intros s v Hv. rewrite (Match_exact _ _ _ _ _ Hp' (proj1 Hflat')).
    unfold m'. by rewrite (with_ptrs_old l m _ _ Hv).
  - unfold RegisterPtrs. erewrite bind_ret by (unfold lift; by rewrite Hptrs).
    destruct (register_ptrs_eq mfuel h p ptrs l _ m' Hl Hp' Hflat') as [-> _].
    rewrite insert_insert_eq. unfold m'. by rewrite with_ptrs_twice.
  - intros Hnew. unfold UnregisterPtrs. erewrite bind_ret by (unfold lift; by rewrite Hptrs).
    assert (Hids : Forall2 (λ a id, ∃ caller fn, ptr_at h a = Some (id, caller, fn)) ptrs l.*1).
    { apply Forall2_fmap_r. eapply Forall2_impl; [exact Hl|].
      intros a [id hd] (caller & ft & f & Hat & _). by eexists _, _. }
    rewrite (unregister_ptrs_eq mfuel h p ptrs l.*1 _ m' Hids Hp' Hflat'), insert_insert_eq.
    unfold m'. rewrite without_with_ptrs; [by rewrite insert_id|done|apply Hflat|].
    intros id Hidl. apply list_elem_of_fmap in Hidl as ([id' hd'] & -> & Hin').
    apply list_elem_of_lookup in Hin' as [i Hi].
    destruct (Forall2_lookup_r _ _ _ _ _ Hl Hi) as (a & Ha & Hpo). cbn [fst snd] in *.
    apply (Hnew a id' hd'); [|done]. apply Hin. by eapply list_elem_of_lookup_2.
Qed.

Lemma RegisterPtrs_roundtrip_witness :
  let ms := {[ 0%nat := NewRespondMux ]} : gmap nat (RespondMux handler_func) in
  ∃ ms', RegisterPtrs 4 1 CallbackDemo.mem 0 (Some CallbackDemo.data) ms = (Ret tt, ms') ∧
    UnregisterPtrs 4 1 CallbackDemo.mem 0 (Some CallbackDemo.data) ms' = (Ret tt, ms).
Proof.
  intros ms. destruct CallbackDemo.data_ptr_ok as [hd Hhd].
  destruct (RegisterPtrs_roundtrip CallbackDemo.mem 4 4 0 CallbackDemo.data 0 NewRespondMux ms
    CallbackDemo.data_tree (le_n 4) eq_refl) as (ms' & H1 & _ & _ & _ & H2).
  - split; [reflexivity|]. intros k e He. discriminate He.
  - intros a ->%CallbackDemo.data_occurs. by exists "c1"%string, hd.
  - exists ms'. split; [exact H1|]. apply H2. intros a id hd' _ _. reflexivity.
Defined.

(** A catch-all handler hides the callbacks. On a mux with a handler for
    "/", [RegisterPtrs] registers none of the pointers that are not registered
    already, because [Match] finds the catch-all for every id; a call to a callback
    then reaches the catch-all handler. *)
Theorem catch_all_hides_callbacks `{GT : GoTypes} `{FloatConv} `{MS : Mapstructure} `{ST : Stack}
    `{CD : Codec (rtype * value) rtype} `{FB : FuncBodies srv} `{OB : Objects}
    h n fuel mfuel x p m g (ms : gmap nat (RespondMux handler_func)) :
  tree h n x → (n ≤ fuel)%nat →
  ms !! p = Some m → m_es m = [mkEntry (Some (HandlerFunc g)) "/"%string] →
  (∀ a, occurs h x a → ∃ id caller fn, ptr_at h a = Some (id, caller, fn) ∧
     m_m m !! cleanSelector id = None) →
  RegisterPtrs fuel (S mfuel) h p (Some x) ms = (Ret tt, ms) ∧
  ∀ a id caller fn, occurs h x a → ptr_at h a = Some (id, caller, fn) →
    Match (S mfuel) ms p id = Ret (Some (HandlerFunc g), "/"%string).
Proof.
  intros Ht Hle Hp Hes Hok.
  assert (Hm : ∀ id, m_m m !! cleanSelector id = None →
    Match (S mfuel) ms p id = Ret (Some (HandlerFunc g), "/"%string)).
  { intros id Hn. cbn [Match]. rewrite Hp, Hn, Hes. cbn [first_prefix e_pattern].
    by rewrite HasPrefix_root. }
  split.
  - destruct (PtrsFrom_eq h fuel n x Ht Hle) as (ptrs & Hptrs & Hin).
    unfold RegisterPtrs. erewrite bind_ret by (unfold lift; by rewrite Hptrs).
    assert (Hall : ∀ a, a ∈ ptrs → register_ptr (S mfuel) h p a ms = (Ret tt, ms)).
    { intros a Ha. destruct (Hok a) as (id & caller & fn & Hat & Hn); [by apply Hin|].
      unfold register_ptr. rewrite Hat. erewrite bind_ret by reflexivity.
      by erewrite bind_ret by (unfold lift; by rewrite (Hm id Hn)). }
    clear -Hall. induction ptrs as [|a ptrs IH]; [done|].
    cbn [for_ptrs]. erewrite bind_ret by (apply Hall; by left). apply IH. intros b Hb.
    apply Hall. by right.
  - intros a id caller fn Ho Hat. destruct (Hok a Ho) as (id' & c & f & Hat' & Hn).
    rewrite Hat in Hat'. injection Hat' as <- _ _. by apply Hm.
Qed.

Lemma catch_all_hides_callbacks_witness :
  let m := registered "/" (HandlerFunc (run_handler 0)) NewRespondMux in
  let ms := {[ 0%nat := m ]} : gmap nat (RespondMux handler_func) in
  RegisterPtrs 4 1 CallbackDemo.mem 0 (Some CallbackDemo.data) ms = (Ret tt, ms) ∧
  Match 1 ms 0 "c1" = Ret (Some (HandlerFunc (run_handler 0)), "/"%string).
Proof.
  intros m ms.
  destruct (catch_all_hides_callbacks CallbackDemo.mem 4 4 0 CallbackDemo.data 0 m
    (run_handler 0) ms CallbackDemo.data_tree (le_n 4) eq_refl eq_refl) as [H1 H2].
  - intros a ->%CallbackDemo.data_occurs. by exists "c1"%string, None, CallbackDemo.cb.
  - split; [exact H1|]. exact (H2 0%nat "c1"%string None CallbackDemo.cb CallbackDemo.data_occurs_0 eq_refl).
Defined.

(** ** Values that cannot be walked *)

(** A list node that points to itself is walked without end. *)
Module Cyclic.

#[local] Instance node_types : GoTypes := {|
  declared _ := TStruct [("Next", "", TPtr (TNamed "Node"))]%string;
  declared_zero _ := VStruct [VPtr None];
  method_set _ := [];
  as_error _ := errorString "failed";
|}.

Definition mem : heap := {[ 0%nat := OVar (TNamed "Node") (VStruct [VPtr (Some 0%nat)]) ]}.

Definition node : rtype * value := (TPtr (TNamed "Node"), VPtr (Some 0%nat)).

Lemma node_step fuel path acc :
  (walk (S fuel) (Some node) (path ++ ["Next"%string]) collect_ptr (mem, acc)).1 = NoFuel →
  (walk (S (S fuel)) (Some node) path collect_ptr (mem, acc)).1 = NoFuel.
Proof.
  intros IH. remember (S fuel) as f eqn:Hf. cbn [walk]. erewrite bind_ret by reflexivity. cbn [fst].
  assert (∀ f', keys (S (S f')) mem (Some node) = Ret ["Next"%string]) as Hks by reflexivity.
  assert (∀ f', prop (S (S f')) mem (Some node) "Next" = Ret (Some node)) as Hprop by reflexivity.
  rewrite Hf. erewrite bind_ret by (unfold lift; by rewrite Hks). rewrite <- Hf.
  cbn [walk_keys]. erewrite bind_ret by reflexivity. cbn [fst]. rewrite Hf.
  erewrite bind_ret by (unfold lift; by rewrite Hprop). rewrite <- Hf.
  erewrite bind_ret by reflexivity. unfold mbind, M_bind.
  by destruct (walk f (Some node) (path ++ ["Next"%string]) collect_ptr (mem, acc)) as [[] s].
Qed.

Lemma cyclic_walk_never_ends fuel : PtrsFrom fuel mem (Some node) = NoFuel.
Proof.
  assert (∀ path acc, (walk fuel (Some node) path collect_ptr (mem, acc)).1 = NoFuel) as Hw.
  { induction fuel as [|[|fuel] IH]; intros path acc; [done|by vm_compute|]. by apply node_step. }
  unfold PtrsFrom, ValueOf. specialize (Hw [] []).
  by destruct (walk fuel (Some node) [] collect_ptr (mem, [])) as [[] s].
Qed.
End Cyclic.

(** A callback that arrived as a map is not found behind a pointer: the
    pointer, not the map, is asked to set the entry. *)
Lemma SetCallers_map_pointer c :
  let m := {[ 0%nat := OMap [(VString "$fnptr", VIface (Some (TString, VString "c1")))];
              1%nat := OVar (TMap TString TAny) (VMap (Some 0%nat)) ]} : heap in
  (SetCallers 4 (Some (TPtr (TMap TString TAny), VPtr (Some 1%nat))) c m).1
  = Panic "reflect: call of reflect.Value.SetMapIndex on ptr Value".
Proof. by vm_compute. Qed.
