(* ===== verification/Proxy.v ===== *)
(** * mux/proxy.go and rpc/proxy.go: forwarding channels and calls

    [mux.Proxy] pairs each channel accepted from one session with a channel
    opened on another and copies both ways; [rpc.ProxyHandler] does the same
    for one call, sending the call header itself. The two copies run in
    goroutines of their own, so they interleave chunk by chunk. *)
From S2P Require Import Prelude GoRuntime FrameCodec RespondMux RespondMuxSpec Rpc.
From S2P Require Import RpcSpec.

(** ** io.Copy *)

(** One direction: what the source still delivers before it ends, the writes
    made to the destination, whether [io.Copy] returned and [CloseWrite] was
    called after it. *)
Record copy := mkCopy {
  cp_src : list byte;
  cp_out : list (list byte);
  cp_done : bool;
}.

Definition new_copy (src : list byte) : copy := mkCopy src [] false.

(** What a goroutine in [io.Copy] does next: it copies a chunk of at most
    [S n] bytes, or learns that the source ended, or a read or write fails. *)
Inductive copy_event := CopyChunk (n : nat) | CopyFail.

Definition copy_step (ev : copy_event) (c : copy) : option copy :=
  if cp_done c then None
  else match ev with
       | CopyFail => Some (mkCopy (cp_src c) (cp_out c) true)
       | CopyChunk n =>
           match cp_src c with
           | [] => Some (mkCopy [] (cp_out c) true)
           | src => Some (mkCopy (drop (S n) src) (cp_out c ++ [take (S n) src]) false)
           end
       end.

(** ** proxy(a, b) *)

(** The two copies, and whether both channels were closed after [wg.Wait]. *)
Record proxy_state := mkProxy {
  px_to_a : copy;
  px_to_b : copy;
  px_closed : bool;
}.

Definition proxy_start (from_a from_b : list byte) : proxy_state :=
  mkProxy (new_copy from_b) (new_copy from_a) false.

Inductive proxy_event := ToA (ev : copy_event) | ToB (ev : copy_event) | WaitDone.

Definition proxy_step (ev : proxy_event) (p : proxy_state) : option proxy_state :=
  match ev with
  | ToA ev => c ← copy_step ev (px_to_a p); Some (mkProxy c (px_to_b p) (px_closed p))
  | ToB ev => c ← copy_step ev (px_to_b p); Some (mkProxy (px_to_a p) c (px_closed p))
  | WaitDone =>
      if cp_done (px_to_a p) && cp_done (px_to_b p) && negb (px_closed p)
      then Some (mkProxy (px_to_a p) (px_to_b p) true) else None
  end.

Fixpoint proxy_run (evs : list proxy_event) (p : proxy_state) : option proxy_state :=
  match evs with
  | [] => Some p
  | ev :: evs => p ← proxy_step ev p; proxy_run evs p
  end.

Definition is_fail (ev : proxy_event) : bool :=
  match ev with ToA CopyFail | ToB CopyFail => true | _ => false end.

(** ** Proxy(dst, src) *)

(** The loop of [Proxy]: [accepts] and [opens] are what [src.Accept] and
    [dst.Open] return, call after call. The pairs handed to [proxy], the
    channels closed without a partner, and the result. *)
Fixpoint Proxy {C} (accepts opens : list (result C)) (pairs : list (C * C))
    : outcome (list (C * C) * list C * option error) :=
  match accepts with
  | [] => Block
  | Err err :: _ => Ret (pairs, [], if decide (err = io_EOF) then None else Some err)
  | Ok a :: accepts =>
      match opens with
      | [] => Block
      | Err err :: _ => Ret (pairs, [a], Some err)
      | Ok b :: opens => Proxy accepts opens (pairs ++ [(a, b)])
      end
  end.

(** ** ProxyHandler *)

Section proxy_handler.
Context {V T : Type} `{Codec V T}.

(** [ProxyHandler(dst)] up to the copies: [opened] is the channel [dst.Open]
    returned. It gives the destination's channel end, if there is one, and
    whether the copies were started on it; otherwise the call was answered with
    the error. *)
Definition ProxyHandler (opened : result chan_end) (selector : string)
    : M srv (option chan_end * bool) :=
  match opened with
  | Err err => _ ← responder_Return [VErr err]; mret (None, false)
  | Ok ch =>
      let '(o, ch) := end_Encode (VCallHeader selector) ch in
      match o with
      | Ret (Some err) =>
          let '(_, ch) := chan_Close ch in
          _ ← responder_Return [VErr err]; mret (Some ch, false)
      | _ =>
          _ ← modify_st (set_responded true);
          mret (Some ch, true)
      end
  end.

(** The two copies of [ProxyHandler]: to the caller ([a]) and to the
    destination ([b]). The caller's channel is closed as soon as the copy to it
    returned; the other copy is not waited for. *)
Definition handler_step (ev : proxy_event) (p : proxy_state) : option proxy_state :=
  match ev with
  | ToA ev => c ← copy_step ev (px_to_a p); Some (mkProxy c (px_to_b p) (cp_done c))
  | ToB ev => c ← copy_step ev (px_to_b p); Some (mkProxy (px_to_a p) c (px_closed p))
  | WaitDone => None
  end.

Fixpoint handler_run (evs : list proxy_event) (p : proxy_state) : option proxy_state :=
  match evs with
  | [] => Some p
  | ev :: evs => p ← handler_step ev p; handler_run evs p
  end.
End proxy_handler.

(** ** Facts *)

(** A direction delivered a prefix of its source, and all of it if its copy
    ended without failing. *)
Definition copied (src : list byte) (c : copy) : Prop :=
  src = mjoin (cp_out c) ++ cp_src c.

Lemma copy_step_copied src ev c c' :
  copied src c → copy_step ev c = Some c' →
  copied src c' ∧ (cp_done c' = true → ev ≠ CopyFail → cp_src c' = []).
Proof.
  unfold copied, copy_step. intros ->. destruct (cp_done c); [done|].
  destruct ev as [n|]; [|by intros [= <-]].
  destruct (cp_src c) as [|b s] eqn:E; intros [= <-]; cbn [cp_src cp_out cp_done]; [done|].
  split; [|done]. rewrite join_app. cbn [mjoin list_join].
  rewrite app_nil_r, <- app_assoc. cbn [app]. by rewrite take_drop.
Qed.

(** The steps a copy can still take. *)
Definition copy_left (c : copy) : nat :=
  if cp_done c then 0 else S (length (cp_src c)).

Lemma copy_step_left ev c c' : copy_step ev c = Some c' → (copy_left c' < copy_left c)%nat.
Proof.
  unfold copy_step, copy_left. destruct (cp_done c); [done|].
  destruct ev as [n|]; [|intros [= <-]; cbn; lia].
  destruct (cp_src c) as [|b s]; intros [= <-]; cbn; [lia|]. rewrite length_drop. lia.
Qed.

Definition proxy_left (p : proxy_state) : nat :=
  copy_left (px_to_a p) + copy_left (px_to_b p) + if px_closed p then 0 else 1.

Lemma proxy_step_left ev p p' : proxy_step ev p = Some p' → (proxy_left p' < proxy_left p)%nat.
Proof.
  unfold proxy_step, proxy_left. destruct ev as [ev|ev|].
  - destruct (copy_step ev (px_to_a p)) as [c|] eqn:E; [|done]. intros [= <-]. cbn.
    apply copy_step_left in E. lia.
  - destruct (copy_step ev (px_to_b p)) as [c|] eqn:E; [|done]. intros [= <-]. cbn.
    apply copy_step_left in E. lia.
  - destruct (px_closed p), (cp_done (px_to_a p)), (cp_done (px_to_b p)); try done.
    intros [= <-]. cbn. lia.
Qed.

Lemma proxy_run_left evs p p' :
  proxy_run evs p = Some p' → (length evs + proxy_left p' ≤ proxy_left p)%nat.
Proof.
  revert p. induction evs as [|ev evs IH]; intros p Hr; cbn in Hr.
  { injection Hr as ->. cbn. lia. }
  destruct (proxy_step ev p) as [p1|] eqn:E; [|done]. apply proxy_step_left in E.
  apply IH in Hr. cbn. lia.
Qed.

(** What holds along a run: both directions deliver prefixes; a direction that
    ended without a failure delivered everything; both ends are closed only
    when both directions ended. *)
Record proxy_inv (from_a from_b : list byte) (failed : bool) (p : proxy_state) : Prop := {
  pi_a : copied from_b (px_to_a p);
  pi_b : copied from_a (px_to_b p);
  pi_done_a : failed = false → cp_done (px_to_a p) = true → cp_src (px_to_a p) = [];
  pi_done_b : failed = false → cp_done (px_to_b p) = true → cp_src (px_to_b p) = [];
  pi_closed : px_closed p = true → cp_done (px_to_a p) = true ∧ cp_done (px_to_b p) = true;
}.

Lemma proxy_step_inv from_a from_b failed ev p p' :
  proxy_inv from_a from_b failed p → proxy_step ev p = Some p' →
  proxy_inv from_a from_b (failed || is_fail ev) p'.
Proof.
  intros [Ha Hb Hda Hdb Hc] Hs. unfold proxy_step in Hs. destruct ev as [ev|ev|].
  - destruct (copy_step ev (px_to_a p)) as [c|] eqn:E; [|done]. injection Hs as <-.
    assert (cp_done (px_to_a p) = false) as Hnd
      by (unfold copy_step in E; by destruct (cp_done (px_to_a p))).
    destruct (copy_step_copied _ _ _ _ Ha E) as [H1 H2].
    split; cbn; try done.
    + intros [_ Hf]%orb_false_iff Hd. apply H2; [done|]. by intros ->.
    + intros [Hf _]%orb_false_iff. auto.
    + intros Hcl. destruct (Hc Hcl). congruence.
  - destruct (copy_step ev (px_to_b p)) as [c|] eqn:E; [|done]. injection Hs as <-.
    assert (cp_done (px_to_b p) = false) as Hnd
      by (unfold copy_step in E; by destruct (cp_done (px_to_b p))).
    destruct (copy_step_copied _ _ _ _ Hb E) as [H1 H2].
    split; cbn; try done.
    + intros [Hf _]%orb_false_iff. auto.
    + intros [_ Hf]%orb_false_iff Hd. apply H2; [done|]. by intros ->.
    + intros Hcl. destruct (Hc Hcl). congruence.
  - destruct (cp_done (px_to_a p)) eqn:Ea, (cp_done (px_to_b p)) eqn:Eb; try done.
    destruct (px_closed p); [done|]. injection Hs as <-. cbn [is_fail].
    rewrite orb_false_r. split; cbn; rewrite ?Ea, ?Eb; auto.
Qed.

Lemma proxy_run_inv evs from_a from_b failed p p' :
  proxy_inv from_a from_b failed p → proxy_run evs p = Some p' →
  proxy_inv from_a from_b (failed || existsb is_fail evs) p'.
Proof.
  revert failed p. induction evs as [|ev evs IH]; intros failed p Hi Hr; cbn in Hr |- *.
  { injection Hr as <-. by rewrite orb_false_r. }
  destruct (proxy_step ev p) as [p1|] eqn:E; [|done].
  rewrite orb_assoc. eapply IH; [|done]. by eapply proxy_step_inv.
Qed.

(** The same for the copies of a proxied call, whose channel to the caller is
    closed exactly when the copy to it has ended. *)
Record handler_inv (from_a from_b : list byte) (failed : bool) (p : proxy_state) : Prop := {
  hi_a : copied from_b (px_to_a p);
  hi_b : copied from_a (px_to_b p);
  hi_done : failed = false → cp_done (px_to_a p) = true → cp_src (px_to_a p) = [];
  hi_closed : px_closed p = cp_done (px_to_a p);
}.

Lemma handler_run_inv evs from_a from_b failed p p' :
  handler_inv from_a from_b failed p → handler_run evs p = Some p' →
  handler_inv from_a from_b (failed || existsb is_fail evs) p'.
Proof.
  revert failed p. induction evs as [|ev evs IH]; intros failed p Hi Hr; cbn in Hr |- *.
  { injection Hr as <-. by rewrite orb_false_r. }
  destruct (handler_step ev p) as [p1|] eqn:E; [|done].
  rewrite orb_assoc. eapply IH; [|done]. destruct Hi as [Ha Hb Hd Hc].
  unfold handler_step in E. destruct ev as [ev|ev|]; [| |done].
  - destruct (copy_step ev (px_to_a p)) as [c|] eqn:Ec; [|done]. injection E as <-.
    destruct (copy_step_copied _ _ _ _ Ha Ec) as [H1 H2]. split; cbn; try done.
    intros [_ Hf]%orb_false_iff Hdn. apply H2; [done|]. by intros ->.
  - destruct (copy_step ev (px_to_b p)) as [c|] eqn:Ec; [|done]. injection E as <-.
    destruct (copy_step_copied _ _ _ _ Hb Ec) as [H1 _]. split; cbn; try done.
    intros [Hf _]%orb_false_iff. auto.
Qed.

(** ** Properties *)

(** C22. A proxied pair of channels is transparent in both directions, however
    the two copies interleave and whatever the sizes of their chunks: at every
    point each side got a prefix of what the other sent; the proxy never gets
    stuck before it closed both channels, which takes at most one step per byte
    and three more; and if no copy failed, by then each side got everything. *)
Theorem proxy_transparent evs from_a from_b p :
  proxy_run evs (proxy_start from_a from_b) = Some p →
  (∃ more, from_a = mjoin (cp_out (px_to_b p)) ++ more) ∧
  (∃ more, from_b = mjoin (cp_out (px_to_a p)) ++ more) ∧
  (length evs ≤ length from_a + length from_b + 3)%nat ∧
  (px_closed p = false → ∃ ev, is_fail ev = false ∧ is_Some (proxy_step ev p)) ∧
  (px_closed p = true → existsb is_fail evs = false →
   mjoin (cp_out (px_to_b p)) = from_a ∧ mjoin (cp_out (px_to_a p)) = from_b).
Proof.
  intros Hr.
  assert (proxy_inv from_a from_b false (proxy_start from_a from_b)) as H0 by by split.
  destruct (proxy_run_inv _ _ _ _ _ _ H0 Hr) as [Ha Hb Hda Hdb Hc]. cbn [orb] in *.
  pose proof (proxy_run_left _ _ _ Hr) as Hl.
  assert (proxy_left (proxy_start from_a from_b) = length from_a + length from_b + 3)%nat as Hs
    by (unfold proxy_left, copy_left; cbn; lia).
  split_and!; [by eexists|by eexists|lia| |].
  - intros Hcl. destruct (cp_done (px_to_a p)) eqn:Ea; [destruct (cp_done (px_to_b p)) eqn:Eb|].
    + exists WaitDone. split; [done|]. cbn. rewrite Ea, Eb, Hcl. by eexists.
    + exists (ToB (CopyChunk 0)). split; [done|]. cbn. unfold copy_step. rewrite Eb.
      destruct (cp_src (px_to_b p)); by eexists.
    + exists (ToA (CopyChunk 0)). split; [done|]. cbn. unfold copy_step. rewrite Ea.
      destruct (cp_src (px_to_a p)); by eexists.
  - intros Hcl Hf. destruct (Hc Hcl) as [Ea Eb]. unfold copied in *.
    rewrite (Hda Hf Ea), app_nil_r in Ha. rewrite (Hdb Hf Eb), app_nil_r in Hb. done.
Qed.

Lemma proxy_transparent_witness :
  ∃ p, proxy_run [ToB (CopyChunk 1); ToA (CopyChunk 4); ToB (CopyChunk 1); ToB (CopyChunk 9);
                  ToA (CopyChunk 0); WaitDone] (proxy_start [x01; x02; x03] [x0a]) = Some p ∧
    mjoin (cp_out (px_to_b p)) = [x01; x02; x03] ∧ mjoin (cp_out (px_to_a p)) = [x0a].
Proof.
  eexists. split; [reflexivity|].
  apply (proxy_transparent [ToB (CopyChunk 1); ToA (CopyChunk 4); ToB (CopyChunk 1);
    ToB (CopyChunk 9); ToA (CopyChunk 0); WaitDone] [x01; x02; x03] [x0a]); reflexivity.
Defined.

(** [ProxyHandler] as the server runs it; the destination's channel is its own. *)
Definition proxy_func {V T} `{Codec V T} (opened : result chan_end) : handler_func := λ sel,
  _ ← ProxyHandler opened sel; mret tt.

(** C21. A proxied call is the call itself: the proxy's server takes only the
    header off the caller's channel, answers nothing itself and keeps the channel
    open, and what its handler sends to the other server, its header followed by
    the bytes it copies, makes that server do exactly what the caller's own bytes
    would. If no channel to the other server opens, the caller gets that error. *)
Theorem proxied_call_transparent {V T} `{CodecLaws V T} fuel ms hn pfuel pms phn opened
    sel cb cb' rest e :
  mux_resolve pfuel pms phn (cleanSelector sel) = Ret (HandlerFunc (proxy_func opened)) →
  encodes (VCallHeader sel) cb → encodes (VCallHeader (cleanSelector sel)) cb' →
  let call := mkEnd (mkReader rest e) (mkWriter [] []) 0 in
  let direct := mkEnd (mkReader (frame cb ++ rest) e) (mkWriter [] []) 0 in
  (opened = Ok fresh_end → ∃ s0 ch,
    Server_respond pfuel pms phn (new_responder direct) = (Ret tt, s0) ∧
    ProxyHandler opened (cleanSelector sel) (new_responder call) = (Ret (Some ch, true), s0) ∧
    sv_ch s0 = call ∧
    Server_respond fuel ms hn (new_responder
      (mkEnd (mkReader (mjoin (w_out (ce_out ch)) ++ rest) e) (mkWriter [] []) 0))
    = Server_respond fuel ms hn (new_responder direct)) ∧
  (∀ err hb nb, opened = Err err →
    encodes (VResponseHeader (Some (Error_text err)) false) hb → encodes VNil nb → ∃ s0,
    Server_respond pfuel pms phn (new_responder direct) = (Ret tt, s0) ∧
    ce_out (sv_ch s0) = mkWriter (frame <$> [hb; nb]) [] ∧ (0 < ce_closes (sv_ch s0))%nat).
Proof.
  intros Hres Hc Hc' call direct. split.
  - intros ->. destruct Hc' as [Hce Hcl].
    assert (ProxyHandler (Ok fresh_end) (cleanSelector sel) (new_responder call)
      = (Ret (Some (sent_end (mkReader [] io_Pending) [cb'] 0), true), mkSrv call true None true)) as Hp.
    { unfold ProxyHandler. change fresh_end with (sent_end (mkReader [] io_Pending) [] 0).
      rewrite (end_Encode_eq _ _ _ _ _ (conj Hce Hcl)). reflexivity. }
    eexists _, _. split_and!; [|exact Hp|done|].
    + unfold direct. erewrite Server_respond_eq; [|exact Hc|].
      2: { unfold RespondRPC. rewrite Hres. unfold proxy_func.
        fold call. by rewrite (bind_ret _ _ _ _ _ Hp). }
      reflexivity.
    + cbn [ce_out sent_end w_out app fmap list_fmap mjoin list_join]. rewrite app_nil_r.
      destruct Hc as [Hcd Hl]. unfold Server_respond.
      erewrite (bind_ret _ _ (new_responder direct)); [|eapply on_ch_eq; by apply end_Decode_eq].
      erewrite bind_ret; [|eapply on_ch_eq; by apply end_Decode_eq].
      rewrite (law_call _ _ Hcd), (law_call _ _ Hce).
      by rewrite (cleanSelector_id _ (cleanSelector_canonical sel)).
  - intros err hb nb -> Hh Hn. eexists. split_and!.
    + unfold direct. erewrite Server_respond_eq; [|exact Hc|].
      2: { unfold RespondRPC. rewrite Hres. unfold proxy_func, ProxyHandler.
        erewrite bind_ret. 2: { erewrite bind_ret; [reflexivity|].
          apply (respond_eq [VErr err] false hb [nb] (mkReader rest e) [] 0 Hh). constructor; [exact Hn|constructor]. }
        reflexivity. }
      reflexivity.
    + done.
    + cbn. lia.
Qed.

Definition demo_proxy : gmap nat (RespondMux (handler_func)) :=
  (Handle 0 "twice"%string
     (Some (HandlerFunc (proxy_func (V := list byte) (T := unit) (Ok fresh_end))))
     {[ 0%nat := NewRespondMux ]}).2.

Lemma proxied_call_transparent_witness :
  ∃ s0,
    Server_respond (V := list byte) (T := unit) 1 demo_proxy (SubMux 0)
      (new_responder (mkEnd (mkReader (frame (x02 :: String.list_byte_of_string "twice")
         ++ frame [x05; x2a]) io_EOF) (mkWriter [] []) 0)) = (Ret tt, s0) ∧
    sv_ch s0 = mkEnd (mkReader (frame [x05; x2a]) io_EOF) (mkWriter [] []) 0.
Proof.
  destruct (proxied_call_transparent (V := list byte) (T := unit) 1 demo_handlers (SubMux 0)
    1 demo_proxy (SubMux 0) (Ok fresh_end)
    "twice" (x02 :: String.list_byte_of_string "twice")
    (x02 :: String.list_byte_of_string "/twice") (frame [x05; x2a]) io_EOF)
    as [Hp _]; [reflexivity|by split|by split|].
  destruct (Hp eq_refl) as (s0 & ch & H1 & _ & H2 & _).
  exists s0. exact (conj H1 H2).
Defined.

(** C23. The copies of a proxied call relay it: at every point the other server
    got a prefix of what the caller sent and the caller a prefix of the response;
    until the caller's channel is closed the copy to it can go on, and if no copy
    failed the channel is closed only when the whole response was relayed. *)
Theorem call_proxy_relays evs from_a from_b p :
  handler_run evs (proxy_start from_a from_b) = Some p →
  (∃ more, from_a = mjoin (cp_out (px_to_b p)) ++ more) ∧
  (∃ more, from_b = mjoin (cp_out (px_to_a p)) ++ more) ∧
  (px_closed p = false → is_Some (handler_step (ToA (CopyChunk 0)) p)) ∧
  (px_closed p = true → existsb is_fail evs = false → mjoin (cp_out (px_to_a p)) = from_b).
Proof.
  intros Hr.
  assert (handler_inv from_a from_b false (proxy_start from_a from_b)) as H0 by by split.
  destruct (handler_run_inv _ _ _ _ _ _ H0 Hr) as [Ha Hb Hd Hc]. cbn [orb] in *.
  split_and!; [by eexists|by eexists| |].
  - rewrite Hc. intros Hn. cbn. unfold copy_step. rewrite Hn.
    destruct (cp_src (px_to_a p)); by eexists.
  - rewrite Hc. intros Hdn Hf. unfold copied in Ha. by rewrite (Hd Hf Hdn), app_nil_r in Ha.
Qed.

Lemma call_proxy_relays_witness :
  ∃ p, handler_run [ToA (CopyChunk 0); ToA (CopyChunk 5); ToA (CopyChunk 5)]
         (proxy_start [x01] [x0a; x0b]) = Some p ∧
    px_closed p = true ∧ mjoin (cp_out (px_to_a p)) = [x0a; x0b] ∧ cp_out (px_to_b p) = [].
Proof.
  eexists. split_and!; [reflexivity|reflexivity| |reflexivity].
  apply (call_proxy_relays [ToA (CopyChunk 0); ToA (CopyChunk 5); ToA (CopyChunk 5)]
    [x01] [x0a; x0b]); reflexivity.
Defined.

(** [Proxy] pairs channels in order until a session ends: it reports [nil]
    on [io.EOF] from [Accept] and any other error as it is, and when [Open] fails
    it closes exactly the channel it had just accepted. *)
Theorem proxy_pairs {C} (accepts : list C) opens end_ :
  length opens = length accepts →
  Proxy ((Ok <$> accepts) ++ [Err end_]) (Ok <$> opens) []
  = Ret (zip accepts opens, [], if decide (end_ = io_EOF) then None else Some end_) ∧
  ∀ a err more, Proxy ((Ok <$> accepts ++ a :: more)) ((Ok <$> opens) ++ [Err err]) []
  = Ret (zip accepts opens, [a], Some err).
Proof.
  intros Hlen.
  assert (∀ pairs, Proxy ((Ok <$> accepts) ++ [Err end_]) (Ok <$> opens) pairs
    = Ret (pairs ++ zip accepts opens, [], if decide (end_ = io_EOF) then None else Some end_) ∧
    ∀ a err more, Proxy ((Ok <$> accepts ++ a :: more)) ((Ok <$> opens) ++ [Err err]) pairs
    = Ret (pairs ++ zip accepts opens, [a], Some err)) as Hk; [|apply (Hk [])].
  revert opens Hlen. induction accepts as [|x xs IH]; intros [|y ys] Hlen pairs; try done.
  - cbn. by rewrite app_nil_r.
  - cbn [fmap list_fmap app Proxy zip zip_with]. injection Hlen as Hlen.
    destruct (IH ys Hlen (pairs ++ [(x, y)])) as [IH1 IH2]. rewrite <- !app_assoc in *. cbn [app] in *.
    split; [exact IH1|]. intros a err more. specialize (IH2 a err more).
    exact IH2.
Qed.

Lemma proxy_pairs_witness :
  Proxy ((Ok <$> [1; 2]) ++ [Err net_ErrClosed]) (Ok <$> [7; 8]) []
  = Ret ([(1, 7); (2, 8)], [], Some net_ErrClosed).
Proof. exact (proj1 (proxy_pairs [1; 2] [7; 8] net_ErrClosed eq_refl)). Defined.
