(* ===== verification/GoFlag.v ===== *)
(** * What cmd/qtalk/cli uses of Go's package flag

    Flag sets with their formal flags, [Var]/[BoolVar], [Parse] with
    [ContinueOnError], [VisitAll] and [UnquoteUsage]. A flag's [Value] is an
    interface: booleans are the package's own, any other type is an instance of
    [FlagValue]. [Quote] is the [%q] verb, which only shapes messages. *)
From Stdlib Require Import Ascii.
From stdpp Require Import sorting.
From S2P Require Import Prelude GoRuntime.

(** ** Values *)

(** [interface flag.Value]: [Set], [String], the optional [IsBoolFlag], the text
    of the type's zero value, and the name the package has for the type. *)
Class FlagValue (V : Type) := {
  value_Set : string → V → option error * V;
  value_String : V → string;
  value_IsBoolFlag : V → bool;
  value_zero : V → string;
  value_type : V → string;
  Quote : string → string;
}.

(** [strconv.ParseBool]. *)
Definition ParseBool (s : string) : option bool :=
  if bool_decide (s ∈ ["1"; "t"; "T"; "TRUE"; "true"; "True"]%string) then Some true
  else if bool_decide (s ∈ ["0"; "f"; "F"; "FALSE"; "false"; "False"]%string) then Some false
  else None.

Inductive Value (V : Type) :=
| boolValue (b : bool)
| userValue (v : V).
Arguments boolValue {_} _.
Arguments userValue {_} _.

Definition bool_String (b : bool) : string := if b then "true" else "false".

(** ** Flags and flag sets *)

Record Flag (V : Type) := mkFlag {
  f_Name : string;
  f_Usage : string;
  f_Value : Value V;
  f_DefValue : string;
}.
Arguments mkFlag {_} _ _ _ _.
Arguments f_Name {_} _.
Arguments f_Usage {_} _.
Arguments f_Value {_} _.
Arguments f_DefValue {_} _.

Record FlagSet (V : Type) := mkFlagSet {
  fs_name : string;
  fs_formal : gmap string (Flag V);
  fs_args : list string;
}.
Arguments mkFlagSet {_} _ _ _.
Arguments fs_name {_} _.
Arguments fs_formal {_} _.
Arguments fs_args {_} _.

Section flag.
Context {V : Type} `{FlagValue V}.

Definition Value_Set (s : string) (v : Value V) : option error * Value V :=
  match v with
  | boolValue _ =>
      match ParseBool s with
      | Some b => (None, boolValue b)
      | None => (Some (errorString "parse error"), boolValue false)
      end
  | userValue u => let '(e, u) := value_Set s u in (e, userValue u)
  end.

Definition Value_String (v : Value V) : string :=
  match v with boolValue b => bool_String b | userValue u => value_String u end.

Definition Value_IsBoolFlag (v : Value V) : bool :=
  match v with boolValue _ => true | userValue u => value_IsBoolFlag u end.

Definition set_Value (v : Value V) (f : Flag V) : Flag V :=
  mkFlag (f_Name f) (f_Usage f) v (f_DefValue f).

Definition set_Usage (u : string) (f : Flag V) : Flag V :=
  mkFlag (f_Name f) u (f_Value f) (f_DefValue f).

(** [NewFlagSet(name, ContinueOnError)]. *)
Definition NewFlagSet (name : string) : FlagSet V := mkFlagSet name ∅ [].

Definition set_formal formal (f : FlagSet V) : FlagSet V :=
  mkFlagSet (fs_name f) formal (fs_args f).

Definition set_args args (f : FlagSet V) : FlagSet V :=
  mkFlagSet (fs_name f) (fs_formal f) args.

Fixpoint has_char (c : ascii) (s : string) : bool :=
  match s with
  | EmptyString => false
  | String d s => bool_decide (c = d) || has_char c s
  end.

Definition HasPrefix_minus (s : string) : bool :=
  match s with String "-" _ => true | _ => false end.

(** [f.Var(value, name, usage)]. *)
Definition Var (value : Value V) (name usage : string) (f : FlagSet V) : outcome (FlagSet V) :=
  if HasPrefix_minus name then Panic ("flag " +:+ Quote name +:+ " begins with -")
  else if has_char "=" name then Panic ("flag " +:+ Quote name +:+ " contains =")
  else match fs_formal f !! name with
       | Some _ =>
           Panic ((if decide (fs_name f = "") then "" else fs_name f +:+ " ")
                  +:+ "flag redefined: " +:+ name)
       | None =>
           Ret (set_formal (<[name := mkFlag name usage value (Value_String value)]> (fs_formal f)) f)
       end.

Definition BoolVar (name : string) (value : bool) (usage : string) (f : FlagSet V)
    : outcome (FlagSet V) := Var (boolValue value) name usage f.

(** ** Parse *)

Inductive token :=
| NotFlag
| Terminator
| BadSyntax
| FlagToken (name : string) (value : option string).

(** The name and the value of [name=value]. *)
Fixpoint cut_eq (s : string) : string * option string :=
  match s with
  | EmptyString => (EmptyString, None)
  | String "=" v => (EmptyString, Some v)
  | String c s => let '(n, v) := cut_eq s in (String c n, v)
  end.

(** The first half of [parseOne]. *)
Definition tokenize (s : string) : token :=
  match s with
  | String "-" (String "-" EmptyString) => Terminator
  | String "-" (String c rest) =>
      let name := match c with "-"%char => rest | _ => String c rest end in
      match name with
      | EmptyString | String "-" _ | String "=" _ => BadSyntax
      | _ => let '(n, v) := cut_eq name in FlagToken n v
      end
  | _ => NotFlag
  end.

Definition set_flag (name : string) (fl : Flag V) (v : Value V) (f : FlagSet V) : FlagSet V :=
  set_formal (<[name := set_Value v fl]> (fs_formal f)) f.

(** Set a boolean flag from what is behind its [=], if anything. *)
Definition set_bool (name : string) (fl : Flag V) (value : option string) (f : FlagSet V)
    : option error * FlagSet V :=
  let '(e, v) := Value_Set (default "true" value) (f_Value fl) in
  let f := set_flag name fl v f in
  match e, value with
  | None, _ => (None, f)
  | Some e, Some s =>
      (Some (errorString ("invalid boolean value " +:+ Quote s +:+ " for -" +:+ name +:+ ": "
                          +:+ Error_text e)), f)
  | Some e, None =>
      (Some (errorString ("invalid boolean flag " +:+ name +:+ ": " +:+ Error_text e)), f)
  end.

Definition set_other (name : string) (fl : Flag V) (value : string) (f : FlagSet V)
    : option error * FlagSet V :=
  let '(e, v) := Value_Set value (f_Value fl) in
  let f := set_flag name fl v f in
  match e with
  | None => (None, f)
  | Some e =>
      (Some (errorString ("invalid value " +:+ Quote value +:+ " for flag -" +:+ name +:+ ": "
                          +:+ Error_text e)), f)
  end.

(** [f.Parse(arguments)]. *)
Fixpoint Parse (arguments : list string) (f : FlagSet V) : option error * FlagSet V :=
  match arguments with
  | [] => (None, set_args [] f)
  | s :: rest =>
      match tokenize s with
      | NotFlag => (None, set_args arguments f)
      | Terminator => (None, set_args rest f)
      | BadSyntax => (Some (errorString ("bad flag syntax: " +:+ s)), set_args arguments f)
      | FlagToken name value =>
          match fs_formal f !! name with
          | None =>
              (Some (if bool_decide (name = "help" ∨ name = "h") then flag_ErrHelp
                     else errorString ("flag provided but not defined: -" +:+ name)),
               set_args rest f)
          | Some fl =>
              if Value_IsBoolFlag (f_Value fl) then
                match set_bool name fl value f with
                | (None, f) => Parse rest f
                | (Some e, f) => (Some e, set_args rest f)
                end
              else
                match value, rest with
                | Some v, _ =>
                    match set_other name fl v f with
                    | (None, f) => Parse rest f
                    | (Some e, f) => (Some e, set_args rest f)
                    end
                | None, v :: rest =>
                    match set_other name fl v f with
                    | (None, f) => Parse rest f
                    | (Some e, f) => (Some e, set_args rest f)
                    end
                | None, [] =>
                    (Some (errorString ("flag needs an argument: -" +:+ name)), set_args [] f)
                end
          end
      end
  end.

(** ** VisitAll and UnquoteUsage *)

(** Flags in the order [VisitAll] shows them: by name. *)
Definition name_le (a b : string * Flag V) : Prop := String.leb a.1 b.1 = true.

#[global] Instance name_le_dec : RelDecision name_le.
Proof. intros a b. unfold name_le. apply _. Defined.

Definition sorted_flags (f : FlagSet V) : list (string * Flag V) :=
  merge_sort name_le (map_to_list (fs_formal f)).

(** The text up to a back quote, and the text behind it. *)
Fixpoint cut_backquote (s : string) : option (string * string) :=
  match s with
  | EmptyString => None
  | String "`" s => Some (EmptyString, s)
  | String c s => '(a, b) ← cut_backquote s; Some (String c a, b)
  end.

Definition UnquoteUsage (fl : Flag V) : string * string :=
  let unquoted :=
    '(a, s) ← cut_backquote (f_Usage fl);
    '(name, b) ← cut_backquote s;
    Some (name, a +:+ name +:+ b) in
  match unquoted with
  | Some r => r
  | None =>
      (match f_Value fl with
       | boolValue _ => ""
       | userValue u => if value_IsBoolFlag u then "" else value_type u
       end, f_Usage fl)
  end.
End flag.
