(* ===== verification/Cli.v ===== *)
(** * cmd/qtalk/cli: commands, their lookup and their execution

    command.go and framework.go. Commands point to their parent and to their
    subcommands, so they live in a heap; a command's flag set is created the
    first time it is asked for. [A] is the type of the [Run] functions; running
    one is what [Execute] ends with, so it is part of its result. *)
From Stdlib Require Import Ascii.
From S2P Require Import Prelude GoRuntime GoFlag.

(** ** Commands *)

Definition cmd_ptr := nat.

(** [type PositionalArgs]. *)
Definition PositionalArgs : Type := cmd_ptr → list string → option error.

(** [type Command struct]; the code never reads [Annotations]. *)
Record Command (A V : Type) := mkCommand {
  Usage : string;
  Short : string;
  Long : string;
  Hidden : bool;
  Aliases : list string;
  Example_ : string;
  Version : string;
  Args : option PositionalArgs;
  Run : option A;
  commands : list cmd_ptr;
  parent : option cmd_ptr;
  flags : option (FlagSet V);
}.
Arguments mkCommand {_ _} _ _ _ _ _ _ _ _ _ _ _ _.
Arguments Usage {_ _} _.
Arguments Short {_ _} _.
Arguments Long {_ _} _.
Arguments Hidden {_ _} _.
Arguments Aliases {_ _} _.
Arguments Example_ {_ _} _.
Arguments Version {_ _} _.
Arguments Args {_ _} _.
Arguments Run {_ _} _.
Arguments commands {_ _} _.
Arguments parent {_ _} _.
Arguments flags {_ _} _.

(** The heap the command pointers point into. *)
Abbreviation cmds A V := (gmap cmd_ptr (Command A V)).

(** [name[:i]] for the index [i] of the first space, or the whole of it. *)
Fixpoint before_space (s : string) : string :=
  match s with
  | EmptyString => EmptyString
  | String " " _ => EmptyString
  | String c s => String c (before_space s)
  end.

Section cli.
Context {A V : Type} `{FlagValue V}.

Definition deref_cmd (c : cmd_ptr) : M (cmds A V) (Command A V) := λ h,
  match h !! c with
  | Some cmd => (Ret cmd, h)
  | None => (Panic "nil pointer dereference", h)
  end.

Definition set_flags (fs : FlagSet V) (c : Command A V) : Command A V :=
  mkCommand (Usage c) (Short c) (Long c) (Hidden c) (Aliases c) (Example_ c) (Version c)
    (Args c) (Run c) (commands c) (parent c) (Some fs).

Definition set_parent p (c : Command A V) : Command A V :=
  mkCommand (Usage c) (Short c) (Long c) (Hidden c) (Aliases c) (Example_ c) (Version c)
    (Args c) (Run c) (commands c) (Some p) (flags c).

Definition add_sub sub (c : Command A V) : Command A V :=
  mkCommand (Usage c) (Short c) (Long c) (Hidden c) (Aliases c) (Example_ c) (Version c)
    (Args c) (Run c) (commands c ++ [sub]) (parent c) (flags c).

(** [c.Name()]. *)
Definition Name (c : Command A V) : string := before_space (Usage c).

(** [c.Flags()]: the flag set, created empty the first time. *)
Definition Flags (c : cmd_ptr) : M (cmds A V) (FlagSet V) :=
  cmd ← deref_cmd c;
  match flags cmd with
  | Some fs => mret fs
  | None =>
      let fs := NewFlagSet (Name cmd) in
      _ ← modify_st (alter (set_flags fs) c); mret fs
  end.

(** A method of [c.flags] changes it. *)
Definition put_Flags (c : cmd_ptr) (fs : FlagSet V) : M (cmds A V) unit :=
  modify_st (alter (set_flags fs) c).

(** [c.AddCommand(sub)]. *)
Definition AddCommand (c sub : cmd_ptr) : M (cmds A V) unit :=
  if decide (sub = c) then panic_st "command can't be a child of itself"
  else _ ← modify_st (alter (set_parent c) sub); modify_st (alter (add_sub sub) c).

(** [c.CommandPath()]; [fuel] bounds the recursion along the parents. *)
Fixpoint CommandPath (fuel : nat) (c : cmd_ptr) : M (cmds A V) string :=
  match fuel with
  | O => nofuel_st
  | S fuel =>
      cmd ← deref_cmd c;
      match parent cmd with
      | Some p => path ← CommandPath fuel p; mret (path +:+ " " +:+ Name cmd)
      | None => mret (Name cmd)
      end
  end.

(** [c.UseLine()]. *)
Definition UseLine (fuel : nat) (c : cmd_ptr) : M (cmds A V) string :=
  cmd ← deref_cmd c;
  let use :=
    if bool_decide (Usage cmd = Name cmd) && (0 <? length (commands cmd))%nat
    then Name cmd +:+ " [command]" else Usage cmd in
  match parent cmd with
  | Some p => path ← CommandPath fuel p; mret (path +:+ " " +:+ use)
  | None => mret use
  end.

(** ** Lookup *)

Definition hasAlias (cmd : Command A V) (name : string) : bool :=
  existsb (λ a, bool_decide (a = name)) (Aliases cmd).

(** The loop of [findSub] over the subcommands. *)
Fixpoint findSub_loop (subs : list cmd_ptr) (name : string) : M (cmds A V) (option cmd_ptr) :=
  match subs with
  | [] => mret None
  | sub :: subs =>
      cmd ← deref_cmd sub;
      if bool_decide (Name cmd = name) || hasAlias cmd name then mret (Some sub)
      else findSub_loop subs name
  end.

(** [c.findSub(name)]. *)
Definition findSub (c : cmd_ptr) (name : string) : M (cmds A V) (option cmd_ptr) :=
  cmd ← deref_cmd c; findSub_loop (commands cmd) name.

(** [c.Find(args)]: the command, and how many arguments lead to it. *)
Fixpoint Find (c : cmd_ptr) (args : list string) : M (cmds A V) (cmd_ptr * nat) :=
  match args with
  | [] => mret (c, 0%nat)
  | arg :: args =>
      cc ← findSub c arg;
      match cc with
      | Some cmd => '(cmd, n) ← Find cmd args; mret (cmd, S n)
      | None => mret (c, 0%nat)
      end
  end.
End cli.

(** ** Positional arguments *)

(** The verb [%d]. *)
Definition MinArgs (n : Z) : PositionalArgs := λ _ args,
  if len args <? n then
    Some (errorString ("requires at least " +:+ pretty n +:+ " arg(s), only received "
                       +:+ pretty (len args)))
  else None.

Definition MaxArgs (n : Z) : PositionalArgs := λ _ args,
  if n <? len args then
    Some (errorString ("accepts at most " +:+ pretty n +:+ " arg(s), received "
                       +:+ pretty (len args)))
  else None.

Definition ExactArgs (n : Z) : PositionalArgs := λ _ args,
  if negb (len args =? n) then
    Some (errorString ("accepts " +:+ pretty n +:+ " arg(s), received " +:+ pretty (len args)))
  else None.

Definition RangeArgs (min max : Z) : PositionalArgs := λ _ args,
  if (len args <? min) || (max <? len args) then
    Some (errorString ("accepts between " +:+ pretty min +:+ " and " +:+ pretty max
                       +:+ " arg(s), received " +:+ pretty (len args)))
  else None.
