(* ===== verification/CliHelp.v ===== *)
(** * cmd/qtalk/cli: help texts and Execute

    help.go and the [Execute] of framework.go. [CommandHelp] only wraps a command
    pointer. The help template is rendered by hand, piece by piece; [fuel] bounds
    the recursions along subcommands and parents. *)
From Stdlib Require Import Ascii.
From S2P Require Import Prelude GoRuntime GoFlag Cli.

(** ** Text helpers *)

Definition nl : string := String "010" EmptyString.
Definition tab : string := String "009" EmptyString.
Definition dquote : string := String "034" EmptyString.

(** [strings.Join(l, sep)]. *)
Fixpoint Join (sep : string) (l : list string) : string :=
  match l with
  | [] => ""
  | [s] => s
  | s :: l => s +:+ sep +:+ Join sep l
  end.

(** [strings.ReplaceAll(s, from, to)] for a one-byte [from]. *)
Fixpoint ReplaceAll_char (from : ascii) (to s : string) : string :=
  match s with
  | EmptyString => EmptyString
  | String c s =>
      if bool_decide (c = from) then to +:+ ReplaceAll_char from to s
      else String c (ReplaceAll_char from to s)
  end.

(** Is there a byte at [i], and in [[lo, hi]]? *)
Definition byte_in (lo hi : N) (i : nat) (l : list ascii) : bool :=
  match l !! i with
  | Some c => bool_decide (lo ≤ N_of_ascii c)%N && bool_decide (N_of_ascii c ≤ hi)%N
  | None => false
  end.
Arguments byte_in (lo hi)%_N i%_nat l.

(** Are the bytes at [i], ..., [i + n - 1] continuation bytes? *)
Fixpoint conts (n i : nat) (l : list ascii) : bool :=
  match n with O => true | S n => byte_in 0x80 0xBF i l && conts n (S i) l end.

(** The length of the first rune of a string of bytes: one for a byte that
    starts no valid UTF-8 encoding. *)
Definition rune_len (l : list ascii) : nat :=
  if byte_in 0xC2 0xDF 0 l && conts 1 1 l then 2
  else if (byte_in 0xE0 0xE0 0 l && byte_in 0xA0 0xBF 1 l && conts 1 2 l)
       || ((byte_in 0xE1 0xEC 0 l || byte_in 0xEE 0xEF 0 l) && conts 2 1 l)
       || (byte_in 0xED 0xED 0 l && byte_in 0x80 0x9F 1 l && conts 1 2 l) then 3
  else if (byte_in 0xF0 0xF0 0 l && byte_in 0x90 0xBF 1 l && conts 2 2 l)
       || (byte_in 0xF1 0xF3 0 l && conts 3 1 l)
       || (byte_in 0xF4 0xF4 0 l && byte_in 0x80 0x8F 1 l && conts 2 2 l) then 4
  else 1.

(** [utf8.RuneCountInString(s)]; every rune takes a byte, so the length is fuel
    enough. *)
Fixpoint rune_count_loop (fuel : nat) (l : list ascii) : nat :=
  match fuel, l with
  | S fuel, _ :: _ => S (rune_count_loop fuel (drop (rune_len l) l))
  | _, _ => 0
  end.

Definition RuneCount (s : string) : nat :=
  rune_count_loop (String.length s) (String.list_ascii_of_string s).

Fixpoint spaces (n : nat) : string :=
  match n with O => EmptyString | S n => String " " (spaces n) end.

(** [padRight]: [fmt.Sprintf] with the verb [%-<padding>s]. *)
Definition padRight (s : string) (padding : nat) : string :=
  s +:+ spaces (padding - RuneCount s).

(** Drop the runes of [unicode.IsSpace] from the front of a reversed string:
    U+0009 to U+000D, U+0020, U+0085, U+00A0, U+1680, U+2000 to U+200A, U+2028,
    U+2029, U+202F, U+205F and U+3000, as UTF-8. *)
Definition space_len (l : list N) : nat :=
  match l with
  | c :: rest =>
      if bool_decide (c ∈ [9; 10; 11; 12; 13; 32]%N) then 1
      else match rest with
           | 0xC2%N :: _ => if bool_decide (c ∈ [0x85; 0xA0]%N) then 2 else 0
           | 0x9A%N :: 0xE1%N :: _ => if bool_decide (c = 0x80%N) then 3 else 0
           | 0x80%N :: 0xE2%N :: _ =>
               if bool_decide (0x80 ≤ c ≤ 0x8A)%N || bool_decide (c ∈ [0xA8; 0xA9; 0xAF]%N)
               then 3 else 0
           | 0x81%N :: 0xE2%N :: _ => if bool_decide (c = 0x9F%N) then 3 else 0
           | 0x80%N :: 0xE3%N :: _ => if bool_decide (c = 0x80%N) then 3 else 0
           | _ => 0
           end
  | [] => 0
  end.

Fixpoint trim_loop (fuel : nat) (l : list ascii) : list ascii :=
  match fuel, space_len (N_of_ascii <$> l) with
  | S fuel, S n => trim_loop fuel (drop (S n) l)
  | _, _ => l
  end.

(** [trimRight]: [strings.TrimRightFunc(s, unicode.IsSpace)]. *)
Definition trimRight (s : string) : string :=
  String.string_of_list_ascii (rev (trim_loop (String.length s) (rev (String.list_ascii_of_string s)))).

(** ** CommandHelp *)

Section help.
Context {A V : Type} `{FlagValue V}.

Definition Runnable (c : Command A V) : bool := bool_decide (is_Some (Run c)).

Definition HasDescription (c : Command A V) : bool :=
  negb (bool_decide (Short c = "")) || negb (bool_decide (Long c = "")).

Definition Description (c : Command A V) : string :=
  if bool_decide (Long c = "") then Short c else Long c.

Definition NameAndAliases (c : Command A V) : string := Join ", " (Name c :: Aliases c).

Definition HasExample (c : Command A V) : bool := negb (bool_decide (Example_ c = "")).

Definition NamePadding : nat := 16.

(** The loop of [HasSubCommands], [avail] being [Available]. *)
Fixpoint any_available (avail : cmd_ptr → M (cmds A V) bool) (subs : list cmd_ptr)
    : M (cmds A V) bool :=
  match subs with
  | [] => mret false
  | sub :: subs => a ← avail sub; if a : bool then mret true else any_available avail subs
  end.

(** [c.Available()], with [HasSubCommands] unfolded in it. *)
Fixpoint Available (fuel : nat) (c : cmd_ptr) : M (cmds A V) bool :=
  match fuel with
  | O => nofuel_st
  | S fuel =>
      cmd ← deref_cmd c;
      if Hidden cmd then mret false
      else if Runnable cmd then mret true
      else any_available (Available fuel) (commands cmd)
  end.

(** [c.HasSubCommands()]. *)
Definition HasSubCommands (fuel : nat) (c : cmd_ptr) : M (cmds A V) bool :=
  cmd ← deref_cmd c; any_available (Available fuel) (commands cmd).

(** [c.HasFlags()]. *)
Definition HasFlags (c : cmd_ptr) : M (cmds A V) bool :=
  fs ← Flags c; mret (0 <? length (sorted_flags fs))%nat.

(** [isZeroValue(f, value)]. *)
Definition isZeroValue (f : Flag V) (value : string) : bool :=
  bool_decide (value = match f_Value f with
                       | boolValue _ => bool_String false
                       | userValue u => value_zero u
                       end).

(** The body of [VisitAll] in [FlagUsages]: one string builder [sb] for all
    flags, and [f.Usage] is cleared. *)
Definition flag_usage (f : Flag V) (sb : string) : string * Flag V :=
  let '(name, usage) := UnquoteUsage f in
  let sb := sb +:+ "  -" +:+ f_Name f in
  let sb := if (0 <? String.length name)%nat then sb +:+ " " +:+ name else sb in
  let sb := if (String.length sb <=? 4)%nat then sb +:+ tab else sb +:+ nl +:+ "    " +:+ tab in
  let sb := sb +:+ ReplaceAll_char "010" (nl +:+ "    " +:+ tab) usage in
  let f := set_Usage "" f in
  let sb :=
    if isZeroValue f (f_DefValue f) then sb
    else if bool_decide ((UnquoteUsage f).1 = "string")
    then sb +:+ " (default " +:+ Quote (f_DefValue f) +:+ ")"
    else sb +:+ " (default " +:+ f_DefValue f +:+ ")" in
  (sb +:+ nl, f).

Fixpoint flag_usages_loop (fl : list (string * Flag V)) (sb : string) (fs : FlagSet V)
    : string * FlagSet V :=
  match fl with
  | [] => (sb, fs)
  | (name, f) :: fl =>
      let '(sb, f) := flag_usage f sb in
      flag_usages_loop fl sb (set_formal (<[name := f]> (fs_formal fs)) fs)
  end.

(** [c.FlagUsages()]. *)
Definition FlagUsages (c : cmd_ptr) : M (cmds A V) string :=
  fs ← Flags c;
  let '(sb, fs) := flag_usages_loop (sorted_flags fs) "" fs in
  _ ← put_Flags c fs; mret sb.

(** The lines of the template's [range .Commands]. *)
Fixpoint command_lines (fuel : nat) (subs : list cmd_ptr) : M (cmds A V) string :=
  match subs with
  | [] => mret ""
  | sub :: subs =>
      a ← Available fuel sub;
      cmd ← deref_cmd sub;
      rest ← command_lines fuel subs;
      mret ((if (a : bool) || bool_decide (Name cmd = "help")
             then nl +:+ "  " +:+ padRight (Name cmd) NamePadding +:+ " " +:+ Short cmd
             else "") +:+ rest)
  end.

(** [WriteHelp]: the template [HelpTemplate] executed on a command. *)
Definition WriteHelp (fuel : nat) (c : cmd_ptr) : M (cmds A V) string :=
  cmd ← deref_cmd c;
  usage ← (if Runnable cmd then l ← UseLine fuel c; mret (nl +:+ l) else mret "");
  subs ← HasSubCommands fuel c;
  lines ← (if subs : bool
           then l ← command_lines fuel (commands cmd);
                mret (nl +:+ nl +:+ "Available Commands:" +:+ l)
           else mret "");
  has_flags ← HasFlags c;
  fl ← (if has_flags : bool
        then u ← FlagUsages c; mret (nl +:+ nl +:+ "Flags:" +:+ nl +:+ trimRight u)
        else mret "");
  more ← (if subs : bool
          then path ← CommandPath fuel c;
               mret (nl +:+ nl +:+ "Use " +:+ dquote +:+ path +:+ " [command] -help" +:+ dquote
                     +:+ " for more information about a command.")
          else mret "");
  mret ("Usage:" +:+ usage
        +:+ (if HasDescription cmd then nl +:+ nl +:+ Description cmd else "")
        +:+ (if (0 <? length (Aliases cmd))%nat
             then nl +:+ nl +:+ "Aliases:" +:+ nl +:+ NameAndAliases cmd else "")
        +:+ (if HasExample cmd then nl +:+ nl +:+ "Examples:" +:+ nl +:+ Example_ cmd else "")
        +:+ lines +:+ fl +:+ more +:+ nl).

(** ** Execute *)

(** How [Execute] ends: it returns an error, it wrote a help text to [stderr] or
    the version to [stdout], or it called [cmd.Run] with the arguments. *)
Inductive executed :=
| ExecError (err : error)
| ExecHelp (text : string)
| ExecVersion (text : string)
| ExecRun (run : A) (args : list string).

(** [showVersion], the variable behind the root's [v] flag. *)
Definition showVersion (fs : FlagSet V) : bool :=
  match fs_formal fs !! "v" with
  | Some f => match f_Value f with boolValue b => b | userValue _ => false end
  | None => false
  end.

(** [root.Flags().BoolVar(&showVersion, "v", false, "show version")], if the root
    has a version. *)
Definition add_version (root : cmd_ptr) : M (cmds A V) unit :=
  cmd ← deref_cmd root;
  if decide (Version cmd = "") then mret tt
  else fs ← Flags root;
       match BoolVar "v" false "show version" fs with
       | Ret fs => put_Flags root fs
       | Panic msg => panic_st msg
       | Block => block_st
       | NoFuel => nofuel_st
       end.

(** [Execute(ctx, root, args)]. *)
Definition Execute (fuel : nat) (root : cmd_ptr) (args : list string) : M (cmds A V) executed :=
  _ ← add_version root;
  '(cmd, n) ← Find root args;
  f ← Flags cmd;
  let '(err, f) := Parse (drop n args) f in
  _ ← put_Flags cmd f;
  match err with
  | Some err =>
      if decide (err = flag_ErrHelp) then text ← WriteHelp fuel cmd; mret (ExecHelp text)
      else mret (ExecError err)
  | None =>
      r ← deref_cmd root;
      show ← (if decide (Version r = "") then mret false
              else rf ← Flags root; mret (showVersion rf));
      if show : bool then mret (ExecVersion (Version r +:+ nl))
      else
        c ← deref_cmd cmd;
        match match Args c with Some check => check cmd (fs_args f) | None => None end with
        | Some err => mret (ExecError err)
        | None =>
            match Run c with
            | None => text ← WriteHelp fuel cmd; mret (ExecHelp text)
            | Some run => mret (ExecRun run (fs_args f))
            end
        end
  end.
End help.

Arguments executed : clear implicits.
