(* ===== verification/CliSpec.v ===== *)
(** * cmd/qtalk/cli: what lookup, help and execution guarantee

    [Find] against the longest path of names in the command tree, command paths
    against [Find], the availability of commands against a declarative rule, and
    [Execute] against lookup, flag parsing and validation put together. *)
From Stdlib Require Import Ascii.
From S2P Require Import Prelude GoRuntime GoFlag Cli CliHelp.

(** Reducing a monadic step whose state does not change. *)
Lemma step_eq {S A B} (m : M S A) (k : A → M S B) s a s' :
  m s = (Ret a, s') → (m ≫= k) s = k a s'.
Proof. intros Hm. unfold mbind, M_bind. by rewrite Hm. Qed.

Section spec.
Context {A V : Type} `{HV : FlagValue V}.
Implicit Types (h : cmds A V) (c : cmd_ptr).

(** ** The tree *)

(** Every pointer to a command is valid. *)
Definition closed h : Prop := ∀ c cmd sub,
  h !! c = Some cmd → sub ∈ commands cmd → is_Some (h !! sub).

(** A command is called by its name or by an alias. *)
Definition answers h sub (name : string) : Prop :=
  ∃ cmd, h !! sub = Some cmd ∧ (Name cmd = name ∨ name ∈ Aliases cmd).

(** The subcommand a name selects: the first that answers to it. *)
Definition child h c name sub : Prop :=
  ∃ cmd i, h !! c = Some cmd ∧ commands cmd !! i = Some sub ∧ answers h sub name ∧
    ∀ j sub', (j < i)%nat → commands cmd !! j = Some sub' → ¬ answers h sub' name.

Inductive descends h : cmd_ptr → list string → cmd_ptr → Prop :=
| descends_here c : descends h c [] c
| descends_child c name sub names d :
    child h c name sub → descends h sub names d → descends h c (name :: names) d.

Lemma deref_cmd_eq h c cmd : h !! c = Some cmd → deref_cmd c h = (Ret cmd, h).
Proof. intros Hc. unfold deref_cmd. by rewrite Hc. Qed.

Lemma hasAlias_spec (cmd : Command A V) name : hasAlias cmd name = true ↔ name ∈ Aliases cmd.
Proof.
  unfold hasAlias. rewrite existsb_exists, list_elem_of_In.
  split; [intros (a & Ha & ->%bool_decide_eq_true); done|].
  intros Hin. exists name. by rewrite bool_decide_eq_true.
Qed.

Lemma answers_dec h sub cmd name :
  h !! sub = Some cmd →
  bool_decide (Name cmd = name) || hasAlias cmd name = true ↔ answers h sub name.
Proof.
  intros Hs. rewrite orb_true_iff, bool_decide_eq_true, hasAlias_spec. unfold answers.
  split; [by exists cmd|]. intros (cmd' & Hs' & Ha). congruence.
Qed.

Lemma findSub_loop_spec h subs name :
  Forall (λ s, is_Some (h !! s)) subs →
  ∃ r, findSub_loop subs name h = (Ret r, h) ∧
    match r with
    | Some sub => ∃ i, subs !! i = Some sub ∧ answers h sub name ∧
        ∀ j sub', (j < i)%nat → subs !! j = Some sub' → ¬ answers h sub' name
    | None => ∀ sub, sub ∈ subs → ¬ answers h sub name
    end.
Proof.
  induction 1 as [|sub subs [cmd Hs] Hall (r & IH & Hr)]; cbn [findSub_loop].
  { exists None. split; [done|]. intros sub Hin. by apply elem_of_nil in Hin. }
  rewrite (step_eq _ _ _ _ _ (deref_cmd_eq _ _ _ Hs)).
  pose proof (answers_dec h sub cmd name Hs) as Ha.
  destruct (bool_decide (Name cmd = name) || hasAlias cmd name).
  - exists (Some sub). split; [done|]. exists 0%nat. split_and!; [done|by apply Ha|]. lia.
  - exists r. split; [done|]. destruct r as [sub'|].
    + destruct Hr as (i & Hi & Hans & Hmin). exists (S i). split_and!; [done|done|].
      intros [|j] s Hj Hsub; cbn in Hsub; [|apply (Hmin j); [lia|done]].
      injection Hsub as <-. by intros ?%Ha.
    + intros s [->|Hin]%elem_of_cons; [by intros ?%Ha|by apply Hr].
Qed.

Lemma findSub_spec h c name :
  closed h → is_Some (h !! c) →
  ∃ r, findSub c name h = (Ret r, h) ∧
    match r with
    | Some sub => child h c name sub ∧ is_Some (h !! sub)
    | None => ∀ sub, ¬ child h c name sub
    end.
Proof.
  intros Hcl [cmd Hc]. unfold findSub. rewrite (step_eq _ _ _ _ _ (deref_cmd_eq _ _ _ Hc)).
  destruct (findSub_loop_spec h (commands cmd) name) as (r & Hr & Hs).
  { apply Forall_forall. intros s Hin. by eapply Hcl. }
  exists r. split; [done|]. destruct r as [sub|].
  - destruct Hs as (i & Hi & Ha & Hmin). split; [by exists cmd, i|].
    destruct Ha as (sc & -> & _). by eexists.
  - intros sub (cmd' & i & Hc' & Hi & Ha & _). rewrite Hc in Hc'. injection Hc' as <-.
    apply (Hs sub); [by eapply list_elem_of_lookup_2|done].
Qed.

Lemma child_unique h c name s1 s2 : child h c name s1 → child h c name s2 → s1 = s2.
Proof.
  intros (cmd & i & Hc & Hi & Ha & Hm) (cmd' & j & Hc' & Hj & Ha' & Hm').
  rewrite Hc in Hc'. injection Hc' as <-.
  destruct (lt_eq_lt_dec i j) as [[Hlt| ->]|Hlt].
  - by destruct (Hm' i s1).
  - congruence.
  - by destruct (Hm j s2).
Qed.

(** What [Find] is meant to return: the command at the end of the longest prefix
    of the arguments that is a path in the tree. *)
Definition longest_path h c (args : list string) d (n : nat) : Prop :=
  (n ≤ length args)%nat ∧ descends h c (take n args) d ∧
  ∀ arg sub, args !! n = Some arg → ¬ child h d arg sub.

Lemma Find_spec h c args :
  closed h → is_Some (h !! c) →
  ∃ d n, Find c args h = (Ret (d, n), h) ∧ longest_path h c args d n.
Proof.
  intros Hcl. revert c. induction args as [|arg args IH]; intros c Hc; cbn [Find].
  { exists c, 0%nat. split; [done|]. split_and!; [done|constructor|done]. }
  destruct (findSub_spec h c arg Hcl Hc) as (r & Hr & Hs). rewrite (step_eq _ _ _ _ _ Hr).
  destruct r as [sub|].
  - destruct Hs as [Hch Hsub]. destruct (IH sub Hsub) as (d & n & Hf & Hn & Hd & Hstop).
    rewrite (step_eq _ _ _ _ _ Hf). exists d, (S n). split; [done|].
    split_and!; [cbn; lia|by econstructor|done].
  - exists c, 0%nat. split; [done|]. split_and!; [lia|constructor|].
    intros a sub [= <-]. apply Hs.
Qed.

Lemma longest_path_unique h c args d n d' n' :
  longest_path h c args d n → longest_path h c args d' n' → d = d' ∧ n = n'.
Proof.
  revert c n n'. induction args as [|arg args IH]; intros c n n' (Hn & Hd & Hs) (Hn' & Hd' & Hs').
  { cbn in Hn, Hn'. assert (n = 0 ∧ n' = 0)%nat as [-> ->] by lia.
    inversion Hd; inversion Hd'; by subst. }
  destruct n as [|n], n' as [|n']; cbn [take] in *.
  - inversion Hd; inversion Hd'; by subst.
  - inversion Hd; inversion Hd'; subst. by destruct (Hs arg sub eq_refl).
  - inversion Hd; inversion Hd'; subst. by destruct (Hs' arg sub eq_refl).
  - inversion Hd as [|? ? s1 ? ? E1 E1']; inversion Hd' as [|? ? s2 ? ? E2 E2']; subst.
    rewrite (child_unique _ _ _ _ _ E2 E1) in E2'. cbn in Hn, Hn'.
    destruct (IH s1 n n') as [-> ->]; [split_and!; [lia|done..]|split_and!; [lia|done..]|done].
Qed.

(** ** Command paths *)

(** The command the names [names] lead to from [root], by first names only and
    with parent pointers back. *)
Inductive below h root : list string → cmd_ptr → Prop :=
| below_root : below h root [] root
| below_sub names p pc sub sc :
    below h root names p → h !! p = Some pc → sub ∈ commands pc →
    h !! sub = Some sc → parent sc = Some p → below h root (names ++ [Name sc]) sub.

Lemma below_named h root names p pc sub sc ns :
  below h root names p → h !! p = Some pc → sub ∈ commands pc → h !! sub = Some sc →
  parent sc = Some p → ns = names ++ [Name sc] → below h root ns sub.
Proof. intros. subst. by eapply below_sub. Qed.

(** No two subcommands of a command answer to the same name. *)
Definition unambiguous h : Prop := ∀ c cmd s1 s2 name,
  h !! c = Some cmd → s1 ∈ commands cmd → s2 ∈ commands cmd →
  answers h s1 name → answers h s2 name → s1 = s2.

Lemma unambiguous_child h c cmd sub name :
  unambiguous h → h !! c = Some cmd → sub ∈ commands cmd → answers h sub name →
  child h c name sub.
Proof.
  intros Hu Hc Hin Ha. induction (commands cmd) as [|s subs IH] eqn:E using rev_ind;
    [by apply elem_of_nil in Hin|]. clear IH.
  rewrite <- E in Hin. clear E s subs.
  assert (∃ i, commands cmd !! i = Some sub ∧
    ∀ j, (j < i)%nat → commands cmd !! j ≠ Some sub) as (i & Hi & Hmin).
  { clear Hc. induction (commands cmd) as [|s subs IH]; [by apply elem_of_nil in Hin|].
    destruct (decide (s = sub)) as [->|Hne]; [by exists 0%nat; split; [|lia]|].
    apply elem_of_cons in Hin as [->|Hin]; [done|]. destruct (IH Hin) as (i & Hi & Hm).
    exists (S i). split; [done|]. intros [|j] Hj; cbn; [congruence|]. apply Hm. lia. }
  exists cmd, i. split_and!; [done|done|done|]. intros j s Hj Hs Ha'.
  apply (Hmin j Hj). rewrite Hs. f_equal.
  eapply Hu; [done|by eapply list_elem_of_lookup_2|done|done|done].
Qed.

Lemma descends_app h c d e ns ms :
  descends h c ns d → descends h d ms e → descends h c (ns ++ ms) e.
Proof. induction 1; intros He; cbn; [done|]. econstructor; [done|]. auto. Qed.

Lemma below_descends h root names c :
  unambiguous h → below h root names c → descends h root names c.
Proof.
  intros Hu Hb. induction Hb as [|names p pc sub sc Hb IH Hp Hin Hs Hpar]; [constructor|].
  eapply descends_app; [exact IH|]. econstructor; [|constructor].
  eapply unambiguous_child; [done|done|done|]. exists sc. auto.
Qed.

Lemma Join_snoc (s : string) l x : Join " " (s :: l ++ [x]) = Join " " (s :: l) +:+ " " +:+ x.
Proof.
  revert s. induction l as [|y l IH]; intros s; [done|]. cbn [app].
  change (Join " " (s :: y :: l ++ [x])) with (s +:+ " " +:+ Join " " (y :: l ++ [x])).
  rewrite IH. change (Join " " (s :: y :: l)) with (s +:+ " " +:+ Join " " (y :: l)).
  by rewrite !string_app_assoc.
Qed.

Lemma CommandPath_below h root rc names c fuel :
  h !! root = Some rc → parent rc = None → below h root names c → (length names < fuel)%nat →
  CommandPath fuel c h = (Ret (Join " " (Name rc :: names)), h).
Proof.
  intros Hr Hpar Hb. revert fuel.
  induction Hb as [|names p pc sub sc Hb IH Hp Hin Hs Hparent]; intros fuel Hf.
  - destruct fuel as [|fuel]; [lia|]. cbn [CommandPath].
    rewrite (step_eq _ _ _ _ _ (deref_cmd_eq _ _ _ Hr)), Hpar. done.
  - rewrite length_app in Hf. cbn in Hf. destruct fuel as [|fuel]; [lia|]. cbn [CommandPath].
    rewrite (step_eq _ _ _ _ _ (deref_cmd_eq _ _ _ Hs)), Hparent.
    rewrite (step_eq _ _ _ _ _ (IH fuel ltac:(lia))). by rewrite Join_snoc.
Qed.

(** ** Availability *)

(** A command is listed if it is not hidden and it, or a listed subcommand,
    can run. *)
Inductive available h : cmd_ptr → Prop :=
| available_run c cmd :
    h !! c = Some cmd → Hidden cmd = false → is_Some (Run cmd) → available h c
| available_sub c cmd sub :
    h !! c = Some cmd → Hidden cmd = false → sub ∈ commands cmd → available h sub →
    available h c.

(** The command tree is no deeper than [r]. *)
Definition ranked h (r : cmd_ptr → nat) : Prop := ∀ c cmd sub,
  h !! c = Some cmd → sub ∈ commands cmd → (r sub < r c)%nat.

Lemma any_available_spec h (avail : cmd_ptr → M (cmds A V) bool) subs :
  (∀ sub, sub ∈ subs → ∃ b, avail sub h = (Ret b, h) ∧ (b = true ↔ available h sub)) →
  ∃ b, any_available avail subs h = (Ret b, h) ∧
    (b = true ↔ ∃ sub, sub ∈ subs ∧ available h sub).
Proof.
  induction subs as [|sub subs IH]; intros Hav; cbn [any_available].
  { exists false. split; [done|]. split; [done|]. intros (s & Hin & _). by apply elem_of_nil in Hin. }
  destruct (Hav sub) as (a & Ha & Has); [by apply elem_of_cons; left|].
  rewrite (step_eq _ _ _ _ _ Ha). destruct a.
  - exists true. split; [done|]. split; [|done]. intros _. exists sub.
    split; [by apply elem_of_cons; left|]. by apply Has.
  - destruct IH as (b & Hb & Hbs); [intros s Hin; apply Hav; by apply elem_of_cons; right|].
    exists b. split; [done|]. rewrite Hbs. split.
    + intros (s & Hin & Hs). exists s. split; [by apply elem_of_cons; right|done].
    + intros (s & [->|Hin]%elem_of_cons & Hs); [|by exists s]. by apply Has in Hs.
Qed.

Lemma Available_eq h r fuel c :
  closed h → ranked h r → is_Some (h !! c) → (r c < fuel)%nat →
  ∃ b, Available fuel c h = (Ret b, h) ∧ (b = true ↔ available h c).
Proof.
  intros Hcl Hrk. revert c. induction fuel as [|fuel IH]; intros c [cmd Hc] Hf; [lia|].
  cbn [Available]. rewrite (step_eq _ _ _ _ _ (deref_cmd_eq _ _ _ Hc)).
  destruct (Hidden cmd) eqn:Eh.
  { exists false. split; [done|]. split; [done|].
    intros Ha. inversion Ha; simplify_eq; congruence. }
  unfold Runnable. case_bool_decide as Er.
  { exists true. split; [done|]. split; [|done]. intros _. by eapply available_run. }
  destruct (any_available_spec h (Available fuel) (commands cmd)) as (b & Hb & Hbs).
  { intros sub Hin. apply IH; [by eapply Hcl|]. pose proof (Hrk _ _ _ Hc Hin). lia. }
  exists b. split; [done|]. rewrite Hbs. split.
  - intros (sub & Hin & Hs). by eapply available_sub.
  - intros Ha. inversion Ha as [? ? Hc' ? Hrun|? ? sub Hc' ? Hin Hs]; simplify_eq.
    + by destruct Er.
    + by exists sub.
Qed.

(** ** Execution *)

(** The flag set of a command, created or not. *)
Definition own_flags (cmd : Command A V) : FlagSet V :=
  default (NewFlagSet (Name cmd)) (flags cmd).

Lemma set_flags_twice f1 f2 (cmd : Command A V) : set_flags f2 (set_flags f1 cmd) = set_flags f2 cmd.
Proof. done. Qed.

Lemma alter_flags_twice f1 f2 c h :
  alter (set_flags f2) c (alter (set_flags f1) c h) = alter (set_flags f2) c h.
Proof.
  rewrite alter_alter_eq. by apply alter_ext.
Qed.

Lemma Flags_eq h c cmd :
  h !! c = Some cmd →
  Flags c h = (Ret (own_flags cmd), alter (set_flags (own_flags cmd)) c h).
Proof.
  intros Hc. unfold Flags. rewrite (step_eq _ _ _ _ _ (deref_cmd_eq _ _ _ Hc)).
  unfold own_flags. destruct (flags cmd) as [fs|] eqn:Ef; cbn; [|done].
  unfold mret, M_ret. f_equal. symmetry. apply map_eq. intros i. rewrite lookup_alter.
  case_decide as Hi; [subst i|done]. rewrite Hc. destruct cmd; cbn in *. by subst.
Qed.

Lemma findSub_loop_flags subs name h p fs :
  findSub_loop subs name (alter (set_flags fs) p h)
  = ((findSub_loop subs name h).1, alter (set_flags fs) p h).
Proof.
  induction subs as [|sub subs IH]; [done|]. cbn [findSub_loop].
  unfold mbind, M_bind, deref_cmd. rewrite lookup_alter.
  destruct (h !! sub) as [cmd|] eqn:Es; case_decide as Hp; try subst p; rewrite ?Es;
    cbn [fmap option_fmap option_map]; try done;
    change (Name (set_flags fs cmd)) with (Name cmd);
    change (hasAlias (set_flags fs cmd) name) with (hasAlias cmd name);
    destruct (bool_decide (Name cmd = name) || hasAlias cmd name); try done; exact IH.
Qed.

Lemma findSub_loop_st subs name h : (findSub_loop subs name h).2 = h.
Proof.
  induction subs as [|sub subs IH]; [done|]. cbn [findSub_loop].
  unfold mbind, M_bind, deref_cmd. destruct (h !! sub) as [cmd|]; [|done].
  by destruct (bool_decide (Name cmd = name) || hasAlias cmd name).
Qed.

Lemma findSub_flags h p fs c name :
  findSub c name (alter (set_flags fs) p h) = ((findSub c name h).1, alter (set_flags fs) p h).
Proof.
  unfold findSub, mbind, M_bind, deref_cmd. rewrite lookup_alter.
  destruct (h !! c) as [cmd|] eqn:Ec; case_decide as Hp; try subst p; rewrite ?Ec; cbn; try done;
    apply findSub_loop_flags.
Qed.

Lemma findSub_st c name h : (findSub c name h).2 = h.
Proof.
  unfold findSub, mbind, M_bind, deref_cmd. destruct (h !! c); [|done].
  apply findSub_loop_st.
Qed.

Lemma Find_flags h p fs c args :
  Find c args (alter (set_flags fs) p h) = ((Find c args h).1, alter (set_flags fs) p h).
Proof.
  revert c. induction args as [|arg args IH]; intros c; [done|]. cbn [Find].
  unfold mbind, M_bind. rewrite findSub_flags. pose proof (findSub_st c arg h) as Hst.
  destruct (findSub c arg h) as [[[sub|]| | |] h']; cbn in Hst |- *; subst h'; try done.
  rewrite IH. by destruct (Find sub args h) as [[[d n]| | |] h'].
Qed.

Lemma descends_in h c names d :
  closed h → is_Some (h !! c) → descends h c names d → is_Some (h !! d).
Proof.
  intros Hcl Hc Hd. induction Hd as [|c name sub names d Hch Hd IH]; [done|]. apply IH.
  destruct Hch as (cmd & i & Hcmd & Hi & _). eapply Hcl; [done|].
  by eapply list_elem_of_lookup_2.
Qed.

(** The [v] flag [Execute] gives a root command with a version. *)
Definition version_flag : Flag V := mkFlag "v" "show version" (boolValue false) "false".

Definition with_version (rc : Command A V) : FlagSet V :=
  set_formal (<["v" := version_flag]> (fs_formal (own_flags rc))) (own_flags rc).

(** The flags command [d] is parsed with when [root] is executed. *)
Definition exec_flags (root : cmd_ptr) (rc : Command A V) (d : cmd_ptr) (cmd : Command A V)
    : FlagSet V :=
  if decide (d = root ∧ Version rc ≠ "") then with_version rc else own_flags cmd.

Definition version_free (rc : Command A V) : Prop :=
  Version rc ≠ "" → fs_formal (own_flags rc) !! "v" = None.

(** The heap behind [add_version]. *)
Definition versioned (root : cmd_ptr) (rc : Command A V) h : cmds A V :=
  if decide (Version rc = "") then h else alter (set_flags (with_version rc)) root h.

Lemma add_version_eq h root rc :
  h !! root = Some rc → version_free rc → add_version root h = (Ret tt, versioned root rc h).
Proof.
  intros Hr Hv. unfold add_version, versioned.
  rewrite (step_eq _ _ _ _ _ (deref_cmd_eq _ _ _ Hr)). case_decide as Ev; [done|].
  rewrite (step_eq _ _ _ _ _ (Flags_eq _ _ _ Hr)). unfold BoolVar, Var. cbn [HasPrefix_minus].
  change (has_char "="%char "v") with false. cbn iota. rewrite (Hv Ev). unfold put_Flags, modify_st.
  by rewrite alter_flags_twice.
Qed.

Lemma Find_versioned root rc h c args :
  Find c args (versioned root rc h) = ((Find c args h).1, versioned root rc h).
Proof.
  unfold versioned. case_decide; [|apply Find_flags].
  enough ((Find c args h).2 = h) as Hst by (destruct (Find c args h); cbn in *; by subst).
  clear. revert c. induction args as [|arg args IH]; intros c; [done|]. cbn [Find].
  unfold mbind, M_bind. pose proof (findSub_st c arg h) as Hst.
  destruct (findSub c arg h) as [[[sub|]| | |] h']; cbn in Hst |- *; subst h'; try done.
  specialize (IH sub). by destruct (Find sub args h) as [[[d n]| | |] h'].
Qed.

(** The command [d] in the heap behind [add_version], and its flags there. *)
Lemma versioned_lookup root rc h d cmd :
  h !! root = Some rc → h !! d = Some cmd →
  ∃ cmd', versioned root rc h !! d = Some cmd' ∧ own_flags cmd' = exec_flags root rc d cmd ∧
    Args cmd' = Args cmd ∧ Run cmd' = Run cmd ∧ Version cmd' = Version cmd.
Proof.
  intros Hr Hd. unfold versioned, exec_flags.
  case_decide as Ev; [rewrite decide_False by (by intros [_ []]); by exists cmd|].
  rewrite lookup_alter. case_decide as Ed; [subst d|].
  - rewrite Hr in Hd. injection Hd as <-. rewrite decide_True by done.
    rewrite Hr. by eexists.
  - rewrite decide_False by (by intros [-> _]). by exists cmd.
Qed.

(** Whether the version is shown: only when the root itself was found. *)
Definition shows_version (root : cmd_ptr) (rc : Command A V) (d : cmd_ptr) (f : FlagSet V) : bool :=
  bool_decide (d = root ∧ Version rc ≠ "") && showVersion f.

Lemma Flags_some h c cmd fs :
  h !! c = Some cmd → flags cmd = Some fs → Flags c h = (Ret fs, h).
Proof.
  intros Hc Hf. unfold Flags. rewrite (step_eq _ _ _ _ _ (deref_cmd_eq _ _ _ Hc)). by rewrite Hf.
Qed.

(** The value of [showVersion] after [d] parsed its flags into [f]. *)
Lemma show_version_eq h root rc d f :
  h !! root = Some rc →
  let h2 := alter (set_flags f) d (versioned root rc h) in
  (if decide (Version rc = "") then mret false
   else rf ← Flags root; mret (showVersion rf)) h2 = (Ret (shows_version root rc d f), h2).
Proof.
  intros Hr h2. unfold shows_version. case_decide as Ev.
  { by rewrite bool_decide_eq_false_2 by (by intros [_ []]). }
  assert (∃ rc2, h2 !! root = Some rc2 ∧
    flags rc2 = Some (if decide (d = root) then f else with_version rc)) as (rc2 & Hr2 & Hf).
  { unfold h2, versioned. rewrite decide_False by done. rewrite lookup_alter. case_decide as Ed.
    - subst d. rewrite lookup_alter_eq, Hr. by eexists.
    - rewrite lookup_alter_eq, Hr. by eexists. }
  rewrite (step_eq _ _ _ _ _ (Flags_some _ _ _ _ Hr2 Hf)). case_decide as Ed.
  - by rewrite bool_decide_eq_true_2.
  - rewrite bool_decide_eq_false_2 by (by intros [-> _]). cbn.
    unfold showVersion, with_version. cbn. by rewrite lookup_insert_eq.
Qed.

(** [Execute] on the command [Find] leads to. *)
Lemma Execute_found h root rc args d n cmd fuel err f :
  h !! root = Some rc → version_free rc → closed h →
  longest_path h root args d n → h !! d = Some cmd →
  Parse (drop n args) (exec_flags root rc d cmd) = (err, f) →
  let h2 := alter (set_flags f) d (versioned root rc h) in
  let help := (text ← WriteHelp fuel d; mret (ExecHelp text)) h2 in
  Execute fuel root args h =
    match err with
    | Some err => if decide (err = flag_ErrHelp) then help else (Ret (ExecError err), h2)
    | None =>
        if shows_version root rc d f then (Ret (ExecVersion (Version rc +:+ nl)), h2)
        else match match Args cmd with Some check => check d (fs_args f) | None => None end with
             | Some err => (Ret (ExecError err), h2)
             | None =>
                 match Run cmd with
                 | Some run => (Ret (ExecRun run (fs_args f)), h2)
                 | None => help
                 end
             end
    end.
Proof.
  intros Hr Hvf Hcl Hlp Hd Hp h2 help. unfold Execute.
  rewrite (step_eq _ _ _ _ _ (add_version_eq _ _ _ Hr Hvf)).
  destruct (Find_spec h root args Hcl) as (d' & n' & Hf & Hlp'); [by eexists|].
  destruct (longest_path_unique _ _ _ _ _ _ _ Hlp' Hlp) as [-> ->].
  erewrite step_eq; [|by rewrite Find_versioned, Hf]. cbn [fst].
  destruct (versioned_lookup _ _ _ _ _ Hr Hd) as (cmd' & Hd' & Ho & Ha & Hru & _).
  rewrite (step_eq _ _ _ _ _ (Flags_eq _ _ _ Hd')), Ho, Hp.
  erewrite step_eq by reflexivity. rewrite alter_flags_twice. fold h2.
  assert (h2 !! d = Some (set_flags f cmd')) as Hd2
    by (unfold h2; by rewrite lookup_alter_eq, Hd').
  destruct err as [err|]; [case_decide; reflexivity|].
  assert (∃ rc2, h2 !! root = Some rc2 ∧ Version rc2 = Version rc) as (rc2 & Hr2 & Hv2).
  { destruct (versioned_lookup _ _ _ _ _ Hr Hr) as (rc' & Hr' & _ & _ & _ & Hver).
    unfold h2. rewrite lookup_alter. case_decide; subst; rewrite Hr'; (eexists; split; [reflexivity|exact Hver]). }
  rewrite (step_eq _ _ _ _ _ (deref_cmd_eq _ _ _ Hr2)), Hv2.
  pose proof (show_version_eq h root rc d f Hr) as Hsv. cbv zeta in Hsv. fold h2 in Hsv.
  rewrite (step_eq _ _ _ _ _ Hsv).
  destruct (shows_version root rc d f); [done|].
  rewrite (step_eq _ _ _ _ _ (deref_cmd_eq _ _ _ Hd2)).
  change (Args (set_flags f cmd')) with (Args cmd').
  change (Run (set_flags f cmd')) with (Run cmd'). rewrite Ha, Hru.
  destruct (match Args cmd with Some check => check d (fs_args f) | None => None end); [done|].
  by destruct (Run cmd).
Qed.

(** ** The version flag stays *)

(** A command has a version and a flag [v]. *)
Definition has_v (root : cmd_ptr) h : Prop :=
  ∃ rc fs, h !! root = Some rc ∧ Version rc ≠ "" ∧ flags rc = Some fs ∧
    is_Some (fs_formal fs !! "v").

(** A computation leaves a property of the heap as it was. *)
Definition preserves {B} (P : cmds A V → Prop) (m : M (cmds A V) B) : Prop := ∀ h, P h → P (m h).2.

Lemma preserves_ret {B} P (b : B) : preserves P (mret b).
Proof. by intros h Hp. Qed.

Lemma preserves_bind {B C} P (m : M (cmds A V) B) (k : B → M (cmds A V) C) :
  preserves P m → (∀ b, preserves P (k b)) → preserves P (m ≫= k).
Proof.
  intros Hm Hk h Hp. specialize (Hm h Hp). unfold mbind, M_bind.
  destruct (m h) as [[b| | |] h']; [by apply Hk|done..].
Qed.

Lemma preserves_deref P c : preserves P (deref_cmd c).
Proof. intros h Hp. unfold deref_cmd. by destruct (h !! c). Qed.

Lemma preserves_if {B} P (b : bool) (m1 m2 : M (cmds A V) B) :
  preserves P m1 → preserves P m2 → preserves P (if b then m1 else m2).
Proof. by destruct b. Qed.

Lemma preserves_CommandPath P fuel c : preserves P (CommandPath fuel c).
Proof.
  revert c. induction fuel as [|fuel IH]; intros c; [by intros h|]. cbn [CommandPath].
  apply preserves_bind; [apply preserves_deref|]. intros cmd. destruct (parent cmd); [|apply preserves_ret].
  apply preserves_bind; [done|]. intros. apply preserves_ret.
Qed.

Lemma preserves_UseLine P fuel c : preserves P (UseLine fuel c).
Proof.
  apply preserves_bind; [apply preserves_deref|]. intros cmd. destruct (parent cmd); [|apply preserves_ret].
  apply preserves_bind; [apply preserves_CommandPath|]. intros. apply preserves_ret.
Qed.

Lemma preserves_any_available P avail subs :
  (∀ s, preserves P (avail s)) → preserves P (any_available avail subs).
Proof.
  intros Ha. induction subs as [|s subs IH]; [apply preserves_ret|]. cbn [any_available].
  apply preserves_bind; [done|]. intros b. by apply preserves_if; [apply preserves_ret|].
Qed.

Lemma preserves_Available P fuel c : preserves P (Available fuel c).
Proof.
  revert c. induction fuel as [|fuel IH]; intros c; [by intros h|]. cbn [Available].
  apply preserves_bind; [apply preserves_deref|]. intros cmd.
  apply preserves_if; [apply preserves_ret|]. apply preserves_if; [apply preserves_ret|].
  by apply preserves_any_available.
Qed.

Lemma preserves_HasSubCommands P fuel c : preserves P (HasSubCommands fuel c).
Proof.
  apply preserves_bind; [apply preserves_deref|]. intros cmd. apply preserves_any_available.
  intros. apply preserves_Available.
Qed.

Lemma preserves_command_lines P fuel subs : preserves P (command_lines fuel subs).
Proof.
  induction subs as [|s subs IH]; [apply preserves_ret|]. cbn [command_lines].
  apply preserves_bind; [apply preserves_Available|]. intros a.
  apply preserves_bind; [apply preserves_deref|]. intros cmd.
  apply preserves_bind; [done|]. intros. apply preserves_ret.
Qed.

(** Methods of a flag set forget no flag. *)
Definition more_flags (f f' : FlagSet V) : Prop :=
  ∀ name, is_Some (fs_formal f !! name) → is_Some (fs_formal f' !! name).

Lemma Flags_has_v root c h fs h' :
  has_v root h → Flags c h = (Ret fs, h') →
  has_v root h' ∧ (c = root → is_Some (fs_formal fs !! "v")).
Proof.
  intros (rc & rf & Hr & Hv & Hf & Hs) Hc. unfold Flags, deref_cmd in Hc.
  unfold mbind, M_bind in Hc. destruct (h !! c) as [cmd|] eqn:Ec; [|done].
  destruct (flags cmd) as [fs'|] eqn:Ef.
  - injection Hc as <- <-. split; [by exists rc, rf|]. intros ->. congruence.
  - injection Hc as <- <-. assert (c ≠ root) as Hne by congruence. split; [|done].
    exists rc, rf. by rewrite lookup_alter_ne.
Qed.

Lemma put_Flags_has_v root c fs :
  (c = root → is_Some (fs_formal fs !! "v")) → preserves (has_v root) (put_Flags c fs).
Proof.
  intros Hfs h (rc & rf & Hr & Hv & Hf & Hs). unfold put_Flags, modify_st. cbn.
  destruct (decide (c = root)) as [->|Hne].
  - exists (set_flags fs rc), fs. rewrite lookup_alter_eq, Hr. auto.
  - exists rc, rf. by rewrite lookup_alter_ne.
Qed.

(** Reading a command's flag set and putting back one with at least its flags. *)
Lemma preserves_update {B} root c (k : FlagSet V → M (cmds A V) B) :
  (∀ fs, (c = root → is_Some (fs_formal fs !! "v")) → preserves (has_v root) (k fs)) →
  preserves (has_v root) (Flags c ≫= k).
Proof.
  intros Hk h Hp. unfold mbind, M_bind.
  destruct (Flags c h) as [[fs| | |] h'] eqn:E.
  2-4: unfold Flags, mbind, M_bind, deref_cmd in E; destruct (h !! c) as [cmd|];
    [by destruct (flags cmd)|by simplify_eq].
  destruct (Flags_has_v _ _ _ _ _ Hp E) as [Hp' Hv]. by apply Hk.
Qed.

Lemma flag_usages_loop_more fl sb fs : more_flags fs (flag_usages_loop fl sb fs).2.
Proof.
  revert sb fs. induction fl as [|[name f] fl IH]; intros sb fs n Hn; cbn [flag_usages_loop]; [done|].
  destruct (flag_usage f sb) as [sb' f']. apply IH. cbn.
  destruct (decide (name = n)) as [->|Hne]; [by rewrite lookup_insert_eq|].
  by rewrite lookup_insert_ne.
Qed.

Lemma set_flag_more name fl v fs : more_flags fs (set_flag name fl v fs).
Proof.
  intros n Hn. cbn. destruct (decide (name = n)) as [->|Hne]; [by rewrite lookup_insert_eq|].
  by rewrite lookup_insert_ne.
Qed.

Lemma set_bool_more name fl value fs : more_flags fs (set_bool name fl value fs).2.
Proof.
  unfold set_bool. destruct (Value_Set _ _) as [[e|] v], value; apply set_flag_more.
Qed.

Lemma set_other_more name fl value fs : more_flags fs (set_other name fl value fs).2.
Proof. unfold set_other. destruct (Value_Set _ _) as [[e|] v]; apply set_flag_more. Qed.

Lemma Parse_more args fs : more_flags fs (Parse args fs).2.
Proof.
  remember (length args) as k eqn:Hk. assert (length args ≤ k)%nat as Hle by lia. clear Hk.
  revert args fs Hle. induction k as [|k IH]; intros [|s rest] fs Hle; cbn in Hle;
    [by intros n|lia|by intros n|]. cbn [Parse].
  destruct (tokenize s) as [| | |name value]; try by intros n.
  destruct (fs_formal fs !! name) as [fl|]; [|by intros n].
  destruct (Value_IsBoolFlag (f_Value fl)).
  - pose proof (set_bool_more name fl value fs) as Hm.
    destruct (set_bool name fl value fs) as [[e|] fs']; [exact Hm|].
    intros n Hn. apply IH; [lia|]. by apply Hm.
  - destruct value as [v|]; [|destruct rest as [|v rest]; [by intros n|]].
    all: pose proof (set_other_more name fl v fs) as Hm;
      destruct (set_other name fl v fs) as [[e|] fs']; [exact Hm|];
      intros n Hn; apply IH; [cbn in *; lia|]; by apply Hm.
Qed.

Lemma preserves_FlagUsages root c : preserves (has_v root) (FlagUsages c).
Proof.
  apply preserves_update. intros fs Hfs. unfold preserves.
  pose proof (flag_usages_loop_more (sorted_flags fs) "" fs) as Hm.
  destruct (flag_usages_loop (sorted_flags fs) "" fs) as [sb fs'].
  apply preserves_bind; [|intros; apply preserves_ret]. apply put_Flags_has_v. auto.
Qed.

Lemma preserves_WriteHelp root fuel c : preserves (has_v root) (WriteHelp fuel c).
Proof.
  apply preserves_bind; [apply preserves_deref|]. intros cmd. apply preserves_bind.
  { apply preserves_if; [|apply preserves_ret]. apply preserves_bind; [apply preserves_UseLine|].
    intros. apply preserves_ret. }
  intros usage. apply preserves_bind; [apply preserves_HasSubCommands|]. intros subs. apply preserves_bind.
  { apply preserves_if; [|apply preserves_ret]. apply preserves_bind; [apply preserves_command_lines|].
    intros. apply preserves_ret. }
  intros lines. apply preserves_bind; [apply preserves_update; intros; apply preserves_ret|].
  intros fl. apply preserves_bind.
  { apply preserves_if; [|apply preserves_ret]. apply preserves_bind; [apply preserves_FlagUsages|].
    intros. apply preserves_ret. }
  intros text. apply preserves_bind; [|intros; apply preserves_ret].
  apply preserves_if; [|apply preserves_ret]. apply preserves_bind; [apply preserves_CommandPath|].
  intros. apply preserves_ret.
Qed.

Lemma preserves_findSub P c name : preserves P (findSub c name).
Proof. intros h Hp. by rewrite findSub_st. Qed.

Lemma preserves_Find P c args : preserves P (Find c args).
Proof.
  revert c. induction args as [|arg args IH]; intros c; [apply preserves_ret|]. cbn [Find].
  apply preserves_bind; [apply preserves_findSub|]. intros [sub|]; [|apply preserves_ret].
  apply preserves_bind; [done|]. intros [d n]. apply preserves_ret.
Qed.

Lemma Execute_split fuel root args :
  ∃ rest : M (cmds A V) (executed A),
    Execute fuel root args = (add_version root ≫= λ _, rest) ∧ preserves (has_v root) rest.
Proof.
  eexists. split; [reflexivity|]. apply preserves_bind; [apply preserves_Find|]. intros [cmd n].
  apply preserves_update. intros f Hf. pose proof (Parse_more (drop n args) f) as Hm.
  destruct (Parse (drop n args) f) as [err f'].
  assert (preserves (has_v root) (text ← WriteHelp fuel cmd; mret (M := M (cmds A V)) (ExecHelp (A := A) text)))
    as Hhelp by (apply preserves_bind; [apply preserves_WriteHelp|intros; apply preserves_ret]).
  apply preserves_bind; [apply put_Flags_has_v; auto|]. intros _.
  destruct err as [err|]; [case_decide; [exact Hhelp|apply preserves_ret]|].
  apply preserves_bind; [apply preserves_deref|]. intros r. apply preserves_bind.
  { case_decide; [apply preserves_ret|]. apply preserves_update. intros. apply preserves_ret. }
  intros show. apply preserves_if; [apply preserves_ret|].
  apply preserves_bind; [apply preserves_deref|]. intros c.
  destruct (match Args c with Some check => _ | None => _ end); [apply preserves_ret|].
  destruct (Run c); [apply preserves_ret|exact Hhelp].
Qed.

(** ** Flag usages *)

Lemma flag_usage_flag f sb : (flag_usage f sb).2 = set_Usage "" f.
Proof. unfold flag_usage. by destruct (UnquoteUsage f). Qed.

Lemma flag_usages_loop_formal fl sb fs n :
  NoDup fl.*1 → (∀ m f, (m, f) ∈ fl → fs_formal fs !! m = Some f) →
  fs_formal (flag_usages_loop fl sb fs).2 !! n =
    if decide (n ∈ fl.*1) then set_Usage "" <$> (fs_formal fs !! n) else fs_formal fs !! n.
Proof.
  revert sb fs. induction fl as [|[name f] fl IH]; intros sb fs Hnd Hfl; cbn [flag_usages_loop].
  { rewrite decide_False; [done|]. apply not_elem_of_nil. }
  apply NoDup_cons in Hnd as [Hni Hnd]. cbn [fst] in Hni.
  rewrite (surjective_pairing (flag_usage f sb)), flag_usage_flag, IH; [|done|].
  - cbn [fs_formal set_formal]. change ((name, f) :: fl).*1 with (name :: fl.*1).
    destruct (decide (n = name)) as [->|Hne].
    + rewrite (decide_True (P := name ∈ name :: _)) by (apply elem_of_cons; by left).
      rewrite decide_False by done. rewrite lookup_insert_eq.
      by rewrite (Hfl name f) by (apply elem_of_cons; by left).
    + rewrite lookup_insert_ne by done. apply decide_ext. rewrite elem_of_cons.
      split; [by right|by intros [?|?]].
  - intros m g Hm. cbn [fs_formal set_formal]. rewrite lookup_insert_ne.
    + apply Hfl. apply elem_of_cons. by right.
    + intros ->. apply Hni. apply list_elem_of_fmap. by exists (m, g).
Qed.

Lemma flag_usages_loop_clears fs sb :
  fs_formal (flag_usages_loop (sorted_flags fs) sb fs).2 = set_Usage "" <$> fs_formal fs.
Proof.
  assert (sorted_flags fs ≡ₚ map_to_list (fs_formal fs)) as Hp by apply sorting.merge_sort_Permutation.
  apply map_eq. intros n. rewrite flag_usages_loop_formal.
  - rewrite lookup_fmap. case_decide as Hn; [done|].
    destruct (fs_formal fs !! n) as [f|] eqn:E; [|done]. destruct Hn. rewrite Hp.
    apply list_elem_of_fmap. exists (n, f). split; [done|]. by apply elem_of_map_to_list.
  - rewrite Hp. apply NoDup_fst_map_to_list.
  - intros m f. rewrite Hp. apply elem_of_map_to_list.
Qed.

Lemma flag_usages_loop_rest fl sb fs :
  fs_name (flag_usages_loop fl sb fs).2 = fs_name fs ∧
  fs_args (flag_usages_loop fl sb fs).2 = fs_args fs.
Proof.
  revert sb fs. induction fl as [|[name f] fl IH]; intros sb fs; cbn [flag_usages_loop]; [done|].
  destruct (flag_usage f sb) as [sb' f']. by destruct (IH sb' (set_formal (<[name:=f']> (fs_formal fs)) fs)).
Qed.

(** Behind the text of another flag, every flag's usage goes to a line of its
    own, boolean flags of one letter included. *)
Lemma flag_usage_newline f sb :
  sb ≠ "" → f_Name f ≠ "" → ∃ type rest, (flag_usage f sb).1
    = ((sb +:+ "  -" +:+ f_Name f) +:+ type) +:+ nl +:+ "    " +:+ tab +:+ rest.
Proof.
  intros Hsb Hn. unfold flag_usage. destruct (UnquoteUsage f) as [name usage].
  set (s := sb +:+ "  -" +:+ f_Name f).
  exists (if (0 <? String.length name)%nat then " " +:+ name else "").
  assert ((if (0 <? String.length name)%nat then s +:+ " " +:+ name else s)
    = s +:+ (if (0 <? String.length name)%nat then " " +:+ name else "")) as ->
    by (case_match; by rewrite ?string_app_nil_r).
  set (type := if (0 <? String.length name)%nat then _ else _).
  assert (4 < String.length (s +:+ type))%nat as Hs.
  { unfold s. rewrite !string_length_app. destruct sb; [done|]. destruct (f_Name f); [done|].
    cbn [String.length]. lia. }
  rewrite (proj2 (Nat.leb_gt _ _) Hs).
  destruct (isZeroValue _ _); [|case_bool_decide]; eexists; by rewrite !string_app_assoc.
Qed.
End spec.
