(* ===== verification/CliProperties.v ===== *)
(** * cmd/qtalk/cli: properties

    Lookup, command paths, help listings and execution of command trees. *)
From Stdlib Require Import Ascii.
From S2P Require Import Prelude GoRuntime GoFlag Cli CliHelp.
From S2P Require Import CliSpec.

(** ** A command tree *)

(** String flags, with values quoted as they are. *)
#[global] Instance string_flags : FlagValue string := {|
  value_Set s _ := (None, s);
  value_String v := v;
  value_IsBoolFlag _ := false;
  value_zero _ := "";
  value_type _ := "string";
  Quote s := dquote +:+ s +:+ dquote;
|}.

Definition demo_command usage (run : option nat) version args aliases : Command nat string :=
  mkCommand usage "short" "" false aliases "" version args run [] None None.

(** A root with a version, [serve] with two flags below it, and [start] below
    that one. *)
Definition demo_serve : Command nat string :=
  let fs := NewFlagSet "serve" in
  let fs := match Var (userValue "") "addr" "listen on `host`" fs with Ret fs => fs | _ => fs end in
  let fs := match BoolVar "q" false "be quiet" fs with Ret fs => fs | _ => fs end in
  set_flags fs (demo_command "serve <dir>" (Some 7%nat) "" (Some (ExactArgs 1)) ["s"]).

Definition demo_commands : cmds nat string :=
  ((AddCommand 0 1 ≫= λ _, AddCommand 1 2)%nat
     {[ 0%nat := demo_command "root" None "1.0" None [];
        1%nat := demo_serve;
        2%nat := demo_command "start" (Some 8%nat) "" None [] ]}).2.

Definition demo_rank (c : cmd_ptr) : nat := 2 - c.

Lemma demo_closed : closed demo_commands.
Proof.
  intros c cmd sub Hc Hin.
  assert (map_Forall (λ _ cmd, Forall (λ sub, is_Some (demo_commands !! sub)) (commands cmd))
    demo_commands) as Hall by (apply (bool_decide_unpack _); by vm_compute).
  specialize (Hall c cmd Hc). rewrite Forall_forall in Hall. exact (Hall sub Hin).
Qed.

Lemma demo_ranked : ranked demo_commands demo_rank.
Proof.
  intros c cmd sub Hc Hin.
  assert (map_Forall (λ c cmd, Forall (λ sub, (demo_rank sub < demo_rank c)%nat) (commands cmd))
    demo_commands) as Hall by (apply (bool_decide_unpack _); by vm_compute).
  specialize (Hall c cmd Hc). rewrite Forall_forall in Hall. exact (Hall sub Hin).
Qed.

(** ** Lookup *)

(** C24. [Find] returns the command at the end of the longest prefix of the
    arguments that is a path of names and aliases in the command tree, earlier
    subcommands having precedence, and the length of that prefix; there always
    is exactly one, and the tree is not changed. *)
Theorem Find_longest_path {A V} `{FlagValue V} (h : cmds A V) c args :
  closed h → is_Some (h !! c) →
  (∃ d n, Find c args h = (Ret (d, n), h)) ∧
  ∀ d n, Find c args h = (Ret (d, n), h) ↔ longest_path h c args d n.
Proof.
  intros Hcl Hc. destruct (Find_spec h c args Hcl Hc) as (d & n & Hf & Hlp).
  split; [by exists d, n|]. intros d' n'. split.
  - intros Hf'. rewrite Hf in Hf'. by injection Hf' as <- <-.
  - intros Hlp'. by destruct (longest_path_unique _ _ _ _ _ _ _ Hlp Hlp') as [<- <-].
Qed.

Lemma Find_longest_path_witness :
  longest_path demo_commands 0%nat ["s"; "start"; "x"]%string 2%nat 2.
Proof.
  apply (Find_longest_path demo_commands 0%nat ["s"; "start"; "x"]%string);
    [exact demo_closed|by eexists|by vm_compute].
Defined.

(** A command's path is what leads to it: in a tree where no two siblings
    answer to the same name, [CommandPath] is the root's name and the names on
    the way, joined by spaces, and [Find] with those names returns the command
    and uses them all. *)
Theorem CommandPath_Find {A V} `{FlagValue V} (h : cmds A V) root rc names c fuel :
  closed h → unambiguous h → h !! root = Some rc → parent rc = None →
  below h root names c → (length names < fuel)%nat →
  CommandPath fuel c h = (Ret (Join " " (Name rc :: names)), h) ∧
  Find root names h = (Ret (c, length names), h).
Proof.
  intros Hcl Hu Hr Hp Hb Hf. split; [by eapply CommandPath_below|].
  destruct (Find_spec h root names Hcl) as (d & n & Hfd & Hlp); [by eexists|].
  rewrite Hfd. enough (longest_path h root names c (length names)) as Hlp'
    by (by destruct (longest_path_unique _ _ _ _ _ _ _ Hlp Hlp') as [-> ->]).
  split_and!; [done| |].
  - rewrite firstn_all. by apply below_descends.
  - intros arg sub Ha. by rewrite lookup_ge_None_2 in Ha.
Qed.

Lemma CommandPath_Find_witness :
  ∃ rc : Command nat string, CommandPath 3 2%nat demo_commands
    = (Ret (Join " " [Name rc; "serve"; "start"])%string, demo_commands) ∧ Name rc = "root"%string ∧
    Find 0%nat ["serve"; "start"]%string demo_commands = (Ret (2%nat, 2%nat), demo_commands).
Proof.
  enough (∃ rc : Command nat string, demo_commands !! 0%nat = Some rc ∧ Name rc = "root"%string ∧
    (CommandPath 3 2%nat demo_commands
      = (Ret (Join " " [Name rc; "serve"; "start"])%string, demo_commands) ∧
     Find 0%nat ["serve"; "start"]%string demo_commands = (Ret (2%nat, 2%nat), demo_commands)))
    as (rc & _ & H1 & H2 & H3) by (exists rc; auto).
  eexists. split; [reflexivity|]. split; [reflexivity|].
  eapply (CommandPath_Find demo_commands 0%nat _ ["serve"; "start"]%string 2%nat 3).
  - exact demo_closed.
  - intros c cmd s1 s2 name Hc H1 H2 _ _.
    assert (map_Forall (λ _ cmd, (length (commands cmd) ≤ 1)%nat) demo_commands) as Hall
      by (apply (bool_decide_unpack _); by vm_compute).
    specialize (Hall c cmd Hc). cbn in Hall.
    destruct (commands cmd) as [|s [|]]; [by apply elem_of_nil in H1| |cbn in Hall; lia].
    apply list_elem_of_singleton in H1 as ->. by apply list_elem_of_singleton in H2 as ->.
  - reflexivity.
  - reflexivity.
  - eapply (below_named _ _ ["serve"%string] 1%nat);
      [|reflexivity|by apply list_elem_of_singleton|reflexivity..].
    eapply (below_named _ _ [] 0%nat);
      [constructor|reflexivity|by apply list_elem_of_singleton|reflexivity..].
  - cbn. lia.
Defined.

(** Help lists what can be run: [Available] ends on every tree, with fuel
    for its depth, and says that a command is not hidden and that it, or an
    available subcommand, has a function to run. *)
Theorem Available_spec {A V} `{FlagValue V} (h : cmds A V) r fuel c :
  closed h → ranked h r → is_Some (h !! c) → (r c < fuel)%nat →
  ∃ b, Available fuel c h = (Ret b, h) ∧ (b = true ↔ available h c).
Proof. intros Hcl Hr Hc Hf. by eapply Available_eq. Qed.

Lemma Available_spec_witness : available demo_commands 0%nat.
Proof.
  destruct (Available_spec demo_commands demo_rank 3 0%nat demo_closed demo_ranked)
    as (b & Hb & Hav); [by eexists|cbn; lia|].
  apply Hav. vm_compute in Hb. congruence.
Defined.

(** ** Execution *)

(** C25. [Execute] runs exactly what it should: it calls a command's [Run] with
    [xs] if and only if that command is the one [Find] leads to, its flags parse
    from the arguments behind it, [xs] is what remains and its validator accepts
    them, and the version was not asked for. Nothing else is ever run. *)
Theorem Execute_runs {A V} `{FlagValue V} (h : cmds A V) root rc fuel args run xs :
  closed h → h !! root = Some rc → version_free rc →
  (∃ h', Execute fuel root args h = (Ret (ExecRun run xs), h')) ↔
  ∃ d n cmd f,
    longest_path h root args d n ∧ h !! d = Some cmd ∧ Run cmd = Some run ∧
    Parse (drop n args) (exec_flags root rc d cmd) = (None, f) ∧ fs_args f = xs ∧
    shows_version root rc d f = false ∧
    (∀ check, Args cmd = Some check → check d xs = None).
Proof.
  intros Hcl Hr Hv. split.
  - intros (h' & Hex). destruct (Find_spec h root args Hcl) as (d & n & _ & Hlp); [by eexists|].
    destruct (descends_in h root (take n args) d Hcl) as [cmd Hd]; [by eexists|apply Hlp|].
    destruct (Parse (drop n args) (exec_flags root rc d cmd)) as [err f] eqn:Hp.
    rewrite (Execute_found _ _ _ _ _ _ _ _ _ _ Hr Hv Hcl Hlp Hd Hp) in Hex.
    assert (∀ h2, (text ← WriteHelp fuel d; mret (ExecHelp (A := A) text)) h2
      ≠ (Ret (ExecRun run xs), h')) as Hhelp.
    { intros h2. unfold mbind, M_bind. by destruct (WriteHelp fuel d h2) as [[| | |] ?]. }
    destruct err as [err|]; [case_decide; [by apply Hhelp in Hex|done]|].
    destruct (shows_version root rc d f) eqn:Es; [done|].
    destruct (match Args cmd with Some check => check d (fs_args f) | None => None end) eqn:Ea;
      [done|].
    destruct (Run cmd) as [run'|] eqn:Er; [|by apply Hhelp in Hex].
    injection Hex as <- <- _. exists d, n, cmd, f. split_and!; try done.
    intros check Hc. by rewrite Hc in Ea.
  - intros (d & n & cmd & f & Hlp & Hd & Hrun & Hp & <- & Hs & Hc). eexists.
    rewrite (Execute_found _ _ _ _ _ _ _ _ _ _ Hr Hv Hcl Hlp Hd Hp), Hs, Hrun.
    destruct (Args cmd) as [check|]; [|done]. by rewrite Hc.
Qed.

Lemma Execute_runs_witness :
  ∃ d n cmd f,
    longest_path demo_commands 0%nat ["s"; "-q"; "-addr=here"; "dir"]%string d n ∧
    demo_commands !! d = Some cmd ∧ Run cmd = Some 7%nat ∧
    fs_args (V := string) f = ["dir"]%string ∧
    (∀ check, Args cmd = Some check → check d ["dir"]%string = None).
Proof.
  enough (∃ rc, demo_commands !! 0%nat = Some rc ∧ version_free rc ∧
    ∃ h', Execute 3 0%nat ["s"; "-q"; "-addr=here"; "dir"]%string demo_commands
          = (Ret (ExecRun 7%nat ["dir"%string]), h')) as (rc & Hr & Hv & Hex).
  { apply (Execute_runs demo_commands 0%nat rc) in Hex; [|exact demo_closed|exact Hr|exact Hv].
    destruct Hex as (d & n & cmd & f & H1 & H2 & H3 & _ & H4 & _ & H5). exists d, n, cmd, f. auto. }
  eexists. split; [reflexivity|]. split; [intros _; reflexivity|]. eexists. vm_compute. reflexivity.
Defined.

(** [Execute] works once: after it returned, whatever it did, executing the
    same root with a version again panics, because [Execute] registers the [v]
    flag each time on a flag set that already has it. *)
Theorem second_Execute_panics {A V} `{FlagValue V} (h : cmds A V) root rc fuel args r h' args' :
  h !! root = Some rc → Version rc ≠ "" →
  Execute fuel root args h = (Ret r, h') →
  ∃ name, Execute fuel root args' h'
    = (Panic ((if decide (name = "") then "" else name +:+ " ") +:+ "flag redefined: v"), h').
Proof.
  intros Hr Hv Hex. destruct (Execute_split (V := V) (A := A) fuel root args) as (rest & Heq & Hk).
  rewrite Heq in Hex. unfold mbind, M_bind in Hex.
  destruct (add_version root h) as [[[]| | |] h1] eqn:Ea; try done.
  assert (has_v root h1) as Hv1.
  { unfold add_version in Ea. rewrite (step_eq _ _ _ _ _ (deref_cmd_eq _ _ _ Hr)) in Ea.
    rewrite decide_False in Ea by done. rewrite (step_eq _ _ _ _ _ (Flags_eq _ _ _ Hr)) in Ea.
    unfold BoolVar, Var in Ea. cbn [HasPrefix_minus] in Ea.
    change (has_char "="%char "v") with false in Ea. cbn iota in Ea.
    destruct (fs_formal (own_flags rc) !! "v") eqn:E; [done|]. injection Ea as <-.
    rewrite alter_flags_twice. eexists _, _. rewrite lookup_alter_eq, Hr.
    split_and!; [reflexivity|done|reflexivity|]. cbn. by rewrite lookup_insert_eq. }
  apply Hk in Hv1. rewrite Hex in Hv1. destruct Hv1 as (rc' & fs & Hr' & Hv' & Hf & [fl Hfl]).
  exists (fs_name fs). unfold Execute, add_version, mbind at 1, M_bind at 1.
  unfold snd in Hr'. rewrite (step_eq _ _ _ _ _ (deref_cmd_eq _ _ _ Hr')), decide_False by done.
  rewrite (step_eq _ _ _ _ _ (Flags_some _ _ _ _ Hr' Hf)).
  unfold BoolVar, Var. cbn [HasPrefix_minus].
  change (has_char "="%char "v") with false. cbn iota. by rewrite Hfl.
Qed.

Lemma second_Execute_panics_witness :
  ∃ h' name, Execute 3 0%nat ["s"; "x"]%string (Execute 3 0%nat ["-v"]%string demo_commands).2
    = (Panic ((if decide (name = "") then "" else name +:+ " ") +:+ "flag redefined: v"), h').
Proof.
  eexists. enough (∃ rc r, demo_commands !! 0%nat = Some rc ∧ Version rc ≠ "" ∧
    Execute 3 0%nat ["-v"]%string demo_commands
    = (Ret r, (Execute 3 0%nat ["-v"]%string demo_commands).2)) as (rc & r & Hr & Hv & Hex).
  { exact (second_Execute_panics demo_commands 0%nat rc 3 ["-v"]%string r _ ["s"; "x"]%string
      Hr Hv Hex). }
  eexists _, _. split; [reflexivity|]. split; [discriminate|]. vm_compute. reflexivity.
Defined.

(** ** Help *)

(** Help texts are shown once: building the usages of a command's flags
    clears the usage text of every flag, and changes nothing else, so the next
    help text of that command describes none of them. *)
Theorem FlagUsages_clears {A V} `{FlagValue V} (h : cmds A V) c cmd fs :
  h !! c = Some cmd → flags cmd = Some fs →
  ∃ text, FlagUsages c h
    = (Ret text, alter (set_flags (set_formal (set_Usage "" <$> fs_formal fs) fs)) c h).
Proof.
  intros Hc Hf. unfold FlagUsages. rewrite (step_eq _ _ _ _ _ (Flags_some _ _ _ _ Hc Hf)).
  pose proof (flag_usages_loop_clears fs "") as Hcl.
  pose proof (flag_usages_loop_rest (sorted_flags fs) "" fs) as [Hn Ha].
  destruct (flag_usages_loop (sorted_flags fs) "" fs) as [sb fs'] eqn:E. cbn [snd] in *.
  exists sb. erewrite step_eq by reflexivity. unfold set_formal. rewrite <- Hcl, <- Hn, <- Ha.
  by destruct fs'.
Qed.

Lemma FlagUsages_clears_witness :
  ∃ text fs, FlagUsages 1%nat demo_commands
    = (Ret text, alter (set_flags (set_formal (set_Usage "" <$> fs_formal fs) fs)) 1%nat
         demo_commands) ∧
    f_Usage <$> fs_formal fs !! "addr"%string = Some "listen on `host`"%string.
Proof.
  enough (∃ cmd fs, demo_commands !! 1%nat = Some cmd ∧ flags cmd = Some fs ∧
    f_Usage <$> fs_formal fs !! "addr"%string = Some "listen on `host`"%string)
    as (cmd & fs & Hc & Hf & Hu).
  { destruct (FlagUsages_clears demo_commands 1%nat cmd fs Hc Hf) as [text Ht].
    exists text, fs. exact (conj Ht Hu). }
  eexists _, _. split; [reflexivity|]. split; reflexivity.
Defined.
