(* ===== verification/CliFramework.v ===== *)
(** * cmd/qtalk/cli: the framework, exported functions, contexts

    framework.go and context.go besides [Execute], and the command trees of
    cmd/qtalk. A [Run] function takes the arguments and the program's state; it
    returns, or ends the program with [log.Fatal]. *)
From Stdlib Require Import Ascii String.
From S2P Require Import Prelude GoRuntime GoReflect GoFlag Cli CliHelp.

Local Open Scope string_scope.
Local Open Scope Z_scope.

(** ** Package strconv *)

Inductive num_error := ErrSyntax | ErrRange.

#[global] Instance num_error_eq_dec : EqDecision num_error.
Proof. solve_decision. Defined.

(** [strconv.ParseUint] in base 10, after the digits of [n]. *)
Fixpoint ParseUint_loop (n : Z) (s : string) : num_error + Z :=
  match s with
  | EmptyString => inr n
  | String c s =>
      let d := Z.of_N (N_of_ascii c) in
      if (48 <=? d) && (d <=? 57) then
        if (2 ^ 64 - 1) / 10 + 1 <=? n then inl ErrRange
        else
          let n1 := n * 10 + (d - 48) in
          if 2 ^ 64 <=? n1 then inl ErrRange else ParseUint_loop n1 s
      else inl ErrSyntax
  end.

Definition ParseUint (s : string) : num_error + Z :=
  match s with EmptyString => inl ErrSyntax | _ => ParseUint_loop 0 s end.

(** [strconv.Atoi]: an optional sign, digits, in the range of [int]. *)
Definition strconv_Atoi (s : string) : num_error + Z :=
  let '(neg, body) :=
    match s with
    | String "+" body => (false, body)
    | String "-" body => (true, body)
    | _ => (false, s)
    end in
  match ParseUint body with
  | inl e => inl e
  | inr un =>
      if negb neg && (2 ^ 63 <=? un) then inl ErrRange
      else if neg && (2 ^ 63 <? un) then inl ErrRange
      else inr (if neg : bool then - un else un)
  end.

(** The text of the [*NumError] of [Atoi(s)]. *)
Definition Atoi_text (Quote : string → string) (s : string) (e : num_error) : string :=
  "strconv.Atoi: parsing " +:+ Quote s +:+ ": "
  +:+ match e with ErrSyntax => "invalid syntax" | ErrRange => "value out of range" end.

(** ** Contexts *)

(** A context value: a [ContextIO] with its three streams, or anything else. *)
Inductive ctx_value {R W : Type} :=
| CtxIO (in_ : R) (out err : W)
| CtxOther.
Arguments ctx_value : clear implicits.

(** A context is the keys and values added to it, the last one first. *)
Abbreviation context R W := (list (string * ctx_value R W)).

Definition IOContextKey : string := "io".

(** [ctx.Value(key)]. *)
Fixpoint ctx_Value {R W} (ctx : context R W) (key : string) : option (ctx_value R W) :=
  match ctx with
  | [] => None
  | (k, v) :: ctx => if decide (k = key) then Some v else ctx_Value ctx key
  end.

(** [ContextWithIO(parent, in, out, err)]. *)
Definition ContextWithIO {R W} (parent : context R W) (in_ : R) (out err : W) : context R W :=
  (IOContextKey, CtxIO in_ out err) :: parent.

(** [IOFrom(ctx)]: what it reads from, what it writes to, and [Err()]. *)
Definition IOFrom {R W} (ctx : context R W) : outcome (option (R * W * W)) :=
  match ctx_Value ctx IOContextKey with
  | None => Ret None
  | Some (CtxIO in_ out err) => Ret (Some (in_, out, err))
  | Some CtxOther => Panic "interface conversion: not a cli.ContextIO"
  end.

(** The [stdout] and [stderr] of [Execute]. *)
Definition execute_streams {R W} (Stdout Stderr : W) (ctx : context R W) : outcome (W * W) :=
  match IOFrom ctx with
  | Ret None => Ret (Stdout, Stderr)
  | Ret (Some (_, out, err)) => Ret (out, err)
  | Panic p => Panic p
  | Block => Block
  | NoFuel => NoFuel
  end.

(** ** Run functions *)

(** How a [Run] function ends. *)
Inductive ran := Returned | Fatal (text : string).

Definition run_func (S : Type) : Type := list string → M S ran.

Section export.
Context `{GT : GoTypes} {V : Type} `{FlagValue V} {S : Type} `{FB : FuncBodies S}.

(** [args[n]]. *)
Definition arg_at (args : list string) (n : nat) : outcome string :=
  match args !! n with
  | Some a => Ret a
  | None => Panic ("runtime error: index out of range [" +:+ pretty n +:+ "] with length "
                   +:+ pretty (length args))
  end.

(** The loop over the parameters from the [n]-th on: a value for each, or the text
    of [log.Fatal]. *)
Fixpoint export_args (args : list string) (n : nat) (ins : list rtype) (in_ : list GoReflect.Value)
    : outcome (string + list GoReflect.Value) :=
  match ins with
  | [] => Ret (inr in_)
  | t :: ins =>
      match Kind t with
      | KString =>
          a ← arg_at args n;
          export_args args (Datatypes.S n) ins (in_ ++ [Some (TString, VString a)])%list
      | KInt =>
          a ← arg_at args n;
          match strconv_Atoi a with
          | inl e => Ret (inl (Atoi_text (Quote (V := V)) a e))
          | inr z => export_args args (Datatypes.S n) ins (in_ ++ [Some (TInt, VInt z)])%list
          end
      | k => Panic ("argument kind not supported: " +:+ kind_String k)
      end
  end.

(** The [Run] of an exported function. *)
Definition export_Run (fn : rtype * value) (ins : list rtype) : run_func S := λ args,
  r ← lift (export_args args 0 ins []);
  match r with
  | inl text => mret (Fatal text)
  | inr in_ => _ ← Value_Call (Some fn) in_; mret Returned
  end.

(** [Export(fn, use)]. *)
Definition Export (fn : rtype * value) (use : string) : outcome (Command (run_func S) V) :=
  match underlying fn.1 with
  | TFunc ins _ _ =>
      Ret (mkCommand use "" "" false [] "" "" (Some (ExactArgs (Z.of_nat (length ins))))
             (Some (export_Run fn ins)) [] None None)
  | _ => Panic "can only export funcs"
  end.
End export.

(** ** The framework *)

Section framework.
Context {V : Type} `{FlagValue V} {S : Type}.
Abbreviation heap := (cmds (run_func S) V).

(** The runner of a framework: itself, or another one's [Run]. *)
Inductive Runner :=
| RunFramework
| RunOther (run : M S (option error)).

(** [type Framework struct]; [Root] is [None] before [Initialize]. *)
Record Framework := mkFramework {
  DefaultRunner : Runner;
  Initializers : list (cmd_ptr → M heap unit);
  Root : option cmd_ptr;
}.

(** The [Run] of the root command. *)
Definition root_Run (r : Runner) : run_func S := λ _,
  match r with
  | RunFramework => panic_st "only runner is cli.Framework"
  | RunOther run =>
      err ← run;
      match err with Some err => mret (Fatal (Error_text err)) | None => mret Returned end
  end.

(** [for _, i := range f.Initializers]. *)
Fixpoint run_initializers (inits : list (cmd_ptr → M heap unit)) (root : cmd_ptr) : M heap unit :=
  match inits with
  | [] => mret tt
  | i :: inits => _ ← i root; run_initializers inits root
  end.

Definition new_command (Usage Short Long : string) (Args : option PositionalArgs)
    (Run : option (run_func S)) : Command (run_func S) V :=
  mkCommand Usage Short Long false [] "" "" Args Run [] None None.

(** [&Command{...}], at a new address. *)
Definition alloc (c : Command (run_func S) V) : M heap cmd_ptr := λ h,
  let p := fresh (dom h) in (Ret p, <[p := c]> h).

(** [f.Initialize()]. *)
Definition Initialize (f : Framework) : M heap Framework :=
  root ← alloc (new_command "" "" "" None (Some (root_Run (DefaultRunner f))));
  _ ← run_initializers (Initializers f) root;
  mret (mkFramework (DefaultRunner f) (Initializers f) (Some root)).

(** [f.Run(ctx)], [os_Args] being [os.Args]. *)
Definition Framework_Run (fuel : nat) (f : Framework) (os_Args : list string)
    : M heap (executed (run_func S)) :=
  match Root f with
  | None => panic_st "nil pointer dereference"
  | Some root => Execute fuel root (drop 1 os_Args)
  end.

(** ** cmd/qtalk *)

(** The commands of the tool, whose [Run] functions are arguments. *)
Definition callCmd (run : run_func S) := new_command "call" "call a remote function" "" (Some (MinArgs 1)) (Some run).
Definition interopCmd (run : run_func S) := new_command "interop" "run interop service" "" (Some (MaxArgs 1)) (Some run).
Definition checkCmd (run : run_func S) := new_command "check" "check interop" "" None (Some run).
Definition benchCmd (run : run_func S) := new_command "bench" "interop benchmark" "" None (Some run).

(** [main], up to [Execute]: the root. *)
Definition main_root (call interop check bench : run_func S) : M heap cmd_ptr :=
  callc ← alloc (callCmd call);
  interopc ← alloc (interopCmd interop);
  checkc ← alloc (checkCmd check);
  benchc ← alloc (benchCmd bench);
  root ← alloc (new_command "qtalk" ""
    "qtalk is a utility for working with the qtalk protocol stack" None None);
  _ ← AddCommand root callc;
  _ ← AddCommand root interopc;
  _ ← AddCommand root checkc;
  _ ← AddCommand root benchc;
  mret root.

Definition main (fuel : nat) (call interop check bench : run_func S) (os_Args : list string)
    : M heap (executed (run_func S)) :=
  root ← main_root call interop check bench;
  Execute fuel root (drop 1 os_Args).
End framework.
