(* ===== verification/CliFrameworkSpec.v ===== *)
(** * cmd/qtalk/cli: what exported functions, contexts and the tool do *)
From Stdlib Require Import Ascii String.
From S2P Require Import Prelude GoRuntime GoReflect GoReflectSpec GoFlag Cli.
From S2P Require Import CliHelp CliSpec CliProperties CliFramework FnProperties.

Local Open Scope Z_scope.

(** ** Decimal numbers *)

Lemma digit_code (d : N) : (d < 10)%N → N_of_ascii (pretty_N_char d) = (48 + d)%N.
Proof.
  intros Hd.
  assert (d = 0 ∨ d = 1 ∨ d = 2 ∨ d = 3 ∨ d = 4 ∨ d = 5 ∨ d = 6 ∨ d = 7 ∨ d = 8 ∨ d = 9)%N
    as Hc by lia.
  by repeat destruct Hc as [->|Hc]; [..|rewrite Hc].
Qed.

Lemma ParseUint_loop_pretty (x : N) s :
  Z.of_N x < 2 ^ 64 → ParseUint_loop 0 (pretty_N_go x s) = ParseUint_loop (Z.of_N x) s.
Proof.
  revert s. induction (N.lt_wf_0 x) as [x _ IH]; intros s Hx.
  destruct (decide (x = 0%N)) as [->|Hn]; [done|].
  rewrite pretty_N_go_step by lia.
  pose proof (N.mod_lt x 10 ltac:(lia)) as Hm. pose proof (N.div_mod x 10 ltac:(lia)) as Hdm.
  assert (x / 10 < x)%N as Hlt by (apply N.div_lt; lia). rewrite IH by lia.
  set (d := (x `mod` 10)%N) in *. set (q := (x / 10)%N) in *. clearbody d q.
  cbn [ParseUint_loop]. rewrite digit_code by done.
  destruct (Z.leb_spec 48 (Z.of_N (48 + d))); [|lia].
  destruct (Z.leb_spec (Z.of_N (48 + d)) 57); [|lia]. cbn [andb].
  destruct (Z.leb_spec ((2 ^ 64 - 1) / 10 + 1) (Z.of_N q)) as [Hq|_].
  { assert ((2 ^ 64 - 1) / 10 + 1 = 1844674407370955162) as Hc by done. lia. }
  destruct (Z.leb_spec (2 ^ 64) (Z.of_N q * 10 + (Z.of_N (48 + d) - 48))); [lia|].
  f_equal. lia.
Qed.

Lemma ParseUint_pretty (x : N) : Z.of_N x < 2 ^ 64 → ParseUint (pretty x) = inr (Z.of_N x).
Proof.
  intros Hx. change (pretty x) with (if decide (x = 0%N) then "0"%string else pretty_N_go x "").
  case_decide as Hn; [by subst|].
  pose proof (ParseUint_loop_pretty x "" Hx) as Hp. cbn [ParseUint_loop] in Hp.
  unfold ParseUint. destruct (pretty_N_go x "") eqn:He; [|done].
  cbn in Hp. injection Hp as Hp. lia.
Qed.

Lemma ParseUint_loop_range s n z : 0 ≤ n → ParseUint_loop n s = inr z → 0 ≤ z.
Proof.
  revert n. induction s as [|c s IH]; intros n Hn; cbn [ParseUint_loop]; [by intros [= <-]|].
  destruct (Z.leb_spec 48 (Z.of_N (N_of_ascii c))); [|done].
  destruct (Z.leb_spec (Z.of_N (N_of_ascii c)) 57); [|done]. cbn [andb].
  case_match; [done|]. case_match; [done|]. apply IH. lia.
Qed.

Lemma ParseUint_range s z : ParseUint s = inr z → 0 ≤ z.
Proof. destruct s; [done|]. by apply ParseUint_loop_range. Qed.

(** How [pretty] prints a number: its first character is a digit. *)
Lemma pretty_N_first x s : (∃ c t, s = String c t ∧ (48 ≤ N_of_ascii c)%N) →
  ∃ c t, pretty_N_go x s = String c t ∧ (48 ≤ N_of_ascii c)%N.
Proof.
  revert s. induction (N.lt_wf_0 x) as [x _ IH]; intros s Hs.
  destruct (decide (x = 0%N)) as [->|Hn]; [done|]. rewrite pretty_N_go_step by lia.
  apply IH; [apply N.div_lt; lia|]. eexists _, _. split; [done|].
  rewrite digit_code by (apply N.mod_lt; lia). apply N.le_add_r.
Qed.

Lemma strconv_Atoi_unsigned (x : N) :
  Z.of_N x < 2 ^ 64 →
  strconv_Atoi (pretty x) = if 2 ^ 63 <=? Z.of_N x then inl ErrRange else inr (Z.of_N x).
Proof.
  intros Hx. assert (∃ c t, pretty x = String c t ∧ (48 ≤ N_of_ascii c)%N) as (c & t & Hp & Hc).
  { change (pretty x) with (if decide (x = 0%N) then "0"%string else pretty_N_go x "").
    case_decide as Hn; [by eexists _, _|]. rewrite pretty_N_go_step by lia.
    apply pretty_N_first. eexists _, _. split; [done|].
    rewrite digit_code by (apply N.mod_lt; lia). apply N.le_add_r. }
  assert (strconv_Atoi (pretty x) = match ParseUint (pretty x) with
    | inl e => inl e
    | inr un => if 2 ^ 63 <=? un then inl ErrRange else inr un end) as ->.
  { rewrite Hp. unfold strconv_Atoi.
    assert (c ≠ "+"%char ∧ c ≠ "-"%char) as [H1 H2] by (split; intros ->; cbn in Hc; lia).
    destruct c as [[] [] [] [] [] [] [] []]; done. }
  by rewrite ParseUint_pretty.
Qed.

Lemma pretty_Z_pos z : 0 ≤ z → pretty z = pretty (Z.to_N z).
Proof. by destruct z. Qed.

Lemma pretty_Z_neg z : z < 0 → pretty z = String "-" (pretty (Z.to_N (- z))).
Proof. by destruct z. Qed.

(** ** Properties *)

(** [Atoi] reads back every number that is printed, and what it reads is an
    [int]: numbers out of range are errors. *)
Theorem strconv_Atoi_roundtrip z s :
  (is_i64 z → strconv_Atoi (pretty z) = inr z) ∧ (strconv_Atoi s = inr z → is_i64 z).
Proof.
  unfold is_i64. split.
  - intros Hz. destruct (decide (0 ≤ z)) as [Hp|Hn].
    + rewrite (pretty_Z_pos z Hp), strconv_Atoi_unsigned by lia.
      destruct (Z.leb_spec (2 ^ 63) (Z.of_N (Z.to_N z))); [lia|]. f_equal. lia.
    + rewrite (pretty_Z_neg z) by lia. unfold strconv_Atoi.
      rewrite ParseUint_pretty by lia. cbn [negb andb].
      destruct (Z.ltb_spec (2 ^ 63) (Z.of_N (Z.to_N (- z)))); [lia|]. f_equal. lia.
  - unfold strconv_Atoi.
    assert (∀ (neg : bool) body, match ParseUint body with
      | inl e => inl e
      | inr un => if negb neg && (2 ^ 63 <=? un) then inl ErrRange
                  else if neg && (2 ^ 63 <? un) then inl ErrRange
                  else inr (if neg : bool then - un else un)
      end = inr z → - 2 ^ 63 ≤ z < 2 ^ 63) as Hb.
    { intros neg body. destruct (ParseUint body) as [e|un] eqn:Hp; [done|].
      apply ParseUint_range in Hp.
      destruct neg; cbn [negb andb].
      - destruct (Z.ltb_spec (2 ^ 63) un); [done|]. intros [= <-]. lia.
      - destruct (Z.leb_spec (2 ^ 63) un); [done|]. intros [= <-]. lia. }
    destruct (match s with String "+" body => (false, body) | String "-" body => (true, body)
              | _ => (false, s) end) as [neg body]. apply Hb.
Qed.

Lemma strconv_Atoi_roundtrip_witness : strconv_Atoi "-42" = inr (-42).
Proof. exact (proj1 (strconv_Atoi_roundtrip (-42) "") ltac:(unfold is_i64; lia)). Defined.

(** *** Exported functions *)

Section export.
Context `{GT : GoTypes} {V : Type} `{FlagValue V} {S : Type} `{FB : FuncBodies S}.

(** The value an argument stands for, as a parameter of type string or int. *)
Inductive exported_arg : rtype → string → value → Prop :=
| exported_string a : exported_arg TString a (VString a)
| exported_int a z : strconv_Atoi a = inr z → exported_arg TInt a (VInt z).

Lemma exported_Kind t a v : exported_arg t a v → Kind t = KString ∨ Kind t = KInt.
Proof using. intros []; [left|right]; done. Qed.

Lemma export_args_eq ins args vs done_ rest in_ :
  Forall3 exported_arg ins args vs →
  export_args (done_ ++ args ++ rest) (length done_) ins in_
  = Ret (inr (in_ ++ zip_with (λ t v, Some (t, v)) ins vs)%list).
Proof using.
  intros Hall. revert done_ in_. induction Hall as [|t a v ins args vs Ha Hall IH]; intros done_ in_.
  { by rewrite app_nil_r. }
  assert (arg_at (done_ ++ (a :: args) ++ rest)%list (length done_) = Ret a) as Hat.
  { unfold arg_at. rewrite lookup_app_r, Nat.sub_diag by done. done. }
  specialize (IH (done_ ++ [a])%list). rewrite length_app, Nat.add_1_r in IH.
  cbn [export_args]. destruct Ha as [a|a z Hz]; rewrite Hat; cbn.
  - specialize (IH (in_ ++ [Some (TString, VString a)])%list).
    rewrite <- !app_assoc in IH. exact IH.
  - rewrite Hz. specialize (IH (in_ ++ [Some (TInt, VInt z)])%list).
    rewrite <- !app_assoc in IH. exact IH.
Qed.

Lemma call_params_same ins vs :
  length ins = length vs →
  call_params ins (zip_with (λ t v, Some (t, v)) ins vs) = Ret vs.
Proof using.
  revert vs. induction ins as [|t ins IH]; intros [|v vs] Hl; try done. cbn [zip_with call_params].
  rewrite assignTo_same. cbn. rewrite IH by (cbn in Hl; lia). done.
Qed.

Lemma Value_Call_same ft ins outs f vs (s : S) :
  underlying ft = TFunc ins outs false → length ins = length vs →
  Value_Call (Some (ft, VFunc (Some f))) (zip_with (λ t v, Some (t, v)) ins vs) s
  = (rs ← func_body f vs; mret (zip_with (λ t r, Some (t, r)) outs rs)) s.
Proof using.
  intros Hu Hl. unfold Value_Call. rewrite Hu.
  assert (prepare_call ins false (zip_with (λ t v, Some (t, v)) ins vs) = Ret vs) as Hp.
  { unfold prepare_call. rewrite length_zip_with, <- Hl, Nat.min_id, Nat.ltb_irrefl. cbn [negb andb].
    assert (existsb (λ a, match a with None => true | Some _ => false end)
      (zip_with (λ t v, Some (t, v)) ins vs) = false) as ->.
    { clear. revert vs. induction ins; intros []; cbn; auto. }
    rewrite !take_ge by (rewrite ?length_zip_with; lia).
    rewrite call_params_same by done. done. }
  rewrite Hp. done.
Qed.

(** Running an exported function: [Export] gives a command that takes as
    many arguments as the function has parameters, and whose [Run], when every
    parameter is a string or an int and every argument can be read as one, calls
    the function once, on exactly the values the arguments stand for. *)
Theorem Export_runs ft ins outs f use args vs (s : S) :
  underlying ft = TFunc ins outs false → Forall3 exported_arg ins args vs →
  ∃ c run, Export (V := V) (ft, VFunc (Some f)) use = Ret c ∧ Run c = Some run ∧
    Usage c = use ∧
    (∀ check d xs, Args c = Some check →
       check d xs = None ↔ length xs = length ins) ∧
    run args s = (_ ← func_body f vs; mret Returned) s.
Proof using.
  intros Hu Hall. unfold Export. cbn [fst]. rewrite Hu. eexists _, _. split; [reflexivity|].
  split; [reflexivity|]. split; [done|]. split.
  - intros check d xs [= <-]. unfold ExactArgs, len.
    destruct (Z.eqb_spec (Z.of_nat (length xs)) (Z.of_nat (length ins))); split; intros; try done; lia.
  - pose proof (export_args_eq ins args vs [] [] [] Hall) as Ha. rewrite app_nil_r in Ha.
    cbn [app length] in Ha. unfold export_Run. rewrite Ha. unfold lift.
    erewrite bind_ret by reflexivity. cbv iota beta.
    assert (length ins = length vs) as Hl by (by eapply Forall3_length_lr).
    unfold mbind at 1, M_bind at 1. rewrite (Value_Call_same _ _ _ _ _ _ Hu Hl).
    unfold mbind, M_bind. by destruct (func_body f vs s) as [[rs| | |] s'].
Qed.

(** An argument that is no number ends the program before the function runs,
    with the text of [strconv.Atoi]. *)
Theorem Export_bad_int ft ins outs f args a e (s : S) :
  underlying ft = TFunc (TInt :: ins) outs false → strconv_Atoi a = inl e →
  export_Run (V := V) (ft, VFunc (Some f)) (TInt :: ins) (a :: args) s
  = (Ret (Fatal (Atoi_text (Quote (V := V)) a e)), s).
Proof using. intros Hu Ha. unfold export_Run. cbn. rewrite Ha. done. Qed.

(** [Export] looks at the kind of a parameter and passes a plain string: a
    function whose parameter is another type of kind string panics when the
    command runs. *)
Theorem Export_named_panics ft name outs f a (s : S) :
  underlying ft = TFunc [TNamed name] outs false → Kind (TNamed name) = KString →
  export_Run (V := V) (ft, VFunc (Some f)) [TNamed name] [a] s
  = (Panic ("reflect: Call using string as type " +:+ name), s).
Proof using.
  intros Hu Hk. unfold export_Run, export_args. rewrite Hk. unfold Value_Call, lift.
  erewrite bind_ret by reflexivity. cbv iota beta. unfold mbind, M_bind. rewrite Hu.
  unfold prepare_call. cbn [length negb andb Nat.ltb Nat.leb existsb orb app take].
  cbn [call_params]. unfold assignTo, directlyAssignable, Implements, is_interface.
  by rewrite Hk, bool_decide_false.
Qed.
End export.

Import FnProperties.Demo.

Lemma Export_runs_witness :
  ∃ c run, Export (V := string) (Demo.sum_type, VFunc (Some 0%nat)) "sum <a> <b>"%string = Ret c ∧
    Run c = Some run ∧ run ["40"; "-2"]%string tt = (Ret Returned, tt).
Proof.
  destruct (Export_runs (V := string) Demo.sum_type [TInt; TInt] [TInt] 0 "sum <a> <b>"%string
    ["40"; "-2"]%string [VInt 40; VInt (-2)] tt eq_refl) as (c & run & H1 & H2 & _ & _ & H3).
  { repeat constructor. }
  exists c, run. split; [exact H1|]. split; [exact H2|exact H3].
Defined.

(** *** Contexts *)

(** [IOFrom] of a context is the innermost value under its key: the streams of
    the last [ContextWithIO], whatever other keys were added since; without any it
    is nil. Another package's value under the same key, a plain string, makes it
    panic. *)
Theorem IOFrom_innermost {R W} (ctx added : context R W) in_ out err :
  Forall (λ kv, kv.1 ≠ IOContextKey) added →
  IOFrom (added ++ ContextWithIO ctx in_ out err) = Ret (Some (in_, out, err)) ∧
  IOFrom added = Ret None ∧
  IOFrom (added ++ (IOContextKey, CtxOther) :: ctx)
  = Panic "interface conversion: not a cli.ContextIO".
Proof.
  intros Hadd. assert (∀ c, IOFrom (added ++ c) = IOFrom c) as Ha.
  { intros c. unfold IOFrom. f_equal.
    induction Hadd as [|[k v] added Hk _ IH]; [done|]. cbn in *. by rewrite decide_False. }
  split_and!; [by rewrite Ha| |by rewrite Ha]. rewrite <- (app_nil_r added). by rewrite Ha.
Qed.

Lemma IOFrom_innermost_witness :
  IOFrom ([("k"%string, CtxOther)] ++ ContextWithIO [] 0%nat 1%nat 2%nat) = Ret (Some (0, 1, 2)%nat).
Proof.
  refine (proj1 (IOFrom_innermost [] [("k"%string, CtxOther)] 0%nat 1%nat 2%nat _)).
  by repeat constructor.
Defined.

(** *** The framework and the tool *)

(** A framework without initializers runs its default runner, whatever the heap
    of commands held; if that is the framework itself, running it panics. *)
Theorem Framework_runs {V} `{FlagValue V} {S} (f : Framework (V := V) (S := S)) fuel prog h (s : S) :
  Initializers f = [] →
  (∃ h', (f ← Initialize f; Framework_Run fuel f [prog]) h
         = (Ret (ExecRun (root_Run (DefaultRunner f)) []), h')) ∧
  (DefaultRunner f = RunFramework →
   root_Run (DefaultRunner f) [] s = (Panic "only runner is cli.Framework", s)).
Proof.
  intros Hi. split; [|by intros ->]. unfold Initialize. rewrite Hi. cbn [run_initializers].
  set (root := fresh (dom h)).
  set (cmd := new_command "" "" "" None (Some (root_Run (DefaultRunner f)))).
  set (h1 := <[root := cmd]> h).
  assert (h1 !! root = Some cmd) as Hr by apply lookup_insert_eq.
  rewrite (step_eq _ _ h (mkFramework (DefaultRunner f) [] (Some root)) h1) by done.
  unfold Framework_Run. cbn [Root drop]. unfold Execute, add_version.
  eexists. erewrite step_eq.
  2: { rewrite (step_eq _ _ _ _ _ (deref_cmd_eq _ _ _ Hr)). reflexivity. }
  erewrite step_eq by reflexivity. cbv iota beta.
  rewrite (step_eq _ _ _ _ _ (Flags_eq _ _ _ Hr)).
  change (Parse (drop 0 []) (own_flags cmd)) with (@None error, (Parse [] (own_flags cmd)).2).
  set (fs := (Parse [] (own_flags cmd)).2). cbv iota beta.
  set (h2 := alter (set_flags fs) root (alter (set_flags (own_flags cmd)) root h1)).
  assert (h2 !! root = Some (set_flags fs cmd)) as Hr2.
  { subst h2. by rewrite alter_flags_twice, lookup_alter_eq, Hr. }
  rewrite (step_eq _ _ _ tt h2) by done. rewrite (step_eq _ _ _ _ _ (deref_cmd_eq _ _ _ Hr2)).
  rewrite (step_eq _ _ _ false h2) by done. cbv iota.
  rewrite (step_eq _ _ _ _ _ (deref_cmd_eq _ _ _ Hr2)). reflexivity.
Qed.

(** The tool's commands: each name leads to its function with the arguments
    behind it, [call] needs an argument and [interop] takes at most one. *)
Theorem main_dispatches {V} `{FlagValue V} {S} (call interop check bench : run_func S) :
  let main args := (main (V := V) 3 call interop check bench ("qtalk"%string :: args) ∅).1 in
  main ["call"; "tcp://host/sel"; "x"]%string = Ret (ExecRun call ["tcp://host/sel"; "x"]%string) ∧
  main ["call"]%string
  = Ret (ExecError (errorString "requires at least 1 arg(s), only received 0")) ∧
  main ["interop"]%string = Ret (ExecRun interop []) ∧
  main ["interop"; ":1"; ":2"]%string
  = Ret (ExecError (errorString "accepts at most 1 arg(s), received 2")) ∧
  main ["check"]%string = Ret (ExecRun check []) ∧
  main ["bench"; "cmd"]%string = Ret (ExecRun bench ["cmd"]%string).
Proof. split_and!; vm_compute; reflexivity. Qed.
