(* ===== verification/CborMux.v ===== *)
(** * x/cbor/mux: the multiplexer over cbor frames

    frame.go, channel.go and session.go of x/cbor/mux. Every frame is one cbor
    value, there is no flow control, and a channel's [frames] queue is
    unbuffered, so the session's loop waits on it for the goroutine in [Open].
    The cbor encoder and decoder are a third-party package: the class [Cbor]
    stands for it and [CborLaws] for what it documents. *)
From S2P Require Import Prelude GoRuntime Buffer.

(** ** frame.go *)

Definition channelOpen : Z := 100.
Definition channelOpenConfirm : Z := 101.
Definition channelOpenFailure : Z := 102.
Definition channelData : Z := 103.
Definition channelEOF : Z := 104.
Definition channelClose : Z := 105.

Record Frame := mkFrame {
  fr_Type : Z;
  fr_ChannelID : Z;
  fr_SenderID : Z;
  fr_Data : list byte;
}.

Definition frame_wf (f : Frame) : Prop :=
  0 ≤ fr_Type f < 256 ∧ is_u32 (fr_ChannelID f) ∧ is_u32 (fr_SenderID f) ∧
  len (fr_Data f) < 2 ^ 32.

(** The verb [%v] on a frame. *)
Fixpoint bytes_String (l : list byte) : string :=
  match l with
  | [] => ""
  | [b] => pretty (byte_to_Z b)
  | b :: l => pretty (byte_to_Z b) +:+ " " +:+ bytes_String l
  end.

Definition Frame_String (f : Frame) : string :=
  "{{} " +:+ pretty (fr_Type f) +:+ " " +:+ pretty (fr_ChannelID f) +:+ " "
  +:+ pretty (fr_SenderID f) +:+ " [" +:+ bytes_String (fr_Data f) +:+ "]}".

(** [cbor.NewEncoder(t).Encode(f)] writes the encoding of [f];
    [cbor.NewDecoder(t).Decode(&f)] takes the next value off the stream. *)
Class Cbor := {
  cbor_Encode : Frame → list byte;
  cbor_Decode : reader → result Frame * reader;
}.

Class CborLaws `{Cbor} : Prop := {
  cbor_roundtrip : ∀ f rest e, frame_wf f →
    cbor_Decode (mkReader (cbor_Encode f ++ rest) e) = (Ok f, mkReader rest e);
  cbor_end : ∀ e, cbor_Decode (mkReader [] e) = (Err e, mkReader [] e);
}.

(** ** State *)

Definition cptr := nat.

(** An unbuffered [chan Frame] with at most one receiver: whether it is closed,
    whether a goroutine is at its receive, and the frame handed to it. *)
Record handoff := mkHandoff {
  ho_closed : bool;
  ho_waiting : bool;
  ho_got : option Frame;
}.

(** [type channel struct]. *)
Record cchan := mkCChan {
  cc_localId : Z;
  cc_remoteId : Z;
  cc_frames : handoff;
  cc_sentEOF : bool;
  cc_pending : buffer;
  cc_sentClose : bool;
}.

(** [type session struct], with the heap of its channels. *)
Record csession := mkCSession {
  cs_enc : writer;
  cs_dec : reader;
  cs_tclosed : nat;
  cs_chans : gmap Z cptr;
  cs_chanCounter : Z;
  cs_heap : gmap cptr cchan;
  cs_fresh : cptr;
  cs_inbox : option cptr;
  cs_err : option error;
  cs_closeCh : gochan bool;
}.

Definition set_cc_localId v c := mkCChan v (cc_remoteId c) (cc_frames c) (cc_sentEOF c)
  (cc_pending c) (cc_sentClose c).
Definition set_cc_remoteId v c := mkCChan (cc_localId c) v (cc_frames c) (cc_sentEOF c)
  (cc_pending c) (cc_sentClose c).
Definition set_cc_frames v c := mkCChan (cc_localId c) (cc_remoteId c) v (cc_sentEOF c)
  (cc_pending c) (cc_sentClose c).
Definition set_cc_sentEOF v c := mkCChan (cc_localId c) (cc_remoteId c) (cc_frames c) v
  (cc_pending c) (cc_sentClose c).
Definition set_cc_pending v c := mkCChan (cc_localId c) (cc_remoteId c) (cc_frames c)
  (cc_sentEOF c) v (cc_sentClose c).
Definition set_cc_sentClose v c := mkCChan (cc_localId c) (cc_remoteId c) (cc_frames c)
  (cc_sentEOF c) (cc_pending c) v.

Definition set_cs_enc v s := mkCSession v (cs_dec s) (cs_tclosed s) (cs_chans s)
  (cs_chanCounter s) (cs_heap s) (cs_fresh s) (cs_inbox s) (cs_err s) (cs_closeCh s).
Definition set_cs_dec v s := mkCSession (cs_enc s) v (cs_tclosed s) (cs_chans s)
  (cs_chanCounter s) (cs_heap s) (cs_fresh s) (cs_inbox s) (cs_err s) (cs_closeCh s).
Definition set_cs_tclosed v s := mkCSession (cs_enc s) (cs_dec s) v (cs_chans s)
  (cs_chanCounter s) (cs_heap s) (cs_fresh s) (cs_inbox s) (cs_err s) (cs_closeCh s).
Definition set_cs_chans v s := mkCSession (cs_enc s) (cs_dec s) (cs_tclosed s) v
  (cs_chanCounter s) (cs_heap s) (cs_fresh s) (cs_inbox s) (cs_err s) (cs_closeCh s).
Definition set_cs_chanCounter v s := mkCSession (cs_enc s) (cs_dec s) (cs_tclosed s)
  (cs_chans s) v (cs_heap s) (cs_fresh s) (cs_inbox s) (cs_err s) (cs_closeCh s).
Definition set_cs_heap v s := mkCSession (cs_enc s) (cs_dec s) (cs_tclosed s) (cs_chans s)
  (cs_chanCounter s) v (cs_fresh s) (cs_inbox s) (cs_err s) (cs_closeCh s).
Definition set_cs_fresh v s := mkCSession (cs_enc s) (cs_dec s) (cs_tclosed s) (cs_chans s)
  (cs_chanCounter s) (cs_heap s) v (cs_inbox s) (cs_err s) (cs_closeCh s).
Definition set_cs_inbox v s := mkCSession (cs_enc s) (cs_dec s) (cs_tclosed s) (cs_chans s)
  (cs_chanCounter s) (cs_heap s) (cs_fresh s) v (cs_err s) (cs_closeCh s).
Definition set_cs_err v s := mkCSession (cs_enc s) (cs_dec s) (cs_tclosed s) (cs_chans s)
  (cs_chanCounter s) (cs_heap s) (cs_fresh s) (cs_inbox s) v (cs_closeCh s).
Definition set_cs_closeCh v s := mkCSession (cs_enc s) (cs_dec s) (cs_tclosed s) (cs_chans s)
  (cs_chanCounter s) (cs_heap s) (cs_fresh s) (cs_inbox s) (cs_err s) v.

Abbreviation CS := (M csession).

Definition cderef (l : cptr) : CS cchan := λ s,
  match cs_heap s !! l with
  | Some c => (Ret c, s)
  | None => (Panic "nil pointer dereference", s)
  end.

Definition cassign (l : cptr) (f : cchan → cchan) : CS unit := λ s,
  (Ret tt, set_cs_heap (alter f l (cs_heap s)) s).

Definition on_cpending {A} (l : cptr) (m : M buffer A) : CS A :=
  c ← cderef l;
  st (λ s, let '(o, b) := m (cc_pending c) in (o, (cassign l (set_cc_pending b) s).2)).

(** [ch.frames <- f]: the frame is handed to the receiver, if there is one. *)
Definition frames_send (l : cptr) (f : Frame) : CS unit :=
  c ← cderef l;
  if ho_closed (cc_frames c) then panic_st "send on closed channel"
  else if ho_waiting (cc_frames c) then cassign l (set_cc_frames (mkHandoff false false (Some f)))
  else block_st.

(** [close(ch.frames)]. *)
Definition frames_close (l : cptr) : CS unit :=
  c ← cderef l;
  if ho_closed (cc_frames c) then panic_st "close of closed channel"
  else cassign l (set_cc_frames (mkHandoff true (ho_waiting (cc_frames c)) (ho_got (cc_frames c)))).

(** ** channel.go *)

Section cbor.
Context `{Cbor}.

(** [ch.session.enc.Encode(f)]. *)
Definition cencode (f : Frame) : CS (option error) := λ s,
  let '(e, w) := io_Write (cbor_Encode f) (cs_enc s) in (Ret e, set_cs_enc w s).

(** [send(f)]. *)
Definition cchan_send (l : cptr) (f : Frame) : CS (option error) :=
  c ← cderef l;
  if cc_sentClose c then mret (Some io_EOF)
  else
    _ ← (if fr_Type f =? channelClose then cassign l (set_cc_sentClose true) else mret tt);
    cencode f.

(** [CloseWrite()]. *)
Definition cchan_CloseWrite (l : cptr) : CS (option error) :=
  _ ← cassign l (set_cc_sentEOF true);
  c ← cderef l;
  cchan_send l (mkFrame channelEOF (cc_remoteId c) 0 []).

(** [Close()]. *)
Definition cchan_Close (l : cptr) : CS (option error) :=
  c ← cderef l;
  cchan_send l (mkFrame channelClose (cc_remoteId c) 0 []).

(** [Write(data)]: the count is the named result [n], which is never set. *)
Definition cchan_Write (l : cptr) (data : list byte) : CS (Z * option error) :=
  c ← cderef l;
  if cc_sentEOF c then mret (0, Some io_EOF)
  else
    err ← cencode (mkFrame channelData (cc_remoteId c) 0 data);
    mret (0, err).

(** [Read(data)] for a slice of [n] bytes. *)
Definition cchan_Read (l : cptr) (n : nat) : CS (list byte * option error) :=
  on_cpending l (buffer_Read n).

(** [close()]. *)
Definition cchan_close (l : cptr) : CS unit :=
  _ ← on_cpending l (λ b, (Ret tt, buffer_eof b));
  _ ← frames_close l;
  cassign l (set_cc_sentClose true).

(** [delete(s.chans, id)]. *)
Definition cdelete (id : Z) : CS unit := modify_st (λ s, set_cs_chans (delete id (cs_chans s)) s).

(** [handle(f)]. *)
Definition cchan_handle (l : cptr) (f : Frame) : CS (option error) :=
  let t := fr_Type f in
  if t =? channelData then
    _ ← on_cpending l (λ b, (Ret tt, buffer_write (fr_Data f) b)); mret None
  else if t =? channelClose then
    c ← cderef l;
    _ ← cchan_send l (mkFrame channelClose (cc_remoteId c) 0 []);
    c ← cderef l;
    _ ← cdelete (cc_localId c);
    _ ← cchan_close l;
    mret None
  else if t =? channelEOF then
    _ ← on_cpending l (λ b, (Ret tt, buffer_eof b)); mret None
  else if t =? channelOpenConfirm then
    _ ← cassign l (set_cc_remoteId (fr_SenderID f));
    _ ← frames_send l f; mret None
  else if t =? channelOpenFailure then
    _ ← cdelete (fr_ChannelID f);
    _ ← frames_send l f; mret None
  else mret (Some (errorString ("cmux: invalid channel frame " +:+ Frame_String f))).

(** ** session.go *)

(** [newChannel()]. *)
Definition cs_newChannel : CS cptr :=
  s ← get_st;
  let l := cs_fresh s in
  let ch := mkCChan 0 0 (mkHandoff false false None) false newBuffer false in
  let id := u32 (cs_chanCounter s + 1) in
  _ ← put_st (set_cs_chanCounter id
                (set_cs_fresh (S l) (set_cs_heap (<[l := ch]> (cs_heap s)) s)));
  _ ← cassign l (set_cc_localId id);
  _ ← modify_st (λ s, set_cs_chans (<[id := l]> (cs_chans s)) s);
  mret l.

(** [Open] up to its select, where the goroutine waits on [ch.frames]. *)
Definition cs_Open_request : CS (result cptr) :=
  l ← cs_newChannel;
  c ← cderef l;
  err ← cencode (mkFrame channelOpen 0 (cc_localId c) []);
  match err with
  | Some e => mret (Err e)
  | None => _ ← cassign l (set_cc_frames (mkHandoff false true None)); mret (Ok l)
  end.

(** The select of [Open] and what follows: [done] is [ctx.Err()] when the
    context's case is taken. *)
Definition cs_Open_wait (l : cptr) (done : option error) : CS (result cptr) :=
  c ← cderef l;
  let q := cc_frames c in
  match done with
  | Some e => _ ← cassign l (set_cc_frames (mkHandoff (ho_closed q) false (ho_got q)));
              mret (Err e)
  | None =>
      match ho_got q with
      | Some f =>
          mret (if fr_Type f =? channelOpenConfirm then Ok l
                else if fr_Type f =? channelOpenFailure
                then Err (errorString "cmux: channel open failed on remote side")
                else Err (errorString ("cmux: unexpected packet in response to channel open: "
                                       +:+ Frame_String f)))
      | None => if ho_closed q then mret (Err net_ErrClosed) else block_st
      end
  end.

(** [Accept()]; [from_inbox] says which case of the select is taken. *)
Definition cs_Accept (from_inbox : bool) : CS (result cptr) :=
  s ← get_st;
  if from_inbox then
    match cs_inbox s with
    | Some l => _ ← put_st (set_cs_inbox None s); mret (Ok l)
    | None => block_st
    end
  else
    match chan_recv (cs_closeCh s) with
    | Ret (_, q) => _ ← put_st (set_cs_closeCh q s); mret (Err io_EOF)
    | _ => block_st
    end.

(** [Close()] and [Wait()]. *)
Definition cs_Close : CS unit := modify_st (λ s, set_cs_tclosed (S (cs_tclosed s)) s).

Definition cs_Wait : CS error :=
  s ← get_st;
  match cs_err s with Some e => mret e | None => block_st end.

(** [onePacket] for an open frame, up to the select. *)
Definition cs_offer (f : Frame) : CS cptr :=
  l ← cs_newChannel;
  _ ← cassign l (set_cc_remoteId (fr_SenderID f));
  _ ← modify_st (set_cs_inbox (Some l));
  mret l.

(** The select: [accepted] when an [Accept] took the channel, else the timer
    fired. *)
Definition cs_offered (l : cptr) (f : Frame) (accepted : bool) : CS (option error) :=
  if accepted then
    c ← cderef l;
    cencode (mkFrame channelOpenConfirm (cc_remoteId c) (cc_localId c) [])
  else
    _ ← modify_st (set_cs_inbox None);
    cencode (mkFrame channelOpenFailure (fr_SenderID f) 0 []).

(** [onePacket] for any other frame. *)
Definition cs_dispatch (f : Frame) : CS (option error) :=
  s ← get_st;
  match cs_chans s !! fr_ChannelID f with
  | None => mret (Some (errorString ("cmux: unknown channel " +:+ pretty (fr_ChannelID f))))
  | Some l => cchan_handle l f
  end.

Definition cs_decode : CS (result Frame) :=
  st (λ s, let '(r, d) := cbor_Decode (cs_dec s) in (Ret r, set_cs_dec d s)).

(** [onePacket()], an [Accept] taking an offered channel when [accepted]. *)
Definition cs_onePacket (accepted : bool) : CS (option error) :=
  r ← cs_decode;
  match r with
  | Err err => mret (Some err)
  | Ok f =>
      if fr_Type f =? channelOpen then
        l ← cs_offer f;
        _ ← (if accepted then _ ← cs_Accept true; mret tt else mret tt);
        cs_offered l f accepted
      else cs_dispatch f
  end.

Fixpoint cclose_all (ls : list cptr) : CS unit :=
  match ls with
  | [] => mret tt
  | l :: ls => _ ← cchan_close l; cclose_all ls
  end.

(** [s.closeCh <- true]. *)
Definition ccloseCh_send : CS unit :=
  s ← get_st;
  match chan_send true (cs_closeCh s) with
  | Ret q => put_st (set_cs_closeCh q s)
  | Block => block_st
  | Panic e => panic_st e
  | NoFuel => nofuel_st
  end.

(** The end of [loop]. The channels are closed in the order of the map, which Go
    leaves open and which makes no difference: each is closed on its own. *)
Definition cs_teardown (err : error) : CS unit :=
  s ← get_st;
  _ ← cclose_all (map_to_list (cs_chans s)).*2;
  _ ← modify_st (λ s, set_cs_chanCounter 0 (set_cs_chans ∅ s));
  _ ← cs_Close;
  _ ← ccloseCh_send;
  modify_st (set_cs_err (Some err)).

(** [loop()]; [accepted i] is for packet [i]. *)
Fixpoint cs_loop (fuel : nat) (accepted : nat → bool) (i : nat) : CS unit :=
  match fuel with
  | O => nofuel_st
  | S fuel =>
      err ← cs_onePacket (accepted i);
      match err with
      | None => cs_loop fuel accepted (S i)
      | Some e => cs_teardown e
      end
  end.

(** [New(t)]. *)
Definition new_csession (w : writer) (r : reader) : csession :=
  mkCSession w r 0 ∅ 0 ∅ 0%nat None None (make_chan 1).

Definition cs_New (t : option (writer * reader)) : option csession :=
  match t with
  | None => None
  | Some (w, r) => Some (new_csession w r)
  end.

(** ** Interleavings *)

(** Where the loop is: between packets, at the select of an open frame, waiting
    for ever on a [frames] channel, or at its end. *)
Inductive cloop :=
| Running
| Offering (l : cptr) (f : Frame)
| Stuck
| Ended.

(** What happens next: a call of a method by some goroutine, a turn of the loop
    on the next packet, or its select being decided. Calls that wait happen when
    they go on; a call that waits leaves the state as it is. *)
Inductive cevent :=
| COpen
| COpenWait (l : cptr) (done : option error)
| CAccept (from_inbox : bool)
| CRead (l : cptr) (n : nat)
| CWrite (l : cptr) (data : list byte)
| CCloseWrite (l : cptr)
| CClose (l : cptr)
| CSessionClose
| CPacket
| COffered (accepted : bool).

Definition cconfig : Type := csession * cloop.

(** A call by another goroutine. *)
Definition user_call {A} (m : CS A) (cfg : cconfig) : outcome cconfig :=
  match m cfg.1 with
  | (Ret _, s) | (Block, s) => Ret (s, cfg.2)
  | (Panic msg, _) => Panic msg
  | (NoFuel, _) => NoFuel
  end.

(** A call on a channel the program has. *)
Definition chan_call {A} (l : cptr) (m : CS A) (cfg : cconfig) : outcome cconfig :=
  match cs_heap cfg.1 !! l with
  | Some _ => user_call m cfg
  | None => Ret cfg
  end.

(** A turn of the loop: it goes on, tears the session down, or waits. *)
Definition loop_turn (m : CS (option error)) (s : csession) : outcome cconfig :=
  match m s with
  | (Ret None, s) => Ret (s, Running)
  | (Ret (Some e), s) =>
      match cs_teardown e s with
      | (Ret _, s) => Ret (s, Ended)
      | (Block, s) => Ret (s, Stuck)
      | (Panic msg, _) => Panic msg
      | (NoFuel, _) => NoFuel
      end
  | (Block, s) => Ret (s, Stuck)
  | (Panic msg, _) => Panic msg
  | (NoFuel, _) => NoFuel
  end.

Definition exec_packet (s : csession) : outcome cconfig :=
  let '(r, d) := cbor_Decode (cs_dec s) in
  let s := set_cs_dec d s in
  match r with
  | Err err => loop_turn (mret (Some err)) s
  | Ok f =>
      if fr_Type f =? channelOpen then
        match cs_offer f s with
        | (Ret l, s) => Ret (s, Offering l f)
        | (Block, s) => Ret (s, Stuck)
        | (Panic msg, _) => Panic msg
        | (NoFuel, _) => NoFuel
        end
      else loop_turn (cs_dispatch f) s
  end.

Definition exec_cevent (ev : cevent) (cfg : cconfig) : outcome cconfig :=
  match ev with
  | COpen => user_call cs_Open_request cfg
  | COpenWait l done => chan_call l (cs_Open_wait l done) cfg
  | CAccept from_inbox => user_call (cs_Accept from_inbox) cfg
  | CRead l n => chan_call l (cchan_Read l n) cfg
  | CWrite l data => chan_call l (cchan_Write l data) cfg
  | CCloseWrite l => chan_call l (cchan_CloseWrite l) cfg
  | CClose l => chan_call l (cchan_Close l) cfg
  | CSessionClose => user_call cs_Close cfg
  | CPacket => match cfg.2 with Running => exec_packet cfg.1 | _ => Ret cfg end
  | COffered accepted =>
      match cfg.2 with
      | Offering l f =>
          (* the channel is gone from the inbox iff an [Accept] took it *)
          if bool_decide (cs_inbox cfg.1 = None) then
            if accepted then loop_turn (cs_offered l f true) cfg.1 else Ret cfg
          else
            if accepted then Ret cfg else loop_turn (cs_offered l f false) cfg.1
      | _ => Ret cfg
      end
  end.

Fixpoint exec_cevents (evs : list cevent) (cfg : cconfig) : outcome cconfig :=
  match evs with
  | [] => Ret cfg
  | ev :: evs =>
      match exec_cevent ev cfg with
      | Ret cfg => exec_cevents evs cfg
      | Block => Block
      | Panic msg => Panic msg
      | NoFuel => NoFuel
      end
  end.
End cbor.
