(* ===== verification/CborSpec.v ===== *)
(** * x/cbor/mux: how a session runs, and what its methods do

    Equations for the methods on a known channel, the configurations of a session
    (its state and where its loop is) with the calls and loop turns that change
    them, and the invariant all of them keep. *)
From S2P Require Import Prelude GoRuntime Buffer MuxState CborMux.

(** ** Equations *)

(** The state with the channel at [l] replaced. *)
Definition put_cc (l : cptr) (c : cchan) (s : csession) : csession :=
  set_cs_heap (<[l := c]> (cs_heap s)) s.

Lemma put_cc_twice l c c' s : put_cc l c' (put_cc l c s) = put_cc l c' s.
Proof. unfold put_cc, set_cs_heap. cbn. by rewrite insert_insert_eq. Qed.

Lemma heap_put_cc l c s : cs_heap (put_cc l c s) !! l = Some c.
Proof. apply lookup_insert_eq. Qed.

Lemma cderef_eq l c s : cs_heap s !! l = Some c → cderef l s = (Ret c, s).
Proof. intros Hl. unfold cderef. by rewrite Hl. Qed.

Lemma cassign_eq l f c s :
  cs_heap s !! l = Some c → cassign l f s = (Ret tt, put_cc l (f c) s).
Proof.
  intros Hl. unfold cassign, put_cc. repeat f_equal. apply map_eq. intros k.
  destruct (decide (l = k)) as [<-|]; [by rewrite lookup_alter_eq, Hl, lookup_insert_eq|].
  by rewrite lookup_alter_ne, lookup_insert_ne.
Qed.

Lemma on_cpending_eq {A} l (m : M buffer A) c s o b :
  cs_heap s !! l = Some c → m (cc_pending c) = (o, b) →
  on_cpending l m s = (o, put_cc l (set_cc_pending b c) s).
Proof.
  intros Hl Hm. unfold on_cpending. rewrite (bind_eq _ _ _ _ _ (cderef_eq _ _ _ Hl)).
  unfold st. rewrite Hm. by rewrite (cassign_eq _ _ _ _ Hl).
Qed.

(** The channel after [ch.frames <- f] was received, and after [close()]. *)
Definition handed (f : Frame) (c : cchan) : cchan :=
  set_cc_frames (mkHandoff false false (Some f)) c.

Definition closed_cchan (c : cchan) : cchan :=
  mkCChan (cc_localId c) (cc_remoteId c)
    (mkHandoff true (ho_waiting (cc_frames c)) (ho_got (cc_frames c)))
    (cc_sentEOF c) (buffer_eof (cc_pending c)) true.

Lemma frames_send_eq l f c s :
  cs_heap s !! l = Some c → ho_closed (cc_frames c) = false →
  frames_send l f s =
    if ho_waiting (cc_frames c) then (Ret tt, put_cc l (handed f c) s) else (Block, s).
Proof.
  intros Hl Hc. unfold frames_send. rewrite (bind_eq _ _ _ _ _ (cderef_eq _ _ _ Hl)), Hc.
  destruct (ho_waiting (cc_frames c)); [|done]. by rewrite (cassign_eq _ _ _ _ Hl).
Qed.

Lemma cchan_close_eq l c s :
  cs_heap s !! l = Some c → ho_closed (cc_frames c) = false →
  cchan_close l s = (Ret tt, put_cc l (closed_cchan c) s).
Proof.
  intros Hl Hc. unfold cchan_close.
  erewrite bind_eq; [|by apply (on_cpending_eq l _ c s (Ret tt) (buffer_eof (cc_pending c)))].
  set (c1 := set_cc_pending (buffer_eof (cc_pending c)) c).
  erewrite bind_eq.
  2: { unfold frames_close. erewrite bind_eq; [|apply cderef_eq, heap_put_cc].
    change (cc_frames c1) with (cc_frames c).
    rewrite Hc. apply cassign_eq, heap_put_cc. }
  erewrite cassign_eq by apply heap_put_cc. by rewrite !put_cc_twice.
Qed.

Section cbor.
Context `{HC : Cbor}.

(** What [send] leaves of the channel. *)
Definition sent (f : Frame) (c : cchan) : cchan :=
  if cc_sentClose c then c
  else if fr_Type f =? channelClose then set_cc_sentClose true c else c.

Lemma put_cc_id l c s : cs_heap s !! l = Some c → put_cc l c s = s.
Proof. intros Hl. unfold put_cc, set_cs_heap. rewrite insert_id by done. by destruct s. Qed.

Lemma cchan_send_eq l f c s :
  cs_heap s !! l = Some c →
  cchan_send l f s =
    if cc_sentClose c then (Ret (Some io_EOF), s)
    else cencode f (put_cc l (sent f c) s).
Proof.
  intros Hl. unfold cchan_send, sent. rewrite (bind_eq _ _ _ _ _ (cderef_eq _ _ _ Hl)).
  destruct (cc_sentClose c); [done|]. case_cmp.
  - by rewrite (bind_eq _ _ _ _ _ (cassign_eq _ _ _ _ Hl)).
  - by rewrite put_cc_id.
Qed.

(** Encoding changes the writer only. *)
Lemma cencode_state f s : ∃ e w, cencode f s = (Ret e, set_cs_enc w s).
Proof. unfold cencode. destruct (io_Write _ _) as [e w]. by exists e, w. Qed.

(** A fresh channel, as [newChannel] leaves it. *)
Definition fresh_cchan (id : Z) : cchan :=
  mkCChan id 0 (mkHandoff false false None) false newBuffer false.

Definition added_channel (s : csession) : csession :=
  let id := u32 (cs_chanCounter s + 1) in
  let l := cs_fresh s in
  mkCSession (cs_enc s) (cs_dec s) (cs_tclosed s) (<[id := l]> (cs_chans s)) id
    (<[l := fresh_cchan id]> (cs_heap s)) (S l) (cs_inbox s) (cs_err s) (cs_closeCh s).

Lemma cs_newChannel_eq s : cs_newChannel s = (Ret (cs_fresh s), added_channel s).
Proof.
  unfold cs_newChannel. erewrite bind_eq by reflexivity. erewrite bind_eq by reflexivity.
  erewrite bind_eq; [|apply cassign_eq; apply lookup_insert_eq].
  erewrite bind_eq by reflexivity. unfold mret, M_ret, put_cc, set_cs_heap, set_cs_chans. cbn.
  by rewrite insert_insert_eq.
Qed.

(** ** The invariant *)

Record cinv (s : csession) : Prop := {
  ci_table : ∀ id l, cs_chans s !! id = Some l →
    ∃ c, cs_heap s !! l = Some c ∧ cc_localId c = id ∧ ho_closed (cc_frames c) = false;
  ci_fresh : ∀ l, (cs_fresh s ≤ l)%nat → cs_heap s !! l = None;
  ci_pending : ∀ l c, cs_heap s !! l = Some c → ∃ q, buffer_repr (cc_pending c) q;
}.

Lemma cinv_ext s s' :
  cs_chans s' = cs_chans s → cs_heap s' = cs_heap s → cs_fresh s' = cs_fresh s →
  cinv s → cinv s'.
Proof. intros Ht Hh Hf [H1 H2 H3]. split; rewrite ?Ht, ?Hh, ?Hf; done. Qed.

Lemma cinv_put l c c' s q :
  cinv s → cs_heap s !! l = Some c → cc_localId c' = cc_localId c →
  ho_closed (cc_frames c') = ho_closed (cc_frames c) → buffer_repr (cc_pending c') q →
  cinv (put_cc l c' s).
Proof.
  intros [H1 H2 H3] Hl Hid Hcl Hq. split; cbn.
  - intros id l' Ht. destruct (H1 id l' Ht) as (c0 & Hh & Hi & Ho).
    destruct (decide (l = l')) as [<-|Hne]; [|rewrite lookup_insert_ne by done; by exists c0].
    rewrite lookup_insert_eq. exists c'. split_and!; [done|congruence|congruence].
  - intros l' Hf. rewrite lookup_insert_ne; [by apply H2|]. intros ->. by rewrite H2 in Hl.
  - intros l' c0. destruct (decide (l = l')) as [<-|Hne].
    + rewrite lookup_insert_eq. intros [= <-]. by exists q.
    + rewrite lookup_insert_ne by done. apply H3.
Qed.

Lemma cinv_put_same l c c' s :
  cinv s → cs_heap s !! l = Some c → cc_localId c' = cc_localId c →
  ho_closed (cc_frames c') = ho_closed (cc_frames c) → cc_pending c' = cc_pending c →
  cinv (put_cc l c' s).
Proof.
  intros Hi Hl Hid Hcl Hp. destruct (ci_pending _ Hi _ _ Hl) as [q Hq].
  eapply cinv_put; [done|done|done|done|]. by rewrite Hp.
Qed.

Lemma cinv_delete id s : cinv s → cinv (set_cs_chans (delete id (cs_chans s)) s).
Proof.
  intros [H1 H2 H3]. split; cbn; [|done|done].
  intros id' l [_ Ht]%lookup_delete_Some. by apply H1.
Qed.

Lemma cinv_close l c s :
  cinv s → cs_heap s !! l = Some c → (∀ id, cs_chans s !! id ≠ Some l) →
  cinv (put_cc l (closed_cchan c) s).
Proof.
  intros [H1 H2 H3] Hl Hno. split; cbn.
  - intros id l' Ht. destruct (H1 id l' Ht) as (c0 & Hh & Hi & Ho). exists c0.
    rewrite lookup_insert_ne; [done|]. intros <-. by destruct (Hno id).
  - intros l' Hf. rewrite lookup_insert_ne; [by apply H2|]. intros ->. by rewrite H2 in Hl.
  - intros l' c0. destruct (decide (l = l')) as [<-|Hne].
    + rewrite lookup_insert_eq. intros [= <-]. destruct (H3 _ _ Hl) as [q Hq]. exists q.
      by apply buffer_eof_repr.
    + rewrite lookup_insert_ne by done. apply H3.
Qed.

Lemma cinv_added s : cinv s → cinv (added_channel s).
Proof.
  intros [H1 H2 H3]. split; cbn.
  - intros id l. destruct (decide (u32 (cs_chanCounter s + 1) = id)) as [<-|Hne].
    + rewrite lookup_insert_eq. intros [= <-]. rewrite lookup_insert_eq. by eexists.
    + rewrite lookup_insert_ne by done. intros Ht. destruct (H1 id l Ht) as (c & Hh & Hi & Ho).
      exists c. rewrite lookup_insert_ne; [done|]. intros <-. by rewrite H2 in Hh.
  - intros l Hl. rewrite lookup_insert_ne by lia. apply H2. lia.
  - intros l c. destruct (decide (cs_fresh s = l)) as [<-|Hne].
    + rewrite lookup_insert_eq. intros [= <-]. exists []. apply newBuffer_repr.
    + rewrite lookup_insert_ne by done. apply H3.
Qed.

Lemma new_csession_inv w r : cinv (new_csession w r).
Proof. by split. Qed.

(** ** No call panics *)

(** What every call leaves alone: the queue and the error of the session's end;
    channels stay, and no goroutine starts to wait on one that is there. *)
Definition cext (s s' : csession) : Prop :=
  cs_closeCh s' = cs_closeCh s ∧ cs_err s' = cs_err s ∧
  ∀ l c, cs_heap s !! l = Some c → ∃ c', cs_heap s' !! l = Some c' ∧
    (ho_waiting (cc_frames c') = true → ho_waiting (cc_frames c) = true).

Lemma cext_same s s' :
  cs_closeCh s' = cs_closeCh s → cs_err s' = cs_err s → cs_heap s' = cs_heap s → cext s s'.
Proof. intros H1 H2 H3. split_and!; [done|done|]. intros l c Hl. exists c. by rewrite H3. Qed.

Lemma cext_refl s : cext s s.
Proof. by apply cext_same. Qed.

Lemma cext_trans s1 s2 s3 : cext s1 s2 → cext s2 s3 → cext s1 s3.
Proof.
  intros (H1 & H2 & H3) (H4 & H5 & H6). split_and!; [congruence|congruence|].
  intros l c Hl. destruct (H3 _ _ Hl) as (c' & Hl' & Hw). destruct (H6 _ _ Hl') as (c2 & Hl2 & Hw2).
  exists c2. auto.
Qed.

Lemma cext_put l c c' s :
  cs_heap s !! l = Some c →
  (ho_waiting (cc_frames c') = true → ho_waiting (cc_frames c) = true) →
  cext s (put_cc l c' s).
Proof.
  intros Hl Hw. split_and!; [done|done|]. intros l' c0 Hl'. cbn.
  destruct (decide (l = l')) as [<-|Hne]; [|rewrite lookup_insert_ne by done; by exists c0].
  rewrite lookup_insert_eq. exists c'. split; [done|]. by replace c0 with c by congruence.
Qed.

Lemma cext_heap s s' l : cext s s' → is_Some (cs_heap s !! l) → is_Some (cs_heap s' !! l).
Proof. intros (_ & _ & Hh) [c Hl]. destruct (Hh _ _ Hl) as (c' & -> & _). by eexists. Qed.

(** A change of the heap at fresh addresses. *)
Lemma cext_fresh s s' :
  cinv s → cs_closeCh s' = cs_closeCh s → cs_err s' = cs_err s →
  (∀ l, (l < cs_fresh s)%nat → cs_heap s' !! l = cs_heap s !! l) → cext s s'.
Proof.
  intros Hi Hq He Hh. split_and!; [done|done|]. intros l c Hl. exists c. split; [|done].
  rewrite Hh; [done|]. destruct (decide (cs_fresh s ≤ l)%nat) as [Hf|]; [|lia].
  by rewrite (ci_fresh _ Hi) in Hl.
Qed.

Lemma cext_added s : cinv s → cext s (added_channel s).
Proof.
  intros Hi. apply cext_fresh; [done..|]. intros l Hl. cbn. rewrite lookup_insert_ne; [done|lia].
Qed.

(** A computation returns or waits, and keeps the invariant. *)
Definition cok {A} (m : CS A) (s : csession) : Prop :=
  match m s with
  | (Ret _, s') | (Block, s') => cinv s' ∧ cext s s'
  | _ => False
  end.

Lemma cencode_ok f s : cinv s → cok (cencode f) s.
Proof.
  intros Hi. unfold cok. destruct (cencode_state f s) as (e & w & ->).
  split; [by apply (cinv_ext s)|by apply cext_same].
Qed.

Lemma cencode_ok_from f s0 s : cinv s → cext s0 s →
  match cencode f s with (Ret _, s') | (Block, s') => cinv s' ∧ cext s0 s' | _ => False end.
Proof.
  intros Hi He. destruct (cencode_state f s) as (e & w & ->).
  split; [by apply (cinv_ext s)|]. eapply cext_trans; [done|]. by apply cext_same.
Qed.

Lemma sent_fields f c :
  cc_localId (sent f c) = cc_localId c ∧ cc_frames (sent f c) = cc_frames c ∧
  cc_pending (sent f c) = cc_pending c.
Proof. unfold sent. destruct (cc_sentClose c); [done|]. by destruct (_ =? _). Qed.

Lemma cinv_sent l f c s : cinv s → cs_heap s !! l = Some c → cinv (put_cc l (sent f c) s).
Proof.
  intros Hi Hl. destruct (sent_fields f c) as (H1 & H2 & H3).
  by apply (cinv_put_same l c); rewrite ?H2.
Qed.

Lemma cchan_send_ok l f s : cinv s → is_Some (cs_heap s !! l) → cok (cchan_send l f) s.
Proof.
  intros Hi [c Hl]. unfold cok. rewrite (cchan_send_eq _ _ _ _ Hl).
  destruct (cc_sentClose c); [split; [done|apply cext_refl]|].
  destruct (sent_fields f c) as (_ & Hfr & _).
  apply cencode_ok_from; [by apply cinv_sent|apply (cext_put l c); by rewrite ?Hfr].
Qed.

Lemma Open_request_ok s : cinv s → cok cs_Open_request s.
Proof.
  intros Hi. unfold cok, cs_Open_request. rewrite (bind_eq _ _ _ _ _ (cs_newChannel_eq s)).
  assert (cs_heap (added_channel s) !! cs_fresh s = Some (fresh_cchan (u32 (cs_chanCounter s + 1))))
    as Hl by apply lookup_insert_eq.
  rewrite (bind_eq _ _ _ _ _ (cderef_eq _ _ _ Hl)).
  match goal with |- context [cencode ?f] =>
    destruct (cencode_state f (added_channel s)) as (e & w & He) end.
  rewrite (bind_eq _ _ _ _ _ He).
  assert (cinv (set_cs_enc w (added_channel s))) as Hi' by by apply (cinv_ext (added_channel s)), cinv_added.
  destruct e as [e|].
  { split; [done|]. eapply cext_trans; [by apply cext_added|]. by apply cext_same. }
  erewrite bind_eq by by apply cassign_eq.
  split; [by eapply cinv_put_same|].
  apply cext_fresh; [done..|]. intros l Hlt. cbn. by rewrite !lookup_insert_ne by lia.
Qed.

Lemma Open_wait_ok l done s : cinv s → is_Some (cs_heap s !! l) → cok (cs_Open_wait l done) s.
Proof.
  intros Hi [c Hl]. unfold cok, cs_Open_wait. rewrite (bind_eq _ _ _ _ _ (cderef_eq _ _ _ Hl)).
  destruct done as [e|].
  - rewrite (bind_eq _ _ _ _ _ (cassign_eq _ _ _ _ Hl)). split; [|by apply (cext_put l c)].
    by apply (cinv_put_same l c).
  - destruct (ho_got (cc_frames c)); [split; [done|apply cext_refl]|].
    destruct (ho_closed (cc_frames c)); (split; [done|apply cext_refl]).
Qed.

Lemma Read_ok l n s : cinv s → is_Some (cs_heap s !! l) → cok (cchan_Read l n) s.
Proof.
  intros Hi [c Hl]. unfold cok, cchan_Read.
  destruct (ci_pending _ Hi _ _ Hl) as [q Hq].
  destruct (buffer_Read_spec n _ _ Hq) as (b & Hb & Hr & _).
  rewrite (on_cpending_eq _ _ _ _ _ _ Hl Hb).
  assert (cinv (put_cc l (set_cc_pending b c) s)) as Hp by by apply (cinv_put l c _ s (drop n q)).
  unfold queue_read. destruct (n =? 0)%nat; [by split; [|apply (cext_put l c)]|].
  destruct q; [destruct (b_closed (cc_pending c))|]; (split; [exact Hp|by apply (cext_put l c)]).
Qed.

Lemma Write_ok l data s : cinv s → is_Some (cs_heap s !! l) → cok (cchan_Write l data) s.
Proof.
  intros Hi [c Hl]. unfold cok, cchan_Write. rewrite (bind_eq _ _ _ _ _ (cderef_eq _ _ _ Hl)).
  destruct (cc_sentEOF c); [split; [done|apply cext_refl]|].
  match goal with |- context [cencode ?f] => destruct (cencode_state f s) as (e & w & He) end.
  rewrite (bind_eq _ _ _ _ _ He). split; [by apply (cinv_ext s)|by apply cext_same].
Qed.

Lemma CloseWrite_ok l s : cinv s → is_Some (cs_heap s !! l) → cok (cchan_CloseWrite l) s.
Proof.
  intros Hi [c Hl]. unfold cok, cchan_CloseWrite.
  rewrite (bind_eq _ _ _ _ _ (cassign_eq _ _ _ _ Hl)).
  erewrite bind_eq by apply cderef_eq, heap_put_cc.
  rewrite (cchan_send_eq _ _ _ _ (heap_put_cc _ _ _)), put_cc_twice.
  assert (cinv (put_cc l (set_cc_sentEOF true c) s)) as Hp by by apply (cinv_put_same l c).
  destruct (cc_sentClose _); [split; [done|by apply (cext_put l c)]|].
  apply cencode_ok_from.
  2: { apply (cext_put l c); [done|]. unfold sent. by destruct (cc_sentClose _). }
  unfold sent. cbn [fr_Type].
  by destruct (cc_sentClose _).
Qed.

Lemma chan_Close_ok l s : cinv s → is_Some (cs_heap s !! l) → cok (cchan_Close l) s.
Proof.
  intros Hi [c Hl]. unfold cok, cchan_Close. rewrite (bind_eq _ _ _ _ _ (cderef_eq _ _ _ Hl)).
  apply cchan_send_ok; [done|by eexists].
Qed.

Lemma frames_send_ok l f c s0 s :
  cinv s → cs_heap s !! l = Some c → ho_closed (cc_frames c) = false → cext s0 s →
  match frames_send l f s with
  | (Ret _, s') | (Block, s') => cinv s' ∧ cext s0 s' | _ => False end.
Proof.
  intros Hi Hl Hc He. rewrite (frames_send_eq _ _ _ _ Hl Hc).
  destruct (ho_waiting (cc_frames c)) eqn:Ew; [|done]. split.
  - by apply (cinv_put_same l c).
  - eapply cext_trans; [done|]. by apply (cext_put l c).
Qed.

(** A channel of the table, under its own id. *)
Definition in_table (s : csession) (l : cptr) (c : cchan) : Prop :=
  cs_chans s !! cc_localId c = Some l ∧ cs_heap s !! l = Some c ∧
  ho_closed (cc_frames c) = false.

Lemma table_lookup s id l :
  cinv s → cs_chans s !! id = Some l → ∃ c, in_table s l c ∧ cc_localId c = id.
Proof.
  intros Hi Ht. destruct (ci_table _ Hi _ _ Ht) as (c & Hl & <- & Ho). by exists c.
Qed.

(** The channel once its pending bytes, its remote id and whether it sent a
    close frame changed: what [handle] does to the table's channel. *)
Lemma handle_close_ok l c f s :
  cinv s → in_table s l c → fr_Type f = channelClose →
  ∃ s', cchan_handle l f s = (Ret None, s') ∧ cinv s' ∧ cext s s'.
Proof.
  intros Hi (Ht & Hl & Ho) Hf. unfold cchan_handle. rewrite Hf. cbv zeta.
  change (channelClose =? channelData) with false. change (channelClose =? channelClose) with true.
  cbn iota. rewrite (bind_eq _ _ _ _ _ (cderef_eq _ _ _ Hl)).
  assert (∃ r w c1, cchan_send l (mkFrame channelClose (cc_remoteId c) 0 []) s
    = (Ret r, set_cs_enc w (put_cc l c1 s)) ∧ cc_localId c1 = cc_localId c ∧
    cc_frames c1 = cc_frames c ∧ cc_pending c1 = cc_pending c) as (r & w & c1 & Hs & Hid & Hfr & Hpe).
  { rewrite (cchan_send_eq _ _ _ _ Hl). destruct (cc_sentClose c) eqn:Es.
    - exists (Some io_EOF), (cs_enc s), c. rewrite put_cc_id by done. by destruct s.
    - destruct (sent_fields (mkFrame channelClose (cc_remoteId c) 0 []) c) as (H1 & H2 & H3).
      match goal with |- context [cencode ?f ?t] => destruct (cencode_state f t) as (e & w & He) end.
      exists e, w. eexists. rewrite He. split; [reflexivity|done]. }
  rewrite (bind_eq _ _ _ _ _ Hs).
  assert (cs_heap (set_cs_enc w (put_cc l c1 s)) !! l = Some c1) as Hl1 by apply lookup_insert_eq.
  rewrite (bind_eq _ _ _ _ _ (cderef_eq _ _ _ Hl1)), Hid. erewrite bind_eq by reflexivity.
  erewrite bind_eq; [|apply cchan_close_eq; [exact Hl1|by rewrite Hfr]].
  eexists. split; [reflexivity|]. split.
  - apply cinv_close; [|exact Hl1|].
    + apply (cinv_delete (cc_localId c) (set_cs_enc w (put_cc l c1 s))).
      apply (cinv_ext (put_cc l c1 s)); [done..|]. apply (cinv_put_same l c); [done|done|done|by rewrite Hfr|done].
    + cbn. intros id [Hne Hid']%lookup_delete_Some.
      destruct (ci_table _ Hi _ _ Hid') as (c' & Hl' & Hi' & _). congruence.
  - eapply cext_trans; [apply (cext_put l c c1 s Hl); by rewrite Hfr|].
    eapply (cext_trans _ (set_cs_chans (delete (cc_localId c) (cs_chans s))
      (set_cs_enc w (put_cc l c1 s)))); [by apply cext_same|by apply (cext_put l c1)].
Qed.

Lemma handle_ok l c f s : cinv s → in_table s l c → cok (cchan_handle l f) s.
Proof.
  intros Hi Hin. destruct (decide (fr_Type f = channelClose)) as [Hc|Hnc].
  { destruct (handle_close_ok _ _ _ _ Hi Hin Hc) as (s' & Hs & ?). unfold cok. by rewrite Hs. }
  destruct Hin as (Ht & Hl & Ho). destruct (ci_pending _ Hi _ _ Hl) as [q Hq].
  unfold cok, cchan_handle. rewrite (proj2 (Z.eqb_neq _ _) Hnc). case_cmp; [|case_cmp].
  - erewrite bind_eq by by eapply on_cpending_eq. split; [|by apply (cext_put l c)].
    by eapply cinv_put; [..|by apply buffer_write_repr].
  - erewrite bind_eq by by eapply on_cpending_eq. split; [|by apply (cext_put l c)].
    by eapply cinv_put; [..|by apply buffer_eof_repr].
  - case_cmp; [|case_cmp; [|split; [done|apply cext_refl]]].
    + rewrite (bind_eq _ _ _ _ _ (cassign_eq _ _ _ _ Hl)).
      set (c1 := set_cc_remoteId (fr_SenderID f) c).
      pose proof (frames_send_ok l f c1 s (put_cc l c1 s)) as Hf.
      unfold mbind, M_bind. destruct (frames_send l f (put_cc l c1 s)) as [[[]| | |] s'];
        (apply Hf; [by apply (cinv_put_same l c)|apply heap_put_cc|done|by apply (cext_put l c)]).
    + erewrite bind_eq by reflexivity.
      set (s1 := set_cs_chans (delete (fr_ChannelID f) (cs_chans s)) s).
      pose proof (frames_send_ok l f c s s1) as Hf.
      unfold mbind, M_bind. destruct (frames_send l f s1) as [[[]| | |] s'];
        (apply Hf; [by apply cinv_delete|done|done|by apply cext_same]).
Qed.

Lemma dispatch_ok f s : cinv s → cok (cs_dispatch f) s.
Proof.
  intros Hi. unfold cok, cs_dispatch. erewrite bind_eq by reflexivity.
  destruct (cs_chans s !! fr_ChannelID f) as [l|] eqn:Ht; [|split; [done|apply cext_refl]].
  destruct (table_lookup _ _ _ Hi Ht) as (c & Hin & _). by eapply handle_ok.
Qed.

Lemma offered_ok l f accepted s :
  cinv s → is_Some (cs_heap s !! l) → cok (cs_offered l f accepted) s.
Proof.
  intros Hi [c Hl]. unfold cok, cs_offered. destruct accepted.
  - rewrite (bind_eq _ _ _ _ _ (cderef_eq _ _ _ Hl)). by apply cencode_ok.
  - erewrite bind_eq by reflexivity. apply cencode_ok_from; [|by apply cext_same].
    by apply (cinv_ext s).
Qed.

(** ** The end of the loop *)

Lemma cclose_all_eq ls s :
  NoDup ls → (∀ l, l ∈ ls → ∃ c, cs_heap s !! l = Some c ∧ ho_closed (cc_frames c) = false) →
  ∃ h, cclose_all ls s = (Ret tt, set_cs_heap h s) ∧
    (∀ l, l ∉ ls → h !! l = cs_heap s !! l) ∧
    (∀ l, l ∈ ls → h !! l = closed_cchan <$> cs_heap s !! l).
Proof.
  intros Hnd. revert s. induction Hnd as [|l ls Hni Hnd IH]; intros s Hopen; cbn [cclose_all].
  { exists (cs_heap s). split_and!; [by destruct s|done|]. by intros l Hl%elem_of_nil. }
  destruct (Hopen l) as (c & Hl & Hc); [by apply elem_of_cons; left|].
  rewrite (bind_eq _ _ _ _ _ (cchan_close_eq _ _ _ Hl Hc)).
  destruct (IH (put_cc l (closed_cchan c) s)) as (h & Hh & Hout & Hin).
  { intros l' Hl'. destruct (Hopen l') as (c' & Hc' & Ho); [by apply elem_of_cons; right|].
    exists c'. cbn. rewrite lookup_insert_ne; [done|]. by intros <-. }
  exists h. split_and!; [by rewrite Hh|..].
  - intros l' [Hne Hni']%not_elem_of_cons. rewrite Hout by done. cbn. by rewrite lookup_insert_ne.
  - intros l' [->|Hl']%elem_of_cons.
    + rewrite Hout by done. cbn. by rewrite lookup_insert_eq, Hl.
    + rewrite Hin by done. cbn. rewrite lookup_insert_ne; [done|]. by intros <-.
Qed.

(** The channels of the table, each once. *)
Lemma table_values_NoDup s : cinv s → NoDup (map_to_list (cs_chans s)).*2.
Proof.
  intros Hi. pose proof (NoDup_map_to_list (cs_chans s)) as Hnd.
  assert (∀ id l, (id, l) ∈ map_to_list (cs_chans s) → cs_chans s !! id = Some l) as Hm
    by (intros id l; apply elem_of_map_to_list).
  induction (map_to_list (cs_chans s)) as [|[id l] m IH]; [constructor|].
  apply NoDup_cons in Hnd as [Hni Hnd]. apply NoDup_cons. split.
  - intros ([id' l'] & Hll & Hin)%list_elem_of_fmap. cbn in Hll, Hni. subst l'.
    destruct (ci_table _ Hi id l) as (c & Hl & <- & _); [apply Hm, elem_of_cons; by left|].
    destruct (ci_table _ Hi id' l) as (c' & Hl' & <- & _); [apply Hm, elem_of_cons; by right|].
    rewrite Hl in Hl'. by injection Hl' as <-.
  - apply IH; [done|]. intros id' l' Hin. apply Hm, elem_of_cons. by right.
Qed.

Lemma teardown_ok e s :
  cinv s → cs_closeCh s = make_chan 1 →
  ∃ s', cs_teardown e s = (Ret tt, s') ∧ cinv s' ∧ cs_err s' = Some e ∧ cs_chans s' = ∅ ∧
    ∀ l c, cs_heap s !! l = Some c →
      cs_heap s' !! l = Some (if decide (l ∈ (map_to_list (cs_chans s)).*2) then closed_cchan c else c).
Proof.
  intros Hi Hq. unfold cs_teardown. erewrite bind_eq by reflexivity.
  destruct (cclose_all_eq (map_to_list (cs_chans s)).*2 s) as (h & Hh & Hout & Hin).
  { by apply table_values_NoDup. }
  { intros l ([id l'] & -> & Hm)%list_elem_of_fmap. apply elem_of_map_to_list in Hm.
    destruct (ci_table _ Hi _ _ Hm) as (c & ? & _ & ?). by exists c. }
  rewrite (bind_eq _ _ _ _ _ Hh). erewrite bind_eq by reflexivity. erewrite bind_eq by reflexivity.
  erewrite bind_eq; [|unfold ccloseCh_send; erewrite bind_eq by reflexivity; cbn; by rewrite Hq].
  eexists. split; [reflexivity|]. split_and!; [|done|done|].
  - split; cbn; [done| |].
    + intros l Hl. destruct (decide (l ∈ (map_to_list (cs_chans s)).*2)) as [Hm|Hm].
      * rewrite Hin by done. by rewrite (ci_fresh _ Hi).
      * rewrite Hout by done. by apply (ci_fresh _ Hi).
    + intros l c. destruct (decide (l ∈ (map_to_list (cs_chans s)).*2)) as [Hm|Hm].
      * rewrite Hin by done. destruct (cs_heap s !! l) as [c0|] eqn:E; [|done]. intros [= <-].
        destruct (ci_pending _ Hi _ _ E) as [q Hqr]. exists q. by apply buffer_eof_repr.
      * rewrite Hout by done. apply (ci_pending _ Hi).
  - intros l c Hl. cbn. destruct (decide _) as [Hm|Hm]; [by rewrite Hin, Hl|by rewrite Hout].
Qed.

(** ** Configurations *)

Definition cgood (cfg : cconfig) : Prop :=
  cinv cfg.1 ∧ (cfg.2 ≠ Ended → cs_closeCh cfg.1 = make_chan 1) ∧
  match cfg.2 with Offering l _ => is_Some (cs_heap cfg.1 !! l) | _ => True end.

Lemma cgood_ext s s' lp : cinv s' → cext s s' → cgood (s, lp) → cgood (s', lp).
Proof.
  intros Hi He (_ & Hc & Hl). cbn in *. split_and!; cbn; [done| |].
  - intros Hne. destruct He as [-> _]. by apply Hc.
  - destruct lp; [done| |done..]. by eapply cext_heap.
Qed.

(** What a call of another goroutine does to a configuration. *)
Definition call_good (o : outcome cconfig) (cfg : cconfig) : Prop :=
  ∃ s, o = Ret (s, cfg.2) ∧ cgood (s, cfg.2) ∧ (cfg.2 ≠ Ended → cext cfg.1 s).

Lemma user_call_good {A} (m : CS A) cfg :
  cgood cfg → cok m cfg.1 → call_good (user_call m cfg) cfg.
Proof.
  destruct cfg as [s lp]. intros Hg Hm. unfold cok, user_call in *. cbn in *.
  destruct (m s) as [[a| | |] s']; try done; destruct Hm as [Hi He]; exists s';
    (split_and!; [done|by eapply cgood_ext|done]).
Qed.

Lemma chan_call_good {A} l (m : CS A) cfg :
  cgood cfg → (is_Some (cs_heap cfg.1 !! l) → cok m cfg.1) →
  call_good (chan_call l m cfg) cfg.
Proof.
  intros Hg Hm. unfold chan_call. destruct (cs_heap cfg.1 !! l) eqn:E.
  - apply user_call_good; [done|]. apply Hm. by eexists.
  - destruct cfg as [s lp]. exists s. split_and!; [done|done|intros; apply cext_refl].
Qed.

Lemma loop_turn_good m s :
  cs_closeCh s = make_chan 1 → cok m s → ∃ cfg, loop_turn m s = Ret cfg ∧ cgood cfg.
Proof.
  intros Hq Hm. unfold cok, loop_turn in *. destruct (m s) as [[[e|]| | |] s']; try done.
  - destruct Hm as [Hi (Hq' & _)].
    destruct (teardown_ok e s' Hi) as (s2 & -> & Hi2 & _); [congruence|].
    exists (s2, Ended). by split.
  - destruct Hm as [Hi (Hq' & _)]. exists (s', Running). split; [done|].
    split_and!; cbn; [done|congruence|done].
  - destruct Hm as [Hi (Hq' & _)]. exists (s', Stuck). split; [done|].
    split_and!; cbn; [done|congruence|done].
Qed.

Lemma Accept_good from_inbox cfg :
  cgood cfg → call_good (user_call (cs_Accept from_inbox) cfg) cfg.
Proof.
  destruct cfg as [s lp]. intros Hg. unfold user_call, cs_Accept. cbn [fst].
  erewrite bind_eq by reflexivity. destruct from_inbox.
  - destruct (cs_inbox s) as [l|]; cbn; [|by exists s; split_and!; [| |intros; apply cext_refl]].
    eexists. split; [reflexivity|]. split; [|intros _; by apply cext_same].
    apply (cgood_ext s); [|by apply cext_same|done]. by apply (cinv_ext s); [..|apply Hg].
  - destruct (chan_recv (cs_closeCh s)) as [[x q]| | |] eqn:E; cbn;
      [|by exists s; split_and!; [| |intros; apply cext_refl]..].
    eexists. split; [reflexivity|]. destruct Hg as (Hi & Hq & Hl). cbn in *. split.
    + split_and!; cbn; [by apply (cinv_ext s)| |done].
      intros Hne. rewrite (Hq Hne) in E. done.
    + intros Hne. rewrite (Hq Hne) in E. done.
Qed.

Lemma exec_packet_good s :
  cinv s → cs_closeCh s = make_chan 1 → ∃ cfg, exec_packet s = Ret cfg ∧ cgood cfg.
Proof.
  intros Hi Hq. unfold exec_packet. destruct (cbor_Decode (cs_dec s)) as [r d].
  assert (cinv (set_cs_dec d s)) as Hi1 by by apply (cinv_ext s).
  destruct r as [f|e]; [|apply loop_turn_good; [done|split; [done|apply cext_refl]]].
  destruct (fr_Type f =? channelOpen); [|by apply loop_turn_good, dispatch_ok].
  unfold cs_offer. rewrite (bind_eq _ _ _ _ _ (cs_newChannel_eq _)).
  set (s1 := added_channel (set_cs_dec d s)).
  assert (cs_heap s1 !! cs_fresh (set_cs_dec d s)
    = Some (fresh_cchan (u32 (cs_chanCounter s + 1)))) as Hl by apply lookup_insert_eq.
  rewrite (bind_eq _ _ _ _ _ (cassign_eq _ _ _ _ Hl)). erewrite bind_eq by reflexivity.
  unfold mret, M_ret. eexists. split; [reflexivity|]. split_and!.
  - eapply (cinv_ext (put_cc _ _ s1)); [reflexivity..|]. eapply (cinv_put_same _ _ _ s1); [|exact Hl|done..].
    by apply cinv_added.
  - intros _. exact Hq.
  - cbn. rewrite lookup_insert_eq. by eexists.
Qed.

(** The events that are calls of other goroutines. *)
Definition is_call (ev : cevent) : bool :=
  match ev with CPacket | COffered _ => false | _ => true end.

Lemma exec_call_good ev cfg :
  is_call ev = true → cgood cfg → call_good (exec_cevent ev cfg) cfg.
Proof.
  intros Hc Hg. pose proof Hg as (Hi & Hq & Hl).
  destruct ev as [|l done|b|l n|l data|l|l| | |accepted]; try discriminate Hc; cbn [exec_cevent].
  - by apply user_call_good, Open_request_ok.
  - apply chan_call_good; [done|]. intros. by apply Open_wait_ok.
  - by apply Accept_good.
  - apply chan_call_good; [done|]. intros. by apply Read_ok.
  - apply chan_call_good; [done|]. intros. by apply Write_ok.
  - apply chan_call_good; [done|]. intros. by apply CloseWrite_ok.
  - apply chan_call_good; [done|]. intros. by apply chan_Close_ok.
  - apply user_call_good; [done|]. split; [by apply (cinv_ext cfg.1)|by apply cext_same].
Qed.

Lemma exec_cevent_good ev cfg :
  cgood cfg → ∃ cfg', exec_cevent ev cfg = Ret cfg' ∧ cgood cfg'.
Proof.
  intros Hg. destruct (is_call ev) eqn:Hc.
  { destruct (exec_call_good ev cfg Hc Hg) as (s & ? & ? & _). by eexists. }
  pose proof Hg as (Hi & Hq & Hl). destruct cfg as [s lp]. cbn [fst snd] in *.
  destruct ev as [| | | | | | | | |accepted]; try discriminate Hc; cbn [exec_cevent fst snd].
  - destruct lp; try (by eexists). apply exec_packet_good; [done|]. by apply Hq.
  - destruct lp as [|l f| |]; try (by eexists).
    case_bool_decide; destruct accepted; try (by eexists);
      (apply loop_turn_good; [by apply Hq|by apply offered_ok]).
Qed.

(** A stuck loop stays stuck, and the other goroutines' calls change nothing of
    what it waits for. *)
Lemma exec_stuck evs s :
  cgood (s, Stuck) →
  ∃ s', exec_cevents evs (s, Stuck) = Ret (s', Stuck) ∧ cgood (s', Stuck) ∧ cext s s'.
Proof.
  revert s. induction evs as [|ev evs IH]; intros s Hg; cbn [exec_cevents].
  { exists s. split_and!; [done|done|apply cext_refl]. }
  assert (∃ s1, exec_cevent ev (s, Stuck) = Ret (s1, Stuck) ∧ cgood (s1, Stuck) ∧ cext s s1)
    as (s1 & -> & Hg1 & He1).
  { destruct (is_call ev) eqn:Hc.
    - destruct (exec_call_good ev (s, Stuck) Hc Hg) as (s1 & ? & ? & He). exists s1.
      split_and!; [done|done|by apply He].
    - exists s. destruct ev; try discriminate Hc; (split_and!; [done|done|apply cext_refl]). }
  destruct (IH s1 Hg1) as (s2 & -> & Hg2 & He2). exists s2.
  split_and!; [done|done|by eapply cext_trans].
Qed.

Lemma exec_cevents_good evs cfg :
  cgood cfg → ∃ cfg', exec_cevents evs cfg = Ret cfg' ∧ cgood cfg'.
Proof.
  revert cfg. induction evs as [|ev evs IH]; intros cfg Hg; cbn [exec_cevents]; [by exists cfg|].
  destruct (exec_cevent_good ev cfg Hg) as (cfg1 & -> & Hg1). by apply IH.
Qed.

Lemma new_csession_good w r : cgood (new_csession w r, Running).
Proof. split_and!; [apply new_csession_inv|done|done]. Qed.
End cbor.
