(* ===== verification/CborProperties.v ===== *)
(** * x/cbor/mux: properties

    Safety of a session under every interleaving, the open handshake, the stream
    from writer to reader, and the loop that waits for ever after a cancelled
    [Open]. *)
From S2P Require Import Prelude GoRuntime Buffer MuxState CborMux.
From S2P Require Import CborSpec.

(** ** An encoding *)

(** Fixed-width headers: an encoding with the laws of [CborLaws]. *)
#[global] Instance plain_cbor : Cbor := {|
  cbor_Encode f :=
    byte_of_Z (fr_Type f) :: PutUint32 (fr_ChannelID f) ++ PutUint32 (fr_SenderID f)
      ++ PutUint32 (len (fr_Data f)) ++ fr_Data f;
  cbor_Decode r :=
    match io_ReadFull 13 r with
    | (Err e, r1) => (Err e, r1)
    | (Ok h, r1) =>
        match io_ReadFull (Uint32 (drop 9 h)) r1 with
        | (Err e, r2) => (Err e, r2)
        | (Ok data, r2) =>
            (Ok (mkFrame (byte_to_Z (default x00 (head h))) (Uint32 (drop 1 h))
                   (Uint32 (drop 5 h)) data), r2)
        end
    end;
|}.

#[global] Instance plain_cbor_laws : CborLaws.
Proof.
  split.
  - intros [t c s d] rest e (Ht & Hc & Hs & Hd). pose proof (len_nonneg d).
    unfold frame_wf in *. cbn [cbor_Encode cbor_Decode plain_cbor fr_Type fr_ChannelID fr_SenderID fr_Data] in *.
    set (h := byte_of_Z t :: PutUint32 c ++ PutUint32 s ++ PutUint32 (len d)).
    assert ((byte_of_Z t :: PutUint32 c ++ PutUint32 s ++ PutUint32 (len d) ++ d) ++ rest
      = h ++ d ++ rest) as -> by (unfold h; cbn [app]; by rewrite <- !app_assoc).
    rewrite io_ReadFull_app by done.
    change (drop 9 h) with (PutUint32 (len d)).
    rewrite <- (app_nil_r (PutUint32 (len d))), Uint32_PutUint32 by (unfold is_u32; lia).
    rewrite io_ReadFull_app by done. change (default x00 (head h)) with (byte_of_Z t).
    change (drop 1 h) with (PutUint32 c ++ PutUint32 s ++ PutUint32 (len d)).
    change (drop 5 h) with (PutUint32 s ++ PutUint32 (len d)).
    rewrite !Uint32_PutUint32 by done. rewrite byte_to_of_Z, Z.mod_small by lia. done.
  - done.
Qed.

(** ** Safety *)

(** C27. A session is safe under every interleaving: whatever the peer sends and
    in whatever order the loop, the callers and their timers take turns, nothing
    panics; every id of the table names an open channel with that id, and the
    pending bytes of every channel form a well-formed buffer. *)
Theorem cbor_session_safe `{Cbor} evs w r :
  ∃ s lp, exec_cevents evs (new_csession w r, Running) = Ret (s, lp) ∧
    (∀ id l, cs_chans s !! id = Some l → ∃ c, cs_heap s !! l = Some c ∧
       cc_localId c = id ∧ ho_closed (cc_frames c) = false) ∧
    ∀ l c, cs_heap s !! l = Some c → ∃ q, buffer_repr (cc_pending c) q.
Proof.
  destruct (exec_cevents_good evs _ (new_csession_good w r)) as ([s lp] & He & [H1 _ H3] & _).
  by exists s, lp.
Qed.

(** ** The handshake *)

Lemma onePacket_decoded `{CborLaws} b f rest e s :
  frame_wf f →
  cs_onePacket b (set_cs_dec (mkReader (cbor_Encode f ++ rest) e) s)
  = (if fr_Type f =? channelOpen then
       l ← cs_offer f; _ ← (if b then _ ← cs_Accept true; mret tt else mret tt); cs_offered l f b
     else cs_dispatch f) (set_cs_dec (mkReader rest e) s).
Proof.
  intros Hf. unfold cs_onePacket. erewrite bind_eq; [|unfold cs_decode, st; cbn [cs_dec set_cs_dec];
    by rewrite (cbor_roundtrip _ _ _ Hf)]. done.
Qed.

Lemma control_wf t id sender :
  0 ≤ t < 256 → is_u32 id → is_u32 sender → frame_wf (mkFrame t id sender []).
Proof. intros. unfold frame_wf. cbn [fr_Type fr_ChannelID fr_SenderID fr_Data]. by split_and!; [lia|lia|..]. Qed.

Lemma cencode_reliable `{Cbor} f s :
  w_script (cs_enc s) = [] →
  cencode f s = (Ret None, set_cs_enc (mkWriter (w_out (cs_enc s) ++ [cbor_Encode f]) []) s).
Proof. intros Hw. unfold cencode, io_Write. by rewrite Hw. Qed.

(** The state in which [Open] waits, and the one in which the peer's channel was
    accepted and confirmed. *)
Definition opening `{Cbor} (s : csession) : csession :=
  let id := u32 (cs_chanCounter s + 1) in
  put_cc (cs_fresh s) (set_cc_frames (mkHandoff false true None) (fresh_cchan id))
    (set_cs_enc (mkWriter (w_out (cs_enc s) ++ [cbor_Encode (mkFrame channelOpen 0 id [])]) [])
       (added_channel s)).

Definition accepting `{Cbor} (remote : Z) (s : csession) : csession :=
  let id := u32 (cs_chanCounter s + 1) in
  set_cs_enc (mkWriter (w_out (cs_enc s) ++ [cbor_Encode (mkFrame channelOpenConfirm remote id [])]) [])
    (set_cs_inbox None
       (put_cc (cs_fresh s) (set_cc_remoteId remote (fresh_cchan id)) (added_channel s))).

Lemma Open_request_reliable `{Cbor} s :
  w_script (cs_enc s) = [] → cs_Open_request s = (Ret (Ok (cs_fresh s)), opening s).
Proof.
  intros Hw. unfold cs_Open_request. rewrite (bind_eq _ _ _ _ _ (cs_newChannel_eq s)).
  erewrite bind_eq; [|apply cderef_eq; apply lookup_insert_eq].
  erewrite bind_eq; [|by apply cencode_reliable]. cbv iota.
  erewrite bind_eq; [|apply cassign_eq; apply lookup_insert_eq]. done.
Qed.

Lemma onePacket_open `{CborLaws} sender rest e s :
  is_u32 sender → w_script (cs_enc s) = [] →
  cs_onePacket true (set_cs_dec (mkReader (cbor_Encode (mkFrame channelOpen 0 sender []) ++ rest) e) s)
  = (Ret None, accepting sender (set_cs_dec (mkReader rest e) s)).
Proof.
  intros Hs Hw. rewrite onePacket_decoded by (by apply control_wf). cbn [fr_Type].
  change (channelOpen =? channelOpen) with true. cbv iota.
  set (s0 := set_cs_dec (mkReader rest e) s).
  erewrite bind_eq.
  2: { unfold cs_offer. rewrite (bind_eq _ _ _ _ _ (cs_newChannel_eq s0)).
    erewrite bind_eq; [|apply cassign_eq; apply lookup_insert_eq].
    erewrite bind_eq by reflexivity. reflexivity. }
  erewrite bind_eq by reflexivity. unfold cs_offered.
  erewrite bind_eq; [|apply cderef_eq; apply lookup_insert_eq].
  by erewrite cencode_reliable.
Qed.

(** [Open] hears the confirmation. *)
Lemma onePacket_confirm `{CborLaws} b id sender rest e s l c :
  is_u32 id → is_u32 sender → cs_chans s !! id = Some l → cs_heap s !! l = Some c →
  ho_closed (cc_frames c) = false → ho_waiting (cc_frames c) = true →
  let f := mkFrame channelOpenConfirm id sender [] in
  cs_onePacket b (set_cs_dec (mkReader (cbor_Encode f ++ rest) e) s)
  = (Ret None, put_cc l (handed f (set_cc_remoteId sender c)) (set_cs_dec (mkReader rest e) s)).
Proof.
  intros Hid Hs Ht Hl Hc Hw f. rewrite onePacket_decoded by (by apply control_wf).
  change (fr_Type f =? channelOpen) with false. cbv iota. unfold cs_dispatch.
  erewrite bind_eq by reflexivity. change (fr_ChannelID f) with id.
  change (cs_chans (set_cs_dec (mkReader rest e) s)) with (cs_chans s). rewrite Ht. unfold cchan_handle.
  change (fr_Type f) with channelOpenConfirm. change (fr_SenderID f) with sender.
  change (channelOpenConfirm =? channelData) with false.
  change (channelOpenConfirm =? channelClose) with false.
  change (channelOpenConfirm =? channelEOF) with false.
  change (channelOpenConfirm =? channelOpenConfirm) with true. cbv iota zeta.
  erewrite bind_eq by by apply cassign_eq.
  erewrite bind_eq; [|rewrite (frames_send_eq _ _ _ _ (heap_put_cc _ _ _)) by done; cbn; by rewrite Hw].
  by rewrite put_cc_twice.
Qed.

(** [Open], the peer's accepting loop and the confirmation link two
    channels: over a working transport the request makes the peer offer a channel
    that is accepted, its confirmation makes [Open] return, and then each channel
    has the other's id as its remote id and is found under its own id in its
    session's table. *)
Theorem cbor_open_handshake `{CborLaws} s1 s2 rest1 e1 rest2 e2 b :
  cinv s1 → cinv s2 → w_script (cs_enc s1) = [] → w_script (cs_enc s2) = [] →
  ∃ l1 l2 p1 p2 s1' s2' s1'' c1 c2,
    cs_Open_request s1 = (Ret (Ok l1), s1') ∧ w_out (cs_enc s1') = w_out (cs_enc s1) ++ [p1] ∧
    cs_onePacket true (set_cs_dec (mkReader (p1 ++ rest2) e2) s2) = (Ret None, s2') ∧
    w_out (cs_enc s2') = w_out (cs_enc s2) ++ [p2] ∧
    cs_onePacket b (set_cs_dec (mkReader (p2 ++ rest1) e1) s1') = (Ret None, s1'') ∧
    cs_Open_wait l1 None s1'' = (Ret (Ok l1), s1'') ∧
    cs_heap s1'' !! l1 = Some c1 ∧ cs_heap s2' !! l2 = Some c2 ∧
    cc_remoteId c1 = cc_localId c2 ∧ cc_remoteId c2 = cc_localId c1 ∧
    cs_chans s1'' !! cc_localId c1 = Some l1 ∧ cs_chans s2' !! cc_localId c2 = Some l2.
Proof.
  intros Hi1 Hi2 Hw1 Hw2. pose proof (u32_range (cs_chanCounter s1 + 1)) as Hn1.
  pose proof (u32_range (cs_chanCounter s2 + 1)) as Hn2.
  set (n1 := u32 (cs_chanCounter s1 + 1)) in *. set (n2 := u32 (cs_chanCounter s2 + 1)) in *.
  eexists (cs_fresh s1), (cs_fresh s2), _, _, (opening s1), _, _, _, _. split_and!.
  - by apply Open_request_reliable.
  - reflexivity.
  - by apply (onePacket_open n1).
  - reflexivity.
  - apply (onePacket_confirm b n1 n2 rest1 e1 (opening s1) (cs_fresh s1)
      (set_cc_frames (mkHandoff false true None) (fresh_cchan n1))); try done.
    + apply lookup_insert_eq.
    + apply lookup_insert_eq.
  - unfold cs_Open_wait. erewrite bind_eq by apply cderef_eq, heap_put_cc. done.
  - apply heap_put_cc.
  - apply lookup_insert_eq.
  - done.
  - done.
  - apply lookup_insert_eq.
  - apply lookup_insert_eq.
Qed.

Definition demo_csession : csession := new_csession (mkWriter [] []) (mkReader [] io_EOF).

Lemma cbor_open_handshake_witness :
  ∃ l1 s1 s2 s3 p1 p2 c1,
    cs_Open_request demo_csession = (Ret (Ok l1), s1) ∧
    cs_onePacket true (set_cs_dec (mkReader (p1 ++ []) io_EOF) demo_csession) = (Ret None, s2) ∧
    cs_onePacket true (set_cs_dec (mkReader (p2 ++ []) io_EOF) s1) = (Ret None, s3) ∧
    cs_heap s3 !! l1 = Some c1.
Proof.
  destruct (cbor_open_handshake demo_csession demo_csession [] io_EOF [] io_EOF true)
    as (l1 & l2 & p1 & p2 & s1 & s2 & s3 & c1 & c2 & H1 & _ & H2 & _ & H3 & _ & H4 & _);
    [apply new_csession_inv|apply new_csession_inv|reflexivity|reflexivity|].
  exists l1, s1, s2, s3, p1, p2, c1. exact (conj H1 (conj H2 (conj H3 H4))).
Defined.

(** ** Streams *)

Definition data_frame (id : Z) (data : list byte) : Frame := mkFrame channelData id 0 data.

Lemma write_all `{Cbor} l c ds s :
  cs_heap s !! l = Some c → cc_sentEOF c = false → w_script (cs_enc s) = [] →
  mapM (cchan_Write l) ds s
  = (Ret (replicate (length ds) (0, None)),
     set_cs_enc (mkWriter (w_out (cs_enc s) ++ (cbor_Encode ∘ data_frame (cc_remoteId c) <$> ds)) []) s).
Proof.
  revert s. induction ds as [|d ds IH]; intros s Hl He Hw; cbn [mapM length replicate fmap list_fmap].
  { rewrite app_nil_r. destruct s as [[out script] ? ? ? ? ? ? ? ? ?]. cbn in Hw. by subst script. }
  erewrite bind_eq.
  2: { unfold cchan_Write. rewrite (bind_eq _ _ _ _ _ (cderef_eq _ _ _ Hl)), He.
    rewrite (bind_eq _ _ _ _ _ (cencode_reliable _ _ Hw)). reflexivity. }
  erewrite bind_eq; [|by apply IH]. cbn [cs_enc set_cs_enc w_out]. by rewrite <- app_assoc.
Qed.

(** The receiving channel with other pending bytes, behind the rest of the
    stream. *)
Definition received (l : cptr) (c : cchan) (b : buffer) (r : reader) (s : csession) : csession :=
  put_cc l (set_cc_pending b c) (set_cs_dec r s).

Lemma onePacket_data `{CborLaws} id d rest e s l c q :
  is_u32 id → len d < 2 ^ 32 → cs_chans s !! id = Some l → cs_heap s !! l = Some c →
  buffer_repr (cc_pending c) q →
  ∃ b, cs_onePacket false (set_cs_dec (mkReader (cbor_Encode (data_frame id d) ++ rest) e) s)
    = (Ret None, received l c b (mkReader rest e) s) ∧
    buffer_repr b (q ++ d) ∧ b_closed b = b_closed (cc_pending c).
Proof.
  intros Hid Hd Ht Hl Hq. exists (buffer_write d (cc_pending c)). split_and!; [|by apply buffer_write_repr|done].
  rewrite onePacket_decoded by (unfold frame_wf; cbn [fr_Type fr_ChannelID fr_SenderID fr_Data data_frame];
    by split_and!).
  change (fr_Type (data_frame id d) =? channelOpen) with false. cbv iota. unfold cs_dispatch.
  erewrite bind_eq by reflexivity. change (fr_ChannelID (data_frame id d)) with id.
  change (cs_chans (set_cs_dec (mkReader rest e) s)) with (cs_chans s). rewrite Ht.
  unfold cchan_handle. change (fr_Type (data_frame id d) =? channelData) with true. cbv iota.
  by erewrite bind_eq by by eapply on_cpending_eq.
Qed.

Lemma onePacket_eof `{CborLaws} id rest e s l c :
  is_u32 id → cs_chans s !! id = Some l → cs_heap s !! l = Some c →
  cs_onePacket false (set_cs_dec (mkReader (cbor_Encode (mkFrame channelEOF id 0 []) ++ rest) e) s)
    = (Ret None, received l c (buffer_eof (cc_pending c)) (mkReader rest e) s).
Proof.
  intros Hid Ht Hl. rewrite onePacket_decoded by (by apply control_wf).
  change (fr_Type (mkFrame channelEOF id 0 []) =? channelOpen) with false. cbv iota.
  unfold cs_dispatch. erewrite bind_eq by reflexivity.
  change (fr_ChannelID (mkFrame channelEOF id 0 [])) with id.
  change (cs_chans (set_cs_dec (mkReader rest e) s)) with (cs_chans s). rewrite Ht.
  unfold cchan_handle. change (fr_Type (mkFrame channelEOF id 0 [])) with channelEOF.
  change (channelEOF =? channelData) with false. change (channelEOF =? channelClose) with false.
  change (channelEOF =? channelEOF) with true. cbv iota zeta.
  by erewrite bind_eq by by eapply on_cpending_eq.
Qed.

Lemma receive_all `{CborLaws} id ds rest e s l c q :
  is_u32 id → Forall (λ d, len d < 2 ^ 32) ds → cs_chans s !! id = Some l →
  cs_heap s !! l = Some c → buffer_repr (cc_pending c) q →
  ∃ b, mapM (λ _, cs_onePacket false) (ds ++ [[]])
      (set_cs_dec (mkReader (mjoin (cbor_Encode ∘ data_frame id <$> ds)
         ++ cbor_Encode (mkFrame channelEOF id 0 []) ++ rest) e) s)
    = (Ret (replicate (S (length ds)) None), received l c b (mkReader rest e) s) ∧
    buffer_repr b (q ++ mjoin ds) ∧ b_closed b = true.
Proof.
  intros Hid Hds. revert s c q. induction Hds as [|d ds Hd Hds IH]; intros s c q Ht Hl Hq.
  - exists (buffer_eof (cc_pending c)). cbn [mapM app fmap list_fmap mjoin list_join].
    rewrite app_nil_r. split_and!; [|by apply buffer_eof_repr|done].
    erewrite bind_eq by by apply onePacket_eof. by erewrite bind_eq by reflexivity.
  - cbn [mapM app fmap list_fmap mjoin list_join length].
    rewrite <- app_assoc. unfold compose at 1.
    destruct (onePacket_data id d (mjoin (cbor_Encode ∘ data_frame id <$> ds)
      ++ cbor_Encode (mkFrame channelEOF id 0 []) ++ rest) e s l c q Hid Hd Ht Hl Hq)
      as (b & Hp & Hb & Hcl).
    rewrite (bind_eq _ _ _ _ _ Hp).
    destruct (IH (put_cc l (set_cc_pending b c) s) (set_cc_pending b c) (q ++ d) Ht (heap_put_cc _ _ _) Hb)
      as (b' & Hp' & Hb' & Hcl').
    exists b'. split_and!; [|by rewrite app_assoc|done].
    erewrite bind_eq; [|exact Hp']. unfold received, mret, M_ret. f_equal.
    apply (put_cc_twice l (set_cc_pending b c) _ (set_cs_dec (mkReader rest e) s)).
Qed.

(** Turns of the loop, counted by a list of any type. *)
Lemma mapM_length_eq {S A B C} (m : M S C) (l : list A) (k : list B) :
  length l = length k → mapM (λ _, m) l = mapM (λ _, m) k.
Proof.
  revert k. induction l as [|x l IH]; intros [|y k] Hlen; try done. cbn [mapM].
  by rewrite (IH k) by (by injection Hlen).
Qed.

(** C28. What is written arrives: on linked channels over a working transport,
    the bytes of any sequence of writes, followed by [CloseWrite], reach the
    other side's [Read] in order and without loss, then [io.EOF]; but every
    [Write] reports that it wrote zero bytes. *)
Theorem cbor_stream_arrives `{CborLaws} s1 s2 l1 l2 c1 c2 ds rest e :
  cs_heap s1 !! l1 = Some c1 → cc_sentEOF c1 = false → cc_sentClose c1 = false →
  w_script (cs_enc s1) = [] → is_u32 (cc_remoteId c1) → Forall (λ d, len d < 2 ^ 32) ds →
  cs_chans s2 !! cc_remoteId c1 = Some l2 → cs_heap s2 !! l2 = Some c2 →
  buffer_repr (cc_pending c2) [] →
  ∃ s1' s1'' ps s2',
    mapM (cchan_Write l1) ds s1 = (Ret (replicate (length ds) (0, None)), s1') ∧
    cchan_CloseWrite l1 s1' = (Ret None, s1'') ∧
    w_out (cs_enc s1'') = w_out (cs_enc s1) ++ ps ∧
    mapM (λ _, cs_onePacket false) ps (set_cs_dec (mkReader (mjoin ps ++ rest) e) s2)
      = (Ret (replicate (S (length ds)) None), s2') ∧
    ∀ n, (cchan_Read l2 n s2').1 = queue_read n true (mjoin ds).
Proof.
  intros Hl1 He Hc Hw Hid Hds Ht Hl2 Hq.
  destruct (receive_all (cc_remoteId c1) ds rest e s2 l2 c2 [] Hid Hds Ht Hl2 Hq) as (b & Hp & Hb & Hcl).
  eexists _, _, ((cbor_Encode ∘ data_frame (cc_remoteId c1) <$> ds)
    ++ [cbor_Encode (mkFrame channelEOF (cc_remoteId c1) 0 [])]), _. split_and!.
  - by apply write_all.
  - unfold cchan_CloseWrite. erewrite bind_eq by by apply cassign_eq.
    erewrite bind_eq by apply cderef_eq, heap_put_cc.
    rewrite (cchan_send_eq _ _ _ _ (heap_put_cc _ _ _)). cbn [cc_sentClose set_cc_sentEOF]. rewrite Hc.
    by apply cencode_reliable.
  - cbn. by rewrite <- app_assoc.
  - rewrite join_app. cbn [mjoin list_join]. rewrite app_nil_r, <- app_assoc.
    rewrite (mapM_length_eq _ _ (ds ++ [[]])) by (by rewrite !length_app, length_fmap).
    exact Hp.
  - intros n. destruct (buffer_Read_spec n b _ Hb) as (b' & Hr & _ & _). rewrite Hcl in Hr.
    unfold cchan_Read. erewrite on_cpending_eq; [|apply heap_put_cc|exact Hr]. done.
Qed.

(** A session with one linked channel, of id 1 on both sides. *)
Definition demo_linked : csession :=
  let c := set_cc_remoteId 1 (fresh_cchan 1) in
  mkCSession (mkWriter [] []) (mkReader [] io_EOF) 0 {[ 1 := 0%nat ]} 1 {[ 0%nat := c ]} 1%nat
    None None (make_chan 1).

Lemma cbor_stream_arrives_witness :
  ∃ s1 s2 ps s3,
    mapM (cchan_Write 0%nat) [[x01; x02]; [x03]] demo_linked = (Ret [(0, None); (0, None)], s1) ∧
    cchan_CloseWrite 0%nat s1 = (Ret None, s2) ∧
    mapM (λ _, cs_onePacket false) ps (set_cs_dec (mkReader (mjoin ps ++ []) io_EOF) demo_linked)
      = (Ret [None; None; None], s3) ∧
    (cchan_Read 0%nat 2 s3).1 = Ret ([x01; x02], None).
Proof.
  destruct (cbor_stream_arrives demo_linked demo_linked 0%nat 0%nat
    (set_cc_remoteId 1 (fresh_cchan 1)) (set_cc_remoteId 1 (fresh_cchan 1))
    [[x01; x02]; [x03]] [] io_EOF) as (s1 & s2 & ps & s3 & H1 & H2 & _ & H3 & H4);
    [reflexivity|reflexivity|reflexivity|reflexivity|by split|by repeat constructor
    |reflexivity|reflexivity|apply newBuffer_repr|].
  exists s1, s2, ps, s3. exact (conj H1 (conj H2 (conj H3 (H4 2%nat)))).
Defined.

(** ** A cancelled Open *)

(** C29. A confirmation nobody waits for stops the session for good: when the
    goroutine in [Open] has left, its context being done, and the peer's
    confirmation arrives, the loop waits on the channel's unbuffered [frames];
    from then on no call by any goroutine, not even closing the session or the
    channel, lets it go on, and [Wait] never returns. *)
Theorem cancelled_open_stalls `{CborLaws} s id l c f rest e :
  cgood (s, Running) → cs_err s = None → frame_wf f →
  cs_chans s !! id = Some l → cs_heap s !! l = Some c → ho_waiting (cc_frames c) = false →
  fr_Type f = channelOpenConfirm → fr_ChannelID f = id →
  ∃ s1, exec_cevent CPacket (set_cs_dec (mkReader (cbor_Encode f ++ rest) e) s, Running)
      = Ret (s1, Stuck) ∧
    ∀ evs, ∃ s2, exec_cevents evs (s1, Stuck) = Ret (s2, Stuck) ∧
      cs_Wait s2 = (Block, s2) ∧ (frames_send l f s2).1 ≠ Ret tt.
Proof.
  intros (Hi & Hq & _) He Hf Ht Hl Hw Hft Hfid. cbn [fst snd] in Hi, Hq.
  destruct (ci_table _ Hi _ _ Ht) as (c' & Hl' & _ & Hc). rewrite Hl in Hl'. injection Hl' as <-.
  set (s0 := set_cs_dec (mkReader rest e) s).
  set (c1 := set_cc_remoteId (fr_SenderID f) c).
  assert (cgood (put_cc l c1 s0, Stuck)) as Hg.
  { split_and!; [|by intros; apply Hq|done]. apply (cinv_put_same l c); try done.
    by apply (cinv_ext s). }
  exists (put_cc l c1 s0). split.
  - cbn [exec_cevent fst snd]. unfold exec_packet. cbn [cs_dec set_cs_dec].
    rewrite (cbor_roundtrip _ _ _ Hf), Hft.
    change (channelOpenConfirm =? channelOpen) with false. cbv iota. unfold loop_turn, cs_dispatch.
    erewrite bind_eq by reflexivity. rewrite Hfid.
    change (cs_chans (set_cs_dec (mkReader rest e) s0)) with (cs_chans s).
    change (cs_chans _) with (cs_chans s). rewrite Ht. unfold cchan_handle. rewrite Hft.
    change (channelOpenConfirm =? channelData) with false.
    change (channelOpenConfirm =? channelClose) with false.
    change (channelOpenConfirm =? channelEOF) with false.
    change (channelOpenConfirm =? channelOpenConfirm) with true. cbv iota zeta.
    erewrite bind_eq by by apply cassign_eq.
    erewrite bind_stop; [|rewrite (frames_send_eq _ _ _ _ (heap_put_cc _ _ _)) by done; cbn; by rewrite Hw|done].
    done.
  - intros evs. destruct (exec_stuck evs _ Hg) as (s2 & Hs2 & _ & _ & He2 & Hx).
    exists s2. split_and!; [done| |].
    + unfold cs_Wait. erewrite bind_eq by reflexivity. rewrite He2. cbn. by rewrite He.
    + destruct (Hx l c1 (heap_put_cc _ _ _)) as (c2 & Hl2 & Hw2).
      unfold frames_send. rewrite (bind_eq _ _ _ _ _ (cderef_eq _ _ _ Hl2)).
      destruct (ho_closed (cc_frames c2)); [done|].
      destruct (ho_waiting (cc_frames c2)); [|done]. specialize (Hw2 eq_refl). cbn in Hw2. congruence.
Qed.

(** The session of a caller whose [Open] was cancelled. *)
Lemma cancelled_open_stalls_witness :
  ∃ s s1, exec_cevents [COpen; COpenWait 0%nat (Some ctx_Canceled)] (demo_csession, Running)
      = Ret (s, Running) ∧
    exec_cevent CPacket (set_cs_dec (mkReader
      (cbor_Encode (mkFrame channelOpenConfirm 1 1 []) ++ []) io_EOF) s, Running) = Ret (s1, Stuck).
Proof.
  destruct (exec_cevents_good [COpen; COpenWait 0%nat (Some ctx_Canceled)] (demo_csession, Running)
    (new_csession_good _ _)) as ([s lp] & Hs & Hg).
  assert (lp = Running ∧ cs_err s = None ∧ cs_chans s !! 1 = Some 0%nat ∧
    ∃ c, cs_heap s !! 0%nat = Some c ∧ ho_waiting (cc_frames c) = false)
    as (-> & He & Ht & c & Hl & Hw).
  { vm_compute in Hs. injection Hs as <- <-. split_and!; [done|done|done|by eexists]. }
  destruct (cancelled_open_stalls s 1 0%nat c (mkFrame channelOpenConfirm 1 1 []) [] io_EOF Hg He)
    as (s1 & H1 & _); [by apply control_wf|exact Ht|exact Hl|exact Hw|reflexivity|reflexivity|].
  exists s, s1. exact (conj Hs H1).
Defined.
